(* ===== verification/_CoqProject ===== *)
-Q . S2P
Prelude.v
GoStrings.v
Wire.v
Messages.v
Codec.v
Chan.v
Resize.v
SessionLoop.v
SessionLists.v
SessionInv.v
SessionProps.v
PtyGather.v
FeedPool.v
Persist.v
Saver.v
Ghostty.v
Proc.v
GhosttyCalls.v
GhosttyMem.v
GoUrl.v
TermState.v
TermTest.v
ClientKeys.v
Namegen.v
Server.v
ServerProps.v
Interleave.v
DaemonWorld.v
ShellEnv.v
SessionLife.v
ClientLib.v
ClientAttach.v
Config.v
BuildInfo.v
Completion.v
Cli.v
CliProps.v
CompletionProps.v
EndToEnd.v
Pipeline.v
Drain.v
