(* ===== verification/Prelude.v ===== *)
(** * hauntty in Rocq

    hauntty is a terminal multiplexer in Go: a daemon keeps shell sessions running,
    each on a pseudo-terminal whose output is fed to a libghostty terminal, and
    clients attach to them over a Unix socket. This library translates its code
    and proves what makes it correct. This file is the root: it documents the
    library, and holds the machine integers, Go's errors, and the tactics and
    lemmas all files share.

    ** The parts of the program and their files

    - Wire protocol, [src/internal/protocol]. [Wire.v] is [encoding.go]: encoders
      over any [io.Writer], decoders over a byte stream, and the class of lawful
      codecs by which the structs of a message are read back. [Messages.v] is
      [messages*.go]: every struct with its [encode] and [decode]. [Codec.v] is
      [codec.go]: frames and the version handshake on a connection.
    - Sessions, [src/internal/daemon/session*.go]. [Chan.v] is Go's buffered
      channels, [Resize.v] the resize policies and the packed size. [SessionLoop.v]
      is [Session.run] with its select, the feed loop and the client writers as one
      state machine: a state record, an event per case of a select, [exec] one step.
      [SessionLists.v] holds the list lemmas of its clients, [SessionInv.v] the
      invariant and its preservation, [SessionProps.v] what follows for every
      reachable state. [PtyGather.v] is the read and batching stage of the pty,
      [FeedPool.v] the pool all sessions share the buffers of their feeds in.
    - Persistence, [persist.go]. [Persist.v]: the state file codec, and the file
      operations over a file system whose calls can fail and that can crash
      between any two of its states. [Saver.v]: the periodic saves.
    - Terminal, [src/libghostty] and [terminal_state.go]. [Ghostty.v]: keys,
      results, and the chunked [VTWrite]. [GhosttyCalls.v]: the calls that pass
      values through the memory of the wasm module, as programs of its operations
      (the style of [Proc.v]); [GhosttyMem.v] runs them against a module with a
      memory, an allocator, and objects that keep pointers to what they were given. [TermState.v]: key events, dump formats, screen
      dumps, the restore of a saved terminal and its working directory, over the
      class [GhosttyTerminal]; [GoUrl.v] is the parser of URLs it uses.
    - Daemon, [server*.go], [dead_state.go], [namegen.go]. [Proc.v] has the trees of
      atomic operations in which handlers are written: an operation is answered by
      the rest of the system, so a statement over all answers is one over all
      interleavings. [Namegen.v] is the choice of names. [Server.v] has every
      request handler, the connection loop, the watcher of a session, start and
      shutdown; [ServerProps.v] what they guarantee. [Interleave.v] runs any number
      of connections and watchers, and the shutdown, on one table of sessions.
      [DaemonWorld.v] answers the operations from a concrete map of sessions and
      state directory (that of [Persist.v]), and relates the handlers to an abstract
      daemon.
      [ShellEnv.v] is [shell.go] and the launch of a session's process;
      [SessionLife.v] the start and the closing of a session around it, and the
      methods by which handlers ask the run loop.
    - Client, [src/internal/client]. [ClientKeys.v]: key notation and the detach
      key. [ClientLib.v]: the calls, one request and one reply each.
      [ClientAttach.v]: the interactive attach and its goroutines.
    - Configuration, [src/internal/config]: [Config.v]; [src/version.go]:
      [BuildInfo.v].
    - Completion, [src/internal/completion]: [Completion.v], the scripts.
    - Command line, [src/cmd/ht]: [Cli.v] has every command, and [main] after the
      parsing of the arguments; [CliProps.v] what they do. [CompletionProps.v] puts
      scripts, helper, client and abstract daemon together.
    - [EndToEnd.v] joins the two ends of a connection: the bytes one end writes are
      the stream the other reads, as far as they arrived. [Pipeline.v] joins the read
      of the pty, the gather stage and the run loop by the channels between them, and
      these to a connection; [Drain.v] shows that these stages never stall.
    - Test support, [src/internal/termtest]: [TermTest.v] has the terminal the
      end-to-end tests drive, its snapshots and waits.
    - [GoStrings.v] has the functions of [strings], [path/filepath] and [strconv]
      the code uses.

    ** What the theorems show

    - Protocol: messages written are read back in order on any stream; a writer is
      all or nothing; a reader accepts nothing but frames of the message it returns
      ([ReadMessage_accepts]) and stays in step with them. That a decoder reads what
      its encoder writes is the class [Lawful] of [Wire.v], that it accepts nothing
      else the class [Exact].
    - Session: every connected client is sent the dump of exactly the earlier
      output and then every later chunk once, in order; the loop never panics or
      blocks; at exit clients get all output and the exit code; the terminal is fed
      the same stream, from buffers no two owners ever have; the size is what the
      policy gives for the clients.
    - Persistence: a save is atomic under crashes, saved states read back, and a crash
      at any point loses at most what came after the last periodic save. A session
      releases all it takes, wherever its start fails and when it is closed.
    - Daemon: one reply per request and nothing changed after it; a session that a
      request starts is either handed on to its watcher or closed; saved states are
      removed on demand only and a failed restore writes them back; a connection
      detaches exactly once; nothing is read before the handshake; a read-only
      client changes nothing. While connections, watchers and the shutdown interleave,
      the table of sessions is what the running goroutines answer for, one for each
      session; the shutdown closes what is in it once ([table_is_owned]).
    - Refinement: any sequence of requests and session ends, run by the handlers on
      a state directory, gives the live names, saved states and replies of an
      abstract daemon of a few lines ([daemon_refines]).
    - Terminal library: the working directory shown is the path the shell reported; a
      call gives back all module memory it takes, whatever the
      module answers, and leaves what others hold alone; what it reads and writes
      lies inside the memory, also for addresses near 2^32; and what an object has
      borrowed is there when a call reads it, given two rules the Go code leaves to its
      caller: a formatter is used while its terminal is open, a decoder decodes once.
    - Command line: starting the daemon leaves no process and no temporary file
      unaccounted for; the exit statuses of attach, and of wait by what each dump and
      each look at the clock gave; a build has the version its settings say.
    - Launch: the environment of a session's process names it, but for a zsh whose
      integration failed ([launch_environment]).
    - Test support: a snapshot is the dump the daemon makes of the same terminal, and a
      wait passes at the first screen that shows what it waits for
      ([snapshot_is_dump], [waits_see_the_screen]).
    - Completion: the names offered are those whose request the handlers carry out on
      a concrete daemon; a help text changes nothing of a script outside of quotes,
      unless a substitution in it is expanded in double quotes ([help_substituted]);
      the helper never fails.
    - From process to screen, over every stage and the bytes of the connection: what a
      client has been shown is a beginning of its screen and of what the process wrote
      after it, at exit all of it, and its exit status is that of the process
      ([output_so_far], [output_at_exit]; what the process wrote is
      [process_output], the bytes of the reads up to the first error, its own
      included). Without new requests the stages come to rest
      after a bounded number of steps, and before that one of them can always take a step:
      no signal to the run loop is lost ([session_never_stalls]). What is typed before
      the detach key, as the relation [detach_at] says where it is, reaches the session
      and nothing else does ([typed_reaches_session]); each reply the daemon can give to a call is one
      the call understands; every key the client parses is one the daemon encodes.

    ** Bounds and fuel

    Loops that only the environment ends (reading messages, accepting connections,
    reading the terminal, polling it until a deadline) take a fuel that counts its
    events: they return [None] only when that many events happened, so a finite
    behaviour needs fuel one more than its events. Loops over data have fuel computed from the data, with the
    lemma that it is enough ([VTWrite], [generateUniqueName]). Integers of a fixed
    width are [Z] with the wrap-around of [u8] to [i64] written out; lengths are
    mathematical integers, since a Go slice is shorter than 2^63. [ToLower] maps ASCII
    letters only; of the others, the Kelvin sign and the capital dotted I would
    become the ASCII letters k and i in Go.

    ** What is not modelled, and why

    - [src/libghostty/internal/wasmvt]: generated code, the compiled terminal; it
      enters as [GhosttyTerminal] and the answers of the module's operations.
    - Libraries: the parsing of arguments (kong), the decoding and encoding of TOML,
      regular expressions (but the one of a prompt in [TermTest.v]), the formatting of times and tables,
      and the check of the host and port of a URL in net/url. The settings the
      toolchain recorded in a build are a parameter of [BuildInfo.v].
    - The tests themselves.
    - Log lines, and the text of help messages.
    - The operating system: sockets, ptys, signals, terminals and files enter as
      operations with arbitrary answers (files in [Persist.v] are concrete).
    - The data races of fields read without a lock, and Go's memory model. *)
From Stdlib Require Import ZArith Lia Ascii.
From Stdlib Require Import Strings.Byte.
From Stdlib Require String.
From stdpp Require Import base gmap sets list strings numbers pretty.

Declare Scope go_scope.
Delimit Scope go_scope with go.
#[global] Open Scope Z_scope.

(** ** Bytes and fixed-width integers *)

Abbreviation bytes := (list Byte.byte).

Definition Z_of_byte (b : Byte.byte) : Z := Z.of_N (Byte.to_N b).

Definition byte_of_Z (z : Z) : Byte.byte :=
  match Byte.of_N (Z.to_N (z mod 256)) with
  | Some b => b
  | None => Byte.x00
  end.

(** Conversions of Go's unsigned types: [uintN(z)]. *)
Definition u8 (z : Z) : Z := z mod 2 ^ 8.
Definition u16 (z : Z) : Z := z mod 2 ^ 16.
Definition u32 (z : Z) : Z := z mod 2 ^ 32.
Definition u64 (z : Z) : Z := z mod 2 ^ 64.

(** Conversions of Go's signed types: two's complement. *)
Definition i32 (z : Z) : Z := (z + 2 ^ 31) mod 2 ^ 32 - 2 ^ 31.
Definition i64 (z : Z) : Z := (z + 2 ^ 63) mod 2 ^ 64 - 2 ^ 63.

Definition is_u8 (z : Z) : Prop := 0 <= z < 2 ^ 8.
Definition is_u16 (z : Z) : Prop := 0 <= z < 2 ^ 16.
Definition is_u32 (z : Z) : Prop := 0 <= z < 2 ^ 32.
Definition is_u64 (z : Z) : Prop := 0 <= z < 2 ^ 64.
Definition is_i32 (z : Z) : Prop := - 2 ^ 31 <= z < 2 ^ 31.
Definition is_i64 (z : Z) : Prop := - 2 ^ 63 <= z < 2 ^ 63.

(** [len(v)] of a slice and of a string. *)
Definition blen {A} (l : list A) : Z := Z.of_nat (length l).
Definition slen (s : string) : Z := Z.of_nat (String.length s).

(** [encoding/binary.BigEndian]: [n] bytes, most significant first. *)
Fixpoint be_encode (n : nat) (v : Z) : bytes :=
  match n with
  | O => []
  | S n' => byte_of_Z (v / 256 ^ Z.of_nat n') :: be_encode n' v
  end.

Fixpoint be_decode_acc (acc : Z) (bs : bytes) : Z :=
  match bs with
  | [] => acc
  | b :: bs' => be_decode_acc (acc * 256 + Z_of_byte b) bs'
  end.

Definition be_decode (bs : bytes) : Z := be_decode_acc 0 bs.

(** Go strings are byte strings. *)
Definition bytes_of_string (s : string) : bytes := String.list_byte_of_string s.
Definition string_of_bytes (bs : bytes) : string := String.string_of_list_byte bs.

(** ** Errors and fallible results *)

(** Go's [error] values: the sentinels the code compares with [errors.Is],
    [fmt.Errorf] without [%w], and [fmt.Errorf("prefix: %w", err)]. *)
Inductive error : Type :=
| EOF
| ErrUnexpectedEOF
| ErrClosed
| ErrNotExist
| Errorf (msg : string)
| Wrapf (prefix : string) (cause : error).

Inductive result (A : Type) : Type :=
| Ok (a : A)
| Err (e : error).
Arguments Ok {_} _.
Arguments Err {_} _.

(** [err.Error()]. *)
Fixpoint error_text (e : error) : string :=
  match e with
  | EOF => "EOF"
  | ErrUnexpectedEOF => "unexpected EOF"
  | ErrClosed => "use of closed network connection"
  | ErrNotExist => "file does not exist"
  | Errorf msg => msg
  | Wrapf p c => p +:+ ": " +:+ error_text c
  end.

(** [fmt.Sprintf("%02x", v)] for a byte [v]. *)
Definition hex_digit (z : Z) : string :=
  match String.get (Z.to_nat z) "0123456789abcdef" with
  | Some c => String c EmptyString
  | None => ""
  end.
Definition hex_byte (z : Z) : string := hex_digit (z / 16) +:+ hex_digit (z mod 16).

Definition is_ok {A} (r : result A) : bool :=
  match r with Ok _ => true | Err _ => false end.

#[export] Instance byte_eq_dec : EqDecision Byte.byte := Byte.byte_eq_dec.
#[export] Instance error_eq_dec : EqDecision error.
Proof. solve_decision. Defined.
#[export] Instance result_eq_dec {A} `{!EqDecision A} : EqDecision (result A).
Proof. solve_decision. Defined.

(** ** Proof automation

    [go_arith] holds rewrite rules for lengths and conversions, [go_db] the
    range facts that discharge side conditions. *)
Create HintDb go_db.
Create Rewrite HintDb go_arith.

Ltac unfold_widths :=
  unfold is_u8, is_u16, is_u32, is_u64, is_i32, is_i64,
    u8, u16, u32, u64, i32, i64, blen, slen in *.

Ltac width_lia :=
  unfold_widths;
  change (2 ^ 7) with 128 in *; change (2 ^ 8) with 256 in *;
  change (2 ^ 16) with 65536 in *; change (2 ^ 31) with 2147483648 in *;
  change (2 ^ 32) with 4294967296 in *;
  change (2 ^ 63) with 9223372036854775808 in *;
  change (2 ^ 64) with 18446744073709551616 in *;
  Z.to_euclidean_division_equations; lia.

(** Split a conjunction of hypotheses and the hypotheses themselves. *)
Ltac split_ands :=
  repeat match goal with
  | H : _ /\ _ |- _ => destruct H
  | |- _ /\ _ => split
  end.

(** Case on the scrutinee of the first [match] of a hypothesis or the goal,
    keeping the equation. *)
Ltac case_step :=
  match goal with
  | H : context [match ?x with _ => _ end] |- _ =>
      lazymatch x with
      | context [match _ with _ => _ end] => fail
      | _ => let E := fresh "E" in destruct x eqn:E; try discriminate; simplify_eq/=
      end
  | |- context [match ?x with _ => _ end] =>
      lazymatch x with
      | context [match _ with _ => _ end] => fail
      | _ => let E := fresh "E" in destruct x eqn:E; try discriminate; simplify_eq/=
      end
  end.

(** ** Bytes *)

Lemma Z_of_byte_range b : 0 <= Z_of_byte b < 256.
Proof.
  unfold Z_of_byte. pose proof (Byte.to_N_bounded b). lia.
Qed.

Lemma Z_of_byte_of_Z z : Z_of_byte (byte_of_Z z) = z mod 256.
Proof.
  unfold byte_of_Z. pose proof (Z.mod_pos_bound z 256 ltac:(lia)) as Hz.
  destruct (Byte.of_N (Z.to_N (z mod 256))) as [b|] eqn:E.
  - apply Byte.to_of_N in E. unfold Z_of_byte. rewrite E. lia.
  - apply Byte.of_N_None_iff in E. lia.
Qed.

Lemma Z_of_byte_inj b1 b2 : Z_of_byte b1 = Z_of_byte b2 -> b1 = b2.
Proof.
  unfold Z_of_byte. intros H%N2Z.inj.
  pose proof (Byte.of_to_N b1). pose proof (Byte.of_to_N b2). congruence.
Qed.

Lemma byte_of_Z_of_byte b : byte_of_Z (Z_of_byte b) = b.
Proof.
  apply Z_of_byte_inj. rewrite Z_of_byte_of_Z.
  apply Z.mod_small, Z_of_byte_range.
Qed.

Lemma byte_of_Z_mod z : byte_of_Z (z mod 256) = byte_of_Z z.
Proof. apply Z_of_byte_inj. rewrite !Z_of_byte_of_Z. by rewrite Z.mod_mod. Qed.

Lemma string_of_bytes_of_string s : string_of_bytes (bytes_of_string s) = s.
Proof. apply String.string_of_list_byte_of_string. Qed.

Lemma bytes_of_string_of_bytes bs : bytes_of_string (string_of_bytes bs) = bs.
Proof. apply String.list_byte_of_string_of_list_byte. Qed.

Lemma length_bytes_of_string s : length (bytes_of_string s) = String.length s.
Proof.
  unfold bytes_of_string, String.list_byte_of_string. rewrite length_map.
  induction s; simpl; congruence.
Qed.

Lemma length_string_of_bytes bs : String.length (string_of_bytes bs) = length bs.
Proof.
  rewrite <- length_bytes_of_string. by rewrite bytes_of_string_of_bytes.
Qed.

(** ** Big-endian encodings *)

Lemma length_be_encode n v : length (be_encode n v) = n.
Proof. revert v; induction n; intros; simpl; congruence. Qed.

Lemma be_decode_acc_encode n acc v :
  be_decode_acc acc (be_encode n v) = acc * 256 ^ Z.of_nat n + v mod 256 ^ Z.of_nat n.
Proof.
  revert acc. induction n as [|n IH]; intros acc.
  - simpl. rewrite Z.mod_1_r. lia.
  - cbn [be_encode be_decode_acc]. rewrite IH, Z_of_byte_of_Z.
    rewrite Nat2Z.inj_succ, Z.pow_succ_r by lia.
    set (p := 256 ^ Z.of_nat n).
    assert (0 < p) by (apply Z.pow_pos_nonneg; lia).
    rewrite (Z.mul_comm 256 p), Z.rem_mul_r by lia. nia.
Qed.

Lemma be_decode_encode n v : be_decode (be_encode n v) = v mod 256 ^ Z.of_nat n.
Proof. unfold be_decode. rewrite be_decode_acc_encode. lia. Qed.

Lemma be_decode_acc_app acc l1 l2 :
  be_decode_acc acc (l1 ++ l2) = be_decode_acc (be_decode_acc acc l1) l2.
Proof. revert acc; induction l1; intros; simpl; auto. Qed.

Lemma be_decode_acc_shift acc bs :
  be_decode_acc acc bs = acc * 256 ^ blen bs + be_decode bs.
Proof.
  unfold be_decode, blen. revert acc.
  induction bs as [|b bs IH]; intros acc; cbn [be_decode_acc length].
  - simpl. lia.
  - rewrite IH, (IH (0 * 256 + _)). rewrite Nat2Z.inj_succ, Z.pow_succ_r by lia. lia.
Qed.

Lemma be_decode_range bs : 0 <= be_decode bs < 256 ^ blen bs.
Proof.
  induction bs as [|b bs IH]; [done|].
  unfold be_decode. cbn [be_decode_acc]. rewrite be_decode_acc_shift.
  unfold blen in *. cbn [length].
  rewrite Nat2Z.inj_succ, Z.pow_succ_r by lia.
  pose proof (Z_of_byte_range b). nia.
Qed.

Lemma be_encode_add_mul n a v :
  be_encode n (a * 256 ^ Z.of_nat n + v) = be_encode n v.
Proof.
  revert a. induction n as [|n IH]; intros a; [done|].
  cbn [be_encode]. rewrite Nat2Z.inj_succ, Z.pow_succ_r by lia.
  assert (0 < 256 ^ Z.of_nat n) by (apply Z.pow_pos_nonneg; lia).
  replace (a * (256 * 256 ^ Z.of_nat n)) with (a * 256 * 256 ^ Z.of_nat n) by lia.
  f_equal; [|apply IH].
  rewrite Z.div_add_l by lia.
  rewrite <- (byte_of_Z_mod (a * 256 + _)), <- (byte_of_Z_mod (v / _)).
  f_equal. by rewrite Z.add_comm, Z.mod_add.
Qed.

Lemma be_encode_decode bs : be_encode (length bs) (be_decode bs) = bs.
Proof.
  induction bs as [|b bs IH]; [done|].
  cbn [length be_encode]. unfold be_decode. cbn [be_decode_acc].
  rewrite be_decode_acc_shift. pose proof (be_decode_range bs) as Hr.
  unfold blen in *. rewrite be_encode_add_mul, IH. f_equal.
  rewrite Z.div_add_l, Z.div_small, Z.add_0_r, Z.add_0_l by lia.
  apply byte_of_Z_of_byte.
Qed.

#[export] Hint Rewrite @length_app @length_be_encode length_bytes_of_string
  length_string_of_bytes @length_take @length_drop : go_arith.
#[export] Hint Resolve Z_of_byte_range : go_db.
