(* ===== verification/GoStrings.v ===== *)
(** * GoStrings: the parts of [strings] and [path/filepath] the code uses

    Go strings are byte strings; [path/filepath] is that of a Unix system. *)
From Stdlib Require Import ZArith Lia Ascii.
From stdpp Require Import base list strings numbers option.
From S2P Require Import Prelude.
#[local] Open Scope Z_scope.

(** ** Slicing *)

(** [s[n:]] and [s[:n]], with [n] at most the length. *)
Fixpoint str_drop (n : nat) (s : string) : string :=
  match n, s with
  | O, _ => s
  | S n', String _ s' => str_drop n' s'
  | S _, EmptyString => EmptyString
  end.

Fixpoint str_take (n : nat) (s : string) : string :=
  match n, s with
  | O, _ => EmptyString
  | S n', String c s' => String c (str_take n' s')
  | S _, EmptyString => EmptyString
  end.

(** ** [strings] *)

Definition HasPrefix (s pre : string) : bool := String.prefix pre s.

Definition HasSuffix (s suf : string) : bool :=
  (String.length suf <=? String.length s)%nat &&
  String.eqb (str_drop (String.length s - String.length suf) s) suf.

Definition TrimPrefix (s pre : string) : string :=
  if HasPrefix s pre then str_drop (String.length pre) s else s.

Definition TrimSuffix (s suf : string) : string :=
  if HasSuffix s suf then str_take (String.length s - String.length suf) s else s.

(** [strings.Cut(s, sep)] for a non-empty [sep]. *)
Fixpoint Cut (s sep : string) : string * string * bool :=
  match s with
  | EmptyString => (EmptyString, EmptyString, false)
  | String c s' =>
      if String.prefix sep s then (EmptyString, str_drop (String.length sep) s, true)
      else let '(before, after, found) := Cut s' sep in
           (String c before, after, found)
  end.

(** [strings.Contains(s, sub)] for a non-empty [sub]. *)
Fixpoint Contains (s sub : string) : bool :=
  match s with
  | EmptyString => false
  | String c s' => String.prefix sub s || Contains s' sub
  end.

(** [unicode.IsSpace] on ASCII. *)
Definition IsSpace (c : ascii) : bool :=
  let n := N_of_ascii c in ((9 <=? n) && (n <=? 13) || (n =? 32))%N.

(** [strings.Fields(s)]: the words between runs of spaces, of ASCII text. *)
Fixpoint fields_from (s word : string) : list string :=
  let flush := match word with EmptyString => [] | _ => [word] end in
  match s with
  | EmptyString => flush
  | String c s' =>
      if IsSpace c then flush ++ fields_from s' EmptyString
      else fields_from s' (word +:+ String c EmptyString)
  end.

Definition Fields (s : string) : list string := fields_from s EmptyString.

(** [strings.Join(elems, sep)]. *)
Fixpoint Join (elems : list string) (sep : string) : string :=
  match elems with
  | [] => EmptyString
  | [s] => s
  | s :: rest => s +:+ sep +:+ Join rest sep
  end.

(** [strings.Split(s, sep)] for a separator of one byte. *)
Fixpoint Split (s : string) (sep : ascii) : list string :=
  match s with
  | EmptyString => [EmptyString]
  | String c s' =>
      if Ascii.eqb c sep then EmptyString :: Split s' sep
      else match Split s' sep with
           | w :: ws => String c w :: ws
           | [] => [String c EmptyString]
           end
  end.

(** ASCII case mapping, as [strings.ToLower] does on ASCII input. *)
Definition ascii_lower (c : ascii) : ascii :=
  let n := N_of_ascii c in
  if ((65 <=? n) && (n <=? 90))%N then ascii_of_N (n + 32) else c.

Fixpoint ToLower (s : string) : string :=
  match s with
  | EmptyString => EmptyString
  | String c s' => String (ascii_lower c) (ToLower s')
  end.

(** ** [path/filepath] *)

(** One element of a path, on the reversed list of those kept. *)
Definition clean_step (rooted : bool) (stack : list string) (elem : string) : list string :=
  if String.eqb elem "" || String.eqb elem "." then stack
  else if String.eqb elem ".." then
    match stack with
    | top :: rest => if String.eqb top ".." then elem :: stack else rest
    | [] => if rooted then [] else [elem]
    end
  else elem :: stack.

Definition filepath_Clean (p : string) : string :=
  let rooted := HasPrefix p "/" in
  let elems := reverse (foldl (clean_step rooted) [] (Split p "/")) in
  let body := Join elems "/" in
  if rooted then "/" +:+ body else if String.eqb body "" then "." else body.

(** [filepath.Join]: empty elements are ignored. *)
Definition filepath_Join (elems : list string) : string :=
  match base.filter (fun s => negb (String.eqb s "")) elems with
  | [] => ""
  | es => filepath_Clean (Join es "/")
  end.

(** [filepath.Base]: the last element, of a path with trailing slashes removed. *)
Definition filepath_Base (p : string) : string :=
  if String.eqb p "" then "."
  else match base.filter (fun s => negb (String.eqb s "")) (Split p "/") with
       | [] => "/"
       | es => default "." (head (reverse es))
       end.

(** [filepath.Dir]: all but the last element, cleaned. *)
Definition filepath_Dir (p : string) : string :=
  filepath_Clean (Join (removelast (Split p "/")) "/" +:+
    (if (length (Split p "/") =? 1)%nat then "" else "/")).

(** ** Lemmas *)

Lemma str_app_cons c s t : String c s +:+ t = String c (s +:+ t).
Proof. done. Qed.

Lemma str_app_nil t : "" +:+ t = t.
Proof. done. Qed.

Lemma app_empty_r s : s +:+ "" = s.
Proof. induction s as [|c s IH]; [done|]. by rewrite str_app_cons, IH. Qed.

Lemma str_app_assoc (a b c : string) : a +:+ b +:+ c = (a +:+ b) +:+ c.
Proof. induction a as [|x a IH]; [done|]. by rewrite !str_app_cons, IH. Qed.

Lemma length_str_app a b : String.length (a +:+ b) = (String.length a + String.length b)%nat.
Proof. induction a as [|x a IH]; [done|]. rewrite str_app_cons. cbn. by rewrite IH. Qed.

Lemma str_drop_app a b : str_drop (String.length a) (a +:+ b) = b.
Proof. induction a as [|x a IH]; [by destruct b|]. done. Qed.

Lemma str_take_app a b : str_take (String.length a) (a +:+ b) = a.
Proof. induction a as [|x a IH]; [by destruct b|]. rewrite str_app_cons. cbn. by rewrite IH. Qed.

Lemma str_take_drop n s : str_take n s +:+ str_drop n s = s.
Proof. revert n. induction s as [|c s IH]; intros [|n]; cbn; [done..|]. by rewrite str_app_cons, IH. Qed.

Lemma length_str_take n s : (n <= String.length s)%nat -> String.length (str_take n s) = n.
Proof.
  revert n. induction s as [|c s IH]; intros [|n]; cbn; intros; try done; [lia|].
  rewrite IH; lia.
Qed.

Lemma prefix_cons c pre d s :
  String.prefix (String c pre) (String d s) = if ascii_dec c d then String.prefix pre s else false.
Proof. done. Qed.

Lemma HasPrefix_spec s pre : HasPrefix s pre = true <-> exists rest, s = pre +:+ rest.
Proof.
  unfold HasPrefix. revert s. induction pre as [|c pre IH]; intros s.
  - split; [by exists s | by destruct s].
  - destruct s as [|d s]; [split; [done | by intros (? & ?)]|]. rewrite prefix_cons.
    destruct (ascii_dec c d) as [->|Hne].
    + rewrite IH. split; intros (r & Hr); exists r; rewrite ?str_app_cons in *; by simplify_eq.
    + split; [done|]. intros (r & Hr). rewrite str_app_cons in Hr. by simplify_eq.
Qed.

Lemma HasPrefix_app a b : HasPrefix (a +:+ b) a = true.
Proof. apply HasPrefix_spec. by exists b. Qed.

Lemma HasSuffix_app a b : HasSuffix (a +:+ b) b = true.
Proof.
  unfold HasSuffix. rewrite length_str_app.
  replace (String.length a + String.length b - String.length b)%nat
    with (String.length a) by lia.
  rewrite str_drop_app, String.eqb_refl, andb_true_r. apply Nat.leb_le. lia.
Qed.

Lemma TrimSuffix_app a b : TrimSuffix (a +:+ b) b = a.
Proof.
  unfold TrimSuffix. rewrite HasSuffix_app, length_str_app.
  replace (String.length a + String.length b - String.length b)%nat
    with (String.length a) by lia.
  apply str_take_app.
Qed.

Lemma HasSuffix_spec s suf :
  HasSuffix s suf = true -> s = TrimSuffix s suf +:+ suf.
Proof.
  intros H. unfold TrimSuffix. rewrite H. unfold HasSuffix in H.
  apply andb_true_iff in H as [_ H%String.eqb_eq]. 
  pose proof (str_take_drop (String.length s - String.length suf) s) as E. by rewrite H in E.
Qed.

Lemma str_app_inj_l a b c : a +:+ b = a +:+ c -> b = c.
Proof. induction a as [|x a IH]; [done|]. rewrite !str_app_cons. intros [= ?]. auto. Qed.

Lemma str_app_inj_r a b c : a +:+ c = b +:+ c -> a = b.
Proof. intros H. rewrite <- (TrimSuffix_app a c), H. apply TrimSuffix_app. Qed.

Lemma TrimPrefix_app a b : TrimPrefix (a +:+ b) a = b.
Proof. unfold TrimPrefix. by rewrite HasPrefix_app, str_drop_app. Qed.

(** No byte of the string is [c]. *)
Fixpoint no_char (c : ascii) (s : string) : bool :=
  match s with
  | EmptyString => true
  | String d s' => negb (Ascii.eqb d c) && no_char c s'
  end.

Lemma no_char_app c a b : no_char c (a +:+ b) = no_char c a && no_char c b.
Proof.
  induction a as [|d a IH]; [done|]. rewrite str_app_cons. cbn. by rewrite IH, andb_assoc.
Qed.

Lemma Split_no_char s c : no_char c s = true -> Split s c = [s].
Proof.
  induction s as [|d s IH]; [done|]. cbn. intros [H1%negb_true_iff H2]%andb_true_iff.
  by rewrite H1, IH.
Qed.

Lemma Split_app s c t : no_char c t = true ->
  Split (s +:+ String c t) c = Split s c ++ [t].
Proof.
  intros Ht. induction s as [|d s IH]; rewrite ?str_app_nil, ?str_app_cons; cbn.
  - by rewrite Ascii.eqb_refl, Split_no_char.
  - destruct (Ascii.eqb d c) eqn:E; [by rewrite IH|]. rewrite IH.
    destruct (Split s c) as [|w ws] eqn:Es; [|done].
    destruct s as [|x s]; cbn in Es; [done|]. destruct (Ascii.eqb x c); [done|].
    by destruct (Split s c).
Qed.

(** ** [%q] *)

(** One byte of [strconv.Quote]. Exact on ASCII; the bytes of printable UTF-8
    text are kept as Go keeps them. *)
Definition quote_byte (c : ascii) : string :=
  let n := Z.of_N (N_of_ascii c) in
  let bs := String (ascii_of_N 92) EmptyString in
  if n =? 34 then bs +:+ String c EmptyString
  else if n =? 92 then bs +:+ bs
  else if n =? 7 then bs +:+ "a" else if n =? 8 then bs +:+ "b"
  else if n =? 12 then bs +:+ "f" else if n =? 10 then bs +:+ "n"
  else if n =? 13 then bs +:+ "r" else if n =? 9 then bs +:+ "t"
  else if n =? 11 then bs +:+ "v"
  else if (n <? 32) || (n =? 127) then bs +:+ "x" +:+ hex_byte n
  else String c EmptyString.

Fixpoint quote_body (s : string) : string :=
  match s with
  | EmptyString => EmptyString
  | String c s' => quote_byte c +:+ quote_body s'
  end.

Definition dquote : string := String (ascii_of_N 34) EmptyString.

Definition Quote (s : string) : string := dquote +:+ quote_body s +:+ dquote.
