(* ===== verification/Wire.v ===== *)
(** * Wire: the protocol's primitive encoder and decoder

    Models [internal/protocol/encoding.go]: [Encoder] over an [io.Writer],
    [Decoder] over an [io.Reader] read with [io.ReadFull]. *)
From S2P Require Import Prelude.
From stdpp Require Import base list strings numbers pretty.
From Stdlib Require Import ZArith Lia.
#[local] Open Scope Z_scope.

(** ** The two ends of a stream *)

(** An [io.Writer]: one [Write] call either takes all the bytes or returns an
    error, and leaves the writer in a new state. *)
Class Writer (W : Type) := write : W -> bytes -> W * option error.

(** [bytes.Buffer]: [Write] appends and never fails. *)
#[export] Instance Buffer : Writer bytes := fun buf p => (buf ++ p, None).

(** A connection whose transport takes at most [sk_room] more bytes and then
    fails. *)
Record Sink := mkSink { sk_out : bytes; sk_room : Z; sk_err : error }.

#[export] Instance Sink_Writer : Writer Sink := fun s p =>
  if blen p <=? sk_room s
  then (mkSink (sk_out s ++ p) (sk_room s - blen p) (sk_err s), None)
  else (mkSink (sk_out s ++ take (Z.to_nat (sk_room s)) p) 0 (sk_err s), Some (sk_err s)).

(** An [io.Reader]: the bytes still to come, and the error [Read] returns when
    they are used up ([io.EOF] for a stream the peer closed). *)
Record Reader := mkReader { rd_data : bytes; rd_err : error }.

(** [bytes.NewReader(b)]. *)
Definition NewReader (b : bytes) : Reader := mkReader b EOF.

(** [io.ReadFull(r, buf)] with [len(buf) = n]: exactly [n] bytes, or the error
    of the reader, [io.ErrUnexpectedEOF] when it ends after some bytes. *)
Definition ReadFull (n : nat) (r : Reader) : Reader * result bytes :=
  if (n <=? length (rd_data r))%nat
  then (mkReader (drop n (rd_data r)) (rd_err r), Ok (take n (rd_data r)))
  else (mkReader [] (rd_err r),
        Err (if decide (rd_err r = EOF) then
               match rd_data r with [] => EOF | _ => ErrUnexpectedEOF end
             else rd_err r)).

(** ** Monads of the two ends *)

(** A method [func (...) error] that writes. *)
Definition enc (W : Type) : Type := W -> W * option error.

(** [if err := p; err != nil { return err }; q]. *)
Definition enc_seq {W} (p q : enc W) : enc W := fun w =>
  let '(w', r) := p w in
  match r with
  | Some e => (w', Some e)
  | None => q w'
  end.

(** [return nil] and [return err]. *)
Definition enc_ok {W} : enc W := fun w => (w, None).
Definition enc_fail {W} (e : error) : enc W := fun w => (w, Some e).

(** A method [func (...) (A, error)] that reads. *)
Definition dec (A : Type) : Type := Reader -> Reader * result A.

Definition dec_ret {A} (a : A) : dec A := fun r => (r, Ok a).
Definition dec_fail {A} (e : error) : dec A := fun r => (r, Err e).

(** [if x, err = g; err != nil { return err }; k x]. *)
Definition dec_bind {A B} (g : dec A) (k : A -> dec B) : dec B := fun r =>
  let '(r', x) := g r in
  match x with
  | Ok a => k a r'
  | Err e => (r', Err e)
  end.

Declare Scope wire_scope.
Delimit Scope wire_scope with wire.
Notation "p ;;; q" := (enc_seq p q)
  (at level 100, q at level 200, right associativity) : wire_scope.
Notation "x <~ g ; k" := (dec_bind g (fun x => k))
  (at level 100, g at next level, k at level 200, right associativity) : wire_scope.
#[global] Open Scope wire_scope.

(** ** Encoder *)

Definition maxFrameSize : Z := Z.shiftl 16 20.

Section Encoder.
Context {W : Type} `{!Writer W}.

Definition put (p : bytes) : enc W := fun w => write w p.

Definition WriteU8 (v : Z) : enc W := put [byte_of_Z v].

Definition WriteU16 (v : Z) : enc W := put (be_encode 2 v).

Definition WriteU32 (v : Z) : enc W := put (be_encode 4 v).

Definition WriteI32 (v : Z) : enc W := put (be_encode 4 (u32 v)).

Definition WriteBool (v : bool) : enc W :=
  put [if v then byte_of_Z 1 else byte_of_Z 0].

Definition WriteString (v : string) : enc W :=
  if 65535 <? slen v then
    enc_fail (Errorf ("string too long: " +:+ pretty (slen v) +:+ " bytes"))
  else
    WriteU16 (u16 (slen v)) ;;;
    if slen v =? 0 then enc_ok else put (bytes_of_string v).

Fixpoint WriteStrings (v : list string) : enc W :=
  match v with
  | [] => enc_ok
  | s :: v' => WriteString s ;;; WriteStrings v'
  end.

Definition WriteStringSlice (v : list string) : enc W :=
  WriteU32 (u32 (blen v)) ;;; WriteStrings v.

Definition WriteBytes (v : bytes) : enc W :=
  WriteU32 (u32 (blen v)) ;;;
  if blen v =? 0 then enc_ok else put v.
End Encoder.

(** ** Decoder *)

Definition ReadU8 : dec Z :=
  b <~ ReadFull 1; dec_ret (be_decode b).

Definition ReadU16 : dec Z :=
  b <~ ReadFull 2; dec_ret (be_decode b).

Definition ReadU32 : dec Z :=
  b <~ ReadFull 4; dec_ret (be_decode b).

Definition ReadI32 : dec Z :=
  b <~ ReadFull 4; dec_ret (i32 (be_decode b)).

Definition ReadBool : dec bool :=
  b <~ ReadFull 1; dec_ret (negb (be_decode b =? 0)).

Definition ReadString : dec string :=
  n <~ ReadU16;
  if n =? 0 then dec_ret ""
  else b <~ ReadFull (Z.to_nat n); dec_ret (string_of_bytes b).

(** The [for i := range s] loops over a slice of [n] elements. *)
Fixpoint ReadN {A} (n : nat) (g : dec A) : dec (list A) :=
  match n with
  | O => dec_ret []
  | S n' => x <~ g; xs <~ ReadN n' g; dec_ret (x :: xs)
  end.

Definition ReadStringSlice : dec (list string) :=
  n <~ ReadU32;
  if maxFrameSize <? n then
    dec_fail (Errorf ("string slice count " +:+ pretty n +:+ " exceeds maximum"))
  else ReadN (Z.to_nat n) ReadString.

Definition ReadBytes : dec bytes :=
  n <~ ReadU32;
  if n =? 0 then dec_ret []
  else if maxFrameSize <? n then
    dec_fail (Errorf ("byte slice size " +:+ pretty n +:+ " exceeds maximum"))
  else ReadFull (Z.to_nat n).

(** ** Field codecs: what a writer emits, what a reader parses *)

(** [emits p bs]: written to a [bytes.Buffer], [p] appends [bs] and succeeds. *)
Definition emits (p : enc bytes) (bs : bytes) : Prop :=
  forall buf, p buf = (buf ++ bs, None).

(** [parses g bs a]: whatever follows on the stream, [g] reads exactly [bs] and
    returns [a]. *)
Definition parses {A} (g : dec A) (bs : bytes) (a : A) : Prop :=
  forall rest e, g (mkReader (bs ++ rest) e) = (mkReader rest e, Ok a).

(** What travels in one place of a frame: how it is written to the frame
    buffer, how it is read back, and the values the place can hold. *)
Record Codec (A : Type) := mkCodec {
  c_write : A -> enc bytes;
  c_read : dec A;
  c_ok : A -> Prop }.
Arguments mkCodec {_} _ _ _.
Arguments c_write {_} _ _.
Arguments c_read {_} _.
Arguments c_ok {_} _ _.

(** What a codec promises to the messages built from it: a value in range is
    written as a byte string that the reader takes back to the value, whatever
    follows; and the reader only returns values in range. *)
Class Lawful {A} (c : Codec A) := {
  codec_roundtrip : forall a, c_ok c a ->
    exists bs, emits (c_write c a) bs /\ parses (c_read c) bs a;
  codec_sound : forall r r' a, c_read c r = (r', Ok a) -> c_ok c a }.
#[export] Hint Mode Lawful - ! : typeclass_instances.

Definition string_ok (s : string) : Prop := slen s <= 65535.
Definition strings_ok (v : list string) : Prop :=
  blen v <= maxFrameSize /\ Forall string_ok v.
Definition bytes_ok (v : bytes) : Prop := blen v <= maxFrameSize.

Definition cU8 : Codec Z := mkCodec WriteU8 ReadU8 is_u8.
Definition cU16 : Codec Z := mkCodec WriteU16 ReadU16 is_u16.
Definition cU32 : Codec Z := mkCodec WriteU32 ReadU32 is_u32.
Definition cI32 : Codec Z := mkCodec WriteI32 ReadI32 is_i32.
Definition cBool : Codec bool := mkCodec WriteBool ReadBool (fun _ => True).
Definition cString : Codec string := mkCodec WriteString ReadString string_ok.
Definition cStringSlice : Codec (list string) :=
  mkCodec WriteStringSlice ReadStringSlice strings_ok.
Definition cBytes : Codec bytes := mkCodec WriteBytes ReadBytes bytes_ok.

Create HintDb wire.

(** *** Sequencing *)

Lemma emits_seq p q bs bs' :
  emits p bs -> emits q bs' -> emits (p ;;; q) (bs ++ bs').
Proof. intros Hp Hq buf. unfold enc_seq. rewrite Hp, Hq. by rewrite app_assoc. Qed.

Lemma emits_ok : emits enc_ok [].
Proof. intros buf. unfold enc_ok. by rewrite app_nil_r. Qed.

Lemma emits_put bs : emits (put bs) bs.
Proof. by intros buf. Qed.

Lemma parses_ret {A} (a : A) : parses (dec_ret a) [] a.
Proof. by intros rest e. Qed.

Lemma parses_bind {A B} (g : dec A) (k : A -> dec B) bs bs' a b :
  parses g bs a -> parses (k a) bs' b -> parses (x <~ g; k x) (bs ++ bs') b.
Proof.
  intros Hg Hk rest e. unfold dec_bind. rewrite <- app_assoc, Hg. apply Hk.
Qed.

Lemma parses_map {A B} (g : dec A) (f : A -> B) bs a :
  parses g bs a -> parses (x <~ g; dec_ret (f x)) bs (f a).
Proof. intros Hg rest e. unfold dec_bind. by rewrite Hg. Qed.

Lemma parses_ReadFull n bs : length bs = n -> parses (ReadFull n) bs bs.
Proof.
  intros <- rest e. unfold ReadFull. cbn [rd_data rd_err].
  rewrite (proj2 (Nat.leb_le _ _)) by (rewrite length_app; lia).
  by rewrite drop_app_length, take_app_length.
Qed.

Lemma dec_bind_inv {A B} (g : dec A) (k : A -> dec B) r r' b :
  dec_bind g k r = (r', Ok b) ->
  exists r1 a, g r = (r1, Ok a) /\ k a r1 = (r', Ok b).
Proof. unfold dec_bind. destruct (g r) as [r1 [a|e]]; intros H; [eauto|done]. Qed.

Lemma ReadFull_inv n r r' bs :
  ReadFull n r = (r', Ok bs) ->
  length bs = n /\ rd_data r = bs ++ rd_data r' /\ rd_err r' = rd_err r.
Proof.
  unfold ReadFull. destruct (n <=? length (rd_data r))%nat eqn:E; intros H; simplify_eq/=.
  apply Nat.leb_le in E. rewrite length_take, take_drop. split_and!; [lia|done|done].
Qed.

(** Invert successful reads of a composed decoder. *)
Ltac dec_inv :=
  repeat match goal with
  | H : dec_bind _ _ _ = (_, Ok _) |- _ =>
      let r := fresh "r" in let a := fresh "a" in let Ha := fresh "H" in
      apply dec_bind_inv in H as (r & a & Ha & H)
  | H : dec_ret _ _ = (_, Ok _) |- _ => unfold dec_ret in H; simplify_eq/=
  | H : dec_fail _ _ = (_, Ok _) |- _ => by unfold dec_fail in H
  end.

(** *** Primitive codecs *)

Lemma be_decode_range_n n bs : length bs = n -> 0 <= be_decode bs < 256 ^ Z.of_nat n.
Proof. intros <-. apply be_decode_range. Qed.

Lemma parses_be n v :
  0 <= v < 256 ^ Z.of_nat n ->
  parses (b <~ ReadFull n; dec_ret (be_decode b)) (be_encode n v) v.
Proof.
  intros Hv. rewrite <- (Z.mod_small v (256 ^ Z.of_nat n)) at 2 by done.
  rewrite <- be_decode_encode. apply parses_map, parses_ReadFull, length_be_encode.
Qed.

#[export] Instance cU8_lawful : Lawful cU8.
Proof.
  split.
  - intros v Hv. exists (be_encode 1 v). split; [|by apply parses_be].
    intros buf. cbn. unfold WriteU8, put. by rewrite Z.div_1_r.
  - cbn. unfold ReadU8. intros. dec_inv.
    apply ReadFull_inv in H0 as (Hl & _). by apply (be_decode_range_n 1).
Qed.

#[export] Instance cU16_lawful : Lawful cU16.
Proof.
  split.
  - intros v Hv. exists (be_encode 2 v). split; [apply emits_put | by apply parses_be].
  - cbn. unfold ReadU16. intros. dec_inv.
    apply ReadFull_inv in H0 as (Hl & _). by apply (be_decode_range_n 2).
Qed.

#[export] Instance cU32_lawful : Lawful cU32.
Proof.
  split.
  - intros v Hv. exists (be_encode 4 v). split; [apply emits_put | by apply parses_be].
  - cbn. unfold ReadU32. intros. dec_inv.
    apply ReadFull_inv in H0 as (Hl & _). by apply (be_decode_range_n 4).
Qed.

Lemma i32_u32 v : is_i32 v -> i32 (u32 v) = v.
Proof. intros H. width_lia. Qed.

Lemma i32_range v : is_i32 (i32 v).
Proof. width_lia. Qed.

#[export] Instance cI32_lawful : Lawful cI32.
Proof.
  split.
  - intros v Hv. exists (be_encode 4 (u32 v)). split; [apply emits_put|].
    rewrite <- (i32_u32 v Hv) at 2.
    change (c_read cI32) with (b <~ ReadFull 4; dec_ret (i32 (be_decode b))).
    replace (u32 v) with (be_decode (be_encode 4 (u32 v))) at 2
      by (rewrite be_decode_encode; apply Z.mod_small; width_lia).
    apply (parses_map (ReadFull 4) (fun b => i32 (be_decode b))).
    apply parses_ReadFull, length_be_encode.
  - cbn. unfold ReadI32. intros. dec_inv. apply i32_range.
Qed.

#[export] Instance cBool_lawful : Lawful cBool.
Proof.
  split; [|done].
  intros [] _; eexists; (split; [apply emits_put|]); by intros rest e.
Qed.

(** Bytes of the wire form of a string. *)
Lemma emits_string s :
  string_ok s -> emits (WriteString s) (be_encode 2 (slen s) ++ bytes_of_string s).
Proof.
  unfold string_ok. intros Hs. unfold WriteString.
  destruct (65535 <? slen s) eqn:E; [lia|].
  replace (u16 (slen s)) with (slen s) by width_lia.
  apply emits_seq; [apply emits_put|].
  destruct (slen s =? 0) eqn:E0; [|apply emits_put].
  destruct s; [apply emits_ok|]. unfold slen in E0. simpl in E0. lia.
Qed.

Lemma parses_string s :
  string_ok s -> parses ReadString (be_encode 2 (slen s) ++ bytes_of_string s) s.
Proof.
  unfold string_ok. intros Hs. unfold ReadString.
  apply parses_bind with (slen s); [apply parses_be; width_lia|].
  destruct (slen s =? 0) eqn:E0.
  - destruct s; [apply parses_ret|]. unfold slen in E0. simpl in E0. lia.
  - pose proof (parses_map (ReadFull (Z.to_nat (slen s))) string_of_bytes
      (bytes_of_string s) (bytes_of_string s)) as Hp.
    rewrite string_of_bytes_of_string in Hp. apply Hp, parses_ReadFull.
    rewrite length_bytes_of_string. unfold slen. lia.
Qed.

#[export] Instance cString_lawful : Lawful cString.
Proof.
  split.
  - intros s Hs. eexists. split; [by apply emits_string | by apply parses_string].
  - cbn. unfold ReadString. intros. dec_inv.
    apply (codec_sound (c := cU16)) in H0. cbn in H0.
    destruct (a0 =? 0) eqn:E0; dec_inv; [done|].
    apply ReadFull_inv in H1 as (Hl & _). unfold string_ok, slen.
    rewrite length_string_of_bytes. width_lia.
Qed.

(** Repetition of a lawful codec. *)
Lemma ReadN_length {A} n (g : dec A) r r' xs :
  ReadN n g r = (r', Ok xs) -> length xs = n.
Proof.
  revert r xs. induction n as [|n IH]; cbn; intros r xs H; dec_inv; [done|].
  cbn. f_equal. eauto.
Qed.

Lemma ReadN_sound {A} (c : Codec A) `{!Lawful c} n r r' xs :
  ReadN n (c_read c) r = (r', Ok xs) -> Forall (c_ok c) xs.
Proof.
  revert r xs. induction n as [|n IH]; cbn; intros r xs H; dec_inv; [done|].
  constructor; [by eapply codec_sound | eauto].
Qed.

(** A loop writing the elements one by one with a lawful codec is read back by
    [ReadN]. *)
Lemma ReadN_roundtrip {A} (c : Codec A) `{!Lawful c} (loop : list A -> enc bytes) xs :
  loop [] = enc_ok ->
  (forall x xs', loop (x :: xs') = (c_write c x ;;; loop xs')) ->
  Forall (c_ok c) xs ->
  exists bs, emits (loop xs) bs /\ parses (ReadN (length xs) (c_read c)) bs xs.
Proof.
  intros Hnil Hcons. induction 1 as [|x xs Hx _ (bs & Hw & Hr)].
  - exists []. rewrite Hnil. split; [apply emits_ok | apply parses_ret].
  - destruct (codec_roundtrip x Hx) as (b & Hwx & Hrx).
    exists (b ++ bs). rewrite Hcons. split; [by apply emits_seq|].
    cbn [length ReadN]. eapply parses_bind; [done|].
    by apply (parses_map _ (cons x)).
Qed.

Lemma maxFrameSize_u32 : maxFrameSize < 2 ^ 32.
Proof. done. Qed.

(** A counted slice: [WriteU32(len)], then the elements; read back under the
    [maxFrameSize] guard. *)
Lemma counted_roundtrip {A} (c : Codec A) `{!Lawful c} (loop : list A -> enc bytes)
    (msg : Z -> error) xs :
  loop [] = enc_ok ->
  (forall x xs', loop (x :: xs') = (c_write c x ;;; loop xs')) ->
  Forall (c_ok c) xs -> blen xs <= maxFrameSize ->
  exists bs,
    emits (WriteU32 (u32 (blen xs)) ;;; loop xs) bs /\
    parses (n <~ ReadU32;
            if maxFrameSize <? n then dec_fail (msg n)
            else ReadN (Z.to_nat n) (c_read c)) bs xs.
Proof.
  intros Hnil Hcons Hok Hlen. pose proof maxFrameSize_u32.
  destruct (ReadN_roundtrip c loop xs Hnil Hcons Hok) as (bs & Hw & Hr).
  exists (be_encode 4 (u32 (blen xs)) ++ bs). split.
  - apply emits_seq; [apply emits_put | done].
  - replace (u32 (blen xs)) with (blen xs) by (unfold u32; rewrite Z.mod_small; unfold blen in *; lia).
    apply parses_bind with (blen xs); [apply parses_be; unfold blen in *; lia|].
    destruct (maxFrameSize <? blen xs) eqn:E; [lia|].
    unfold blen. by rewrite Nat2Z.id.
Qed.

Lemma counted_sound {A} (c : Codec A) `{!Lawful c} (msg : Z -> error) r r' xs :
  (n <~ ReadU32;
   if maxFrameSize <? n then dec_fail (msg n)
   else ReadN (Z.to_nat n) (c_read c)) r = (r', Ok xs) ->
  blen xs <= maxFrameSize /\ Forall (c_ok c) xs.
Proof.
  intros. dec_inv. apply (codec_sound (c := cU32)) in H0.
  destruct (maxFrameSize <? a) eqn:E; dec_inv.
  split; [|by eapply ReadN_sound].
  apply ReadN_length in H. unfold blen. cbn in H0. width_lia.
Qed.

#[export] Instance cStringSlice_lawful : Lawful cStringSlice.
Proof.
  split.
  - intros v [Hlen Hok].
    by apply (counted_roundtrip cString WriteStrings
      (fun n => Errorf ("string slice count " +:+ pretty n +:+ " exceeds maximum"))).
  - intros r r' v H.
    by apply (counted_sound cString
      (fun n => Errorf ("string slice count " +:+ pretty n +:+ " exceeds maximum"))) in H.
Qed.

#[export] Instance cBytes_lawful : Lawful cBytes.
Proof.
  pose proof maxFrameSize_u32. split.
  - cbn. unfold bytes_ok. intros v Hv. exists (be_encode 4 (u32 (blen v)) ++ v).
    assert (u32 (blen v) = blen v) as Hu
      by (unfold u32; rewrite Z.mod_small; unfold blen in *; lia).
    rewrite Hu. unfold WriteBytes, ReadBytes. rewrite Hu. split.
    + apply emits_seq; [apply emits_put|].
      destruct v; [apply emits_ok | apply emits_put].
    + apply parses_bind with (blen v); [apply parses_be; unfold blen in *; lia|].
      destruct (blen v =? 0) eqn:E0.
      { destruct v; [apply parses_ret | unfold blen in E0; simpl in E0; lia]. }
      destruct (maxFrameSize <? blen v) eqn:E; [lia|].
      apply parses_ReadFull. unfold blen. lia.
  - cbn. unfold ReadBytes, bytes_ok. intros. dec_inv.
    apply (codec_sound (c := cU32)) in H1. cbn in H1.
    destruct (a0 =? 0) eqn:E0; dec_inv; [done|].
    destruct (maxFrameSize <? a0) eqn:E; dec_inv.
    apply ReadFull_inv in H0 as (Hl & _). unfold blen. width_lia.
Qed.

(** *** What a successful read took *)

(** Read bytes and written bytes of one value: the same, except that any byte that is
    not zero reads as a true boolean, and true is written as 1. *)
Definition reads_as (x y : Byte.byte) : Prop := x = y \/ (x <> Byte.x00 /\ y = Byte.x01).

(** From [r] to [r'] the stream lost what [p] writes, and nothing else. *)
Definition accounts (p : enc bytes) (r r' : Reader) : Prop :=
  exists raw bs, rd_data r = raw ++ rd_data r' /\ rd_err r' = rd_err r /\
    emits p bs /\ Forall2 reads_as raw bs.

(** A codec whose reader takes from the stream what its writer writes for the value. *)
Class Exact {A} (c : Codec A) :=
  codec_exact : forall r r' a, c_read c r = (r', Ok a) -> accounts (c_write c a) r r'.
#[export] Hint Mode Exact - ! : typeclass_instances.

Lemma reads_as_refl bs : Forall2 reads_as bs bs.
Proof. induction bs; constructor; [by left|done]. Qed.

Lemma accounts_ok r : accounts enc_ok r r.
Proof. exists [], []. split_and!; [done..|apply emits_ok|constructor]. Qed.

Lemma accounts_seq p q r r1 r2 : accounts p r r1 -> accounts q r1 r2 -> accounts (p ;;; q) r r2.
Proof.
  intros (raw & bs & Hd & He & Hp & Ha) (raw' & bs' & Hd' & He' & Hq & Ha').
  exists (raw ++ raw'), (bs ++ bs'). split_and!; [by rewrite Hd, Hd', app_assoc|by rewrite He'|by apply emits_seq|].
  by apply Forall2_app.
Qed.

Lemma accounts_put n r r' bs : ReadFull n r = (r', Ok bs) -> accounts (put bs) r r'.
Proof.
  intros (_ & Hd & He)%ReadFull_inv. exists bs, bs. split_and!; [done..|apply emits_put|apply reads_as_refl].
Qed.

(** An unsigned integer of [n] bytes. *)
Lemma accounts_be n r r' bs :
  ReadFull n r = (r', Ok bs) -> accounts (put (be_encode n (be_decode bs))) r r'.
Proof.
  intros H. pose proof (ReadFull_inv _ _ _ _ H) as (<- & _). rewrite be_encode_decode. by eapply accounts_put.
Qed.

#[export] Instance cU8_exact : Exact cU8.
Proof.
  intros r r' v H. cbn in *. unfold ReadU8 in H. dec_inv. apply accounts_be in H0.
  unfold WriteU8. cbn [be_encode] in H0. by rewrite Z.div_1_r in H0.
Qed.

#[export] Instance cU16_exact : Exact cU16.
Proof. intros r r' v H. cbn in *. unfold ReadU16 in H. dec_inv. by apply accounts_be. Qed.

#[export] Instance cU32_exact : Exact cU32.
Proof. intros r r' v H. cbn in *. unfold ReadU32 in H. dec_inv. by apply accounts_be. Qed.

#[export] Instance cI32_exact : Exact cI32.
Proof.
  intros r r' v H. cbn in *. unfold ReadI32 in H. dec_inv. unfold WriteI32.
  pose proof (ReadFull_inv _ _ _ _ H0) as (Hl & _). pose proof (be_decode_range_n 4 _ Hl).
  replace (u32 (i32 (be_decode a))) with (be_decode a) by width_lia. by apply accounts_be.
Qed.

#[export] Instance cBool_exact : Exact cBool.
Proof.
  intros r r' v H. cbn in *. unfold ReadBool in H. dec_inv.
  pose proof (ReadFull_inv _ _ _ _ H0) as (Hl & Hd & He). destruct a as [|x [|]]; try done.
  exists [x], [if negb (be_decode [x] =? 0) then byte_of_Z 1 else byte_of_Z 0].
  split_and!; [done..|apply emits_put|]. constructor; [|constructor].
  destruct x; first [left; reflexivity|right; split; [discriminate|reflexivity]].
Qed.

(** A presence byte: any that is not zero. *)
Lemma accounts_flag r r' v : (v =? 0) = false -> ReadU8 r = (r', Ok v) -> accounts (WriteU8 1) r r'.
Proof.
  intros Hv H. unfold ReadU8 in H. dec_inv. pose proof (ReadFull_inv _ _ _ _ H0) as (Hl & Hd & He).
  destruct a as [|x [|]]; try done. exists [x], [byte_of_Z 1]. split_and!; [done..|apply emits_put|].
  constructor; [|constructor]. revert Hv. clear. destruct x; intros Hv;
    first [left; reflexivity|right; split; [discriminate|reflexivity]|discriminate Hv].
Qed.

(** A part of [n] bytes that is only read when there are any. *)
Lemma accounts_part n r r' bs :
  ReadFull n r = (r', Ok bs) -> accounts (if blen bs =? 0 then enc_ok else put bs) r r'.
Proof.
  intros H. destruct (blen bs =? 0) eqn:E; [|by eapply accounts_put].
  apply ReadFull_inv in H as (_ & Hd & He). destruct bs; [|by apply Z.eqb_eq in E].
  exists [], []. split_and!; [done..|apply emits_ok|constructor].
Qed.

#[export] Instance cString_exact : Exact cString.
Proof.
  intros r r' s H. pose proof (codec_sound (c := cString) _ _ _ H) as Hs. cbn in *. unfold ReadString in H. dec_inv.
  pose proof (codec_sound (c := cU16) _ _ _ H0) as Ha. apply (codec_exact (c := cU16)) in H0. cbn in *.
  unfold WriteString. unfold string_ok in Hs. destruct (65535 <? slen s) eqn:E; [lia|].
  destruct (a =? 0) eqn:E0; dec_inv.
  - apply Z.eqb_eq in E0. subst a. eapply accounts_seq; [exact H0|apply accounts_ok].
  - pose proof (ReadFull_inv _ _ _ _ H1) as (Hl & _). unfold slen in *. rewrite length_string_of_bytes in *.
    assert (u16 (Z.of_nat (length a0)) = a) as -> by width_lia.
    eapply accounts_seq; [exact H0|]. rewrite bytes_of_string_of_bytes. by eapply accounts_part.
Qed.

#[export] Instance cBytes_exact : Exact cBytes.
Proof.
  pose proof maxFrameSize_u32 as Hmax. intros r r' v H. cbn in *. unfold ReadBytes in H. dec_inv.
  pose proof (codec_sound (c := cU32) _ _ _ H0) as Ha. apply (codec_exact (c := cU32)) in H0. cbn in *.
  unfold WriteBytes. destruct (a =? 0) eqn:E0; dec_inv.
  - apply Z.eqb_eq in E0. subst a. eapply accounts_seq; [exact H0|apply accounts_ok].
  - destruct (maxFrameSize <? a); dec_inv. pose proof (ReadFull_inv _ _ _ _ H) as (Hl & _).
    assert (u32 (blen v) = a) as -> by (unfold blen; width_lia).
    eapply accounts_seq; [exact H0|by eapply accounts_part].
Qed.

(** A counted slice. *)
Lemma ReadN_exact {A} (c : Codec A) `{!Exact c} (loop : list A -> enc bytes) n r r' xs :
  loop [] = enc_ok -> (forall x xs', loop (x :: xs') = (c_write c x ;;; loop xs')) ->
  ReadN n (c_read c) r = (r', Ok xs) -> accounts (loop xs) r r'.
Proof.
  intros Hnil Hcons. revert r xs. induction n as [|n IH]; cbn; intros r xs H; dec_inv.
  - rewrite Hnil. apply accounts_ok.
  - rewrite Hcons. eapply accounts_seq; [by apply codec_exact|by apply IH].
Qed.

Lemma counted_exact {A} (c : Codec A) `{!Exact c} (loop : list A -> enc bytes) (msg : Z -> error) r r' xs :
  loop [] = enc_ok -> (forall x xs', loop (x :: xs') = (c_write c x ;;; loop xs')) ->
  (n <~ ReadU32;
   if maxFrameSize <? n then dec_fail (msg n)
   else ReadN (Z.to_nat n) (c_read c)) r = (r', Ok xs) ->
  accounts (WriteU32 (u32 (blen xs)) ;;; loop xs) r r'.
Proof.
  intros Hnil Hcons H. dec_inv. pose proof (codec_sound (c := cU32) _ _ _ H0) as Ha.
  apply (codec_exact (c := cU32)) in H0. cbn in *. destruct (maxFrameSize <? a); dec_inv.
  pose proof (ReadN_length _ _ _ _ _ H) as Hl. assert (u32 (blen xs) = a) as -> by (unfold blen; width_lia).
  eapply accounts_seq; [exact H0|by eapply ReadN_exact].
Qed.

#[export] Instance cStringSlice_exact : Exact cStringSlice.
Proof.
  intros r r' v H. by apply (counted_exact cString WriteStrings
    (fun n => Errorf ("string slice count " +:+ pretty n +:+ " exceeds maximum"))).
Qed.

(** *** Composing codecs field by field *)

(** The next field of a struct: [if err := e.WriteX(f); err != nil ...] against
    [if f, err = d.ReadX(); err != nil ...]. *)
Lemma field_roundtrip {A B} (c : Codec A) `{!Lawful c} a (p : enc bytes)
    (k : A -> dec B) b :
  c_ok c a ->
  (exists bs, emits p bs /\ parses (k a) bs b) ->
  exists bs, emits (c_write c a ;;; p) bs /\ parses (x <~ c_read c; k x) bs b.
Proof.
  intros Ha (bs & Hp & Hk). destruct (codec_roundtrip a Ha) as (ba & Hw & Hr).
  exists (ba ++ bs). split; [by apply emits_seq | by eapply parses_bind].
Qed.

(** The last field: its error is returned as it is. *)
Lemma last_field_roundtrip {A B} (c : Codec A) `{!Lawful c} a (f : A -> B) :
  c_ok c a ->
  exists bs, emits (c_write c a) bs /\ parses (x <~ c_read c; dec_ret (f x)) bs (f a).
Proof.
  intros Ha. destruct (codec_roundtrip a Ha) as (ba & Hw & Hr).
  exists ba. split; [done | by apply parses_map].
Qed.

Lemma empty_roundtrip {B} (b : B) :
  exists bs, emits enc_ok bs /\ parses (dec_ret b) bs b.
Proof. exists []. split; [apply emits_ok | apply parses_ret]. Qed.

(** [by_codec c]: the goal's first field is written and read by the codec [c]. *)
Ltac by_codec c :=
  first [ refine (last_field_roundtrip c _ _ _)
        | refine (field_roundtrip c _ _ _ _ _ _) ].
