(* ===== verification/Messages.v ===== *)
(** * Messages: the protocol's messages and their payload codecs

    Models [internal/protocol/messages.go], [messages_request.go],
    [messages_response.go] and [dump.go]: the struct of every message, its
    [Type], its [encode] and its [decode] method. *)
From S2P Require Import Prelude Wire.
From stdpp Require Import base list strings numbers pretty.
From Stdlib Require Import ZArith Lia.
#[local] Open Scope Z_scope.

(** ** Message types ([messages.go]) *)

Definition TypeAttach : Z := 1.
Definition TypeInput : Z := 2.
Definition TypeResize : Z := 3.
Definition TypeDetach : Z := 4.
Definition TypeList : Z := 5.
Definition TypeKill : Z := 6.
Definition TypeSend : Z := 7.
Definition TypeDump : Z := 8.
Definition TypePrune : Z := 9.
Definition TypeSendKey : Z := 10.
Definition TypeCreate : Z := 11.
Definition TypeStatus : Z := 12.
Definition TypeKick : Z := 13.
Definition TypeOK : Z := 128.
Definition TypeError : Z := 129.
Definition TypeOutput : Z := 130.
Definition TypeAttached : Z := 131.
Definition TypeSessions : Z := 132.
Definition TypeExited : Z := 133.
Definition TypeDumpResponse : Z := 134.
Definition TypePruneResponse : Z := 135.
Definition TypeClientsChanged : Z := 136.
Definition TypeStatusResponse : Z := 137.
Definition TypeCreated : Z := 138.

(** [SessionState] is a string type. *)
Definition SessionStateRunning : string := "running".
Definition SessionStateDead : string := "dead".

(** ** Structs shared by several messages ([messages.go]) *)

Record SessionClient := mkSessionClient {
  SessionClient_ClientID : string;
  SessionClient_ReadOnly : bool;
  SessionClient_Version : string }.

Record Session := mkSession {
  Session_Name : string;
  Session_State : string;
  Session_Cols : Z;
  Session_Rows : Z;
  Session_PID : Z;
  Session_CreatedAt : Z;
  Session_SavedAt : Z;
  Session_CWD : string;
  Session_Clients : list SessionClient }.

Record DaemonStatus := mkDaemonStatus {
  DaemonStatus_PID : Z;
  DaemonStatus_Uptime : Z;
  DaemonStatus_SocketPath : string;
  DaemonStatus_RunningCount : Z;
  DaemonStatus_DeadCount : Z;
  DaemonStatus_Version : string }.

Record SessionStatus := mkSessionStatus {
  SessionStatus_Name : string;
  SessionStatus_State : string;
  SessionStatus_Cols : Z;
  SessionStatus_Rows : Z;
  SessionStatus_PID : Z;
  SessionStatus_CWD : string;
  SessionStatus_Clients : list SessionClient }.

(** ** Structs of the messages *)

Record Create := mkCreate {
  Create_Name : string;
  Create_Command : list string;
  Create_Env : list string;
  Create_CWD : string;
  Create_Scrollback : Z;
  Create_Force : bool }.

Record Attach := mkAttach {
  Attach_Name : string;
  Attach_Command : list string;
  Attach_Env : list string;
  Attach_CWD : string;
  Attach_Cols : Z;
  Attach_Rows : Z;
  Attach_Xpixel : Z;
  Attach_Ypixel : Z;
  Attach_ReadOnly : bool;
  Attach_Restore : bool;
  Attach_Scrollback : Z }.

Record Input := mkInput {
  Input_Data : bytes }.

Record Resize := mkResize {
  Resize_Cols : Z;
  Resize_Rows : Z;
  Resize_Xpixel : Z;
  Resize_Ypixel : Z }.

Record Detach := mkDetach { }.

Record List := mkList {
  List_IncludeClients : bool }.

Record Kill := mkKill {
  Kill_Name : string }.

Record Send := mkSend {
  Send_Name : string;
  Send_Data : bytes }.

Record SendKey := mkSendKey {
  SendKey_Name : string;
  SendKey_Key : Z;
  SendKey_Mods : Z }.

Record Dump := mkDump {
  Dump_Name : string;
  Dump_Format : Z }.

Record Prune := mkPrune { }.

Record Kick := mkKick {
  Kick_Name : string;
  Kick_ClientID : string }.

Record Status := mkStatus {
  Status_Name : string }.

Record OK := mkOK { }.

Record Error := mkError {
  Error_Message : string }.

Record Output := mkOutput {
  Output_Data : bytes }.

Record Created := mkCreated {
  Created_Name : string;
  Created_PID : Z }.

Record Attached := mkAttached {
  Attached_Name : string;
  Attached_PID : Z;
  Attached_ClientID : string;
  Attached_Cols : Z;
  Attached_Rows : Z;
  Attached_ScreenDump : bytes;
  Attached_CursorRow : Z;
  Attached_CursorCol : Z;
  Attached_AltScreen : bool;
  Attached_Created : bool }.

Record Sessions := mkSessions {
  Sessions_Sessions : list Session }.

Record Exited := mkExited {
  Exited_ExitCode : Z }.

Record DumpResponse := mkDumpResponse {
  DumpResponse_Data : bytes }.

Record PruneResponse := mkPruneResponse {
  PruneResponse_Count : Z }.

Record ClientsChanged := mkClientsChanged {
  ClientsChanged_Count : Z;
  ClientsChanged_Cols : Z;
  ClientsChanged_Rows : Z }.

Record StatusResponse := mkStatusResponse {
  StatusResponse_Daemon : DaemonStatus;
  StatusResponse_Session : option SessionStatus }.

(** The [Message] interface: one case per implementation. *)
Inductive Message : Type :=
| MsgCreate (m : Create)
| MsgAttach (m : Attach)
| MsgInput (m : Input)
| MsgResize (m : Resize)
| MsgDetach (m : Detach)
| MsgList (m : List)
| MsgKill (m : Kill)
| MsgSend (m : Send)
| MsgSendKey (m : SendKey)
| MsgDump (m : Dump)
| MsgPrune (m : Prune)
| MsgKick (m : Kick)
| MsgStatus (m : Status)
| MsgOK (m : OK)
| MsgError (m : Error)
| MsgOutput (m : Output)
| MsgCreated (m : Created)
| MsgAttached (m : Attached)
| MsgSessions (m : Sessions)
| MsgExited (m : Exited)
| MsgDumpResponse (m : DumpResponse)
| MsgPruneResponse (m : PruneResponse)
| MsgClientsChanged (m : ClientsChanged)
| MsgStatusResponse (m : StatusResponse).

(** [msg.Type()]. *)
Definition Message_Type (msg : Message) : Z :=
  match msg with
  | MsgCreate _ => TypeCreate
  | MsgAttach _ => TypeAttach
  | MsgInput _ => TypeInput
  | MsgResize _ => TypeResize
  | MsgDetach _ => TypeDetach
  | MsgList _ => TypeList
  | MsgKill _ => TypeKill
  | MsgSend _ => TypeSend
  | MsgSendKey _ => TypeSendKey
  | MsgDump _ => TypeDump
  | MsgPrune _ => TypePrune
  | MsgKick _ => TypeKick
  | MsgStatus _ => TypeStatus
  | MsgOK _ => TypeOK
  | MsgError _ => TypeError
  | MsgOutput _ => TypeOutput
  | MsgCreated _ => TypeCreated
  | MsgAttached _ => TypeAttached
  | MsgSessions _ => TypeSessions
  | MsgExited _ => TypeExited
  | MsgDumpResponse _ => TypeDumpResponse
  | MsgPruneResponse _ => TypePruneResponse
  | MsgClientsChanged _ => TypeClientsChanged
  | MsgStatusResponse _ => TypeStatusResponse
  end.

(** ** Encoding *)

Section Encode.
Context {W : Type} `{!Writer W}.

(** One round of the loop of [encodeSessionClients]. *)
Definition SessionClient_encode (m : SessionClient) : enc W :=
  WriteString (SessionClient_ClientID m) ;;;
  WriteBool (SessionClient_ReadOnly m) ;;;
  WriteString (SessionClient_Version m).

Fixpoint SessionClients_loop (clients : list SessionClient) : enc W :=
  match clients with
  | [] => enc_ok
  | c :: clients' => SessionClient_encode c ;;; SessionClients_loop clients'
  end.

Definition encodeSessionClients (clients : list SessionClient) : enc W :=
  WriteU32 (u32 (blen clients)) ;;; SessionClients_loop clients.

(** One round of the loop of [Sessions.encode]. *)
Definition Session_encode (m : Session) : enc W :=
  WriteString (Session_Name m) ;;;
  WriteString (Session_State m) ;;;
  WriteU16 (Session_Cols m) ;;;
  WriteU16 (Session_Rows m) ;;;
  WriteU32 (Session_PID m) ;;;
  WriteU32 (Session_CreatedAt m) ;;;
  WriteU32 (Session_SavedAt m) ;;;
  WriteString (Session_CWD m) ;;;
  encodeSessionClients (Session_Clients m).

Fixpoint Sessions_loop (sessions : list Session) : enc W :=
  match sessions with
  | [] => enc_ok
  | s :: sessions' => Session_encode s ;;; Sessions_loop sessions'
  end.

(** The session part of [StatusResponse.encode]. *)
Definition SessionStatus_encode (m : SessionStatus) : enc W :=
  WriteString (SessionStatus_Name m) ;;;
  WriteString (SessionStatus_State m) ;;;
  WriteU16 (SessionStatus_Cols m) ;;;
  WriteU16 (SessionStatus_Rows m) ;;;
  WriteU32 (SessionStatus_PID m) ;;;
  WriteString (SessionStatus_CWD m) ;;;
  encodeSessionClients (SessionStatus_Clients m).

(** The daemon part of [StatusResponse.encode]. *)
Definition DaemonStatus_encode (m : DaemonStatus) : enc W :=
  WriteU32 (DaemonStatus_PID m) ;;;
  WriteU32 (DaemonStatus_Uptime m) ;;;
  WriteString (DaemonStatus_SocketPath m) ;;;
  WriteU32 (DaemonStatus_RunningCount m) ;;;
  WriteU32 (DaemonStatus_DeadCount m) ;;;
  WriteString (DaemonStatus_Version m).

Definition Create_encode (m : Create) : enc W :=
  WriteString (Create_Name m) ;;;
  WriteStringSlice (Create_Command m) ;;;
  WriteStringSlice (Create_Env m) ;;;
  WriteString (Create_CWD m) ;;;
  WriteU32 (Create_Scrollback m) ;;;
  WriteBool (Create_Force m).

Definition Attach_encode (m : Attach) : enc W :=
  WriteString (Attach_Name m) ;;;
  WriteStringSlice (Attach_Command m) ;;;
  WriteStringSlice (Attach_Env m) ;;;
  WriteString (Attach_CWD m) ;;;
  WriteU16 (Attach_Cols m) ;;;
  WriteU16 (Attach_Rows m) ;;;
  WriteU16 (Attach_Xpixel m) ;;;
  WriteU16 (Attach_Ypixel m) ;;;
  WriteBool (Attach_ReadOnly m) ;;;
  WriteBool (Attach_Restore m) ;;;
  WriteU32 (Attach_Scrollback m).

Definition Input_encode (m : Input) : enc W :=
  WriteBytes (Input_Data m).

Definition Resize_encode (m : Resize) : enc W :=
  WriteU16 (Resize_Cols m) ;;;
  WriteU16 (Resize_Rows m) ;;;
  WriteU16 (Resize_Xpixel m) ;;;
  WriteU16 (Resize_Ypixel m).

Definition Detach_encode (m : Detach) : enc W :=
  enc_ok.

Definition List_encode (m : List) : enc W :=
  WriteBool (List_IncludeClients m).

Definition Kill_encode (m : Kill) : enc W :=
  WriteString (Kill_Name m).

Definition Send_encode (m : Send) : enc W :=
  WriteString (Send_Name m) ;;;
  WriteBytes (Send_Data m).

Definition SendKey_encode (m : SendKey) : enc W :=
  WriteString (SendKey_Name m) ;;;
  WriteU32 (SendKey_Key m) ;;;
  WriteU32 (SendKey_Mods m).

Definition Dump_encode (m : Dump) : enc W :=
  WriteString (Dump_Name m) ;;;
  WriteU8 (Dump_Format m).

Definition Prune_encode (m : Prune) : enc W :=
  enc_ok.

Definition Kick_encode (m : Kick) : enc W :=
  WriteString (Kick_Name m) ;;;
  WriteString (Kick_ClientID m).

Definition Status_encode (m : Status) : enc W :=
  WriteString (Status_Name m).

Definition OK_encode (m : OK) : enc W :=
  enc_ok.

Definition Error_encode (m : Error) : enc W :=
  WriteString (Error_Message m).

Definition Output_encode (m : Output) : enc W :=
  WriteBytes (Output_Data m).

Definition Created_encode (m : Created) : enc W :=
  WriteString (Created_Name m) ;;;
  WriteU32 (Created_PID m).

Definition Attached_encode (m : Attached) : enc W :=
  WriteString (Attached_Name m) ;;;
  WriteU32 (Attached_PID m) ;;;
  WriteString (Attached_ClientID m) ;;;
  WriteU16 (Attached_Cols m) ;;;
  WriteU16 (Attached_Rows m) ;;;
  WriteBytes (Attached_ScreenDump m) ;;;
  WriteU32 (Attached_CursorRow m) ;;;
  WriteU32 (Attached_CursorCol m) ;;;
  WriteBool (Attached_AltScreen m) ;;;
  WriteBool (Attached_Created m).

Definition Sessions_encode (m : Sessions) : enc W :=
  WriteU32 (u32 (blen (Sessions_Sessions m))) ;;; Sessions_loop (Sessions_Sessions m).

Definition Exited_encode (m : Exited) : enc W :=
  WriteI32 (Exited_ExitCode m).

Definition DumpResponse_encode (m : DumpResponse) : enc W :=
  WriteBytes (DumpResponse_Data m).

Definition PruneResponse_encode (m : PruneResponse) : enc W :=
  WriteU32 (PruneResponse_Count m).

Definition ClientsChanged_encode (m : ClientsChanged) : enc W :=
  WriteU16 (ClientsChanged_Count m) ;;;
  WriteU16 (ClientsChanged_Cols m) ;;;
  WriteU16 (ClientsChanged_Rows m).

Definition StatusResponse_encode (m : StatusResponse) : enc W :=
  DaemonStatus_encode (StatusResponse_Daemon m) ;;;
  match StatusResponse_Session m with
  | None => WriteU8 0
  | Some s => WriteU8 1 ;;; SessionStatus_encode s
  end.

(** [msg.encode(enc)]: the method of the dynamic type. *)
Definition Message_encode (msg : Message) : enc W :=
  match msg with
  | MsgCreate m => Create_encode m
  | MsgAttach m => Attach_encode m
  | MsgInput m => Input_encode m
  | MsgResize m => Resize_encode m
  | MsgDetach m => Detach_encode m
  | MsgList m => List_encode m
  | MsgKill m => Kill_encode m
  | MsgSend m => Send_encode m
  | MsgSendKey m => SendKey_encode m
  | MsgDump m => Dump_encode m
  | MsgPrune m => Prune_encode m
  | MsgKick m => Kick_encode m
  | MsgStatus m => Status_encode m
  | MsgOK m => OK_encode m
  | MsgError m => Error_encode m
  | MsgOutput m => Output_encode m
  | MsgCreated m => Created_encode m
  | MsgAttached m => Attached_encode m
  | MsgSessions m => Sessions_encode m
  | MsgExited m => Exited_encode m
  | MsgDumpResponse m => DumpResponse_encode m
  | MsgPruneResponse m => PruneResponse_encode m
  | MsgClientsChanged m => ClientsChanged_encode m
  | MsgStatusResponse m => StatusResponse_encode m
  end.
End Encode.

(** ** Decoding *)

(** One round of the loop of [decodeSessionClients]. *)
Definition SessionClient_decode : dec SessionClient :=
  clientID' <~ ReadString;
  readOnly' <~ ReadBool;
  version' <~ ReadString;
  dec_ret (mkSessionClient clientID' readOnly' version').

Definition decodeSessionClients : dec (list SessionClient) :=
  count <~ ReadU32;
  if maxFrameSize <? count then
    dec_fail (Errorf ("client count " +:+ pretty count +:+ " exceeds maximum"))
  else ReadN (Z.to_nat count) SessionClient_decode.

(** One round of the loop of [Sessions.decode]. *)
Definition Session_decode : dec Session :=
  name' <~ ReadString;
  state' <~ ReadString;
  cols' <~ ReadU16;
  rows' <~ ReadU16;
  pID' <~ ReadU32;
  createdAt' <~ ReadU32;
  savedAt' <~ ReadU32;
  cWD' <~ ReadString;
  clients' <~ decodeSessionClients;
  dec_ret (mkSession name' state' cols' rows' pID' createdAt' savedAt' cWD' clients').

(** The session part of [StatusResponse.decode]. *)
Definition SessionStatus_decode : dec SessionStatus :=
  name' <~ ReadString;
  state' <~ ReadString;
  cols' <~ ReadU16;
  rows' <~ ReadU16;
  pID' <~ ReadU32;
  cWD' <~ ReadString;
  clients' <~ decodeSessionClients;
  dec_ret (mkSessionStatus name' state' cols' rows' pID' cWD' clients').

(** The daemon part of [StatusResponse.decode]. *)
Definition DaemonStatus_decode : dec DaemonStatus :=
  pID' <~ ReadU32;
  uptime' <~ ReadU32;
  socketPath' <~ ReadString;
  runningCount' <~ ReadU32;
  deadCount' <~ ReadU32;
  version' <~ ReadString;
  dec_ret (mkDaemonStatus pID' uptime' socketPath' runningCount' deadCount' version').

Definition Create_decode : dec Create :=
  name' <~ ReadString;
  command' <~ ReadStringSlice;
  env' <~ ReadStringSlice;
  cWD' <~ ReadString;
  scrollback' <~ ReadU32;
  force' <~ ReadBool;
  dec_ret (mkCreate name' command' env' cWD' scrollback' force').

Definition Attach_decode : dec Attach :=
  name' <~ ReadString;
  command' <~ ReadStringSlice;
  env' <~ ReadStringSlice;
  cWD' <~ ReadString;
  cols' <~ ReadU16;
  rows' <~ ReadU16;
  xpixel' <~ ReadU16;
  ypixel' <~ ReadU16;
  readOnly' <~ ReadBool;
  restore' <~ ReadBool;
  scrollback' <~ ReadU32;
  dec_ret (mkAttach name' command' env' cWD' cols' rows' xpixel' ypixel' readOnly' restore' scrollback').

Definition Input_decode : dec Input :=
  data' <~ ReadBytes;
  dec_ret (mkInput data').

Definition Resize_decode : dec Resize :=
  cols' <~ ReadU16;
  rows' <~ ReadU16;
  xpixel' <~ ReadU16;
  ypixel' <~ ReadU16;
  dec_ret (mkResize cols' rows' xpixel' ypixel').

Definition Detach_decode : dec Detach :=
  dec_ret mkDetach.

Definition List_decode : dec List :=
  includeClients' <~ ReadBool;
  dec_ret (mkList includeClients').

Definition Kill_decode : dec Kill :=
  name' <~ ReadString;
  dec_ret (mkKill name').

Definition Send_decode : dec Send :=
  name' <~ ReadString;
  data' <~ ReadBytes;
  dec_ret (mkSend name' data').

Definition SendKey_decode : dec SendKey :=
  name' <~ ReadString;
  key' <~ ReadU32;
  mods' <~ ReadU32;
  dec_ret (mkSendKey name' key' mods').

Definition Dump_decode : dec Dump :=
  name' <~ ReadString;
  format' <~ ReadU8;
  dec_ret (mkDump name' format').

Definition Prune_decode : dec Prune :=
  dec_ret mkPrune.

Definition Kick_decode : dec Kick :=
  name' <~ ReadString;
  clientID' <~ ReadString;
  dec_ret (mkKick name' clientID').

Definition Status_decode : dec Status :=
  name' <~ ReadString;
  dec_ret (mkStatus name').

Definition OK_decode : dec OK :=
  dec_ret mkOK.

Definition Error_decode : dec Error :=
  message' <~ ReadString;
  dec_ret (mkError message').

Definition Output_decode : dec Output :=
  data' <~ ReadBytes;
  dec_ret (mkOutput data').

Definition Created_decode : dec Created :=
  name' <~ ReadString;
  pID' <~ ReadU32;
  dec_ret (mkCreated name' pID').

Definition Attached_decode : dec Attached :=
  name' <~ ReadString;
  pID' <~ ReadU32;
  clientID' <~ ReadString;
  cols' <~ ReadU16;
  rows' <~ ReadU16;
  screenDump' <~ ReadBytes;
  cursorRow' <~ ReadU32;
  cursorCol' <~ ReadU32;
  altScreen' <~ ReadBool;
  created' <~ ReadBool;
  dec_ret (mkAttached name' pID' clientID' cols' rows' screenDump' cursorRow' cursorCol' altScreen' created').

Definition Sessions_decode : dec Sessions :=
  count <~ ReadU32;
  if maxFrameSize <? count then
    dec_fail (Errorf ("session count " +:+ pretty count +:+ " exceeds maximum"))
  else
    sessions' <~ ReadN (Z.to_nat count) Session_decode;
    dec_ret (mkSessions sessions').

Definition Exited_decode : dec Exited :=
  exitCode' <~ ReadI32;
  dec_ret (mkExited exitCode').

Definition DumpResponse_decode : dec DumpResponse :=
  data' <~ ReadBytes;
  dec_ret (mkDumpResponse data').

Definition PruneResponse_decode : dec PruneResponse :=
  count' <~ ReadU32;
  dec_ret (mkPruneResponse count').

Definition ClientsChanged_decode : dec ClientsChanged :=
  count' <~ ReadU16;
  cols' <~ ReadU16;
  rows' <~ ReadU16;
  dec_ret (mkClientsChanged count' cols' rows').

Definition StatusResponse_decode : dec StatusResponse :=
  daemon' <~ DaemonStatus_decode;
  flag <~ ReadU8;
  if flag =? 0 then dec_ret (mkStatusResponse daemon' None)
  else
    session' <~ SessionStatus_decode;
    dec_ret (mkStatusResponse daemon' (Some session')).

(** [msg.decode(dec)] on the message [newMessage] made: the method of the
    dynamic type fills in the fields. *)
Definition Message_decode (msg : Message) : dec Message :=
  match msg with
  | MsgCreate _ => m <~ Create_decode; dec_ret (MsgCreate m)
  | MsgAttach _ => m <~ Attach_decode; dec_ret (MsgAttach m)
  | MsgInput _ => m <~ Input_decode; dec_ret (MsgInput m)
  | MsgResize _ => m <~ Resize_decode; dec_ret (MsgResize m)
  | MsgDetach _ => m <~ Detach_decode; dec_ret (MsgDetach m)
  | MsgList _ => m <~ List_decode; dec_ret (MsgList m)
  | MsgKill _ => m <~ Kill_decode; dec_ret (MsgKill m)
  | MsgSend _ => m <~ Send_decode; dec_ret (MsgSend m)
  | MsgSendKey _ => m <~ SendKey_decode; dec_ret (MsgSendKey m)
  | MsgDump _ => m <~ Dump_decode; dec_ret (MsgDump m)
  | MsgPrune _ => m <~ Prune_decode; dec_ret (MsgPrune m)
  | MsgKick _ => m <~ Kick_decode; dec_ret (MsgKick m)
  | MsgStatus _ => m <~ Status_decode; dec_ret (MsgStatus m)
  | MsgOK _ => m <~ OK_decode; dec_ret (MsgOK m)
  | MsgError _ => m <~ Error_decode; dec_ret (MsgError m)
  | MsgOutput _ => m <~ Output_decode; dec_ret (MsgOutput m)
  | MsgCreated _ => m <~ Created_decode; dec_ret (MsgCreated m)
  | MsgAttached _ => m <~ Attached_decode; dec_ret (MsgAttached m)
  | MsgSessions _ => m <~ Sessions_decode; dec_ret (MsgSessions m)
  | MsgExited _ => m <~ Exited_decode; dec_ret (MsgExited m)
  | MsgDumpResponse _ => m <~ DumpResponse_decode; dec_ret (MsgDumpResponse m)
  | MsgPruneResponse _ => m <~ PruneResponse_decode; dec_ret (MsgPruneResponse m)
  | MsgClientsChanged _ => m <~ ClientsChanged_decode; dec_ret (MsgClientsChanged m)
  | MsgStatusResponse _ => m <~ StatusResponse_decode; dec_ret (MsgStatusResponse m)
  end.

(** [newMessage] ([codec.go]): the zero value of the type with that code. *)
Definition newMessage (raw : Z) : result Message :=
  if raw =? TypeAttach then Ok (MsgAttach (mkAttach "" [] [] "" 0 0 0 0 false false 0)) else
  if raw =? TypeInput then Ok (MsgInput (mkInput [])) else
  if raw =? TypeResize then Ok (MsgResize (mkResize 0 0 0 0)) else
  if raw =? TypeDetach then Ok (MsgDetach mkDetach) else
  if raw =? TypeList then Ok (MsgList (mkList false)) else
  if raw =? TypeKill then Ok (MsgKill (mkKill "")) else
  if raw =? TypeSend then Ok (MsgSend (mkSend "" [])) else
  if raw =? TypeDump then Ok (MsgDump (mkDump "" 0)) else
  if raw =? TypePrune then Ok (MsgPrune mkPrune) else
  if raw =? TypeSendKey then Ok (MsgSendKey (mkSendKey "" 0 0)) else
  if raw =? TypeCreate then Ok (MsgCreate (mkCreate "" [] [] "" 0 false)) else
  if raw =? TypeStatus then Ok (MsgStatus (mkStatus "")) else
  if raw =? TypeKick then Ok (MsgKick (mkKick "" "")) else
  if raw =? TypeOK then Ok (MsgOK mkOK) else
  if raw =? TypeError then Ok (MsgError (mkError "")) else
  if raw =? TypeOutput then Ok (MsgOutput (mkOutput [])) else
  if raw =? TypeAttached then Ok (MsgAttached (mkAttached "" 0 "" 0 0 [] 0 0 false false)) else
  if raw =? TypeSessions then Ok (MsgSessions (mkSessions [])) else
  if raw =? TypeExited then Ok (MsgExited (mkExited 0)) else
  if raw =? TypeDumpResponse then Ok (MsgDumpResponse (mkDumpResponse [])) else
  if raw =? TypePruneResponse then Ok (MsgPruneResponse (mkPruneResponse 0)) else
  if raw =? TypeClientsChanged then Ok (MsgClientsChanged (mkClientsChanged 0 0 0)) else
  if raw =? TypeStatusResponse then Ok (MsgStatusResponse (mkStatusResponse (mkDaemonStatus 0 0 "" 0 0 "") None)) else
  if raw =? TypeCreated then Ok (MsgCreated (mkCreated "" 0)) else
  Err (Errorf ("unknown message type: 0x" +:+ hex_byte raw)).

(** ** Values that survive the wire: every field in the range of its Go type
    and within the length its encoding can carry *)

Definition SessionClient_ok (m : SessionClient) : Prop :=
  string_ok (SessionClient_ClientID m) /\ string_ok (SessionClient_Version
  m).

Definition clients_ok (v : list SessionClient) : Prop :=
  blen v <= maxFrameSize /\ Forall SessionClient_ok v.

Definition Session_ok (m : Session) : Prop :=
  string_ok (Session_Name m) /\ string_ok (Session_State m) /\ is_u16
  (Session_Cols m) /\ is_u16 (Session_Rows m) /\ is_u32 (Session_PID m) /\
  is_u32 (Session_CreatedAt m) /\ is_u32 (Session_SavedAt m) /\ string_ok
  (Session_CWD m) /\ clients_ok (Session_Clients m).

Definition SessionStatus_ok (m : SessionStatus) : Prop :=
  string_ok (SessionStatus_Name m) /\ string_ok (SessionStatus_State m) /\
  is_u16 (SessionStatus_Cols m) /\ is_u16 (SessionStatus_Rows m) /\ is_u32
  (SessionStatus_PID m) /\ string_ok (SessionStatus_CWD m) /\ clients_ok
  (SessionStatus_Clients m).

Definition DaemonStatus_ok (m : DaemonStatus) : Prop :=
  is_u32 (DaemonStatus_PID m) /\ is_u32 (DaemonStatus_Uptime m) /\ string_ok
  (DaemonStatus_SocketPath m) /\ is_u32 (DaemonStatus_RunningCount m) /\
  is_u32 (DaemonStatus_DeadCount m) /\ string_ok (DaemonStatus_Version m).

Definition Create_ok (m : Create) : Prop :=
  string_ok (Create_Name m) /\ strings_ok (Create_Command m) /\ strings_ok
  (Create_Env m) /\ string_ok (Create_CWD m) /\ is_u32 (Create_Scrollback m).

Definition Attach_ok (m : Attach) : Prop :=
  string_ok (Attach_Name m) /\ strings_ok (Attach_Command m) /\ strings_ok
  (Attach_Env m) /\ string_ok (Attach_CWD m) /\ is_u16 (Attach_Cols m) /\
  is_u16 (Attach_Rows m) /\ is_u16 (Attach_Xpixel m) /\ is_u16
  (Attach_Ypixel m) /\ is_u32 (Attach_Scrollback m).

Definition Input_ok (m : Input) : Prop :=
  bytes_ok (Input_Data m).

Definition Resize_ok (m : Resize) : Prop :=
  is_u16 (Resize_Cols m) /\ is_u16 (Resize_Rows m) /\ is_u16 (Resize_Xpixel
  m) /\ is_u16 (Resize_Ypixel m).

Definition Detach_ok (m : Detach) : Prop :=
  True.

Definition List_ok (m : List) : Prop :=
  True.

Definition Kill_ok (m : Kill) : Prop :=
  string_ok (Kill_Name m).

Definition Send_ok (m : Send) : Prop :=
  string_ok (Send_Name m) /\ bytes_ok (Send_Data m).

Definition SendKey_ok (m : SendKey) : Prop :=
  string_ok (SendKey_Name m) /\ is_u32 (SendKey_Key m) /\ is_u32
  (SendKey_Mods m).

Definition Dump_ok (m : Dump) : Prop :=
  string_ok (Dump_Name m) /\ is_u8 (Dump_Format m).

Definition Prune_ok (m : Prune) : Prop :=
  True.

Definition Kick_ok (m : Kick) : Prop :=
  string_ok (Kick_Name m) /\ string_ok (Kick_ClientID m).

Definition Status_ok (m : Status) : Prop :=
  string_ok (Status_Name m).

Definition OK_ok (m : OK) : Prop :=
  True.

Definition Error_ok (m : Error) : Prop :=
  string_ok (Error_Message m).

Definition Output_ok (m : Output) : Prop :=
  bytes_ok (Output_Data m).

Definition Created_ok (m : Created) : Prop :=
  string_ok (Created_Name m) /\ is_u32 (Created_PID m).

Definition Attached_ok (m : Attached) : Prop :=
  string_ok (Attached_Name m) /\ is_u32 (Attached_PID m) /\ string_ok
  (Attached_ClientID m) /\ is_u16 (Attached_Cols m) /\ is_u16 (Attached_Rows
  m) /\ bytes_ok (Attached_ScreenDump m) /\ is_u32 (Attached_CursorRow m) /\
  is_u32 (Attached_CursorCol m).

Definition Sessions_ok (m : Sessions) : Prop :=
  blen (Sessions_Sessions m) <= maxFrameSize /\ Forall Session_ok (Sessions_Sessions m).

Definition Exited_ok (m : Exited) : Prop :=
  is_i32 (Exited_ExitCode m).

Definition DumpResponse_ok (m : DumpResponse) : Prop :=
  bytes_ok (DumpResponse_Data m).

Definition PruneResponse_ok (m : PruneResponse) : Prop :=
  is_u32 (PruneResponse_Count m).

Definition ClientsChanged_ok (m : ClientsChanged) : Prop :=
  is_u16 (ClientsChanged_Count m) /\ is_u16 (ClientsChanged_Cols m) /\
  is_u16 (ClientsChanged_Rows m).

Definition StatusResponse_ok (m : StatusResponse) : Prop :=
  DaemonStatus_ok (StatusResponse_Daemon m) /\
  match StatusResponse_Session m with
  | None => True
  | Some s => SessionStatus_ok s
  end.

Definition Message_ok (msg : Message) : Prop :=
  match msg with
  | MsgCreate m => Create_ok m
  | MsgAttach m => Attach_ok m
  | MsgInput m => Input_ok m
  | MsgResize m => Resize_ok m
  | MsgDetach m => Detach_ok m
  | MsgList m => List_ok m
  | MsgKill m => Kill_ok m
  | MsgSend m => Send_ok m
  | MsgSendKey m => SendKey_ok m
  | MsgDump m => Dump_ok m
  | MsgPrune m => Prune_ok m
  | MsgKick m => Kick_ok m
  | MsgStatus m => Status_ok m
  | MsgOK m => OK_ok m
  | MsgError m => Error_ok m
  | MsgOutput m => Output_ok m
  | MsgCreated m => Created_ok m
  | MsgAttached m => Attached_ok m
  | MsgSessions m => Sessions_ok m
  | MsgExited m => Exited_ok m
  | MsgDumpResponse m => DumpResponse_ok m
  | MsgPruneResponse m => PruneResponse_ok m
  | MsgClientsChanged m => ClientsChanged_ok m
  | MsgStatusResponse m => StatusResponse_ok m
  end.

(** ** The codecs *)

Definition cSessionClient : Codec SessionClient :=
  mkCodec SessionClient_encode SessionClient_decode SessionClient_ok.
Definition cSessionClients : Codec (list SessionClient) :=
  mkCodec encodeSessionClients decodeSessionClients clients_ok.
Definition cSession : Codec Session :=
  mkCodec Session_encode Session_decode Session_ok.
Definition cSessionStatus : Codec SessionStatus :=
  mkCodec SessionStatus_encode SessionStatus_decode SessionStatus_ok.
Definition cDaemonStatus : Codec DaemonStatus :=
  mkCodec DaemonStatus_encode DaemonStatus_decode DaemonStatus_ok.
Definition cCreate : Codec Create :=
  mkCodec Create_encode Create_decode Create_ok.
Definition cAttach : Codec Attach :=
  mkCodec Attach_encode Attach_decode Attach_ok.
Definition cInput : Codec Input :=
  mkCodec Input_encode Input_decode Input_ok.
Definition cResize : Codec Resize :=
  mkCodec Resize_encode Resize_decode Resize_ok.
Definition cDetach : Codec Detach :=
  mkCodec Detach_encode Detach_decode Detach_ok.
Definition cList : Codec List :=
  mkCodec List_encode List_decode List_ok.
Definition cKill : Codec Kill :=
  mkCodec Kill_encode Kill_decode Kill_ok.
Definition cSend : Codec Send :=
  mkCodec Send_encode Send_decode Send_ok.
Definition cSendKey : Codec SendKey :=
  mkCodec SendKey_encode SendKey_decode SendKey_ok.
Definition cDump : Codec Dump :=
  mkCodec Dump_encode Dump_decode Dump_ok.
Definition cPrune : Codec Prune :=
  mkCodec Prune_encode Prune_decode Prune_ok.
Definition cKick : Codec Kick :=
  mkCodec Kick_encode Kick_decode Kick_ok.
Definition cStatus : Codec Status :=
  mkCodec Status_encode Status_decode Status_ok.
Definition cOK : Codec OK :=
  mkCodec OK_encode OK_decode OK_ok.
Definition cError : Codec Error :=
  mkCodec Error_encode Error_decode Error_ok.
Definition cOutput : Codec Output :=
  mkCodec Output_encode Output_decode Output_ok.
Definition cCreated : Codec Created :=
  mkCodec Created_encode Created_decode Created_ok.
Definition cAttached : Codec Attached :=
  mkCodec Attached_encode Attached_decode Attached_ok.
Definition cSessions : Codec Sessions :=
  mkCodec Sessions_encode Sessions_decode Sessions_ok.
Definition cExited : Codec Exited :=
  mkCodec Exited_encode Exited_decode Exited_ok.
Definition cDumpResponse : Codec DumpResponse :=
  mkCodec DumpResponse_encode DumpResponse_decode DumpResponse_ok.
Definition cPruneResponse : Codec PruneResponse :=
  mkCodec PruneResponse_encode PruneResponse_decode PruneResponse_ok.
Definition cClientsChanged : Codec ClientsChanged :=
  mkCodec ClientsChanged_encode ClientsChanged_decode ClientsChanged_ok.
Definition cStatusResponse : Codec StatusResponse :=
  mkCodec StatusResponse_encode StatusResponse_decode StatusResponse_ok.

(** ** Lawfulness of the struct codecs *)

(** The codec of the first field of the goal, by the method that writes it. *)
Ltac fields :=
  lazymatch goal with
  | |- exists bs, emits ?p bs /\ _ =>
      let q := lazymatch p with enc_seq ?q _ => q | _ => p end in
      lazymatch q with
      | enc_ok => apply empty_roundtrip
      | WriteU8 _ => by_codec cU8; fields
      | WriteU16 _ => by_codec cU16; fields
      | WriteU32 _ => by_codec cU32; fields
      | WriteI32 _ => by_codec cI32; fields
      | WriteBool _ => by_codec cBool; fields
      | WriteString _ => by_codec cString; fields
      | WriteStringSlice _ => by_codec cStringSlice; fields
      | WriteBytes _ => by_codec cBytes; fields
      | encodeSessionClients _ => by_codec cSessionClients; fields
      end
  | |- _ => done
  end.

(** The range of every value a successful decoder read. *)
Ltac field_facts :=
  repeat match goal with
  | H : ReadU8 _ = (_, Ok _) |- _ => apply (codec_sound (c := cU8)) in H
  | H : ReadU16 _ = (_, Ok _) |- _ => apply (codec_sound (c := cU16)) in H
  | H : ReadU32 _ = (_, Ok _) |- _ => apply (codec_sound (c := cU32)) in H
  | H : ReadI32 _ = (_, Ok _) |- _ => apply (codec_sound (c := cI32)) in H
  | H : ReadString _ = (_, Ok _) |- _ => apply (codec_sound (c := cString)) in H
  | H : ReadStringSlice _ = (_, Ok _) |- _ => apply (codec_sound (c := cStringSlice)) in H
  | H : ReadBytes _ = (_, Ok _) |- _ => apply (codec_sound (c := cBytes)) in H
  | H : decodeSessionClients _ = (_, Ok _) |- _ =>
      apply (codec_sound (c := cSessionClients)) in H
  | H : DaemonStatus_decode _ = (_, Ok _) |- _ =>
      apply (codec_sound (c := cDaemonStatus)) in H
  | H : SessionStatus_decode _ = (_, Ok _) |- _ =>
      apply (codec_sound (c := cSessionStatus)) in H
  end.

(** A struct whose fields are written and read one after the other. *)
Ltac lawful_struct enc dec ok :=
  split; cbn;
  [ intros m Hok; destruct m; unfold enc, dec, ok in *; cbn in *;
    split_ands; fields
  | unfold enc, dec, ok; intros; dec_inv; field_facts; cbn; split_ands; done ].

#[export] Instance cSessionClient_lawful : Lawful cSessionClient.
Proof. lawful_struct @SessionClient_encode SessionClient_decode SessionClient_ok. Qed.

#[export] Instance cSessionClients_lawful : Lawful cSessionClients.
Proof.
  pose (msg (n : Z) := Errorf ("client count " +:+ pretty n +:+ " exceeds maximum")).
  split.
  - intros v [Hlen Hok]. by apply (counted_roundtrip cSessionClient SessionClients_loop msg).
  - intros r r' v H. by apply (counted_sound cSessionClient msg) in H.
Qed.
#[export] Instance cSession_lawful : Lawful cSession.
Proof. lawful_struct @Session_encode Session_decode Session_ok. Qed.
#[export] Instance cSessionStatus_lawful : Lawful cSessionStatus.
Proof. lawful_struct @SessionStatus_encode SessionStatus_decode SessionStatus_ok. Qed.
#[export] Instance cDaemonStatus_lawful : Lawful cDaemonStatus.
Proof. lawful_struct @DaemonStatus_encode DaemonStatus_decode DaemonStatus_ok. Qed.
#[export] Instance cCreate_lawful : Lawful cCreate.
Proof. lawful_struct @Create_encode Create_decode Create_ok. Qed.
#[export] Instance cAttach_lawful : Lawful cAttach.
Proof. lawful_struct @Attach_encode Attach_decode Attach_ok. Qed.
#[export] Instance cInput_lawful : Lawful cInput.
Proof. lawful_struct @Input_encode Input_decode Input_ok. Qed.
#[export] Instance cResize_lawful : Lawful cResize.
Proof. lawful_struct @Resize_encode Resize_decode Resize_ok. Qed.
#[export] Instance cDetach_lawful : Lawful cDetach.
Proof. lawful_struct @Detach_encode Detach_decode Detach_ok. Qed.
#[export] Instance cList_lawful : Lawful cList.
Proof. lawful_struct @List_encode List_decode List_ok. Qed.
#[export] Instance cKill_lawful : Lawful cKill.
Proof. lawful_struct @Kill_encode Kill_decode Kill_ok. Qed.
#[export] Instance cSend_lawful : Lawful cSend.
Proof. lawful_struct @Send_encode Send_decode Send_ok. Qed.
#[export] Instance cSendKey_lawful : Lawful cSendKey.
Proof. lawful_struct @SendKey_encode SendKey_decode SendKey_ok. Qed.
#[export] Instance cDump_lawful : Lawful cDump.
Proof. lawful_struct @Dump_encode Dump_decode Dump_ok. Qed.
#[export] Instance cPrune_lawful : Lawful cPrune.
Proof. lawful_struct @Prune_encode Prune_decode Prune_ok. Qed.
#[export] Instance cKick_lawful : Lawful cKick.
Proof. lawful_struct @Kick_encode Kick_decode Kick_ok. Qed.
#[export] Instance cStatus_lawful : Lawful cStatus.
Proof. lawful_struct @Status_encode Status_decode Status_ok. Qed.
#[export] Instance cOK_lawful : Lawful cOK.
Proof. lawful_struct @OK_encode OK_decode OK_ok. Qed.
#[export] Instance cError_lawful : Lawful cError.
Proof. lawful_struct @Error_encode Error_decode Error_ok. Qed.
#[export] Instance cOutput_lawful : Lawful cOutput.
Proof. lawful_struct @Output_encode Output_decode Output_ok. Qed.
#[export] Instance cCreated_lawful : Lawful cCreated.
Proof. lawful_struct @Created_encode Created_decode Created_ok. Qed.
#[export] Instance cAttached_lawful : Lawful cAttached.
Proof. lawful_struct @Attached_encode Attached_decode Attached_ok. Qed.
#[export] Instance cExited_lawful : Lawful cExited.
Proof. lawful_struct @Exited_encode Exited_decode Exited_ok. Qed.
#[export] Instance cDumpResponse_lawful : Lawful cDumpResponse.
Proof. lawful_struct @DumpResponse_encode DumpResponse_decode DumpResponse_ok. Qed.
#[export] Instance cPruneResponse_lawful : Lawful cPruneResponse.
Proof. lawful_struct @PruneResponse_encode PruneResponse_decode PruneResponse_ok. Qed.
#[export] Instance cClientsChanged_lawful : Lawful cClientsChanged.
Proof. lawful_struct @ClientsChanged_encode ClientsChanged_decode ClientsChanged_ok. Qed.

#[export] Instance cSessions_lawful : Lawful cSessions.
Proof.
  pose (msg (n : Z) := Errorf ("session count " +:+ pretty n +:+ " exceeds maximum")).
  split.
  - intros [v] [Hlen Hok].
    destruct (counted_roundtrip cSession Sessions_loop msg v) as (bs & Hw & Hr); try done.
    exists bs. split; [done|]. intros rest e. specialize (Hr rest e).
    unfold dec_bind in Hr. cbn. unfold Sessions_decode, dec_bind.
    destruct (ReadU32 _) as [r [n|]]; [|done].
    destruct (maxFrameSize <? n); [done|]. cbn in Hr. by rewrite Hr.
  - cbn. unfold Sessions_decode, Sessions_ok. intros r r' m H. dec_inv.
    apply (counted_sound cSession msg r r').
    unfold dec_bind. rewrite H0. destruct (maxFrameSize <? a); dec_inv. done.
Qed.

#[export] Instance cStatusResponse_lawful : Lawful cStatusResponse.
Proof.
  split; cbn; unfold StatusResponse_encode, StatusResponse_decode, StatusResponse_ok.
  - intros [d [s|]] [Hd Hs]; cbn in *.
    + apply (field_roundtrip cDaemonStatus); [done|].
      apply (field_roundtrip cU8); [done|]. cbn.
      by apply (last_field_roundtrip cSessionStatus s (fun s => mkStatusResponse d (Some s))).
    + apply (field_roundtrip cDaemonStatus); [done|].
      destruct (codec_roundtrip (c := cU8) 0) as (bs & Hw & Hr); [done|].
      exists bs. split; [done|]. intros rest e. unfold dec_bind. cbn in Hr. by rewrite Hr.
  - intros r r' m H. dec_inv. field_facts.
    destruct (a0 =? 0) eqn:E; dec_inv; field_facts; done.
Qed.

(** ** Exactness of the struct codecs *)

(** What every successful read of a field took. *)
Ltac field_accounts :=
  repeat match goal with
  | H : ReadU8 _ = (_, Ok _) |- _ => apply (codec_exact (c := cU8)) in H
  | H : ReadU16 _ = (_, Ok _) |- _ => apply (codec_exact (c := cU16)) in H
  | H : ReadU32 _ = (_, Ok _) |- _ => apply (codec_exact (c := cU32)) in H
  | H : ReadI32 _ = (_, Ok _) |- _ => apply (codec_exact (c := cI32)) in H
  | H : ReadBool _ = (_, Ok _) |- _ => apply (codec_exact (c := cBool)) in H
  | H : ReadString _ = (_, Ok _) |- _ => apply (codec_exact (c := cString)) in H
  | H : ReadStringSlice _ = (_, Ok _) |- _ => apply (codec_exact (c := cStringSlice)) in H
  | H : ReadBytes _ = (_, Ok _) |- _ => apply (codec_exact (c := cBytes)) in H
  | H : decodeSessionClients _ = (_, Ok _) |- _ => apply (codec_exact (c := cSessionClients)) in H
  | H : DaemonStatus_decode _ = (_, Ok _) |- _ => apply (codec_exact (c := cDaemonStatus)) in H
  | H : SessionStatus_decode _ = (_, Ok _) |- _ => apply (codec_exact (c := cSessionStatus)) in H
  end.

(** A struct that is read field by field, in the order it is written in. *)
Ltac exact_struct enc dec :=
  intros r r' m H; cbn in H |- *; unfold dec in H; dec_inv; field_accounts; unfold enc; cbn in *;
  repeat (eapply accounts_seq; [eassumption|]); first [eassumption | apply accounts_ok].

#[export] Instance cSessionClient_exact : Exact cSessionClient.
Proof. exact_struct @SessionClient_encode SessionClient_decode. Qed.

#[export] Instance cSessionClients_exact : Exact cSessionClients.
Proof.
  intros r r' v H. by apply (counted_exact cSessionClient SessionClients_loop
    (fun n => Errorf ("client count " +:+ pretty n +:+ " exceeds maximum"))).
Qed.
#[export] Instance cSession_exact : Exact cSession.
Proof. exact_struct @Session_encode Session_decode. Qed.
#[export] Instance cSessionStatus_exact : Exact cSessionStatus.
Proof. exact_struct @SessionStatus_encode SessionStatus_decode. Qed.
#[export] Instance cDaemonStatus_exact : Exact cDaemonStatus.
Proof. exact_struct @DaemonStatus_encode DaemonStatus_decode. Qed.
#[export] Instance cCreate_exact : Exact cCreate.
Proof. exact_struct @Create_encode Create_decode. Qed.
#[export] Instance cAttach_exact : Exact cAttach.
Proof. exact_struct @Attach_encode Attach_decode. Qed.
#[export] Instance cInput_exact : Exact cInput.
Proof. exact_struct @Input_encode Input_decode. Qed.
#[export] Instance cResize_exact : Exact cResize.
Proof. exact_struct @Resize_encode Resize_decode. Qed.
#[export] Instance cDetach_exact : Exact cDetach.
Proof. exact_struct @Detach_encode Detach_decode. Qed.
#[export] Instance cList_exact : Exact cList.
Proof. exact_struct @List_encode List_decode. Qed.
#[export] Instance cKill_exact : Exact cKill.
Proof. exact_struct @Kill_encode Kill_decode. Qed.
#[export] Instance cSend_exact : Exact cSend.
Proof. exact_struct @Send_encode Send_decode. Qed.
#[export] Instance cSendKey_exact : Exact cSendKey.
Proof. exact_struct @SendKey_encode SendKey_decode. Qed.
#[export] Instance cDump_exact : Exact cDump.
Proof. exact_struct @Dump_encode Dump_decode. Qed.
#[export] Instance cPrune_exact : Exact cPrune.
Proof. exact_struct @Prune_encode Prune_decode. Qed.
#[export] Instance cKick_exact : Exact cKick.
Proof. exact_struct @Kick_encode Kick_decode. Qed.
#[export] Instance cStatus_exact : Exact cStatus.
Proof. exact_struct @Status_encode Status_decode. Qed.
#[export] Instance cOK_exact : Exact cOK.
Proof. exact_struct @OK_encode OK_decode. Qed.
#[export] Instance cError_exact : Exact cError.
Proof. exact_struct @Error_encode Error_decode. Qed.
#[export] Instance cOutput_exact : Exact cOutput.
Proof. exact_struct @Output_encode Output_decode. Qed.
#[export] Instance cCreated_exact : Exact cCreated.
Proof. exact_struct @Created_encode Created_decode. Qed.
#[export] Instance cAttached_exact : Exact cAttached.
Proof. exact_struct @Attached_encode Attached_decode. Qed.
#[export] Instance cExited_exact : Exact cExited.
Proof. exact_struct @Exited_encode Exited_decode. Qed.
#[export] Instance cDumpResponse_exact : Exact cDumpResponse.
Proof. exact_struct @DumpResponse_encode DumpResponse_decode. Qed.
#[export] Instance cPruneResponse_exact : Exact cPruneResponse.
Proof. exact_struct @PruneResponse_encode PruneResponse_decode. Qed.
#[export] Instance cClientsChanged_exact : Exact cClientsChanged.
Proof. exact_struct @ClientsChanged_encode ClientsChanged_decode. Qed.

#[export] Instance cSessions_exact : Exact cSessions.
Proof.
  intros r r' m H. cbn in H |- *. unfold Sessions_decode in H. dec_inv.
  apply (counted_exact cSession Sessions_loop
    (fun n => Errorf ("session count " +:+ pretty n +:+ " exceeds maximum"))); [done..|].
  unfold dec_bind. rewrite H0. by destruct (maxFrameSize <? a); dec_inv.
Qed.

#[export] Instance cStatusResponse_exact : Exact cStatusResponse.
Proof.
  intros r r' m H. cbn in H |- *. unfold StatusResponse_decode in H. dec_inv.
  unfold StatusResponse_encode. cbn in *. destruct (a0 =? 0) eqn:E; dec_inv.
  - apply Z.eqb_eq in E. subst a0. field_accounts. by eapply accounts_seq.
  - apply (accounts_flag _ _ _ E) in H1. field_accounts. repeat (eapply accounts_seq; [eassumption|]). eassumption.
Qed.
