(* ===== verification/Codec.v ===== *)
(** * Codec: framed messages and the version handshake

    Models [internal/protocol/codec.go]: [Conn.WriteMessage],
    [Conn.ReadMessage], [Handshake], [AcceptHandshake] and
    [WriteVersionReply]. *)
From S2P Require Import Prelude Wire Messages.
From stdpp Require Import base list strings numbers pretty.
From Stdlib Require Import ZArith Lia.
#[local] Open Scope Z_scope.

Definition ProtocolVersion : Z := 8.

(** [Conn] over an [io.ReadWriter]; the write mutex makes each [WriteMessage]
    one step of the writer's state. *)
Record Conn (W : Type) := mkConn { conn_w : W; conn_r : Reader }.
Arguments mkConn {_} _ _.
Arguments conn_w {_} _.
Arguments conn_r {_} _.

(** The frame [WriteMessage] builds in its buffer: the type byte and the
    payload, or the error of an encoder. *)
Definition build_frame (msg : Message) : bytes * option error :=
  (WriteU8 (u8 (Message_Type msg)) ;;; Message_encode msg) [].

Definition WriteMessage {W} `{!Writer W} (msg : Message) : enc W :=
  let '(frame, err) := build_frame msg in
  match err with
  | Some e => enc_fail e
  | None => WriteU32 (u32 (blen frame)) ;;; put frame
  end.

Definition ReadMessage : dec Message :=
  length' <~ ReadU32;
  if length' =? 0 then dec_fail (Errorf "empty message frame")
  else if maxFrameSize <? length' then
    dec_fail (Errorf ("message frame too large: " +:+ pretty length' +:+ " bytes"))
  else
    frame <~ ReadFull (Z.to_nat length');
    fun r =>
      (r, snd ((msgType <~ ReadU8;
                fun fr =>
                  match newMessage msgType with
                  | Err e => (fr, Err e)
                  | Ok msg => Message_decode msg fr
                  end) (NewReader frame))).

(** Run a writing, then a reading method on the connection. *)
Definition on_writer {W} (p : enc W) (c : Conn W) : Conn W * option error :=
  let '(w, e) := p (conn_w c) in (mkConn w (conn_r c), e).
Definition on_reader {W A} (g : dec A) (c : Conn W) : Conn W * result A :=
  let '(r, x) := g (conn_r c) in (mkConn (conn_w c) r, x).

Section Handshake.
Context {W : Type} `{!Writer W}.

Definition Handshake (version : Z) (revision : string) (c : Conn W) :
    Conn W * result (Z * string) :=
  let '(c, e) := on_writer (WriteU8 version) c in
  match e with
  | Some e => (c, Err e)
  | None =>
    let '(c, e) := on_writer (WriteString revision) c in
    match e with
    | Some e => (c, Err e)
    | None =>
      on_reader (serverVer <~ ReadU8; serverRev <~ ReadString;
                 dec_ret (serverVer, serverRev)) c
    end
  end.

Definition AcceptHandshake (c : Conn W) : Conn W * result (Z * string) :=
  on_reader (version <~ ReadU8; revision <~ ReadString;
             dec_ret (version, revision)) c.

Definition WriteVersionReply (version : Z) (revision : string) (c : Conn W) :
    Conn W * option error :=
  on_writer (WriteU8 version ;;; WriteString revision) c.
End Handshake.

(** Writing a sequence of messages on one connection. *)
Fixpoint WriteMessages {W} `{!Writer W} (msgs : list Message) : enc W :=
  match msgs with
  | [] => enc_ok
  | m :: msgs' => WriteMessage m ;;; WriteMessages msgs'
  end.

(** A message that fits the frame the reader accepts. *)
Definition frame_ok (msg : Message) : Prop :=
  blen (fst (build_frame msg)) <= maxFrameSize.

(** ** Message types *)

Lemma case_roundtrip {A} (c : Codec A) `{!Lawful c} (mk : A -> Message) a :
  c_ok c a ->
  exists bs, emits (c_write c a) bs /\
    parses (m <~ c_read c; dec_ret (mk m)) bs (mk a).
Proof. apply (last_field_roundtrip c). Qed.

(** Use the codec of the struct a case of [Message] carries. *)
Ltac message_case :=
  let go c m := exact (case_roundtrip c _ m ltac:(assumption)) in
  lazymatch goal with
  | |- context [Message_encode (MsgCreate ?m)] => go cCreate m
  | |- context [Message_encode (MsgAttach ?m)] => go cAttach m
  | |- context [Message_encode (MsgInput ?m)] => go cInput m
  | |- context [Message_encode (MsgResize ?m)] => go cResize m
  | |- context [Message_encode (MsgDetach ?m)] => go cDetach m
  | |- context [Message_encode (MsgList ?m)] => go cList m
  | |- context [Message_encode (MsgKill ?m)] => go cKill m
  | |- context [Message_encode (MsgSend ?m)] => go cSend m
  | |- context [Message_encode (MsgSendKey ?m)] => go cSendKey m
  | |- context [Message_encode (MsgDump ?m)] => go cDump m
  | |- context [Message_encode (MsgPrune ?m)] => go cPrune m
  | |- context [Message_encode (MsgKick ?m)] => go cKick m
  | |- context [Message_encode (MsgStatus ?m)] => go cStatus m
  | |- context [Message_encode (MsgOK ?m)] => go cOK m
  | |- context [Message_encode (MsgError ?m)] => go cError m
  | |- context [Message_encode (MsgOutput ?m)] => go cOutput m
  | |- context [Message_encode (MsgCreated ?m)] => go cCreated m
  | |- context [Message_encode (MsgAttached ?m)] => go cAttached m
  | |- context [Message_encode (MsgSessions ?m)] => go cSessions m
  | |- context [Message_encode (MsgExited ?m)] => go cExited m
  | |- context [Message_encode (MsgDumpResponse ?m)] => go cDumpResponse m
  | |- context [Message_encode (MsgPruneResponse ?m)] => go cPruneResponse m
  | |- context [Message_encode (MsgClientsChanged ?m)] => go cClientsChanged m
  | |- context [Message_encode (MsgStatusResponse ?m)] => go cStatusResponse m
  end.

(** [newMessage] on a message's type code makes a value of the same type, whose
    [decode] inverts the message's [encode]. *)
Lemma newMessage_Type msg :
  exists z, newMessage (Message_Type msg) = Ok z /\
    (Message_ok msg ->
     exists bs, emits (Message_encode msg) bs /\ parses (Message_decode z) bs msg).
Proof.
  destruct msg; (eexists; split; [reflexivity|]; intros Hok; message_case).
Qed.

Lemma Message_Type_u8 msg : is_u8 (Message_Type msg).
Proof. by destruct msg. Qed.

(** *** Frames *)

Lemma build_frame_emits msg bs :
  emits (Message_encode msg) bs ->
  build_frame msg = (byte_of_Z (Message_Type msg) :: bs, None).
Proof.
  intros Hw. unfold build_frame. pose proof (Message_Type_u8 msg).
  replace (u8 (Message_Type msg)) with (Message_Type msg) by width_lia.
  apply (emits_seq _ _ [byte_of_Z (Message_Type msg)] bs (emits_put _) Hw []).
Qed.

Lemma WriteMessage_emits msg frame :
  build_frame msg = (frame, None) ->
  emits (WriteMessage msg) (be_encode 4 (u32 (blen frame)) ++ frame).
Proof.
  intros Hf. unfold WriteMessage. rewrite Hf. apply emits_seq; apply emits_put.
Qed.

Lemma parses_apply {A} (g : dec A) bs a :
  parses g bs a -> g (NewReader bs) = (NewReader [], Ok a).
Proof. intros H. specialize (H [] EOF). by rewrite app_nil_r in H. Qed.

(** The frame parser run on the whole frame. *)
Lemma ReadMessage_frame msg bs z rest e :
  newMessage (Message_Type msg) = Ok z ->
  parses (Message_decode z) bs msg ->
  let frame := byte_of_Z (Message_Type msg) :: bs in
  blen frame <= maxFrameSize ->
  ReadMessage (mkReader (be_encode 4 (u32 (blen frame)) ++ frame ++ rest) e)
  = (mkReader rest e, Ok msg).
Proof.
  intros Hz Hr frame Hlen. pose proof maxFrameSize_u32.
  assert (0 < blen frame) by (unfold blen; cbn; lia).
  replace (u32 (blen frame)) with (blen frame)
    by (unfold u32; rewrite Z.mod_small; lia).
  rewrite app_assoc.
  apply (parses_bind ReadU32 _ _ frame (blen frame)); [apply parses_be; lia|].
  destruct (blen frame =? 0) eqn:E0; [lia|].
  destruct (maxFrameSize <? blen frame) eqn:E1; [lia|].
  rewrite <- (app_nil_r frame) at 2.
  apply (parses_bind _ _ frame [] frame); [apply parses_ReadFull; unfold blen; lia|].
  intros rest' e'. f_equal.
  assert (parses (msgType <~ ReadU8; fun fr =>
      match newMessage msgType with
      | Err e => (fr, Err e)
      | Ok msg => Message_decode msg fr
      end) frame msg) as Hp; [|by rewrite (parses_apply _ _ _ Hp)].
  apply (parses_bind ReadU8 _ [byte_of_Z (Message_Type msg)] bs (Message_Type msg)).
  - pose proof (Message_Type_u8 msg). rewrite <- (Z.div_1_r (Message_Type msg)) at 1.
    by apply (parses_be 1).
  - intros r'' e''. rewrite Hz. apply Hr.
Qed.

(** *** Soundness of the decoder *)

(** The field facts, for the structs of all messages. *)
Lemma Message_decode_sound z r r' msg :
  Message_decode z r = (r', Ok msg) -> Message_ok msg.
Proof.
  destruct z; cbn [Message_decode]; intros H; dec_inv; cbn [Message_ok];
  match goal with
  | H : Create_decode _ = _ |- _ => exact (codec_sound (c := cCreate) _ _ _ H)
  | H : Attach_decode _ = _ |- _ => exact (codec_sound (c := cAttach) _ _ _ H)
  | H : Input_decode _ = _ |- _ => exact (codec_sound (c := cInput) _ _ _ H)
  | H : Resize_decode _ = _ |- _ => exact (codec_sound (c := cResize) _ _ _ H)
  | H : Detach_decode _ = _ |- _ => exact (codec_sound (c := cDetach) _ _ _ H)
  | H : List_decode _ = _ |- _ => exact (codec_sound (c := cList) _ _ _ H)
  | H : Kill_decode _ = _ |- _ => exact (codec_sound (c := cKill) _ _ _ H)
  | H : Send_decode _ = _ |- _ => exact (codec_sound (c := cSend) _ _ _ H)
  | H : SendKey_decode _ = _ |- _ => exact (codec_sound (c := cSendKey) _ _ _ H)
  | H : Dump_decode _ = _ |- _ => exact (codec_sound (c := cDump) _ _ _ H)
  | H : Prune_decode _ = _ |- _ => exact (codec_sound (c := cPrune) _ _ _ H)
  | H : Kick_decode _ = _ |- _ => exact (codec_sound (c := cKick) _ _ _ H)
  | H : Status_decode _ = _ |- _ => exact (codec_sound (c := cStatus) _ _ _ H)
  | H : OK_decode _ = _ |- _ => exact (codec_sound (c := cOK) _ _ _ H)
  | H : Error_decode _ = _ |- _ => exact (codec_sound (c := cError) _ _ _ H)
  | H : Output_decode _ = _ |- _ => exact (codec_sound (c := cOutput) _ _ _ H)
  | H : Created_decode _ = _ |- _ => exact (codec_sound (c := cCreated) _ _ _ H)
  | H : Attached_decode _ = _ |- _ => exact (codec_sound (c := cAttached) _ _ _ H)
  | H : Sessions_decode _ = _ |- _ => exact (codec_sound (c := cSessions) _ _ _ H)
  | H : Exited_decode _ = _ |- _ => exact (codec_sound (c := cExited) _ _ _ H)
  | H : DumpResponse_decode _ = _ |- _ => exact (codec_sound (c := cDumpResponse) _ _ _ H)
  | H : PruneResponse_decode _ = _ |- _ => exact (codec_sound (c := cPruneResponse) _ _ _ H)
  | H : ClientsChanged_decode _ = _ |- _ => exact (codec_sound (c := cClientsChanged) _ _ _ H)
  | H : StatusResponse_decode _ = _ |- _ => exact (codec_sound (c := cStatusResponse) _ _ _ H)
  end.
Qed.

(** The reader of a message of any type takes what its writer writes. *)
Lemma case_exact {A} (c : Codec A) `{!Exact c} (mk : A -> Message) z r r' msg :
  (forall a, Message_encode (mk a) = c_write c a /\ Message_Type (mk a) = z) ->
  (m <~ c_read c; dec_ret (mk m)) r = (r', Ok msg) ->
  accounts (Message_encode msg) r r' /\ Message_Type msg = z.
Proof.
  intros Hmk H. dec_inv. match goal with |- context [mk ?a] => destruct (Hmk a) as [-> ->] end.
  split; [by apply codec_exact|done].
Qed.

Lemma Message_decode_exact z r r' msg :
  Message_decode z r = (r', Ok msg) ->
  accounts (Message_encode msg) r r' /\ Message_Type msg = Message_Type z.
Proof.
  destruct z; cbn [Message_decode].
  - by apply (case_exact cCreate MsgCreate).
  - by apply (case_exact cAttach MsgAttach).
  - by apply (case_exact cInput MsgInput).
  - by apply (case_exact cResize MsgResize).
  - by apply (case_exact cDetach MsgDetach).
  - by apply (case_exact cList MsgList).
  - by apply (case_exact cKill MsgKill).
  - by apply (case_exact cSend MsgSend).
  - by apply (case_exact cSendKey MsgSendKey).
  - by apply (case_exact cDump MsgDump).
  - by apply (case_exact cPrune MsgPrune).
  - by apply (case_exact cKick MsgKick).
  - by apply (case_exact cStatus MsgStatus).
  - by apply (case_exact cOK MsgOK).
  - by apply (case_exact cError MsgError).
  - by apply (case_exact cOutput MsgOutput).
  - by apply (case_exact cCreated MsgCreated).
  - by apply (case_exact cAttached MsgAttached).
  - by apply (case_exact cSessions MsgSessions).
  - by apply (case_exact cExited MsgExited).
  - by apply (case_exact cDumpResponse MsgDumpResponse).
  - by apply (case_exact cPruneResponse MsgPruneResponse).
  - by apply (case_exact cClientsChanged MsgClientsChanged).
  - by apply (case_exact cStatusResponse MsgStatusResponse).
Qed.

Lemma newMessage_Ok t z : newMessage t = Ok z -> Message_Type z = t.
Proof.
  unfold newMessage. intros H.
  repeat match type of H with (if ?b then _ else _) = _ =>
    let E := fresh in destruct b eqn:E; [apply Z.eqb_eq in E; injection H as <-; by symmetry|] end.
  done.
Qed.

(** A message whose encoding is known, written. *)
Lemma WriteMessage_frame msg bs :
  emits (Message_encode msg) bs ->
  WriteMessage msg [] = (be_encode 4 (u32 (1 + blen bs)) ++ byte_of_Z (Message_Type msg) :: bs, None).
Proof.
  intros Hw. pose proof (WriteMessage_emits _ _ (build_frame_emits _ _ Hw) []) as H. rewrite H. cbn [app].
  do 3 f_equal. unfold blen. cbn [length]. f_equal. lia.
Qed.

(** The header and the frame a successful read took off the stream. *)
Lemma ReadMessage_sound_aux r r' msg :
  ReadMessage r = (r', Ok msg) -> Message_ok msg.
Proof.
  unfold ReadMessage. intros H. dec_inv.
  destruct (a =? 0); dec_inv. destruct (maxFrameSize <? a); dec_inv.
  unfold dec_bind in H. simplify_eq/=.
  destruct (ReadU8 (NewReader a0)) as [fr [t|]]; [|done].
  destruct (newMessage t) as [z|]; [|done].
  destruct (Message_decode z fr) as [fr' x] eqn:Hz. simplify_eq/=.
  by eapply Message_decode_sound.
Qed.

Lemma ReadU32_inv r r' v :
  ReadU32 r = (r', Ok v) -> rd_data r = be_encode 4 v ++ rd_data r' /\ rd_err r' = rd_err r.
Proof.
  unfold ReadU32. intros H. dec_inv. apply ReadFull_inv in H0 as (Hl & Hd & He). split; [|done].
  rewrite Hd, <- (be_encode_decode a) at 1. by rewrite Hl.
Qed.

(** The frame a message was read from. *)
Lemma frame_exact x frame msg :
  snd ((msgType <~ ReadU8;
        fun fr =>
          match newMessage msgType with
          | Err e => (fr, Err e)
          | Ok msg => Message_decode msg fr
          end) (NewReader (x :: frame))) = Ok msg ->
  exists payload extra bs, frame = payload ++ extra /\ byte_of_Z (Message_Type msg) = x /\
    emits (Message_encode msg) bs /\ Forall2 reads_as payload bs.
Proof.
  unfold dec_bind, ReadU8. cbn. unfold dec_bind. cbn. rewrite drop_0. unfold be_decode. cbn.
  change (be_decode_acc _ _) with (Z_of_byte x).
  destruct (newMessage (Z_of_byte x)) as [z|] eqn:Hz; [|done].
  destruct (Message_decode z _) as [fr res] eqn:Hd. cbn. intros ->.
  destruct (Message_decode_exact _ _ _ _ Hd) as [(payload & bs & Hdata & _ & Hw & Hlike) Ht].
  exists payload, (rd_data fr), bs. rewrite Ht, (newMessage_Ok _ _ Hz). split_and!; [done|apply byte_of_Z_of_byte|done..].
Qed.

(** A message that fits a frame, written and read back. *)
Lemma message_roundtrip msg :
  Message_ok msg -> frame_ok msg ->
  exists bs, emits (WriteMessage msg) bs /\ parses ReadMessage bs msg.
Proof.
  intros Hok Hfr. destruct (newMessage_Type msg) as (z & Hz & Hrt).
  destruct (Hrt Hok) as (bs & Hw & Hr).
  pose proof (build_frame_emits _ _ Hw) as Hf.
  unfold frame_ok in Hfr. rewrite Hf in Hfr. cbn [fst] in Hfr.
  eexists. split; [by apply WriteMessage_emits|].
  intros rest e. rewrite <- app_assoc. by apply (ReadMessage_frame _ _ z).
Qed.

(** ** Properties *)

(** C7. Round trip on a stream: any sequence of messages whose fields are in
    range and whose frames fit [maxFrameSize], written one after the other on a
    connection, is read back by as many [ReadMessage] calls, in order, whatever
    the stream holds before and after. *)
Theorem WriteMessages_ReadMessages msgs :
  Forall (fun m => Message_ok m /\ frame_ok m) msgs ->
  exists bs,
    (forall out, WriteMessages msgs out = (out ++ bs, None)) /\
    (forall rest e,
      ReadN (length msgs) ReadMessage (mkReader (bs ++ rest) e)
      = (mkReader rest e, Ok msgs)).
Proof.
  change (fun m => Message_ok m /\ frame_ok m) with
    (c_ok (mkCodec WriteMessage ReadMessage (fun m => Message_ok m /\ frame_ok m))).
  intros Hall. induction Hall as [|m ms [Hok Hfr] _ (bs & Hw & Hr)].
  - exists []. split; [apply emits_ok | apply parses_ret].
  - destruct (message_roundtrip m Hok Hfr) as (b & Hwm & Hrm).
    exists (b ++ bs). split; [by apply (emits_seq (WriteMessage m))|].
    cbn [length ReadN]. eapply parses_bind; [done|]. by apply (parses_map _ (cons m)).
Qed.

(** All or nothing: a message whose encoding fails leaves the connection
    untouched, and otherwise the connection receives exactly the length header
    and the frame. *)
Theorem WriteMessage_all_or_nothing msg (out : bytes) :
  match build_frame msg with
  | (_, Some e) => WriteMessage msg out = (out, Some e)
  | (frame, None) =>
      WriteMessage msg out = (out ++ be_encode 4 (u32 (blen frame)) ++ frame, None)
  end.
Proof.
  destruct (build_frame msg) as [frame [e|]] eqn:Hf.
  - unfold WriteMessage. by rewrite Hf.
  - by apply WriteMessage_emits.
Qed.

(** C33. [ReadMessage] accepts nothing but frames of the message it returns. When it
    succeeds it took from the stream exactly one header and the frame it announces,
    within [maxFrameSize]; the message is in range, has the type of the frame, and
    written again it is that frame byte for byte, up to bytes behind its last
    field, which are ignored, and bytes written as 1 that were read as another but
    zero, as any such byte stands for a true boolean. *)
Theorem ReadMessage_accepts r r' msg :
  ReadMessage r = (r', Ok msg) ->
  exists payload extra bs,
    rd_data r = be_encode 4 (1 + blen payload + blen extra) ++
      byte_of_Z (Message_Type msg) :: payload ++ extra ++ rd_data r' /\
    rd_err r' = rd_err r /\
    1 + blen payload + blen extra <= maxFrameSize /\
    Message_ok msg /\
    WriteMessage msg [] = (be_encode 4 (1 + blen bs) ++ byte_of_Z (Message_Type msg) :: bs, None) /\
    Forall2 reads_as payload bs.
Proof.
  intros H. pose proof (ReadMessage_sound_aux _ _ _ H) as Hok. pose proof maxFrameSize_u32 as Hmax.
  unfold ReadMessage in H. dec_inv. pose proof (codec_sound (c := cU32) _ _ _ H0) as Ha.
  destruct (ReadU32_inv _ _ _ H0) as [Hd0 He0].
  destruct (a =? 0) eqn:E0; dec_inv. destruct (maxFrameSize <? a) eqn:E1; dec_inv. cbn in Ha. unfold is_u32 in Ha.
  apply Z.eqb_neq in E0. apply Z.ltb_ge in E1. injection H as <- H. rename a0 into frame.
  apply ReadFull_inv in H1 as (Hl & Hd & He). destruct frame as [|x frame]; [cbn in Hl; lia|].
  destruct (frame_exact x frame msg H) as (payload & extra & bs & -> & Hx & Hw & Hlike).
  pose proof (List.Forall2_length Hlike) as Hlen. exists payload, extra, bs.
  assert (1 + blen payload + blen extra = a) as Hn
    by (revert Hl; unfold blen; cbn [length]; rewrite length_app; lia).
  rewrite Hn, Hx. split; [rewrite Hd0, Hd; cbn [app]; by rewrite <- app_assoc|].
  split; [by rewrite He, He0|]. split; [lia|]. split; [done|]. split; [|done].
  rewrite (WriteMessage_frame _ _ Hw), Hx. unfold blen in *. do 2 f_equal. f_equal.
  unfold u32. rewrite Z.mod_small; [done|lia].
Qed.

(** Resynchronisation: when a frame of an admissible length is on the
    stream, [ReadMessage] consumes exactly its header and its body, also when
    the message type is unknown or the payload does not decode. *)
Theorem ReadMessage_consumes_frame n frame rest e :
  0 < n <= maxFrameSize -> blen frame = n ->
  exists x, ReadMessage (mkReader (be_encode 4 n ++ frame ++ rest) e) = (mkReader rest e, x).
Proof.
  intros Hn Hl. pose proof maxFrameSize_u32. unfold ReadMessage, dec_bind.
  rewrite (parses_be 4 n ltac:(lia)).
  destruct (n =? 0) eqn:E0; [lia|]. destruct (maxFrameSize <? n) eqn:E1; [lia|].
  rewrite (parses_ReadFull (Z.to_nat n) frame); [eauto | unfold blen in *; lia].
Qed.

(** Admission: a header announcing an empty frame or one above
    [maxFrameSize] is refused before any of the body is read. *)
Theorem ReadMessage_rejects_length n rest e :
  is_u32 n -> n = 0 \/ maxFrameSize < n ->
  exists err, ReadMessage (mkReader (be_encode 4 n ++ rest) e) = (mkReader rest e, Err err).
Proof.
  intros Hn Hbad. unfold ReadMessage, dec_bind. rewrite (parses_be 4 n Hn).
  destruct (n =? 0) eqn:E0; [unfold dec_fail; eauto|].
  destruct (maxFrameSize <? n) eqn:E1; [unfold dec_fail; eauto | lia].
Qed.

(** C34. The writer has no frame limit: a message whose frame is above
    [maxFrameSize] is written without an error, and the peer's [ReadMessage]
    refuses it and leaves its whole body on the stream as the next header. *)
Theorem WriteMessage_oversized_desync msg frame rest e :
  build_frame msg = (frame, None) ->
  maxFrameSize < blen frame < 2 ^ 32 ->
  exists header err,
    (forall out, WriteMessage msg out = (out ++ header ++ frame, None)) /\
    ReadMessage (mkReader (header ++ frame ++ rest) e)
    = (mkReader (frame ++ rest) e, Err err).
Proof.
  intros Hf Hlen. change maxFrameSize with 16777216 in Hlen. exists (be_encode 4 (blen frame)).
  assert (u32 (blen frame) = blen frame) as Hu by (unfold u32; rewrite Z.mod_small; lia).
  unfold ReadMessage, dec_bind. rewrite (parses_be 4 (blen frame)) by lia.
  destruct (blen frame =? 0) eqn:E0; [lia|].
  destruct (maxFrameSize <? blen frame) eqn:E1; [|change maxFrameSize with 16777216 in E1; lia].
  eexists. split; [|reflexivity].
  pose proof (WriteMessage_emits _ _ Hf) as Hw. by rewrite Hu in Hw.
Qed.

(** ** Witnesses *)

(** The frame of an [Input] message. *)
Lemma build_frame_Input data :
  bytes_ok data ->
  exists frame, build_frame (MsgInput (mkInput data)) = (frame, None) /\
    blen frame = 5 + blen data.
Proof.
  intros Hd. unfold bytes_ok in Hd. pose proof maxFrameSize_u32.
  eexists. split.
  - apply build_frame_emits. cbn [Message_encode]. unfold Input_encode, WriteBytes.
    apply emits_seq; [apply emits_put|].
    instantiate (1 := data). cbn [Input_Data]. destruct data; [apply emits_ok | apply emits_put].
  - unfold blen. cbn [length]. rewrite length_app, length_be_encode. lia.
Qed.

Lemma WriteMessages_ReadMessages_witness :
  exists bs,
    (forall out, WriteMessages
       [MsgResize (mkResize 80 24 0 0); MsgKick (mkKick "work" "1")] out = (out ++ bs, None)) /\
    (forall rest e,
      ReadN 2 ReadMessage (mkReader (bs ++ rest) e)
      = (mkReader rest e, Ok [MsgResize (mkResize 80 24 0 0); MsgKick (mkKick "work" "1")])).
Proof.
  apply (WriteMessages_ReadMessages
    [MsgResize (mkResize 80 24 0 0); MsgKick (mkKick "work" "1")]).
  repeat constructor; by vm_compute.
Defined.

(** A list request whose boolean is 7, with one byte too many. *)
Lemma ReadMessage_accepts_witness :
  exists payload extra bs,
    map byte_of_Z [0; 0; 0; 3; 5; 7; 9] =
      be_encode 4 (1 + blen payload + blen extra) ++ byte_of_Z TypeList :: payload ++ extra ++ [] /\
    WriteMessage (MsgList (mkList true)) [] = (be_encode 4 (1 + blen bs) ++ byte_of_Z TypeList :: bs, None) /\
    Forall2 reads_as payload bs.
Proof.
  destruct (ReadMessage_accepts (NewReader (map byte_of_Z [0; 0; 0; 3; 5; 7; 9])) (NewReader [])
    (MsgList (mkList true))) as (payload & extra & bs & H1 & _ & _ & _ & H2 & H3).
  - vm_compute. reflexivity.
  - exists payload, extra, bs. split; [exact H1|]. split; [exact H2|exact H3].
Defined.

Lemma ReadMessage_consumes_frame_witness :
  exists x, ReadMessage (mkReader (be_encode 4 2 ++ [byte_of_Z 255; byte_of_Z 0] ++
                                   [byte_of_Z 7]) EOF)
            = (mkReader [byte_of_Z 7] EOF, x).
Proof.
  apply (ReadMessage_consumes_frame 2 [byte_of_Z 255; byte_of_Z 0] [byte_of_Z 7] EOF);
    [by vm_compute | reflexivity].
Defined.

Lemma ReadMessage_rejects_length_witness :
  exists err, ReadMessage (mkReader (be_encode 4 16777217 ++ [byte_of_Z 1]) EOF)
              = (mkReader [byte_of_Z 1] EOF, Err err).
Proof.
  apply (ReadMessage_rejects_length 16777217 [byte_of_Z 1] EOF);
    [by vm_compute | right; by vm_compute].
Defined.

Lemma WriteMessage_oversized_desync_witness :
  exists data frame, bytes_ok data /\
    build_frame (MsgInput (mkInput data)) = (frame, None) /\
    exists header err,
    (forall out, WriteMessage (MsgInput (mkInput data)) out = (out ++ header ++ frame, None)) /\
    ReadMessage (mkReader (header ++ frame ++ []) EOF)
    = (mkReader (frame ++ []) EOF, Err err).
Proof.
  assert (exists data : bytes, blen data = maxFrameSize) as (data & Hd).
  { exists (replicate (Z.to_nat maxFrameSize) Byte.x00).
    unfold blen. rewrite length_replicate. apply Z2Nat.id. by vm_compute. }
  destruct (build_frame_Input data) as (frame & Hf & Hl); [unfold bytes_ok; lia|].
  exists data, frame. split; [unfold bytes_ok; lia|]. split; [exact Hf|].
  apply (WriteMessage_oversized_desync (MsgInput (mkInput data)) frame [] EOF Hf).
  rewrite Hl, Hd. vm_compute. split; reflexivity.
Defined.
