(* ===== verification/Chan.v ===== *)
(** * Chan: Go control outcomes and buffered channels

    The parts of the language the session code runs on: panics, blocking
    operations that never return, and buffered channels with [select]'s
    [default] branch, [close] and [range]. *)
From S2P Require Import Prelude.
From stdpp Require Import base list strings option.
From Stdlib Require Import ZArith Lia.
#[local] Open Scope Z_scope.

(** ** Outcomes *)

(** A piece of Go code returns a value, panics, or blocks for ever. *)
Inductive go (A : Type) : Type :=
| Val (a : A)
| Panic (why : string)
| Stuck (why : string).
Arguments Val {_} _.
Arguments Panic {_} _.
Arguments Stuck {_} _.

Definition go_bind {A B} (x : go A) (k : A -> go B) : go B :=
  match x with
  | Val a => k a
  | Panic w => Panic w
  | Stuck w => Stuck w
  end.

Notation "'let!' x := e 'in' k" := (go_bind e (fun x => k))
  (at level 10, x pattern, e at level 200, k at level 200) : go_scope.
#[global] Open Scope go_scope.

(** ** Channels *)

Record chan (A : Type) := mkChan {
  ch_buf : list A;
  ch_cap : nat;
  ch_closed : bool }.
Arguments mkChan {_} _ _ _.
Arguments ch_buf {_} _.
Arguments ch_cap {_} _.
Arguments ch_closed {_} _.

Definition make_chan {A} (cap : nat) : chan A := mkChan [] cap false.

(** [select { case ch <- x: ... default: ... }]: [Some] the channel with [x]
    queued, [None] when the buffer is full. *)
Definition chan_try_send {A} (ch : chan A) (x : A) : go (option (chan A)) :=
  if ch_closed ch then Panic "send on closed channel"
  else if (length (ch_buf ch) <? ch_cap ch)%nat
  then Val (Some (mkChan (ch_buf ch ++ [x]) (ch_cap ch) false))
  else Val None.

(** [ch <- x], on a channel nobody else sends on or drains meanwhile. *)
Definition chan_send {A} (ch : chan A) (x : A) : go (chan A) :=
  let! r := chan_try_send ch x in
  match r with
  | Some ch' => Val ch'
  | None => Stuck "send on full channel"
  end.

(** [close(ch)]. *)
Definition chan_close {A} (ch : chan A) : go (chan A) :=
  if ch_closed ch then Panic "close of closed channel"
  else Val (mkChan (ch_buf ch) (ch_cap ch) true).

Definition chan_open {A} (ch : chan A) : Prop := ch_closed ch = false.

(** ** Lemmas *)

Lemma go_bind_Val {A B} (x : go A) (k : A -> go B) b :
  go_bind x k = Val b -> exists a, x = Val a /\ k a = Val b.
Proof. destruct x; simpl; eauto; discriminate. Qed.

(** Invert a sequence of steps that returned. *)
Ltac go_inv :=
  repeat match goal with
  | H : go_bind _ _ = Val _ |- _ =>
      let a := fresh "a" in let Ha := fresh "H" in
      apply go_bind_Val in H as (a & Ha & H)
  | H : Val _ = Val _ |- _ => injection H as H; subst
  end.

Lemma chan_try_send_open {A} (ch : chan A) x :
  chan_open ch ->
  chan_try_send ch x = Val (Some (mkChan (ch_buf ch ++ [x]) (ch_cap ch) false))
    /\ (length (ch_buf ch) < ch_cap ch)%nat
  \/ chan_try_send ch x = Val None /\ (ch_cap ch <= length (ch_buf ch))%nat.
Proof.
  unfold chan_open, chan_try_send. intros ->.
  destruct (length (ch_buf ch) <? ch_cap ch)%nat eqn:E;
    [apply Nat.ltb_lt in E | apply Nat.ltb_ge in E]; auto.
Qed.

Lemma chan_close_open {A} (ch : chan A) :
  chan_open ch -> chan_close ch = Val (mkChan (ch_buf ch) (ch_cap ch) true).
Proof. unfold chan_open, chan_close. by intros ->. Qed.
