(* ===== verification/Resize.v ===== *)
(** * Resize: terminal sizes and the resize policy

    Models the size part of [internal/daemon/session.go] ([termSize], the
    packed [sizeVal]) and [applyResizePolicy] of
    [internal/daemon/session_clients.go], with the policies of
    [internal/config/config.go]. *)
From S2P Require Import Prelude Chan.
From stdpp Require Import base list strings.
From Stdlib Require Import ZArith Lia.
#[local] Open Scope Z_scope.

(** [config.ResizePolicy] is a string type. *)
Abbreviation ResizePolicy := string.
Definition ResizePolicySmallest : ResizePolicy := "smallest".
Definition ResizePolicyLargest : ResizePolicy := "largest".
Definition ResizePolicyFirst : ResizePolicy := "first".
Definition ResizePolicyLast : ResizePolicy := "last".

Record termSize := mkTermSize { cols : Z; rows : Z; xpixel : Z; ypixel : Z }.

#[export] Instance termSize_eq_dec : EqDecision termSize.
Proof. solve_decision. Defined.

(** [pty.Winsize]. *)
Record Winsize := mkWinsize { ws_Rows : Z; ws_Cols : Z; ws_X : Z; ws_Y : Z }.

Definition winsize (s : termSize) : Winsize :=
  mkWinsize (rows s) (cols s) (xpixel s) (ypixel s).

(** [sizeVal] packs [cols<<16 | rows] in a uint32. *)
Definition pack_size (c r : Z) : Z := Z.lor (u32 (Z.shiftl (u32 c) 16)) (u32 r).

Definition unpack_size (v : Z) : Z * Z := (u16 (Z.shiftr v 16), u16 v).

Definition MaxUint16 : Z := 65535.

(** One round of the loops of [applyResizePolicy]. *)
Definition max_size (size candidate : termSize) : termSize :=
  mkTermSize (Z.max (cols size) (cols candidate)) (Z.max (rows size) (rows candidate))
    (Z.max (xpixel size) (xpixel candidate)) (Z.max (ypixel size) (ypixel candidate)).

Definition min_size (size candidate : termSize) : termSize :=
  mkTermSize (Z.min (cols size) (cols candidate)) (Z.min (rows size) (rows candidate))
    (Z.min (xpixel size) (xpixel candidate)) (Z.min (ypixel size) (ypixel candidate)).

(** Indexing an empty slice panics. *)
Definition applyResizePolicy (policy : ResizePolicy) (sizes : list termSize) : go termSize :=
  if decide (policy = ResizePolicyLargest) then
    Val (fold_left max_size sizes (mkTermSize 0 0 0 0))
  else if decide (policy = ResizePolicyLast) then
    match last sizes with Some s => Val s | None => Panic "index out of range [-1]" end
  else if decide (policy = ResizePolicyFirst) then
    match head sizes with Some s => Val s | None => Panic "index out of range [0]" end
  else
    Val (fold_left min_size sizes
           (mkTermSize MaxUint16 MaxUint16 MaxUint16 MaxUint16)).

Definition termSize_ok (s : termSize) : Prop :=
  is_u16 (cols s) /\ is_u16 (rows s) /\ is_u16 (xpixel s) /\ is_u16 (ypixel s).

(** [s1] is no larger than [s2] in any dimension. *)
Definition size_le (s1 s2 : termSize) : Prop :=
  cols s1 <= cols s2 /\ rows s1 <= rows s2 /\
  xpixel s1 <= xpixel s2 /\ ypixel s1 <= ypixel s2.

(** What each policy promises about its result, abstractly: the greatest size
    below all clients, the least above all clients, the first or the last. *)
Definition policy_spec (policy : ResizePolicy) (sizes : list termSize) (s : termSize) : Prop :=
  if decide (policy = ResizePolicyLargest) then
    Forall (fun c => size_le c s) sizes /\
    forall b, Forall (fun c => size_le c b) sizes -> size_le s b
  else if decide (policy = ResizePolicyLast) then last sizes = Some s
  else if decide (policy = ResizePolicyFirst) then head sizes = Some s
  else
    Forall (size_le s) sizes /\
    forall b, Forall (size_le b) sizes -> size_le b s.

(** ** Lemmas *)

Ltac size_lia := unfold size_le, termSize_ok in *; cbn in *; split_ands; try width_lia.

Lemma fold_max_size sizes s0 :
  let s := fold_left max_size sizes s0 in
  size_le s0 s /\ Forall (fun c => size_le c s) sizes /\
  forall b, size_le s0 b -> Forall (fun c => size_le c b) sizes -> size_le s b.
Proof.
  revert s0. induction sizes as [|c sizes IH]; intros s0; cbn [fold_left].
  - split_ands; [size_lia.. | constructor | auto].
  - destruct (IH (max_size s0 c)) as (H1 & H2 & H3). cbn zeta.
    assert (size_le s0 (fold_left max_size sizes (max_size s0 c))) by (clear H3; size_lia).
    assert (size_le c (fold_left max_size sizes (max_size s0 c))) by (clear H3; size_lia).
    split; [done|]. split; [by constructor|].
    intros b Hb Hall. inversion Hall; subst. apply H3; [|done]. clear H3 IH. size_lia.
Qed.

Lemma fold_min_size sizes s0 :
  let s := fold_left min_size sizes s0 in
  size_le s s0 /\ Forall (size_le s) sizes /\
  forall b, size_le b s0 -> Forall (size_le b) sizes -> size_le b s.
Proof.
  revert s0. induction sizes as [|c sizes IH]; intros s0; cbn [fold_left].
  - split_ands; [size_lia.. | constructor | auto].
  - destruct (IH (min_size s0 c)) as (H1 & H2 & H3). cbn zeta.
    assert (size_le (fold_left min_size sizes (min_size s0 c)) s0) by (clear H3; size_lia).
    assert (size_le (fold_left min_size sizes (min_size s0 c)) c) by (clear H3; size_lia).
    split; [done|]. split; [by constructor|].
    intros b Hb Hall. inversion Hall; subst. apply H3; [|done]. clear H3 IH. size_lia.
Qed.

Lemma Forall_head {A} (P : A -> Prop) l x : Forall P l -> head l = Some x -> P x.
Proof. intros Hall Hh. destruct Hall; simplify_eq/=; done. Qed.

Lemma Forall_last {A} (P : A -> Prop) l x : Forall P l -> last l = Some x -> P x.
Proof. intros Hall Hl. apply last_Some_elem_of in Hl. by eapply Forall_forall in Hl. Qed.

Lemma u16_bounds_of_fit sizes b :
  sizes <> [] -> Forall termSize_ok sizes ->
  (Forall (size_le b) sizes ->
   size_le b (mkTermSize MaxUint16 MaxUint16 MaxUint16 MaxUint16)) /\
  (Forall (fun c => size_le c b) sizes -> size_le (mkTermSize 0 0 0 0) b).
Proof.
  destruct sizes as [|c cs]; [done|]. intros _ Hok.
  apply Forall_cons in Hok as [Hc _].
  split; intros [Hb _]%Forall_cons; unfold MaxUint16; size_lia.
Qed.

Lemma policy_result_ok policy sizes s :
  sizes <> [] -> Forall termSize_ok sizes ->
  applyResizePolicy policy sizes = Val s -> termSize_ok s.
Proof.
  intros Hne Hok. unfold applyResizePolicy. repeat case_decide; intros H'.
  - injection H' as <-.
    destruct (fold_max_size sizes (mkTermSize 0 0 0 0)) as (Hlo & _ & Hub).
    specialize (Hub (mkTermSize MaxUint16 MaxUint16 MaxUint16 MaxUint16)
      ltac:(unfold size_le; cbn; unfold MaxUint16; lia)
      ltac:(eapply Forall_impl; [exact Hok|]; intros c Hc; unfold MaxUint16; size_lia)).
    unfold MaxUint16 in *; size_lia.
  - destruct (last sizes) eqn:E; simplify_eq. by eapply Forall_last.
  - destruct (head sizes) eqn:E; simplify_eq. by eapply Forall_head.
  - injection H' as <-.
    destruct (fold_min_size sizes (mkTermSize MaxUint16 MaxUint16 MaxUint16 MaxUint16))
      as (Hlo & _ & Hub).
    specialize (Hub (mkTermSize 0 0 0 0)
      ltac:(unfold size_le; cbn; unfold MaxUint16; lia)
      ltac:(eapply Forall_impl; [exact Hok|]; intros c Hc; size_lia)).
    unfold MaxUint16 in *; size_lia.
Qed.

Lemma policy_returns policy sizes :
  sizes <> [] -> exists s, applyResizePolicy policy sizes = Val s.
Proof.
  intros Hne. unfold applyResizePolicy. repeat case_decide; eauto.
  - destruct (last sizes) eqn:E; eauto. by apply last_None in E.
  - destruct sizes; [done | eauto].
Qed.

Lemma lor_shift_16 c r : is_u16 r -> Z.lor (Z.shiftl c 16) r = c * 65536 + r.
Proof.
  intros Hr. pose proof (Z.add_lor_land (Z.shiftl c 16) r) as H.
  assert (Z.land (Z.shiftl c 16) r = 0) as H0.
  { apply Z.bits_inj'. intros n Hn. rewrite Z.land_spec, Z.bits_0, Z.shiftl_spec by done.
    destruct (decide (n < 16)).
    - by rewrite Z.testbit_neg_r by lia.
    - rewrite <- (Z.mod_small r (2 ^ 16)) by done.
      rewrite Z.mod_pow2_bits_high by lia. apply andb_false_r. }
  rewrite H0, Z.add_0_r in H. rewrite H, Z.shiftl_mul_pow2 by lia. done.
Qed.

(** ** Properties *)

(** C36. The resize policy: for any non-empty list of client sizes,
    [applyResizePolicy] returns (it never indexes out of range) an in-range size
    that is what the policy promises: the greatest size no larger than any
    client, the least no smaller than any, the first or the last. *)
Theorem applyResizePolicy_correct policy sizes :
  sizes <> [] -> Forall termSize_ok sizes ->
  exists s, applyResizePolicy policy sizes = Val s /\ termSize_ok s /\
    policy_spec policy sizes s.
Proof.
  intros Hne Hok. destruct (policy_returns policy sizes Hne) as [s Hs].
  exists s. split; [done|]. split; [by eapply policy_result_ok|].
  pose proof (fun b => u16_bounds_of_fit sizes b Hne Hok) as Hb.
  revert Hs. unfold applyResizePolicy, policy_spec. repeat case_decide; intros Hs.
  - injection Hs as <-. destruct (fold_max_size sizes (mkTermSize 0 0 0 0)) as (_ & Hfit & Hub).
    split; [done|]. intros b Hall. apply Hub; [by apply Hb | done].
  - destruct (last sizes); by simplify_eq.
  - destruct (head sizes); by simplify_eq.
  - injection Hs as <-.
    destruct (fold_min_size sizes (mkTermSize MaxUint16 MaxUint16 MaxUint16 MaxUint16))
      as (_ & Hfit & Hub).
    split; [done|]. intros b Hall. apply Hub; [by apply Hb | done].
Qed.

(** The packed size: [setSize] then [size] gives back the two uint16 values,
    and the packed word is a uint32. *)
Theorem unpack_pack_size c r :
  is_u16 c -> is_u16 r -> unpack_size (pack_size c r) = (c, r) /\ is_u32 (pack_size c r).
Proof.
  intros Hc Hr. unfold pack_size, unpack_size.
  assert (u32 (Z.shiftl (u32 c) 16) = Z.shiftl c 16) as ->.
  { replace (u32 c) with c by width_lia. rewrite Z.shiftl_mul_pow2 by lia. width_lia. }
  replace (u32 r) with r by width_lia. rewrite lor_shift_16 by done.
  rewrite Z.shiftr_div_pow2 by lia. split; [f_equal|]; width_lia.
Qed.

Lemma applyResizePolicy_correct_witness :
  exists s,
    applyResizePolicy ResizePolicySmallest
      [mkTermSize 100 50 0 0; mkTermSize 80 60 0 0] = Val s /\
    termSize_ok s /\
    policy_spec ResizePolicySmallest [mkTermSize 100 50 0 0; mkTermSize 80 60 0 0] s.
Proof.
  apply (applyResizePolicy_correct ResizePolicySmallest
    [mkTermSize 100 50 0 0; mkTermSize 80 60 0 0]); [discriminate|].
  repeat constructor; by vm_compute.
Defined.

Lemma unpack_pack_size_witness :
  unpack_size (pack_size 80 24) = (80, 24) /\ is_u32 (pack_size 80 24).
Proof. apply (unpack_pack_size 80 24); by vm_compute. Defined.
