(* ===== verification/SessionLoop.v ===== *)
(** * SessionLoop: a session's run loop, its clients and its goroutines

    Models [internal/daemon/session.go], the run loop, the feed loop and the
    client writers of [session_lifecycle.go] and [session_clients.go].

    The run loop ([Session.run]) is a state machine of two phases: [Top], the
    code from the head of the [for] to the [select], and [Select], blocked in the
    [select]. [exec] gives for every event the code that runs: a branch of the
    loop's [select], or a step of another goroutine (the feed loop, a client's
    writer). Client objects are shared by pointer between the loop's two slices,
    the writers and the requests, so they live in a heap. Where the loop waits
    for the feed loop ([waitFeedApplied], [<-s.feedDone]), the feed loop is run
    until its queue is empty: nobody else sends on [feedCh]. *)
From S2P Require Import Prelude Wire Messages Chan Resize.
From stdpp Require Import base gmap sets list strings numbers pretty option.
From Stdlib Require Import ZArith Lia.
#[local] Open Scope Z_scope.

(** ** The terminal, as the session uses it *)

(** [screenDump] of [terminal_state.go]. *)
Record screenDump := mkScreenDump {
  sd_Data : bytes;
  sd_CursorRow : Z;
  sd_CursorCol : Z;
  sd_IsAltScreen : bool }.

(** The [terminalState] operations the loop calls; their bodies run the
    libghostty terminal. [term_dumpVTFull] is [dumpScreen(terminalFormatVTFull)],
    a query; an error of [term_resize] is only logged. *)
Class Terminal (T : Type) := {
  term_feed : T -> bytes -> T;
  term_resize : T -> Z -> Z -> T;
  term_dumpVTFull : T -> result screenDump }.
#[export] Hint Mode Terminal ! : typeclass_instances.

(** ** Data *)

Definition sessionClientOutBufferSize : nat := 256.
Definition feedChSize : nat := 64.
Definition ptyBatchSize : Z := 64 * 1024.

(** [feedItem]: the chunk and its [applied] channel, named by a number. *)
Record feedItem := mkFeedItem { fi_data : bytes; fi_applied : nat }.

(** A client of the session. The last three fields are the state of its writer
    goroutine and connection: whether the connection was closed, the message the
    writer took from [outCh] and is writing, and the messages it wrote. *)
Record sessionClient := mkClient {
  sc_id : string;
  sc_size : termSize;
  sc_version : string;
  sc_readOnly : bool;
  sc_outCh : chan Message;
  sc_writeDone : bool;
  sc_final : option Message;
  sc_connClosed : bool;
  sc_inflight : option Message;
  sc_written : list Message }.

(** The operating-system calls of [Session.resize]. *)
Inductive ptyCall : Type :=
| Setsize (w : Winsize)
| SignalGroup (sig : string).

(** [sessionAttachSpec], without the connection the client object carries. *)
Record sessionAttachSpec := mkAttachSpec {
  as_size : termSize;
  as_version : string;
  as_readOnly : bool;
  as_created : bool }.

(** [sessionAction]: the requests other goroutines send; a client is a pointer. *)
Inductive sessionAction : Type :=
| attachReq (spec : sessionAttachSpec)
| detachReq (client : nat)
| resizeReq (client : nat) (size : termSize)
| kickReq (clientID : string)
| clientInfoReq
| stopReq.

(** What the loop sends on a request's [result] channel. *)
Inductive reply : Type :=
| RAttach (r : result nat)
| RKick (found : bool)
| RInfo (info : list SessionClient).

Inductive phase : Type := Top | Select | Returned.

Definition set_sc_id (v : string) (c : sessionClient) : sessionClient :=
  mkClient
    v (sc_size c) (sc_version c) (sc_readOnly c) (sc_outCh c) (sc_writeDone c)
    (sc_final c) (sc_connClosed c) (sc_inflight c) (sc_written c).
Definition set_sc_size (v : termSize) (c : sessionClient) : sessionClient :=
  mkClient
    (sc_id c) v (sc_version c) (sc_readOnly c) (sc_outCh c) (sc_writeDone c)
    (sc_final c) (sc_connClosed c) (sc_inflight c) (sc_written c).
Definition set_sc_version (v : string) (c : sessionClient) : sessionClient :=
  mkClient
    (sc_id c) (sc_size c) v (sc_readOnly c) (sc_outCh c) (sc_writeDone c) (sc_final
    c) (sc_connClosed c) (sc_inflight c) (sc_written c).
Definition set_sc_readOnly (v : bool) (c : sessionClient) : sessionClient :=
  mkClient
    (sc_id c) (sc_size c) (sc_version c) v (sc_outCh c) (sc_writeDone c) (sc_final
    c) (sc_connClosed c) (sc_inflight c) (sc_written c).
Definition set_sc_outCh (v : chan Message) (c : sessionClient) : sessionClient :=
  mkClient
    (sc_id c) (sc_size c) (sc_version c) (sc_readOnly c) v (sc_writeDone c)
    (sc_final c) (sc_connClosed c) (sc_inflight c) (sc_written c).
Definition set_sc_writeDone (v : bool) (c : sessionClient) : sessionClient :=
  mkClient
    (sc_id c) (sc_size c) (sc_version c) (sc_readOnly c) (sc_outCh c) v (sc_final c)
    (sc_connClosed c) (sc_inflight c) (sc_written c).
Definition set_sc_final (v : option Message) (c : sessionClient) : sessionClient :=
  mkClient
    (sc_id c) (sc_size c) (sc_version c) (sc_readOnly c) (sc_outCh c) (sc_writeDone
    c) v (sc_connClosed c) (sc_inflight c) (sc_written c).
Definition set_sc_connClosed (v : bool) (c : sessionClient) : sessionClient :=
  mkClient
    (sc_id c) (sc_size c) (sc_version c) (sc_readOnly c) (sc_outCh c) (sc_writeDone
    c) (sc_final c) v (sc_inflight c) (sc_written c).
Definition set_sc_inflight (v : option Message) (c : sessionClient) : sessionClient :=
  mkClient
    (sc_id c) (sc_size c) (sc_version c) (sc_readOnly c) (sc_outCh c) (sc_writeDone
    c) (sc_final c) (sc_connClosed c) v (sc_written c).
Definition set_sc_written (v : list Message) (c : sessionClient) : sessionClient :=
  mkClient
    (sc_id c) (sc_size c) (sc_version c) (sc_readOnly c) (sc_outCh c) (sc_writeDone
    c) (sc_final c) (sc_connClosed c) (sc_inflight c) v.

Section Loop.
Context {T : Type} `{!Terminal T}.

(** [Session], with the local variables of [run] (from [clients] on). *)
Record Session := mkSession {
  s_Name : string;
  s_PID : Z;
  s_exitCode : Z;
  s_resizePolicy : ResizePolicy;
  s_sizeVal : Z;
  s_ptyCalls : list ptyCall;
  s_term : T;
  s_feedCh : chan feedItem;
  s_feedDone : bool;
  s_applied : gset nat;
  s_nextApplied : nat;
  s_clientReady : bool;
  s_done : bool;
  s_heap : gmap nat sessionClient;
  s_nextPtr : nat;
  clients : list nat;
  nextClientID : Z;
  pendingFeed : option feedItem;
  lastFeedApplied : option nat;
  pendingOutput : option bytes;
  pendingClients : list nat;
  s_phase : phase }.

Definition set_s_Name (v : string) (s : Session) : Session :=
  mkSession
    v (s_PID s) (s_exitCode s) (s_resizePolicy s) (s_sizeVal s) (s_ptyCalls s)
    (s_term s) (s_feedCh s) (s_feedDone s) (s_applied s) (s_nextApplied s)
    (s_clientReady s) (s_done s) (s_heap s) (s_nextPtr s) (clients s) (nextClientID
    s) (pendingFeed s) (lastFeedApplied s) (pendingOutput s) (pendingClients s)
    (s_phase s).
Definition set_s_PID (v : Z) (s : Session) : Session :=
  mkSession
    (s_Name s) v (s_exitCode s) (s_resizePolicy s) (s_sizeVal s) (s_ptyCalls s)
    (s_term s) (s_feedCh s) (s_feedDone s) (s_applied s) (s_nextApplied s)
    (s_clientReady s) (s_done s) (s_heap s) (s_nextPtr s) (clients s) (nextClientID
    s) (pendingFeed s) (lastFeedApplied s) (pendingOutput s) (pendingClients s)
    (s_phase s).
Definition set_s_exitCode (v : Z) (s : Session) : Session :=
  mkSession
    (s_Name s) (s_PID s) v (s_resizePolicy s) (s_sizeVal s) (s_ptyCalls s) (s_term
    s) (s_feedCh s) (s_feedDone s) (s_applied s) (s_nextApplied s) (s_clientReady s)
    (s_done s) (s_heap s) (s_nextPtr s) (clients s) (nextClientID s) (pendingFeed s)
    (lastFeedApplied s) (pendingOutput s) (pendingClients s) (s_phase s).
Definition set_s_resizePolicy (v : ResizePolicy) (s : Session) : Session :=
  mkSession
    (s_Name s) (s_PID s) (s_exitCode s) v (s_sizeVal s) (s_ptyCalls s) (s_term s)
    (s_feedCh s) (s_feedDone s) (s_applied s) (s_nextApplied s) (s_clientReady s)
    (s_done s) (s_heap s) (s_nextPtr s) (clients s) (nextClientID s) (pendingFeed s)
    (lastFeedApplied s) (pendingOutput s) (pendingClients s) (s_phase s).
Definition set_s_sizeVal (v : Z) (s : Session) : Session :=
  mkSession
    (s_Name s) (s_PID s) (s_exitCode s) (s_resizePolicy s) v (s_ptyCalls s) (s_term
    s) (s_feedCh s) (s_feedDone s) (s_applied s) (s_nextApplied s) (s_clientReady s)
    (s_done s) (s_heap s) (s_nextPtr s) (clients s) (nextClientID s) (pendingFeed s)
    (lastFeedApplied s) (pendingOutput s) (pendingClients s) (s_phase s).
Definition set_s_ptyCalls (v : list ptyCall) (s : Session) : Session :=
  mkSession
    (s_Name s) (s_PID s) (s_exitCode s) (s_resizePolicy s) (s_sizeVal s) v (s_term
    s) (s_feedCh s) (s_feedDone s) (s_applied s) (s_nextApplied s) (s_clientReady s)
    (s_done s) (s_heap s) (s_nextPtr s) (clients s) (nextClientID s) (pendingFeed s)
    (lastFeedApplied s) (pendingOutput s) (pendingClients s) (s_phase s).
Definition set_s_term (v : T) (s : Session) : Session :=
  mkSession
    (s_Name s) (s_PID s) (s_exitCode s) (s_resizePolicy s) (s_sizeVal s) (s_ptyCalls
    s) v (s_feedCh s) (s_feedDone s) (s_applied s) (s_nextApplied s) (s_clientReady
    s) (s_done s) (s_heap s) (s_nextPtr s) (clients s) (nextClientID s) (pendingFeed
    s) (lastFeedApplied s) (pendingOutput s) (pendingClients s) (s_phase s).
Definition set_s_feedCh (v : chan feedItem) (s : Session) : Session :=
  mkSession
    (s_Name s) (s_PID s) (s_exitCode s) (s_resizePolicy s) (s_sizeVal s) (s_ptyCalls
    s) (s_term s) v (s_feedDone s) (s_applied s) (s_nextApplied s) (s_clientReady s)
    (s_done s) (s_heap s) (s_nextPtr s) (clients s) (nextClientID s) (pendingFeed s)
    (lastFeedApplied s) (pendingOutput s) (pendingClients s) (s_phase s).
Definition set_s_feedDone (v : bool) (s : Session) : Session :=
  mkSession
    (s_Name s) (s_PID s) (s_exitCode s) (s_resizePolicy s) (s_sizeVal s) (s_ptyCalls
    s) (s_term s) (s_feedCh s) v (s_applied s) (s_nextApplied s) (s_clientReady s)
    (s_done s) (s_heap s) (s_nextPtr s) (clients s) (nextClientID s) (pendingFeed s)
    (lastFeedApplied s) (pendingOutput s) (pendingClients s) (s_phase s).
Definition set_s_applied (v : gset nat) (s : Session) : Session :=
  mkSession
    (s_Name s) (s_PID s) (s_exitCode s) (s_resizePolicy s) (s_sizeVal s) (s_ptyCalls
    s) (s_term s) (s_feedCh s) (s_feedDone s) v (s_nextApplied s) (s_clientReady s)
    (s_done s) (s_heap s) (s_nextPtr s) (clients s) (nextClientID s) (pendingFeed s)
    (lastFeedApplied s) (pendingOutput s) (pendingClients s) (s_phase s).
Definition set_s_nextApplied (v : nat) (s : Session) : Session :=
  mkSession
    (s_Name s) (s_PID s) (s_exitCode s) (s_resizePolicy s) (s_sizeVal s) (s_ptyCalls
    s) (s_term s) (s_feedCh s) (s_feedDone s) (s_applied s) v (s_clientReady s)
    (s_done s) (s_heap s) (s_nextPtr s) (clients s) (nextClientID s) (pendingFeed s)
    (lastFeedApplied s) (pendingOutput s) (pendingClients s) (s_phase s).
Definition set_s_clientReady (v : bool) (s : Session) : Session :=
  mkSession
    (s_Name s) (s_PID s) (s_exitCode s) (s_resizePolicy s) (s_sizeVal s) (s_ptyCalls
    s) (s_term s) (s_feedCh s) (s_feedDone s) (s_applied s) (s_nextApplied s) v
    (s_done s) (s_heap s) (s_nextPtr s) (clients s) (nextClientID s) (pendingFeed s)
    (lastFeedApplied s) (pendingOutput s) (pendingClients s) (s_phase s).
Definition set_s_done (v : bool) (s : Session) : Session :=
  mkSession
    (s_Name s) (s_PID s) (s_exitCode s) (s_resizePolicy s) (s_sizeVal s) (s_ptyCalls
    s) (s_term s) (s_feedCh s) (s_feedDone s) (s_applied s) (s_nextApplied s)
    (s_clientReady s) v (s_heap s) (s_nextPtr s) (clients s) (nextClientID s)
    (pendingFeed s) (lastFeedApplied s) (pendingOutput s) (pendingClients s)
    (s_phase s).
Definition set_s_heap (v : gmap nat sessionClient) (s : Session) : Session :=
  mkSession
    (s_Name s) (s_PID s) (s_exitCode s) (s_resizePolicy s) (s_sizeVal s) (s_ptyCalls
    s) (s_term s) (s_feedCh s) (s_feedDone s) (s_applied s) (s_nextApplied s)
    (s_clientReady s) (s_done s) v (s_nextPtr s) (clients s) (nextClientID s)
    (pendingFeed s) (lastFeedApplied s) (pendingOutput s) (pendingClients s)
    (s_phase s).
Definition set_s_nextPtr (v : nat) (s : Session) : Session :=
  mkSession
    (s_Name s) (s_PID s) (s_exitCode s) (s_resizePolicy s) (s_sizeVal s) (s_ptyCalls
    s) (s_term s) (s_feedCh s) (s_feedDone s) (s_applied s) (s_nextApplied s)
    (s_clientReady s) (s_done s) (s_heap s) v (clients s) (nextClientID s)
    (pendingFeed s) (lastFeedApplied s) (pendingOutput s) (pendingClients s)
    (s_phase s).
Definition set_clients (v : list nat) (s : Session) : Session :=
  mkSession
    (s_Name s) (s_PID s) (s_exitCode s) (s_resizePolicy s) (s_sizeVal s) (s_ptyCalls
    s) (s_term s) (s_feedCh s) (s_feedDone s) (s_applied s) (s_nextApplied s)
    (s_clientReady s) (s_done s) (s_heap s) (s_nextPtr s) v (nextClientID s)
    (pendingFeed s) (lastFeedApplied s) (pendingOutput s) (pendingClients s)
    (s_phase s).
Definition set_nextClientID (v : Z) (s : Session) : Session :=
  mkSession
    (s_Name s) (s_PID s) (s_exitCode s) (s_resizePolicy s) (s_sizeVal s) (s_ptyCalls
    s) (s_term s) (s_feedCh s) (s_feedDone s) (s_applied s) (s_nextApplied s)
    (s_clientReady s) (s_done s) (s_heap s) (s_nextPtr s) (clients s) v (pendingFeed
    s) (lastFeedApplied s) (pendingOutput s) (pendingClients s) (s_phase s).
Definition set_pendingFeed (v : option feedItem) (s : Session) : Session :=
  mkSession
    (s_Name s) (s_PID s) (s_exitCode s) (s_resizePolicy s) (s_sizeVal s) (s_ptyCalls
    s) (s_term s) (s_feedCh s) (s_feedDone s) (s_applied s) (s_nextApplied s)
    (s_clientReady s) (s_done s) (s_heap s) (s_nextPtr s) (clients s) (nextClientID
    s) v (lastFeedApplied s) (pendingOutput s) (pendingClients s) (s_phase s).
Definition set_lastFeedApplied (v : option nat) (s : Session) : Session :=
  mkSession
    (s_Name s) (s_PID s) (s_exitCode s) (s_resizePolicy s) (s_sizeVal s) (s_ptyCalls
    s) (s_term s) (s_feedCh s) (s_feedDone s) (s_applied s) (s_nextApplied s)
    (s_clientReady s) (s_done s) (s_heap s) (s_nextPtr s) (clients s) (nextClientID
    s) (pendingFeed s) v (pendingOutput s) (pendingClients s) (s_phase s).
Definition set_pendingOutput (v : option bytes) (s : Session) : Session :=
  mkSession
    (s_Name s) (s_PID s) (s_exitCode s) (s_resizePolicy s) (s_sizeVal s) (s_ptyCalls
    s) (s_term s) (s_feedCh s) (s_feedDone s) (s_applied s) (s_nextApplied s)
    (s_clientReady s) (s_done s) (s_heap s) (s_nextPtr s) (clients s) (nextClientID
    s) (pendingFeed s) (lastFeedApplied s) v (pendingClients s) (s_phase s).
Definition set_pendingClients (v : list nat) (s : Session) : Session :=
  mkSession
    (s_Name s) (s_PID s) (s_exitCode s) (s_resizePolicy s) (s_sizeVal s) (s_ptyCalls
    s) (s_term s) (s_feedCh s) (s_feedDone s) (s_applied s) (s_nextApplied s)
    (s_clientReady s) (s_done s) (s_heap s) (s_nextPtr s) (clients s) (nextClientID
    s) (pendingFeed s) (lastFeedApplied s) (pendingOutput s) v (s_phase s).
Definition set_s_phase (v : phase) (s : Session) : Session :=
  mkSession
    (s_Name s) (s_PID s) (s_exitCode s) (s_resizePolicy s) (s_sizeVal s) (s_ptyCalls
    s) (s_term s) (s_feedCh s) (s_feedDone s) (s_applied s) (s_nextApplied s)
    (s_clientReady s) (s_done s) (s_heap s) (s_nextPtr s) (clients s) (nextClientID
    s) (pendingFeed s) (lastFeedApplied s) (pendingOutput s) (pendingClients s) v.

(** ** Pointers *)

(** A pointer dereference: nil and dangling pointers panic. *)
Definition deref (p : nat) (s : Session) : go sessionClient :=
  match s_heap s !! p with
  | Some c => Val c
  | None => Panic "nil pointer dereference"
  end.

Definition store (p : nat) (c : sessionClient) (s : Session) : Session :=
  set_s_heap (<[p := c]> (s_heap s)) s.

(** ** Size *)

Definition Session_size (s : Session) : Z * Z := unpack_size (s_sizeVal s).

Definition setSize (c r : Z) (s : Session) : Session := set_s_sizeVal (pack_size c r) s.

Definition isRunning (s : Session) : bool := negb (s_done s).

Definition resize (sz : termSize) (s : Session) : Session :=
  let s := setSize (cols sz) (rows sz) s in
  let s := set_s_ptyCalls
    (s_ptyCalls s ++ [Setsize (winsize sz); SignalGroup "SIGWINCH"]) s in
  set_s_term (term_resize (s_term s) (cols sz) (rows sz)) s.

Fixpoint collectClientSizes (cs : list nat) (s : Session) : go (list termSize) :=
  match cs with
  | [] => Val []
  | p :: cs' =>
      let! c := deref p s in
      let! sizes := collectClientSizes cs' s in
      Val (if sc_readOnly c then sizes else sc_size c :: sizes)
  end.

(** The common tail of [arbitrateResize] and [resizeForPending]. *)
Definition resize_to_target (sizes : list termSize) (s : Session) : go Session :=
  let! target := applyResizePolicy (s_resizePolicy s) sizes in
  let '(curCols, curRows) := Session_size s in
  Val (if negb (cols target =? curCols) || negb (rows target =? curRows)
       then resize target s else s).

Definition arbitrateResize (cs : list nat) (s : Session) : go Session :=
  let! sizes := collectClientSizes cs s in
  if (length sizes =? 0)%nat then Val s else resize_to_target sizes s.

Definition resizeForPending (cs : list nat) (sz : termSize) (s : Session) : go Session :=
  let! sizes := collectClientSizes cs s in
  resize_to_target (sizes ++ [sz]) s.

(** ** Client lists *)

Fixpoint removeClient (cs : list nat) (target : nat) : list nat :=
  match cs with
  | [] => []
  | p :: cs' => if (p =? target)%nat then cs' else p :: removeClient cs' target
  end.

Fixpoint queueOutput (cs : list nat) (data : bytes) (s : Session) :
    go (list nat * Session) :=
  match cs with
  | [] => Val ([], s)
  | p :: cs' =>
      let! c := deref p s in
      if sc_writeDone c then queueOutput cs' data s
      else
        let! r := chan_try_send (sc_outCh c) (MsgOutput (mkOutput data)) in
        match r with
        | Some ch => queueOutput cs' data (store p (set_sc_outCh ch c) s)
        | None =>
            let! (pending, s) := queueOutput cs' data s in
            Val (p :: pending, s)
        end
  end.

(** Returns the kept clients, the pending clients, whether any was dropped. *)
Fixpoint pruneFinishedClients (cs pending : list nat) (s : Session) :
    go (list nat * list nat * bool * Session) :=
  match cs with
  | [] => Val ([], pending, false, s)
  | p :: cs' =>
      let! c := deref p s in
      if sc_writeDone c then
        let! ch := chan_close (sc_outCh c) in
        let! (kept, pending, _, s) :=
          pruneFinishedClients cs' (removeClient pending p)
            (store p (set_sc_outCh ch c) s) in
        Val (kept, pending, true, s)
      else
        let! (kept, pending, changed, s) := pruneFinishedClients cs' pending s in
        Val (p :: kept, pending, changed, s)
  end.

(** [select { case c.outCh <- msg: default: }] for each client. *)
Fixpoint offer_all (cs : list nat) (msg : Message) (s : Session) : go Session :=
  match cs with
  | [] => Val s
  | p :: cs' =>
      let! c := deref p s in
      let! r := chan_try_send (sc_outCh c) msg in
      match r with
      | Some ch => offer_all cs' msg (store p (set_sc_outCh ch c) s)
      | None => offer_all cs' msg s
      end
  end.

Definition notifyClientsChanged (cs : list nat) (s : Session) : go Session :=
  let '(c, r) := Session_size s in
  offer_all cs (MsgClientsChanged (mkClientsChanged (u16 (blen cs)) c r)) s.

(** [close(c.outCh)]. *)
Definition close_out (p : nat) (s : Session) : go Session :=
  let! c := deref p s in
  let! ch := chan_close (sc_outCh c) in
  Val (store p (set_sc_outCh ch c) s).

(** [_ = c.closeConn()]. *)
Definition close_conn (p : nat) (s : Session) : go Session :=
  let! c := deref p s in
  Val (store p (set_sc_connClosed true c) s).

(** ** The feed loop *)

(** Close the [applied] channel of an item. *)
Definition close_applied (n : nat) (s : Session) : go Session :=
  if decide (n ∈ s_applied s) then Panic "close of closed channel"
  else Val (set_s_applied ({[n]} ∪ s_applied s) s).

(** One round of [feedLoop]. *)
Definition feed_one (it : feedItem) (s : Session) : go Session :=
  close_applied (fi_applied it) (set_s_term (term_feed (s_term s) (fi_data it)) s).

Fixpoint feed_all (items : list feedItem) (s : Session) : go Session :=
  match items with
  | [] => Val s
  | it :: items' => let! s := feed_one it s in feed_all items' s
  end.

(** The feed loop run until [feedCh] is empty. *)
Definition drain (s : Session) : go Session :=
  let ch := s_feedCh s in
  feed_all (ch_buf ch) (set_s_feedCh (mkChan [] (ch_cap ch) (ch_closed ch)) s).

(** [waitFeedApplied(lastFeedApplied)]. *)
Definition waitFeedApplied (last : option nat) (s : Session) : go Session :=
  match last with
  | None => Val s
  | Some n =>
      let! s := drain s in
      if decide (n ∈ s_applied s) then Val s else Stuck "receive on applied"
  end.

(** [close(s.feedCh); <-s.feedDone]. *)
Definition close_feed (s : Session) : go Session :=
  let! ch := chan_close (s_feedCh s) in
  let! s := drain (set_s_feedCh ch s) in
  Val (set_s_feedDone true s).

(** ** The run loop *)

(** [if len(pendingClients) == 0 { pendingOutput = nil }]. *)
Definition settle_output (s : Session) : Session :=
  match pendingClients s with
  | [] => set_pendingOutput None s
  | _ => s
  end.

(** [clients, pendingClients, changed = pruneFinishedClients(...)] and the
    notification, at the head of the loop and before an action. *)
Definition prune (s : Session) : go Session :=
  let! (kept, pending, changed, s) := pruneFinishedClients (clients s) (pendingClients s) s in
  let s := set_pendingClients pending (set_clients kept s) in
  let! s := if changed then notifyClientsChanged (clients s) s else Val s in
  Val (settle_output s).

(** From the head of the [for] to the [select]. *)
Definition loop_head (s : Session) : go Session :=
  let! s := prune s in
  let! s :=
    match pendingOutput s with
    | None => Val s
    | Some data =>
        let! (pending, s) := queueOutput (pendingClients s) data s in
        Val (settle_output (set_pendingClients pending s))
    end in
  Val (set_s_phase Select s).

(** [case data, ok := <-ptyCh] with [ok]. *)
Definition on_pty_data (data : bytes) (s : Session) : go Session :=
  let! (pending, s) := queueOutput (clients s) data s in
  let s := set_pendingClients pending s in
  let s := match pending with [] => s | _ => set_pendingOutput (Some data) s end in
  if ptyBatchSize <? blen data then Panic "slice bounds out of range"
  else
    let applied := s_nextApplied s in
    let s := set_s_nextApplied (S applied) s in
    let s := set_pendingFeed (Some (mkFeedItem data applied)) s in
    Val (set_s_phase Top (set_lastFeedApplied (Some applied) s)).

(** [c.final = exitMsg; close(c.outCh)] for each client. *)
Fixpoint finish_clients (cs : list nat) (exitMsg : Message) (s : Session) : go Session :=
  match cs with
  | [] => Val s
  | p :: cs' =>
      let! c := deref p s in
      let! s := close_out p (store p (set_sc_final (Some exitMsg) c) s) in
      finish_clients cs' exitMsg s
  end.

(** The loop returns: the deferred [close(s.done)]. *)
Definition loop_return (s : Session) : Session := set_s_done true (set_s_phase Returned s).

(** [case data, ok := <-ptyCh] with [!ok]: the process ended. *)
Definition on_pty_closed (s : Session) : go Session :=
  let! s := waitFeedApplied (lastFeedApplied s) s in
  let! s := close_feed s in
  let! s := finish_clients (clients s) (MsgExited (mkExited (s_exitCode s))) s in
  Val (loop_return s).

(** [fmt.Sprintf("%d", nextClientID)]. *)
Definition client_id (n : Z) : string := pretty n.

(** [if pendingFeed != nil { s.feedCh <- *pendingFeed; pendingFeed = nil }]: the
    send waits for room, which the feed loop makes. *)
Definition push_pending (s : Session) : go Session :=
  match pendingFeed s with
  | None => Val s
  | Some it =>
      let! s := if (length (ch_buf (s_feedCh s)) <? ch_cap (s_feedCh s))%nat
                then Val s else drain s in
      let! ch := chan_send (s_feedCh s) it in
      Val (set_pendingFeed None (set_s_feedCh ch s))
  end.

Definition on_attach (spec : sessionAttachSpec) (s : Session) : go (Session * option reply) :=
  let! s := if as_readOnly spec then Val s
            else resizeForPending (clients s) (as_size spec) s in
  let! s := push_pending s in
  let! s := waitFeedApplied (lastFeedApplied s) s in
  match term_dumpVTFull (s_term s) with
  | Err e => Val (set_s_phase Top s, Some (RAttach (Err e)))
  | Ok dump =>
      let s := set_nextClientID (u64 (nextClientID s + 1)) s in
      let clientID := client_id (nextClientID s) in
      let '(c, r) := Session_size s in
      let! ch := chan_send (make_chan sessionClientOutBufferSize)
        (MsgAttached (mkAttached (s_Name s) (s_PID s) clientID c r (sd_Data dump)
           (sd_CursorRow dump) (sd_CursorCol dump) (sd_IsAltScreen dump)
           (as_created spec))) in
      let p := s_nextPtr s in
      let s := set_s_nextPtr (S p) s in
      let s := store p (mkClient clientID (as_size spec) (as_version spec)
        (as_readOnly spec) ch false None false None []) s in
      let s := set_clients (clients s ++ [p]) s in
      let! s := if as_readOnly spec then Val s else arbitrateResize (clients s) s in
      let! s := notifyClientsChanged (clients s) s in
      Val (set_s_phase Top s, Some (RAttach (Ok p)))
  end.

(** Drop a client from both slices and close its channel. *)
Definition drop_client (p : nat) (s : Session) : go Session :=
  let s := set_clients (removeClient (clients s) p) s in
  let s := settle_output (set_pendingClients (removeClient (pendingClients s) p) s) in
  close_out p s.

Definition on_detach (p : nat) (s : Session) : go (Session * option reply) :=
  if (length (removeClient (clients s) p) =? length (clients s))%nat
  then Val (set_s_phase Top s, None)
  else
    let! s := drop_client p s in
    let! s := arbitrateResize (clients s) s in
    let! s := notifyClientsChanged (clients s) s in
    Val (set_s_phase Top s, None).

Fixpoint find_client (cs : list nat) (id : string) (s : Session) : go (option nat) :=
  match cs with
  | [] => Val None
  | p :: cs' =>
      let! c := deref p s in
      if String.eqb (sc_id c) id then Val (Some p) else find_client cs' id s
  end.

Definition on_kick (id : string) (s : Session) : go (Session * option reply) :=
  let! target := find_client (clients s) id s in
  match target with
  | None => Val (set_s_phase Top s, Some (RKick false))
  | Some p =>
      let! s := drop_client p s in
      let! s := close_conn p s in
      let! s := arbitrateResize (clients s) s in
      let! s := notifyClientsChanged (clients s) s in
      Val (set_s_phase Top s, Some (RKick true))
  end.

Definition on_resize (p : nat) (sz : termSize) (s : Session) : go (Session * option reply) :=
  let! c := deref p s in
  let! s := arbitrateResize (clients s) (store p (set_sc_size sz c) s) in
  Val (set_s_phase Top s, None).

Fixpoint client_infos (cs : list nat) (s : Session) : go (list SessionClient) :=
  match cs with
  | [] => Val []
  | p :: cs' =>
      let! c := deref p s in
      let! infos := client_infos cs' s in
      Val (mkSessionClient (sc_id c) (sc_readOnly c) (sc_version c) :: infos)
  end.

Definition on_clientInfo (s : Session) : go (Session * option reply) :=
  let! info := client_infos (clients s) s in
  Val (set_s_phase Top s, Some (RInfo info)).

Fixpoint stop_clients (cs : list nat) (s : Session) : go Session :=
  match cs with
  | [] => Val s
  | p :: cs' =>
      let! s := close_out p s in
      let! s := close_conn p s in
      stop_clients cs' s
  end.

Definition on_stop (s : Session) : go (Session * option reply) :=
  let! s :=
    match pendingFeed s with
    | None => Val s
    | Some it => let! s := close_applied (fi_applied it) s in Val (set_pendingFeed None s)
    end in
  let! s := close_feed s in
  let! s := stop_clients (clients s) s in
  Val (loop_return s, None).

(** [case action := <-s.actions]. *)
Definition on_action (a : sessionAction) (s : Session) : go (Session * option reply) :=
  let! s := prune s in
  match a with
  | attachReq spec => on_attach spec s
  | detachReq p => on_detach p s
  | kickReq id => on_kick id s
  | resizeReq p sz => on_resize p sz s
  | clientInfoReq => on_clientInfo s
  | stopReq => on_stop s
  end.

(** ** Events *)

Inductive event : Type :=
| EvTop                          (* the loop reaches its select *)
| EvPty (data : bytes)           (* a chunk from the gather stage *)
| EvPtyClosed                    (* the gather stage closed ptyOut *)
| EvFeedSend                     (* feedCh accepts the pending chunk *)
| EvClientReady                  (* a writer signalled clientReady *)
| EvAction (a : sessionAction)   (* a request *)
| EvFeedLoop                     (* the feed loop takes one item *)
| EvWriterTake (p : nat)         (* a writer takes a message from outCh *)
| EvWriterOk (p : nat)           (* WriteMessage returned nil *)
| EvWriterErr (p : nat)          (* WriteMessage returned an error *)
| EvWriterFinal (p : nat) (ok : bool)  (* outCh is closed and empty *)
| EvConnClosed (p : nat).        (* the connection handler closed it *)

Definition no_reply (x : go Session) : go (Session * option reply) :=
  let! s := x in Val (s, None).

(** A deferred [select { case c.ready <- struct{}{}: default: }]. *)
Definition writer_exit (p : nat) (c : sessionClient) (s : Session) : Session :=
  set_s_clientReady true (store p (set_sc_writeDone true c) s).

(** [writeLoop] between two blocking points. *)
Definition writer_take (p : nat) (s : Session) : option Session :=
  match s_heap s !! p with
  | Some c =>
      match sc_writeDone c, sc_inflight c, ch_buf (sc_outCh c) with
      | false, None, m :: ms =>
          let ch := mkChan ms (ch_cap (sc_outCh c)) (ch_closed (sc_outCh c)) in
          Some (set_s_clientReady true
                  (store p (set_sc_inflight (Some m) (set_sc_outCh ch c)) s))
      | _, _, _ => None
      end
  | None => None
  end.

Definition writer_ok (p : nat) (s : Session) : option Session :=
  match s_heap s !! p with
  | Some c =>
      match sc_inflight c, sc_connClosed c with
      | Some m, false =>
          Some (store p (set_sc_inflight None
                           (set_sc_written (sc_written c ++ [m]) c)) s)
      | _, _ => None
      end
  | None => None
  end.

Definition writer_err (p : nat) (s : Session) : option Session :=
  match s_heap s !! p with
  | Some c =>
      match sc_inflight c with
      | Some m => Some (writer_exit p (set_sc_inflight None (set_sc_connClosed true c)) s)
      | None => None
      end
  | None => None
  end.

Definition writer_final (p : nat) (ok : bool) (s : Session) : option Session :=
  match s_heap s !! p with
  | Some c =>
      match sc_writeDone c, sc_inflight c, ch_buf (sc_outCh c), ch_closed (sc_outCh c) with
      | false, None, [], true =>
          match sc_final c with
          | None => Some (writer_exit p c s)
          | Some m =>
              if ok then
                if sc_connClosed c then None
                else Some (writer_exit p (set_sc_written (sc_written c ++ [m]) c) s)
              else Some (writer_exit p (set_sc_connClosed true c) s)
          end
      | _, _, _, _ => None
      end
  | None => None
  end.

(** The code an event runs; [None] when the event cannot happen. *)
Definition exec (ev : event) (s : Session) : option (go (Session * option reply)) :=
  match ev with
  | EvTop =>
      match s_phase s with Top => Some (no_reply (loop_head s)) | _ => None end
  | EvPty data =>
      match s_phase s, pendingFeed s, pendingOutput s with
      | Select, None, None => Some (no_reply (on_pty_data data s))
      | _, _, _ => None
      end
  | EvPtyClosed =>
      match s_phase s, pendingFeed s, pendingOutput s with
      | Select, None, None => Some (no_reply (on_pty_closed s))
      | _, _, _ => None
      end
  | EvFeedSend =>
      match s_phase s, pendingFeed s with
      | Select, Some it =>
          if (length (ch_buf (s_feedCh s)) <? ch_cap (s_feedCh s))%nat then
            Some (no_reply (
              let! ch := chan_send (s_feedCh s) it in
              Val (set_s_phase Top (set_pendingFeed None (set_s_feedCh ch s)))))
          else None
      | _, _ => None
      end
  | EvClientReady =>
      match s_phase s, pendingOutput s, s_clientReady s with
      | Select, Some _, true =>
          Some (Val (set_s_phase Top (set_s_clientReady false s), None))
      | _, _, _ => None
      end
  | EvAction a =>
      match s_phase s with Select => Some (on_action a s) | _ => None end
  | EvFeedLoop =>
      match ch_buf (s_feedCh s) with
      | it :: items =>
          let ch := mkChan items (ch_cap (s_feedCh s)) (ch_closed (s_feedCh s)) in
          Some (no_reply (feed_one it (set_s_feedCh ch s)))
      | [] => None
      end
  | EvWriterTake p => (fun s => Val (s, None)) <$> writer_take p s
  | EvWriterOk p => (fun s => Val (s, None)) <$> writer_ok p s
  | EvWriterErr p => (fun s => Val (s, None)) <$> writer_err p s
  | EvWriterFinal p ok => (fun s => Val (s, None)) <$> writer_final p ok s
  | EvConnClosed p =>
      match s_heap s !! p with
      | Some c => Some (Val (store p (set_sc_connClosed true c) s, None))
      | None => None
      end
  end.

(** [startSession]: the session before its goroutines start. *)
Definition startSession (name : string) (pid exit : Z) (policy : ResizePolicy)
    (sz : termSize) (term : T) : Session :=
  setSize (cols sz) (rows sz)
    (mkSession name pid exit policy 0 [] term (make_chan feedChSize) false ∅ 0
       false false ∅ 0 [] 0 None None None [] Top).

(** ** Executions *)

(** What the other goroutines guarantee: chunks fit the feed buffers, sizes are
    uint16 values, and a request names a client the loop handed out. *)
Definition event_ok (ev : event) (s : Session) : Prop :=
  match ev with
  | EvPty data => blen data <= ptyBatchSize
  | EvAction (attachReq spec) => termSize_ok (as_size spec)
  | EvAction (resizeReq p sz) => is_Some (s_heap s !! p) /\ termSize_ok sz
  | _ => True
  end.

Inductive steps : Session -> list event -> Session -> Prop :=
| steps_nil s : steps s [] s
| steps_snoc s evs s1 ev s2 r :
    steps s evs s1 -> event_ok ev s1 -> exec ev s1 = Some (Val (s2, r)) ->
    steps s (evs ++ [ev]) s2.

(** The chunks the loop accepted from the pty. *)
Definition accepted (evs : list event) : list bytes :=
  omap (fun ev => match ev with EvPty data => Some data | _ => None end) evs.
End Loop.

Arguments Session : clear implicits.
