(* ===== verification/SessionLists.v ===== *)
(** * SessionLists: what the client-list routines of the run loop compute

    Closed forms of [queueOutput], [pruneFinishedClients] and
    [notifyClientsChanged] on a well-formed client list: which clients a message
    reaches, which stay pending, which are dropped, and what happens to the heap.
    They also show that these routines never panic there. *)
From S2P Require Import Prelude Wire Messages Chan Resize SessionLoop.
From stdpp Require Import base gmap sets list strings numbers option.
From Stdlib Require Import ZArith Lia.
#[local] Open Scope Z_scope.

(** ** Vocabulary *)

Abbreviation heap := (gmap nat sessionClient).

(** The writer of [p] has not finished. *)
Definition alive (h : heap) (p : nat) : bool :=
  match h !! p with Some c => negb (sc_writeDone c) | None => false end.

(** [p]'s channel has no room. *)
Definition full (h : heap) (p : nat) : bool :=
  match h !! p with
  | Some c => (ch_cap (sc_outCh c) <=? length (ch_buf (sc_outCh c)))%nat
  | None => false
  end.

(** Queue a message. *)
Definition push (m : Message) (c : sessionClient) : sessionClient :=
  set_sc_outCh (mkChan (ch_buf (sc_outCh c) ++ [m]) (ch_cap (sc_outCh c)) false) c.

Definition closed (c : sessionClient) : sessionClient :=
  set_sc_outCh (mkChan (ch_buf (sc_outCh c)) (ch_cap (sc_outCh c)) true) c.

(** Apply [f] to the clients selected by [sel]. *)
Definition heap_on (sel : nat -> bool) (f : sessionClient -> sessionClient) (h : heap) : heap :=
  map_imap (fun p c => Some (if sel p then f c else c)) h.

Definition in_list (cs : list nat) (p : nat) : bool := bool_decide (p ∈ cs).

(** The heap after [msg] was offered to those of [cs] that [sel] selects. *)
Definition offer_heap (cs : list nat) (sel : nat -> bool) (msg : Message) (h : heap) : heap :=
  heap_on (fun p => in_list cs p && sel p && negb (full h p)) (push msg) h.

(** Every pointer of [cs] is a client with an open channel. *)
Definition all_open (h : heap) (cs : list nat) : Prop :=
  forall p, p ∈ cs -> exists c, h !! p = Some c /\ chan_open (sc_outCh c).

(** ** Heaps *)

Lemma lookup_heap_on sel f h p :
  heap_on sel f h !! p = (fun c => if sel p then f c else c) <$> h !! p.
Proof. unfold heap_on. rewrite map_lookup_imap. by destruct (h !! p). Qed.

Lemma heap_on_none (sel : nat -> bool) f h :
  (forall p, is_Some (h !! p) -> sel p = false) -> heap_on sel f h = h.
Proof.
  intros H. apply map_eq. intros p. rewrite lookup_heap_on.
  destruct (h !! p) as [c|] eqn:E; [|done]. cbn. rewrite H; [done | by eexists].
Qed.

Lemma heap_on_ext (sel sel' : nat -> bool) f h :
  (forall p, is_Some (h !! p) -> sel p = sel' p) -> heap_on sel f h = heap_on sel' f h.
Proof.
  intros H. apply map_eq. intros p. rewrite !lookup_heap_on.
  destruct (h !! p) as [c|] eqn:E; [|done]. cbn. by rewrite H.
Qed.

Lemma heap_on_dom sel f h p : is_Some (heap_on sel f h !! p) <-> is_Some (h !! p).
Proof. rewrite lookup_heap_on. by rewrite fmap_is_Some. Qed.

Lemma all_open_store h cs p c :
  p ∉ cs -> all_open h cs -> all_open (<[p := c]> h) cs.
Proof.
  intros Hp H q Hq. destruct (H q Hq) as (d & Hd & Ho).
  exists d. rewrite lookup_insert_ne; [done | by intros ->].
Qed.

Lemma all_open_cons h p cs :
  all_open h (p :: cs) ->
  (exists c, h !! p = Some c /\ chan_open (sc_outCh c)) /\ all_open h cs.
Proof. intros H. split; [apply H | intros q Hq; apply H]; set_solver. Qed.

Lemma in_list_cons p cs q : in_list (p :: cs) q = bool_decide (q = p) || in_list cs q.
Proof. unfold in_list. repeat case_bool_decide; set_solver. Qed.

Lemma filter_ext_in {A} (f g : A -> bool) (l : list A) :
  (forall x, x ∈ l -> f x = g x) ->
  base.filter (fun x => f x) l = base.filter (fun x => g x) l.
Proof.
  induction l as [|x l IH]; intros H; [done|].
  assert (f x = g x) as Hx by (apply H; constructor).
  rewrite !filter_cons, Hx, IH; [done|]. intros y Hy. apply H. by constructor.
Qed.

Lemma filter_all {A} (f : A -> bool) (l : list A) :
  (forall x, x ∈ l -> f x = true) -> base.filter (fun x => f x) l = l.
Proof.
  induction l as [|x l IH]; intros H; [done|].
  assert (f x = true) as Hx by (apply H; constructor).
  rewrite filter_cons, Hx, IH; [done|]. intros y Hy. apply H. by constructor.
Qed.

Section Lists.
Context {T : Type} {HT : Terminal T}.
Implicit Types s : Session T.

Lemma set_s_heap_id s : set_s_heap (s_heap s) s = s.
Proof. by destruct s. Qed.

Lemma deref_Val s p c : s_heap s !! p = Some c -> deref p s = Val c.
Proof. unfold deref. by intros ->. Qed.

(** *** [queueOutput] *)

Lemma offer_heap_skip h p cs sel m :
  p ∉ cs -> sel p && negb (full h p) = false ->
  offer_heap (p :: cs) sel m h = offer_heap cs sel m h.
Proof.
  intros Hp Hsel. apply map_eq. intros q. unfold offer_heap. rewrite !lookup_heap_on.
  rewrite in_list_cons. case_bool_decide; subst; [|done].
  unfold in_list. rewrite (bool_decide_false _ Hp). cbn. by rewrite Hsel.
Qed.

Lemma offer_heap_push h p cs sel sel' m c :
  p ∉ cs -> h !! p = Some c -> sel p = true -> full h p = false ->
  (forall q, q ∈ cs -> sel' q = sel q) ->
  offer_heap (p :: cs) sel m h = offer_heap cs sel' m (<[p := push m c]> h).
Proof.
  intros Hp Hc Hs Hf Hsel. apply map_eq. intros q. unfold offer_heap.
  rewrite !lookup_heap_on, in_list_cons. case_bool_decide; subst.
  - rewrite lookup_insert_eq, Hc. cbn. rewrite Hs, Hf. cbn.
    unfold in_list. by rewrite (bool_decide_false _ Hp).
  - rewrite lookup_insert_ne by done. unfold full. rewrite lookup_insert_ne by done.
    cbn. unfold in_list. case_bool_decide; [|done]. by rewrite Hsel.
Qed.

Lemma alive_push h p c m q :
  h !! p = Some c -> alive (<[p := push m c]> h) q = alive h q.
Proof.
  intros Hc. unfold alive. destruct (decide (p = q)) as [<-|].
  - by rewrite lookup_insert_eq, Hc.
  - by rewrite lookup_insert_ne.
Qed.

Lemma full_insert_ne h p c q : p <> q -> full (<[p := c]> h) q = full h q.
Proof. intros. unfold full. by rewrite lookup_insert_ne. Qed.

(** One offer to an open channel. *)
Lemma try_send_spec h p c m :
  h !! p = Some c -> chan_open (sc_outCh c) ->
  chan_try_send (sc_outCh c) m =
    Val (if full h p then None else Some (sc_outCh (push m c))).
Proof.
  intros Hc Ho. unfold full. rewrite Hc.
  destruct (chan_try_send_open (sc_outCh c) m Ho) as [[-> Hl]|[-> Hl]].
  - by rewrite (proj2 (Nat.leb_gt _ _)).
  - by rewrite (proj2 (Nat.leb_le _ _)).
Qed.

Lemma queueOutput_spec cs data s :
  NoDup cs -> all_open (s_heap s) cs ->
  queueOutput cs data s = Val
    (base.filter (fun p => alive (s_heap s) p && full (s_heap s) p) cs,
     set_s_heap (offer_heap cs (alive (s_heap s)) (MsgOutput (mkOutput data)) (s_heap s)) s).
Proof.
  intros Hnd. revert s. induction Hnd as [|p cs Hp Hnd IH]; intros s Hopen.
  - cbn. unfold offer_heap. rewrite heap_on_none by done. by rewrite set_s_heap_id.
  - apply all_open_cons in Hopen as ((c & Hc & Ho) & Hopen).
    cbn [queueOutput]. rewrite (deref_Val _ _ _ Hc). cbn [go_bind].
    assert (alive (s_heap s) p = negb (sc_writeDone c)) as Ha by (unfold alive; by rewrite Hc).
    rewrite filter_cons, Ha.
    destruct (sc_writeDone c) eqn:Hd; cbn [negb andb].
    { rewrite IH by done. rewrite offer_heap_skip; [done..|]. by rewrite Ha. }
    rewrite (try_send_spec _ _ _ _ Hc Ho). cbn [go_bind].
    destruct (full (s_heap s) p) eqn:Hf; cbn [go_bind].
    + rewrite IH by done. cbn [go_bind]. rewrite decide_True by done.
      rewrite offer_heap_skip; [done..|]. by rewrite Hf, andb_false_r.
    + change (set_sc_outCh (sc_outCh (push _ c)) c) with (push (MsgOutput (mkOutput data)) c).
      rewrite IH by by apply all_open_store.
      cbn [s_heap store set_s_heap].
      rewrite (offer_heap_push _ p cs (alive (s_heap s))
        (alive (<[p:=push (MsgOutput (mkOutput data)) c]> (s_heap s))) _ c Hp Hc);
        [|by rewrite Ha|done|intros; by apply alive_push].
      rewrite decide_False by auto. do 2 f_equal.
      apply filter_ext_in. intros q Hq. rewrite alive_push by done.
      rewrite full_insert_ne by (intros ->; done). done.
Qed.

(** *** [removeClient] *)

Lemma removeClient_notin cs p : p ∉ cs -> removeClient cs p = cs.
Proof.
  induction cs as [|q cs IH]; intros Hp; [done|]. cbn [removeClient].
  destruct (Nat.eqb_spec q p) as [->|]; [set_solver|]. f_equal. apply IH. set_solver.
Qed.

Lemma removeClient_filter cs p :
  NoDup cs -> removeClient cs p = base.filter (fun q => negb (q =? p)%nat) cs.
Proof.
  induction 1 as [|q cs Hq Hnd IH]; [done|]. cbn [removeClient]. rewrite filter_cons.
  destruct (Nat.eqb_spec q p) as [->|]; cbn.
  - rewrite <- IH. by rewrite removeClient_notin.
  - by rewrite IH.
Qed.

Lemma removeClient_length cs p :
  length (removeClient cs p) = length cs <-> p ∉ cs.
Proof.
  split; [|intros; by rewrite removeClient_notin].
  induction cs as [|q cs IH]; cbn [removeClient]; [set_solver|].
  destruct (Nat.eqb_spec q p) as [->|]; cbn [length]; intros H; [lia|].
  specialize (IH ltac:(lia)). set_solver.
Qed.

Lemma elem_of_removeClient cs p q :
  NoDup cs -> q ∈ removeClient cs p <-> q ∈ cs /\ q <> p.
Proof.
  intros Hnd. rewrite removeClient_filter by done. rewrite list_elem_of_filter.
  destruct (Nat.eqb_spec q p); cbn; naive_solver.
Qed.

Lemma NoDup_removeClient cs p : NoDup cs -> NoDup (removeClient cs p).
Proof. intros. rewrite removeClient_filter by done. by apply list.NoDup_filter. Qed.

(** *** [pruneFinishedClients] *)

(** [p] is one of [cs] and its writer has finished. *)
Definition finished (h : heap) (cs : list nat) (p : nat) : bool :=
  in_list cs p && negb (alive h p).

Lemma finished_cons_alive h p cs q :
  alive h p = true -> finished h (p :: cs) q = finished h cs q.
Proof.
  intros Ha. unfold finished. rewrite in_list_cons.
  case_bool_decide; subst; [|done]. rewrite Ha. cbn. by rewrite andb_false_r.
Qed.

Lemma alive_closed h p c q : h !! p = Some c -> alive (<[p := closed c]> h) q = alive h q.
Proof.
  intros Hc. unfold alive. destruct (decide (p = q)) as [<-|].
  - by rewrite lookup_insert_eq, Hc.
  - by rewrite lookup_insert_ne.
Qed.

Lemma prune_eq (a a' b b' : list nat) (c c' : bool) (h h' : heap) s :
  a = a' -> b = b' -> c = c' -> h = h' ->
  Val (a, b, c, set_s_heap h s) = Val (a', b', c', set_s_heap h' s).
Proof. by intros -> -> -> ->. Qed.

Lemma pruneFinishedClients_spec cs pending s :
  NoDup cs -> NoDup pending -> all_open (s_heap s) cs ->
  pruneFinishedClients cs pending s = Val
    (base.filter (fun p => alive (s_heap s) p) cs,
     base.filter (fun p => negb (finished (s_heap s) cs p)) pending,
     existsb (fun p => negb (alive (s_heap s) p)) cs,
     set_s_heap (heap_on (finished (s_heap s) cs) closed (s_heap s)) s).
Proof.
  intros Hnd. revert pending s.
  induction Hnd as [|p cs Hp Hnd IH]; intros pending s Hpd Hopen.
  - cbn. rewrite heap_on_none by done. rewrite set_s_heap_id. do 4 f_equal.
    symmetry. by apply filter_all.
  - apply all_open_cons in Hopen as ((c & Hc & Ho) & Hopen).
    cbn [pruneFinishedClients existsb]. rewrite (deref_Val _ _ _ Hc). cbn [go_bind].
    assert (alive (s_heap s) p = negb (sc_writeDone c)) as Ha by (unfold alive; by rewrite Hc).
    rewrite filter_cons, Ha. destruct (sc_writeDone c) eqn:Hd; cbn [negb orb].
    + rewrite chan_close_open by done. cbn [go_bind].
      change (set_sc_outCh _ c) with (closed c).
      rewrite IH; [|by apply NoDup_removeClient|by apply all_open_store].
      cbn [go_bind s_heap store set_s_heap]. rewrite decide_False by auto.
      assert (forall q, finished (<[p:=closed c]> (s_heap s)) cs q = finished (s_heap s) cs q)
        as Hfin by (intros; unfold finished; by rewrite alive_closed).
      match goal with |- Val (_, _, _, set_s_heap ?X _) = _ =>
        change (set_s_heap X (store p (closed c) s)) with (set_s_heap X s) end.
      apply prune_eq; [| |done|].
      * apply filter_ext_in. intros. by apply alive_closed.
      * rewrite removeClient_filter by done. rewrite list_filter_filter.
        apply list_filter_iff. intros q. rewrite Hfin. unfold finished.
        rewrite in_list_cons. case_bool_decide; subst; cbn.
        -- rewrite Nat.eqb_refl, Ha. cbn. naive_solver.
        -- destruct (Nat.eqb_spec q p); [done|]. cbn. naive_solver.
      * apply map_eq. intros q. rewrite !lookup_heap_on, Hfin.
        unfold finished. rewrite in_list_cons. case_bool_decide; subst.
        -- rewrite lookup_insert_eq, Hc, Ha. cbn. unfold in_list.
           by rewrite (bool_decide_false _ Hp).
        -- by rewrite lookup_insert_ne.
    + rewrite IH by done. cbn [go_bind]. rewrite decide_True by done.
      assert (alive (s_heap s) p = true) as Hap by (by rewrite Ha).
      apply prune_eq; [done| |done|].
      * apply filter_ext_in. intros q _. by rewrite finished_cons_alive.
      * apply heap_on_ext. intros q _. by rewrite finished_cons_alive.
Qed.

(** *** Offers to every client *)

Lemma full_push h p c m q : q <> p -> full (<[p := push m c]> h) q = full h q.
Proof. intros. by apply full_insert_ne. Qed.

Lemma offer_all_spec cs m s :
  NoDup cs -> all_open (s_heap s) cs ->
  offer_all cs m s = Val (set_s_heap (offer_heap cs (fun _ => true) m (s_heap s)) s).
Proof.
  intros Hnd. revert s. induction Hnd as [|p cs Hp Hnd IH]; intros s Hopen.
  - cbn. unfold offer_heap. rewrite heap_on_none by done. by rewrite set_s_heap_id.
  - apply all_open_cons in Hopen as ((c & Hc & Ho) & Hopen).
    cbn [offer_all]. rewrite (deref_Val _ _ _ Hc). cbn [go_bind].
    rewrite (try_send_spec _ _ _ _ Hc Ho). cbn [go_bind].
    destruct (full (s_heap s) p) eqn:Hf.
    + rewrite IH by done. rewrite offer_heap_skip; [done..|]. by rewrite Hf.
    + change (set_sc_outCh (sc_outCh (push _ c)) c) with (push m c).
      rewrite IH by by apply all_open_store.
      by rewrite (offer_heap_push _ p cs _ (fun _ => true) m c Hp Hc).
Qed.

(** The message of [notifyClientsChanged]. *)
Definition changed_msg (cs : list nat) (s : Session T) : Message :=
  MsgClientsChanged (mkClientsChanged (u16 (blen cs)) (fst (Session_size s)) (snd (Session_size s))).

Lemma notifyClientsChanged_spec cs s :
  NoDup cs -> all_open (s_heap s) cs ->
  notifyClientsChanged cs s =
    Val (set_s_heap (offer_heap cs (fun _ => true) (changed_msg cs s) (s_heap s)) s).
Proof.
  intros Hnd Ho. unfold notifyClientsChanged, changed_msg.
  destruct (Session_size s) as [c r]. by apply offer_all_spec.
Qed.

(** *** Sizes *)

Definition all_in (h : heap) (cs : list nat) : Prop := forall p, p ∈ cs -> is_Some (h !! p).

(** The sizes of the clients that are not read-only. *)
Definition sizes_of (h : heap) (cs : list nat) : list termSize :=
  omap (fun p => match h !! p with
                 | Some c => if sc_readOnly c then None else Some (sc_size c)
                 | None => None
                 end) cs.

#[global] Arguments sizes_of : simpl never.

Lemma collectClientSizes_spec cs s :
  all_in (s_heap s) cs -> collectClientSizes cs s = Val (sizes_of (s_heap s) cs).
Proof.
  induction cs as [|p cs IH]; intros Hin; [done|]. cbn [collectClientSizes].
  destruct (Hin p) as [c Hc]; [constructor|]. rewrite (deref_Val _ _ _ Hc). cbn [go_bind].
  rewrite IH by (intros q Hq; apply Hin; by constructor). cbn.
  unfold sizes_of. cbn. rewrite Hc. by destruct (sc_readOnly c).
Qed.

(** A resize touches the size, the pty and the terminal, and nothing else. *)
Definition resized (s s' : Session T) : Prop :=
  exists v calls ops,
    s' = set_s_term (foldl (fun t '(c, r) => term_resize t c r) (s_term s) ops)
           (set_s_ptyCalls calls (set_s_sizeVal v s)).

Lemma resized_refl s : resized s s.
Proof. exists (s_sizeVal s), (s_ptyCalls s), []. by destruct s. Qed.

Lemma resized_resize sz s : resized s (SessionLoop.resize sz s).
Proof. by eexists _, _, [(cols sz, rows sz)]. Qed.

Lemma resize_to_target_spec sizes s :
  sizes <> [] -> exists s', resize_to_target sizes s = Val s' /\ resized s s'.
Proof.
  intros Hne. unfold resize_to_target.
  destruct (policy_returns (s_resizePolicy s) sizes Hne) as [t ->]. cbn [go_bind].
  destruct (Session_size s) as [c r]. eexists. split; [done|].
  destruct (_ || _); [apply resized_resize | apply resized_refl].
Qed.

Lemma arbitrateResize_spec cs s :
  all_in (s_heap s) cs -> exists s', arbitrateResize cs s = Val s' /\ resized s s'.
Proof.
  intros Hin. unfold arbitrateResize. rewrite collectClientSizes_spec by done.
  cbn [go_bind]. destruct (sizes_of _ _) eqn:E; cbn [length Nat.eqb].
  - eexists. split; [done | apply resized_refl].
  - by apply resize_to_target_spec.
Qed.

Lemma resizeForPending_spec cs sz s :
  all_in (s_heap s) cs -> exists s', resizeForPending cs sz s = Val s' /\ resized s s'.
Proof.
  intros Hin. unfold resizeForPending. rewrite collectClientSizes_spec by done.
  cbn [go_bind]. apply resize_to_target_spec. by destruct (sizes_of _ _).
Qed.
End Lists.
