(* ===== verification/SessionInv.v ===== *)
(** * SessionInv: the invariant of the run loop

    What holds whenever the loop is at the head of its [for] or in its [select]:
    the client lists are well formed, every listed client has an open channel
    within its capacity, every pty chunk is fed to the terminal once and in
    order, and every live client's stream is its screen dump followed by all
    the output accepted since. Each operation of the loop preserves it and
    neither panics nor blocks. *)
From stdpp Require Import base gmap sets list strings numbers option.
From Stdlib Require Import ZArith Lia.
From S2P Require Import Prelude Wire Messages Chan Resize SessionLoop SessionLists.
#[local] Open Scope Z_scope.

(** ** Streams *)

(** Everything a client was or will be sent, in order. *)
Definition stream (c : sessionClient) : list Message :=
  sc_written c ++ option_list (sc_inflight c) ++ ch_buf (sc_outCh c).

(** The pty data in a list of messages. *)
Definition outputs (ms : list Message) : list bytes :=
  omap (fun m => match m with MsgOutput o => Some (Output_Data o) | _ => None end) ms.

(** What may follow [Attached]; the numbers of clients and their sizes are 16-bit
    values. *)
Definition is_update (m : Message) : Prop :=
  match m with MsgOutput _ => True | MsgClientsChanged c => ClientsChanged_ok c | _ => False end.

(** An operation on the terminal. *)
Inductive termOp : Type := OpFeed (d : bytes) | OpResize (c r : Z).

Definition fed_data (ops : list termOp) : list bytes :=
  omap (fun o => match o with OpFeed d => Some d | _ => None end) ops.

(** Sent on a client's channel but not yet: the chunk it is pending for. *)
Definition missing (pend : list nat) (po : option bytes) (p : nat) : list bytes :=
  if decide (p ∈ pend) then option_list po else [].

Lemma stream_push m c : stream (push m c) = stream c ++ [m].
Proof. unfold stream, push. cbn. by rewrite <- !app_assoc. Qed.

Lemma outputs_app l1 l2 : outputs (l1 ++ l2) = outputs l1 ++ outputs l2.
Proof. apply omap_app. Qed.

Section Inv.
Context {T : Type} {HT : Terminal T} (t0 : T).
Implicit Types s : Session T.

Definition run_op (t : T) (o : termOp) : T :=
  match o with OpFeed d => term_feed t d | OpResize c r => term_resize t c r end.

(** [t] is the initial terminal fed exactly [chunks], in order, with resizes in
    between. *)
Definition term_is (chunks : list bytes) (t : T) : Prop :=
  exists ops, t = foldl run_op t0 ops /\ fed_data ops = chunks.

(** [att] carries the dump of [t]. *)
Definition dump_of (t : T) (att : Attached) : Prop :=
  exists d, term_dumpVTFull t = Ok d /\
    Attached_ScreenDump att = sd_Data d /\ Attached_CursorRow att = sd_CursorRow d /\
    Attached_CursorCol att = sd_CursorCol d /\ Attached_AltScreen att = sd_IsAltScreen d.

(** The client's stream is [Attached] with the dump of the terminal fed the
    chunks accepted before the attach, then the chunks accepted after it, less
    those of [miss]. *)
Definition delivered (acc miss : list bytes) (c : sessionClient) : Prop :=
  exists att rest pre post t,
    stream c = MsgAttached att :: rest /\ Forall is_update rest /\
    acc = pre ++ post /\ term_is pre t /\ dump_of t att /\
    outputs rest ++ miss = post.

(** ** The invariant *)

Definition client_ok (acc miss : list bytes) (c : sessionClient) : Prop :=
  chan_open (sc_outCh c) /\ ch_cap (sc_outCh c) = sessionClientOutBufferSize /\
  (length (ch_buf (sc_outCh c)) <= sessionClientOutBufferSize)%nat /\
  sc_final c = None /\
  (sc_writeDone c = false -> delivered acc miss c).

Definition clients_ok (acc : list bytes) (h : heap) (cs pend : list nat)
    (po : option bytes) : Prop :=
  forall p, p ∈ cs -> exists c, h !! p = Some c /\ client_ok acc (missing pend po p) c.

Definition lists_ok (cs pend : list nat) (po : option bytes) : Prop :=
  NoDup cs /\ NoDup pend /\ pend ⊆ cs /\ (po = None -> pend = []).

(** Pointers are handed out in order, and client IDs count them. *)
Definition heap_ok (h : heap) (next : nat) (nextID : Z) : Prop :=
  nextID = u64 (Z.of_nat next) /\
  forall p c, h !! p = Some c ->
    (p < next)%nat /\ sc_id c = client_id (u64 (Z.of_nat p + 1)) /\
    termSize_ok (sc_size c).

(** Chunks accepted are fed, queued or pending; [applied] channels are numbered
    in order and the closed ones are those of the chunks fed. *)
Definition feed_ok (acc : list bytes) (t : T) (ch : chan feedItem) (pf : option feedItem)
    (last : option nat) (applied : gset nat) (next : nat) : Prop :=
  chan_open ch /\ ch_cap ch = feedChSize /\ (length (ch_buf ch) <= feedChSize)%nat /\
  (exists fed, term_is fed t /\
     acc = fed ++ map fi_data (ch_buf ch ++ option_list pf)) /\
  (exists k, map fi_applied (ch_buf ch ++ option_list pf) = seq k (next - k) /\
     (k <= next)%nat /\ forall n, n ∈ applied <-> (n < k)%nat) /\
  match last with Some n => (n < next)%nat | None => next = 0%nat end.

Record Inv (acc : list bytes) (s : Session T) : Prop := mkInv {
  inv_lists : lists_ok (clients s) (pendingClients s) (pendingOutput s);
  inv_clients : clients_ok acc (s_heap s) (clients s) (pendingClients s) (pendingOutput s);
  inv_heap : heap_ok (s_heap s) (s_nextPtr s) (nextClientID s);
  inv_feed : feed_ok acc (s_term s) (s_feedCh s) (pendingFeed s) (lastFeedApplied s)
               (s_applied s) (s_nextApplied s) }.

(** ** Streams under sends *)

Lemma delivered_same acc miss c c' :
  stream c' = stream c -> delivered acc miss c -> delivered acc miss c'.
Proof. intros He (a & r & pre & post & t & H). exists a, r, pre, post, t. by rewrite He. Qed.

Lemma delivered_push acc new miss miss' m c :
  is_update m -> outputs [m] ++ miss' = miss ++ new ->
  delivered acc miss c -> delivered (acc ++ new) miss' (push m c).
Proof.
  intros Hm Hout (a & r & pre & post & t & Hs & Hr & -> & Ht & Hd & Ho).
  exists a, (r ++ [m]), pre, (post ++ new), t.
  rewrite stream_push, Hs, outputs_app. split; [done|].
  split; [apply Forall_app; split; [done | by constructor]|].
  split; [by rewrite app_assoc|]. do 2 (split; [done|]).
  by rewrite <- Ho, <- !app_assoc, Hout.
Qed.

Lemma delivered_wait acc new miss c :
  delivered acc miss c -> delivered (acc ++ new) (miss ++ new) c.
Proof.
  intros (a & r & pre & post & t & Hs & Hr & -> & Ht & Hd & Ho).
  exists a, r, pre, (post ++ new), t. rewrite <- Ho. by rewrite !app_assoc.
Qed.

Lemma client_ok_push acc new miss miss' m c :
  is_update m -> outputs [m] ++ miss' = miss ++ new ->
  (length (ch_buf (sc_outCh c)) < ch_cap (sc_outCh c))%nat ->
  client_ok acc miss c -> client_ok (acc ++ new) miss' (push m c).
Proof.
  intros Hm Hout Hl (Ho & Hcap & Hb & Hf & Hd). rewrite Hcap in Hl.
  split; [done|]. split; [done|]. split; [cbn; rewrite length_app; cbn; lia|].
  split; [done|]. intros Hw. by apply (delivered_push _ _ miss), Hd.
Qed.

Lemma client_ok_wait acc new miss miss' c :
  sc_writeDone c = true \/ miss' = miss ++ new ->
  client_ok acc miss c -> client_ok (acc ++ new) miss' c.
Proof.
  intros Hc (Ho & Hcap & Hb & Hf & Hd). do 4 (split; [done|]).
  intros Hw. destruct Hc as [| ->]; [congruence|]. by apply delivered_wait, Hd.
Qed.

Lemma clients_ok_all_open acc h cs pend po : clients_ok acc h cs pend po -> all_open h cs.
Proof. intros H p Hp. destruct (H p Hp) as (c & Hc & Ho & _). eauto. Qed.

Lemma clients_ok_all_in acc h cs pend po : clients_ok acc h cs pend po -> all_in h cs.
Proof. intros H p Hp. destruct (H p Hp) as (c & Hc & _). eauto. Qed.

Lemma full_false h p c :
  h !! p = Some c -> full h p = false ->
  (length (ch_buf (sc_outCh c)) < ch_cap (sc_outCh c))%nat.
Proof. intros Hc. unfold full. rewrite Hc. apply Nat.leb_gt. Qed.

Lemma alive_true h p c : h !! p = Some c -> alive h p = negb (sc_writeDone c).
Proof. intros Hc. unfold alive. by rewrite Hc. Qed.

(** Offering a message to some of the clients, with the pending set and the
    pending chunk updated to match. *)
Lemma clients_ok_offer acc new h cs pend po pend' po' offered sel m :
  is_update m ->
  (forall p, p ∈ cs -> alive h p = true -> in_list offered p && sel p = true -> full h p = false ->
     outputs [m] ++ missing pend' po' p = missing pend po p ++ new) ->
  (forall p, p ∈ cs -> alive h p = true -> in_list offered p && sel p = false \/ full h p = true ->
     missing pend' po' p = missing pend po p ++ new) ->
  clients_ok acc h cs pend po ->
  clients_ok (acc ++ new) (offer_heap offered sel m h) cs pend' po'.
Proof.
  intros Hm Hin Hout Hok p Hp. destruct (Hok p Hp) as (c & Hc & Hcok).
  unfold offer_heap. rewrite lookup_heap_on, Hc. cbn. eexists. split; [done|].
  specialize (Hin p Hp). specialize (Hout p Hp).
  destruct (alive h p) eqn:Ha; rewrite (alive_true _ _ _ Hc) in Ha.
  - destruct (in_list offered p && sel p); cbn;
      [destruct (full h p) eqn:Hf; cbn|].
    + apply (client_ok_wait _ _ (missing pend po p)); auto.
    + apply (client_ok_push _ _ (missing pend po p)); auto. by eapply full_false.
    + apply (client_ok_wait _ _ (missing pend po p)); auto.
  - apply negb_false_iff in Ha. destruct Hcok as (Ho & Hcap & Hb & Hf & _).
    destruct (in_list offered p && sel p && negb (full h p)) eqn:E.
    + apply andb_true_iff in E as [_ E%negb_true_iff].
      pose proof (full_false _ _ _ Hc E). split; [done|]. split; [done|].
      split; [cbn; rewrite length_app; cbn; lia|]. split; [done|]. cbn. congruence.
    + do 4 (split; [done|]). congruence.
Qed.

Lemma heap_ok_heap_on sel f h next nextID :
  (forall c, sc_id (f c) = sc_id c /\ sc_size (f c) = sc_size c) ->
  heap_ok h next nextID -> heap_ok (heap_on sel f h) next nextID.
Proof.
  intros Hf [Hn H]. split; [done|]. intros p c. rewrite lookup_heap_on.
  destruct (h !! p) as [d|] eqn:E; [|done]. cbn. intros [= <-].
  destruct (H p d E) as (? & ? & ?). destruct (sel p); [|done].
  destruct (Hf d) as [-> ->]. done.
Qed.

(** ** The client lists *)

Lemma missing_None pend p : missing pend None p = [].
Proof. unfold missing. by case_decide. Qed.

Lemma missing_notin pend po p : p ∉ pend -> missing pend po p = [].
Proof. intros. unfold missing. by rewrite decide_False. Qed.

Lemma missing_in pend d p : p ∈ pend -> missing pend (Some d) p = [d].
Proof. intros. unfold missing. by rewrite decide_True. Qed.

Lemma in_list_true cs p : p ∈ cs -> in_list cs p = true.
Proof. intros. unfold in_list. by rewrite bool_decide_true. Qed.

Lemma in_list_false cs p : p ∉ cs -> in_list cs p = false.
Proof. intros. unfold in_list. by rewrite bool_decide_false. Qed.

Lemma settle_heap s : s_heap (settle_output s) = s_heap s.
Proof. unfold settle_output. by destruct (pendingClients s). Qed.

Lemma settle_ok acc s : Inv acc s -> Inv acc (settle_output s).
Proof.
  intros [Hl Hc Hh Hf]. unfold settle_output.
  destruct (pendingClients s) as [|p ps] eqn:E; [|by split; rewrite ?E].
  destruct Hl as (? & ? & ? & ?). split; cbn; rewrite ?E; [done| |done|done].
  intros q Hq. destruct (Hc q Hq) as (c & ? & ?). exists c. split; [done|].
  rewrite missing_None. rewrite missing_notin in H4; [done | set_solver].
Qed.

Lemma changed_msg_update cs s : is_update (changed_msg cs s).
Proof. unfold is_update, changed_msg, ClientsChanged_ok, Session_size. cbn. split_and!; apply Z.mod_pos_bound; lia. Qed.

Lemma notify_ok acc s :
  Inv acc s ->
  exists h, notifyClientsChanged (clients s) s = Val (set_s_heap h s) /\
    Inv acc (set_s_heap h s) /\ (forall p, is_Some (s_heap s !! p) -> is_Some (h !! p)).
Proof.
  intros [Hl Hc Hh Hf]. pose proof Hl as (Hnd & _).
  rewrite notifyClientsChanged_spec; [|done|by eapply clients_ok_all_open].
  eexists. split; [done|]. split; [split; [done| | |done]|].
  - rewrite <- (app_nil_r acc). eapply clients_ok_offer; [apply changed_msg_update| | |done];
      intros; by rewrite app_nil_r.
  - by apply heap_ok_heap_on.
  - intros p. unfold offer_heap. by rewrite heap_on_dom.
Qed.

Lemma prune_ok acc s :
  Inv acc s ->
  exists s', prune s = Val s' /\ Inv acc s' /\
    (forall p, is_Some (s_heap s !! p) -> is_Some (s_heap s' !! p)).
Proof.
  intros [Hl Hc Hh Hf]. pose proof Hl as (Hnd & Hpd & Hsub & Hpo). unfold prune.
  rewrite pruneFinishedClients_spec; [|done..|by eapply clients_ok_all_open].
  cbn [go_bind]. set (h := s_heap s) in *. set (cs := clients s) in *.
  set (s1 := set_pendingClients _ _).
  assert (Inv acc s1) as Hs1.
  { split; [| | |done]; cbn.
    - split; [by apply list.NoDup_filter|]. split; [by apply list.NoDup_filter|].
      split; [|intros H; by rewrite Hpo].
      intros p. rewrite !list_elem_of_filter. intros [Hn Hp]. split; [|by apply Hsub].
      unfold finished in Hn. rewrite in_list_true in Hn by by apply Hsub.
      cbn in Hn. by destruct (alive _ _).
    - intros p [Ha Hp]%list_elem_of_filter. destruct (Hc p Hp) as (c & Hcp & Hok).
      assert (finished h cs p = false) as Hfin.
      { unfold finished. destruct (alive h p); [apply andb_false_r | done]. }
      exists c. rewrite lookup_heap_on, Hcp. cbn. rewrite Hfin. split; [done|].
      replace (missing _ _ p) with (missing (pendingClients s) (pendingOutput s) p); [done|].
      unfold missing. apply decide_ext. rewrite list_elem_of_filter.
      change (s_heap s) with h. change (clients s) with cs. rewrite Hfin. naive_solver.
    - by apply heap_ok_heap_on. }
  destruct (existsb _ _).
  - destruct (notify_ok acc s1 Hs1) as (h' & -> & Hinv & Hdom). cbn [go_bind].
    eexists. split; [done|]. split; [by apply settle_ok|].
    intros p Hp. rewrite settle_heap. apply Hdom. cbn. by rewrite heap_on_dom.
  - cbn [go_bind]. eexists. split; [done|]. split; [by apply settle_ok|].
    intros p Hp. rewrite settle_heap. cbn. by rewrite heap_on_dom.
Qed.

(** [queueOutput] of the pending chunk to the pending clients. *)
Lemma flush_ok acc s data :
  Inv acc s -> pendingOutput s = Some data ->
  exists pending s', queueOutput (pendingClients s) data s = Val (pending, s') /\
    Inv acc (set_pendingClients pending s').
Proof.
  intros [Hl Hc Hh Hf] Hd. pose proof Hl as (Hnd & Hpd & Hsub & Hpo).
  rewrite queueOutput_spec;
    [|done|intros p Hp; eapply clients_ok_all_open; [done | by apply Hsub]].
  eexists _, _. split; [done|]. split; [| | |done]; cbn.
  - split; [done|]. split; [by apply list.NoDup_filter|]. split; [|by rewrite Hd].
    intros p [_ Hp]%list_elem_of_filter. by apply Hsub.
  - rewrite <- (app_nil_r acc). eapply clients_ok_offer; [done| | |done];
      intros p Hp Ha Hin; rewrite Hd, app_nil_r, Ha in *; cbn [outputs omap].
    + intros Hfu. rewrite andb_true_r in Hin. apply bool_decide_eq_true in Hin.
      rewrite missing_notin, missing_in; [done..|].
      intros [Hq _]%list_elem_of_filter. by rewrite Ha, Hfu in Hq.
    + unfold missing. apply decide_ext. rewrite list_elem_of_filter, Ha. cbn.
      rewrite andb_true_r in Hin. destruct Hin as [Hin|Hin]; [|rewrite Hin; naive_solver].
      apply bool_decide_eq_false in Hin. naive_solver.
  - by apply heap_ok_heap_on.
Qed.

(** ** The feed *)

Lemma feed_all_spec items s :
  NoDup (map fi_applied items) ->
  (forall n, n ∈ map fi_applied items -> n ∉ s_applied s) ->
  feed_all items s = Val
    (set_s_applied (list_to_set (map fi_applied items) ∪ s_applied s)
       (set_s_term (foldl term_feed (s_term s) (map fi_data items)) s)).
Proof.
  revert s. induction items as [|it items IH]; intros s Hnd Hnew; cbn in *.
  - rewrite union_empty_l_L. by destruct s.
  - apply list.NoDup_cons in Hnd as [Hit Hnd]. unfold feed_one, close_applied. cbn.
    rewrite decide_False by (apply Hnew; constructor). cbn [go_bind].
    rewrite IH; cbn.
    + f_equal. rewrite (assoc_L (∪)). by rewrite (comm_L (∪) (list_to_set _)).
    + done.
    + intros n Hn. assert (n ∉ s_applied s) by (apply Hnew; by constructor).
      assert (n <> fi_applied it) by (by intros ->). set_solver.
Qed.

Lemma term_is_feed_all chunks t ds :
  term_is chunks t -> term_is (chunks ++ ds) (foldl term_feed t ds).
Proof.
  intros (ops & -> & <-). exists (ops ++ map OpFeed ds).
  unfold fed_data. rewrite omap_app, foldl_app. split.
  - generalize (foldl run_op t0 ops). induction ds; intros; cbn; auto.
  - f_equal. induction ds; cbn; congruence.
Qed.

Lemma term_is_resize chunks t ops :
  term_is chunks t -> term_is chunks (foldl (fun t '(c, r) => term_resize t c r) t ops).
Proof.
  intros (ops0 & -> & <-). exists (ops0 ++ map (fun '(c, r) => OpResize c r) ops).
  unfold fed_data. rewrite omap_app, foldl_app. split.
  - generalize (foldl run_op t0 ops0). induction ops as [|[]]; intros; cbn; auto.
  - induction ops as [|[] ops IH]; cbn; [apply app_nil_r | exact IH].
Qed.

Lemma seq_app_inv l1 l2 k n :
  l1 ++ l2 = seq k n -> l1 = seq k (length l1) /\ l2 = seq (k + length l1) (length l2) /\
    n = (length l1 + length l2)%nat.
Proof.
  intros H. pose proof (f_equal length H) as Hn. rewrite length_app, length_seq in Hn.
  subst n. rewrite seq_app in H. apply app_inj_1 in H as [-> ->]; rewrite !length_seq; auto.
Qed.

(** Feeding the first items of the queue. *)
Lemma feed_ok_take acc t l1 l2 cap cl pf last applied next :
  feed_ok acc t (mkChan (l1 ++ l2) cap cl) pf last applied next ->
  NoDup (map fi_applied l1) /\ (forall n, n ∈ map fi_applied l1 -> n ∉ applied) /\
  feed_ok acc (foldl term_feed t (map fi_data l1)) (mkChan l2 cap cl) pf last
    (list_to_set (map fi_applied l1) ∪ applied) next.
Proof.
  intros (Ho & Hcap & Hlen & (fed & Ht & Hacc) & (k & Hseq & Hk & Happ) & Hlast).
  cbn in *. rewrite <- app_assoc, map_app in Hseq, Hacc.
  apply seq_app_inv in Hseq as (Hl1 & Hl2 & Hn). rewrite !length_map in *.
  split; [rewrite Hl1; apply NoDup_seq|].
  split; [intros n; rewrite Hl1, elem_of_seq, Happ; lia|].
  split; [done|]. split; [done|]. split; [rewrite length_app in Hlen; cbn; lia|].
  split; [|split; [|done]].
  - exists (fed ++ map fi_data l1). split; [by apply term_is_feed_all|].
    by rewrite <- app_assoc.
  - exists (k + length l1)%nat. cbn. split; [rewrite Hl2; f_equal; lia|]. split; [lia|].
    intros n. rewrite elem_of_union, elem_of_list_to_set, Hl1, elem_of_seq, Happ. lia.
Qed.

Lemma drain_ok acc s :
  Inv acc s ->
  exists t a ch, drain s = Val (set_s_applied a (set_s_term t (set_s_feedCh ch s))) /\
    Inv acc (set_s_applied a (set_s_term t (set_s_feedCh ch s))) /\ ch_buf ch = [].
Proof.
  intros [Hl Hc Hh Hf]. unfold drain.
  destruct (s_feedCh s) as [buf cap cl] eqn:E.
  rewrite <- (app_nil_r buf) in Hf. apply feed_ok_take in Hf as (Hnd & Hnew & Hf).
  rewrite feed_all_spec; cbn; [|done..]. eexists _, _, _. split; [reflexivity|]. by split.
Qed.

Lemma waitFeedApplied_ok acc s :
  Inv acc s -> pendingFeed s = None ->
  exists s', waitFeedApplied (lastFeedApplied s) s = Val s' /\ Inv acc s' /\
    (exists t a ch, s' = set_s_applied a (set_s_term t (set_s_feedCh ch s))) /\
    term_is acc (s_term s').
Proof.
  intros HI Hpf. destruct (lastFeedApplied s) as [n|] eqn:El; cbn [waitFeedApplied].
  - destruct (drain_ok acc s HI) as (t & a & ch & -> & HI' & Hbuf). cbn [go_bind].
    pose proof (inv_feed _ _ HI') as (_ & _ & _ & (fed & Ht & Hacc) & (k & Hs & Hk & Ha) & Hlast).
    cbn in *. rewrite Hbuf, Hpf in *. cbn in *. rewrite app_nil_r in Hacc. subst fed.
    assert (next_eq : k = s_nextApplied s).
    { pose proof (f_equal length Hs) as Hn. rewrite length_seq in Hn. cbn in Hn. lia. }
    rewrite El in Hlast. rewrite decide_True by (apply Ha; lia).
    eexists. split; [done|]. split; [done|]. split; [by eexists _, _, _|done].
  - eexists. split; [done|]. split; [done|].
    split; [exists (s_term s), (s_applied s), (s_feedCh s); by destruct s|].
    pose proof (inv_feed _ _ HI) as (_ & _ & _ & (fed & Ht & Hacc) & (k & Hs & Hk & Ha) & Hlast).
    rewrite El in Hlast. rewrite Hlast in Hs.
    replace (map fi_data _) with (@nil bytes) in Hacc; [by rewrite app_nil_r in Hacc; subst|].
    by destruct (ch_buf (s_feedCh s) ++ option_list (pendingFeed s)).
Qed.


Lemma feed_send_ok acc s it :
  Inv acc s -> pendingFeed s = Some it ->
  (length (ch_buf (s_feedCh s)) < ch_cap (s_feedCh s))%nat ->
  exists ch, chan_send (s_feedCh s) it = Val ch /\
    Inv acc (set_pendingFeed None (set_s_feedCh ch s)).
Proof.
  intros [Hl Hc Hh Hf] Hpf Hlen. rewrite Hpf in Hf.
  destruct Hf as (Ho & Hcap & Hle & (fed & Ht & Hacc) & (k & Hs & Hk & Ha) & Hlast).
  unfold chan_send.
  destruct (chan_try_send_open (s_feedCh s) it Ho) as [[-> _]|[_ ?]]; [|lia].
  cbn [go_bind]. eexists. split; [done|]. split; [done..|].
  cbn [option_list] in Hacc, Hs. rewrite Hcap in Hlen.
  split; [done|]. split; [done|]. split; [cbn; rewrite length_app; cbn; lia|].
  cbn. rewrite app_nil_r. eauto 10.
Qed.

Lemma push_pending_ok acc s :
  Inv acc s ->
  exists s', push_pending s = Val s' /\ Inv acc s' /\ pendingFeed s' = None /\
    exists t a ch, s' = set_pendingFeed None (set_s_applied a (set_s_term t (set_s_feedCh ch s))).
Proof.
  intros HI. unfold push_pending. destruct (pendingFeed s) as [it|] eqn:Hpf.
  - destruct (_ <? _)%nat eqn:Hlt; cbn [go_bind].
    + apply Nat.ltb_lt in Hlt. destruct (feed_send_ok acc s it HI Hpf Hlt) as (ch & -> & HI').
      cbn [go_bind]. eexists. split; [done|]. do 2 (split; [done|]).
      by exists (s_term s), (s_applied s), ch.
    + destruct (drain_ok acc s HI) as (t & a & ch & -> & HI' & Hbuf). cbn [go_bind].
      destruct (feed_send_ok acc _ it HI' Hpf) as (ch' & -> & HI'').
      { pose proof (inv_feed _ _ HI') as (_ & -> & _). cbn. rewrite Hbuf. cbn.
        unfold feedChSize. lia. }
      cbn [go_bind]. eexists. split; [done|]. do 2 (split; [done|]). by exists t, a, ch'.
  - eexists. split; [done|]. do 2 (split; [done|]).
    exists (s_term s), (s_applied s), (s_feedCh s). rewrite <- Hpf at 1. by destruct s.
Qed.

(** ** Resizing *)

Lemma resized_ok acc s s' : resized s s' -> Inv acc s -> Inv acc s'.
Proof.
  intros (v & calls & ops & ->) [Hl Hc Hh (Ho & Hcap & Hle & (fed & Ht & Hacc) & Hrest)].
  split; [done..|]. split; [done|]. split; [done|]. split; [done|].
  split; [|done]. exists fed. split; [by apply term_is_resize | done].
Qed.

Lemma resized_heap s s' : resized s s' -> s_heap s' = s_heap s /\ clients s' = clients s.
Proof. by intros (v & calls & ops & ->). Qed.

Lemma resized_trans s s1 s2 : resized s s1 -> resized s1 s2 -> resized s s2.
Proof.
  intros (v & calls & ops & ->) (v' & calls' & ops' & ->).
  exists v', calls', (ops ++ ops'). by rewrite foldl_app.
Qed.

(** [arbitrateResize] then [notifyClientsChanged]: the tail of most requests. *)
Lemma rearrange_ok acc s :
  Inv acc s ->
  exists s1 h, arbitrateResize (clients s) s = Val s1 /\ resized s s1 /\
    notifyClientsChanged (clients s1) s1 = Val (set_s_heap h s1) /\
    Inv acc s1 /\ Inv acc (set_s_heap h s1).
Proof.
  intros HI. destruct (arbitrateResize_spec (clients s) s) as (s1 & H1 & Hr);
    [eapply clients_ok_all_in, HI|].
  pose proof (resized_ok _ _ _ Hr HI) as HI1.
  destruct (notify_ok acc s1 HI1) as (h & H2 & HI2 & _). exists s1, h. eauto 10.
Qed.

(** ** Requests *)

Lemma drop_clients p s s' :
  drop_client p s = Val s' -> clients s' = removeClient (clients s) p.
Proof.
  unfold drop_client, close_out. intros H. go_inv. cbn. unfold settle_output. cbn.
  by destruct (removeClient (pendingClients s) p).
Qed.

(** A client leaves both lists; its channel is closed. *)
Lemma drop_ok acc s p :
  Inv acc s -> p ∈ clients s ->
  exists s' c, drop_client p s = Val s' /\ Inv acc s' /\
    s_heap s !! p = Some c /\ s_heap s' = <[p := closed c]> (s_heap s).
Proof.
  intros [Hl Hc Hh Hf] Hp. destruct (Hc p Hp) as (c & Hcp & Ho & Hok).
  pose proof Hl as (Hnd & Hpd & Hsub & Hpo). unfold drop_client.
  set (s1 := set_pendingClients _ (set_clients _ s)).
  assert (Inv acc (store p (closed c) s1)) as HI.
  { split; [| | |done]; cbn.
    - split; [by apply NoDup_removeClient|]. split; [by apply NoDup_removeClient|].
      split; [|intros H; by rewrite Hpo].
      intros q. rewrite !elem_of_removeClient by done. intros [? ?]. auto.
    - intros q [Hq Hne]%elem_of_removeClient; [|done]. destruct (Hc q Hq) as (d & Hd & Hdok).
      exists d. rewrite lookup_insert_ne by done. split; [done|].
      replace (missing _ _ q) with (missing (pendingClients s) (pendingOutput s) q); [done|].
      unfold missing. apply decide_ext. rewrite elem_of_removeClient by done. naive_solver.
    - destruct Hh as [Hn Hh]. split; [done|]. intros q d.
      destruct (decide (q = p)) as [->|]; [|rewrite lookup_insert_ne by done; apply Hh].
      rewrite lookup_insert_eq. intros [= <-]. by apply (Hh p c). }
  unfold close_out. rewrite (deref_Val _ p c) by by rewrite settle_heap.
  cbn [go_bind]. rewrite chan_close_open by done. cbn [go_bind].
  eexists _, c. split; [done|]. split; [|split; [done|]].
  - apply settle_ok in HI. unfold settle_output in *. cbn in *.
    destruct (removeClient (pendingClients s) p); exact HI.
  - cbn. by rewrite settle_heap.
Qed.

Lemma phase_ok acc ph s : Inv acc s -> Inv acc (set_s_phase ph s).
Proof. by intros [? ? ? ?]. Qed.

Lemma u64_succ n : u64 (u64 n + 1) = u64 (n + 1).
Proof. unfold u64. by rewrite Z.add_mod_idemp_l. Qed.

(** The client object and pointer of an attach. *)
Lemma new_client_ok acc s spec att d :
  Inv acc s -> pendingFeed s = None -> term_is acc (s_term s) ->
  term_dumpVTFull (s_term s) = Ok d -> termSize_ok (as_size spec) ->
  Attached_ScreenDump att = sd_Data d -> Attached_CursorRow att = sd_CursorRow d ->
  Attached_CursorCol att = sd_CursorCol d -> Attached_AltScreen att = sd_IsAltScreen d ->
  let id := u64 (nextClientID s + 1) in
  let c := mkClient (client_id id) (as_size spec) (as_version spec) (as_readOnly spec)
    (mkChan [MsgAttached att] sessionClientOutBufferSize false) false None false None [] in
  Inv acc (set_clients (clients s ++ [s_nextPtr s])
    (store (s_nextPtr s) c (set_s_nextPtr (S (s_nextPtr s)) (set_nextClientID id s)))).
Proof.
  intros [Hl Hc [Hid Hh] Hf] Hpf Ht Hd Hsz E1 E2 E3 E4 id c.
  pose proof Hl as (Hnd & Hpd & Hsub & Hpo).
  assert (s_nextPtr s ∉ clients s) as Hnew.
  { intros Hin. destruct (Hc _ Hin) as (e & He & _). apply Hh in He as [? _]. lia. }
  assert (s_nextPtr s ∉ pendingClients s) by auto.
  split; [| | |done]; cbn.
  - split; [apply list.NoDup_app; repeat split;
      [done | intros x Hx; set_solver | apply NoDup_singleton]|].
    split; [done|]. split; [set_solver|done].
  - intros p [Hp| ->%list_elem_of_singleton]%elem_of_app.
    + destruct (Hc p Hp) as (e & He & Hok). exists e. split; [|done].
      rewrite lookup_insert_ne; [done | by intros <-].
    + exists c. rewrite lookup_insert_eq. split; [done|].
      split; [done|]. split; [done|]. split; [cbn; unfold sessionClientOutBufferSize; lia|].
      split; [done|]. intros _. exists att, [], acc, [], (s_term s).
      split; [done|]. split; [constructor|]. split; [by rewrite app_nil_r|].
      split; [done|]. split; [by exists d|]. by rewrite missing_notin.
  - assert (id = u64 (Z.of_nat (s_nextPtr s) + 1)) as Hid'
      by (unfold id; by rewrite Hid, u64_succ).
    split; [rewrite Hid'; f_equal; lia|].
    intros p e. destruct (decide (s_nextPtr s = p)) as [<-|].
    + rewrite lookup_insert_eq. intros [= <-]. split; [lia|]. cbn. by rewrite Hid'.
    + rewrite lookup_insert_ne by done. intros He%Hh. split; [lia | apply He].
Qed.

Lemma on_attach_ok acc spec s :
  Inv acc s -> termSize_ok (as_size spec) ->
  exists s' r, on_attach spec s = Val (set_s_phase Top s', Some r) /\ Inv acc s'.
Proof.
  intros HI Hsz. unfold on_attach.
  assert (exists s1, (if as_readOnly spec then Val s
            else resizeForPending (clients s) (as_size spec) s) = Val s1 /\ Inv acc s1)
    as (s1 & -> & HI1).
  { destruct (as_readOnly spec); [eauto|].
    destruct (resizeForPending_spec (clients s) (as_size spec) s) as (s1 & -> & Hr);
      [eapply clients_ok_all_in, HI|]. eexists. split; [done|]. by eapply resized_ok. }
  cbn [go_bind].
  destruct (push_pending_ok acc s1 HI1) as (s2 & -> & HI2 & Hpf & _). cbn [go_bind].
  destruct (waitFeedApplied_ok acc s2 HI2 Hpf) as (s3 & -> & HI3 & (t & a & ch & ->) & Ht).
  cbn [go_bind]. set (s3 := set_s_applied _ _) in *.
  destruct (term_dumpVTFull (s_term s3)) as [d|e] eqn:Hd; [|eauto].
  destruct (Session_size _) as [co ro] eqn:Hsize.
  cbn [chan_send chan_try_send make_chan go_bind ch_closed ch_buf ch_cap length app].
  unfold chan_send, chan_try_send. cbn [ch_closed make_chan ch_buf ch_cap length go_bind].
  replace (0 <? sessionClientOutBufferSize)%nat with true by done. cbn [go_bind app].
  match goal with |- context [MsgAttached ?att] =>
    pose proof (new_client_ok acc s3 spec att d HI3 Hpf Ht Hd Hsz eq_refl eq_refl
      eq_refl eq_refl) as HI4 end.
  cbv zeta in HI4.
  match type of HI4 with Inv _ ?X => change (Inv acc X) in HI4; set (s4 := X) in * end.
  match goal with |- context [if as_readOnly spec then Val ?X else _] =>
    change X with s4 end.
  assert (exists s5, (if as_readOnly spec then Val s4 else arbitrateResize (clients s4) s4)
            = Val s5 /\ Inv acc s5) as (s5 & -> & HI5).
  { destruct (as_readOnly spec); [eauto|].
    destruct (rearrange_ok acc s4 HI4) as (s5 & _ & -> & _ & _ & ? & _). eauto. }
  cbn [go_bind]. destruct (notify_ok acc s5 HI5) as (h & -> & HI6 & _).
  cbn [go_bind]. eauto.
Qed.

Lemma on_detach_ok acc p s :
  Inv acc s -> exists s', on_detach p s = Val (set_s_phase Top s', None) /\ Inv acc s'.
Proof.
  intros HI. unfold on_detach. destruct (Nat.eqb_spec (length (removeClient (clients s) p))
    (length (clients s))) as [|Hne]; [eauto|].
  rewrite removeClient_length in Hne.
  destruct (drop_ok acc s p HI) as (s1 & c & -> & HI1 & _).
  { destruct (decide (p ∈ clients s)); done. }
  cbn [go_bind]. destruct (rearrange_ok acc s1 HI1) as (s2 & h & -> & Hr & Hn & _ & HI2).
  cbn [go_bind]. rewrite Hn. cbn [go_bind]. eauto.
Qed.

Lemma store_conn_ok acc p c s :
  Inv acc s -> s_heap s !! p = Some c -> Inv acc (store p (set_sc_connClosed true c) s).
Proof.
  intros [Hl Hc Hh Hf] Hp. split; [done| | |done]; cbn.
  - intros q Hq. destruct (Hc q Hq) as (d & Hd & Hok).
    destruct (decide (p = q)) as [->|];
      [|exists d; by rewrite lookup_insert_ne].
    rewrite lookup_insert_eq. eexists. split; [done|].
    rewrite Hp in Hd. injection Hd as <-. exact Hok.
  - destruct Hh as [? Hh]. split; [done|]. intros q d.
    destruct (decide (p = q)) as [->|]; [|rewrite lookup_insert_ne by done; apply Hh].
    rewrite lookup_insert_eq. intros [= <-]. exact (Hh q c Hp).
Qed.

Lemma find_client_spec cs id s :
  all_in (s_heap s) cs ->
  exists r, find_client cs id s = Val r /\
    match r with
    | Some p => p ∈ cs /\ exists c, s_heap s !! p = Some c /\ sc_id c = id
    | None => forall p c, p ∈ cs -> s_heap s !! p = Some c -> sc_id c <> id
    end.
Proof.
  induction cs as [|p cs IH]; intros Hin; cbn [find_client].
  { exists None. split; [done|]. intros p c Hp. by apply not_elem_of_nil in Hp. }
  destruct (Hin p) as [c Hc]; [constructor|]. rewrite (deref_Val _ _ _ Hc). cbn [go_bind].
  destruct (String.eqb_spec (sc_id c) id) as [He|Hne].
  - exists (Some p). split; [done|]. split; [constructor|]. eauto.
  - destruct IH as (r & -> & Hr); [intros q Hq; apply Hin; by constructor|].
    exists r. split; [done|]. destruct r as [q|].
    + destruct Hr as [? ?]. split; [by constructor|done].
    + intros q d [->|Hq]%elem_of_cons Hd; [congruence|eauto].
Qed.

Lemma on_kick_ok acc id s :
  Inv acc s -> exists s' r, on_kick id s = Val (set_s_phase Top s', Some r) /\ Inv acc s'.
Proof.
  intros HI. unfold on_kick.
  destruct (find_client_spec (clients s) id s) as (r & -> & Hr); [eapply clients_ok_all_in, HI|].
  cbn [go_bind]. destruct r as [p|]; [|eauto]. destruct Hr as [Hp _].
  destruct (drop_ok acc s p HI Hp) as (s1 & c & -> & HI1 & Hc & Hh). cbn [go_bind].
  unfold close_conn. assert (s_heap s1 !! p = Some (closed c)) as Hc1
    by (rewrite Hh; apply lookup_insert_eq).
  rewrite (deref_Val _ _ _ Hc1). cbn [go_bind].
  pose proof (store_conn_ok acc p _ s1 HI1 Hc1) as HI2.
  destruct (rearrange_ok acc _ HI2) as (s3 & h & H3 & Hr & Hn & _ & HI3).
  cbn [store set_s_heap clients] in H3. 
  change (clients (store p (set_sc_connClosed true (closed c)) s1)) with (clients s1) in *.
  rewrite H3. cbn [go_bind]. rewrite Hn. cbn [go_bind]. eauto.
Qed.

Lemma store_size_ok acc p c sz s :
  Inv acc s -> s_heap s !! p = Some c -> termSize_ok sz ->
  Inv acc (store p (set_sc_size sz c) s).
Proof.
  intros [Hl Hc Hh Hf] Hp Hsz. split; [done| | |done]; cbn.
  - intros q Hq. destruct (Hc q Hq) as (d & Hd & Hok).
    destruct (decide (p = q)) as [->|]; [|exists d; by rewrite lookup_insert_ne].
    rewrite lookup_insert_eq. eexists. split; [done|].
    rewrite Hp in Hd. injection Hd as <-. exact Hok.
  - destruct Hh as [? Hh]. split; [done|]. intros q d.
    destruct (decide (p = q)) as [->|]; [|rewrite lookup_insert_ne by done; apply Hh].
    rewrite lookup_insert_eq. intros [= <-]. destruct (Hh q c Hp) as (? & ? & ?). done.
Qed.

Lemma on_resize_ok acc p sz s :
  Inv acc s -> is_Some (s_heap s !! p) -> termSize_ok sz ->
  exists s', on_resize p sz s = Val (set_s_phase SessionLoop.Top s', None) /\ Inv acc s'.
Proof.
  intros HI [c Hp] Hsz. unfold on_resize. rewrite (deref_Val _ _ _ Hp). cbn [go_bind].
  pose proof (store_size_ok acc p c sz s HI Hp Hsz) as HI1.
  set (s1 := store p _ s) in *. change (clients s) with (clients s1).
  destruct (rearrange_ok acc s1 HI1) as (s2 & h & -> & _ & _ & HI2 & _).
  cbn [go_bind]. eauto.
Qed.

(** What [clientInfoReq] reports. *)
Definition info_of (h : heap) (cs : list nat) : list SessionClient :=
  omap (fun p => (fun c => mkSessionClient (sc_id c) (sc_readOnly c) (sc_version c)) <$> h !! p) cs.

Lemma client_infos_spec cs s :
  all_in (s_heap s) cs -> client_infos cs s = Val (info_of (s_heap s) cs).
Proof.
  induction cs as [|p cs IH]; intros Hin; [done|]. cbn [client_infos].
  destruct (Hin p) as [c Hc]; [constructor|]. rewrite (deref_Val _ _ _ Hc). cbn [go_bind].
  rewrite IH by (intros q Hq; apply Hin; by constructor). cbn [go_bind].
  unfold info_of. cbn. by rewrite Hc.
Qed.

(** ** The ends of the loop *)

(** What happens to a client's object at the end of the process, and at a kill. *)
Definition finish (m : Message) (c : sessionClient) : sessionClient :=
  closed (set_sc_final (Some m) c).
Definition stopped (c : sessionClient) : sessionClient := set_sc_connClosed true (closed c).

Lemma heap_on_cons p cs f h c :
  p ∉ cs -> h !! p = Some c ->
  heap_on (in_list cs) f (<[p := f c]> h) = heap_on (in_list (p :: cs)) f h.
Proof.
  intros Hp Hc. apply map_eq. intros q. rewrite !lookup_heap_on, in_list_cons.
  case_bool_decide; subst; cbn.
  - by rewrite lookup_insert_eq, Hc, in_list_false.
  - by rewrite lookup_insert_ne.
Qed.

Lemma finish_clients_spec cs m s :
  NoDup cs -> all_open (s_heap s) cs ->
  finish_clients cs m s = Val (set_s_heap (heap_on (in_list cs) (finish m) (s_heap s)) s).
Proof.
  intros Hnd. revert s. induction Hnd as [|p cs Hp Hnd IH]; intros s Ho.
  - cbn. rewrite heap_on_none by done. by rewrite set_s_heap_id.
  - apply all_open_cons in Ho as ((c & Hc & Hco) & Ho). cbn [finish_clients].
    rewrite (deref_Val _ _ _ Hc). cbn [go_bind]. unfold close_out.
    rewrite (deref_Val _ p (set_sc_final (Some m) c)) by apply lookup_insert_eq.
    cbn [go_bind]. rewrite chan_close_open by done. cbn [go_bind].
    rewrite IH; cbn [store set_s_heap s_heap].
    + rewrite insert_insert_eq. change (set_sc_outCh _ _) with (finish m c).
      by rewrite (heap_on_cons p cs (finish m) _ c).
    + rewrite insert_insert_eq. by apply all_open_store.
Qed.

Lemma stop_clients_spec cs s :
  NoDup cs -> all_open (s_heap s) cs ->
  stop_clients cs s = Val (set_s_heap (heap_on (in_list cs) stopped (s_heap s)) s).
Proof.
  intros Hnd. revert s. induction Hnd as [|p cs Hp Hnd IH]; intros s Ho.
  - cbn. rewrite heap_on_none by done. by rewrite set_s_heap_id.
  - apply all_open_cons in Ho as ((c & Hc & Hco) & Ho). cbn [stop_clients]. unfold close_out.
    rewrite (deref_Val _ _ _ Hc). cbn [go_bind].
    rewrite chan_close_open by done. cbn [go_bind]. unfold close_conn.
    rewrite (deref_Val _ p (closed c)) by apply lookup_insert_eq. cbn [go_bind].
    rewrite IH; cbn [store set_s_heap s_heap].
    + rewrite insert_insert_eq. change (set_sc_connClosed _ _) with (stopped c).
      by rewrite (heap_on_cons p cs stopped _ c).
    + rewrite insert_insert_eq. by apply all_open_store.
Qed.

(** Closing the feed and waiting for the feed loop. *)
Lemma close_feed_ok acc s :
  Inv acc s ->
  exists s', close_feed s = Val s' /\ ch_buf (s_feedCh s') = [] /\
    s_heap s' = s_heap s /\ clients s' = clients s /\ s_exitCode s' = s_exitCode s.
Proof.
  intros [Hl Hc Hh Hf]. unfold close_feed. pose proof Hf as (Ho & _).
  rewrite chan_close_open by done. cbn [go_bind]. unfold drain. cbn [s_feedCh set_s_feedCh ch_buf].
  destruct (s_feedCh s) as [buf cap cl] eqn:E. cbn [ch_buf ch_cap] in *.
  rewrite <- (app_nil_r buf) in Hf. apply feed_ok_take in Hf as (Hnd & Hnew & _).
  rewrite feed_all_spec by done. cbn [go_bind]. eexists. split; [done|]. done.
Qed.

(** The end of the process: every listed client is closed with [Exited] as its
    last message. *)
Lemma on_pty_closed_spec acc s :
  Inv acc s -> pendingFeed s = None ->
  exists s', on_pty_closed s = Val s' /\ s_phase s' = Returned /\ s_done s' = true /\
    ch_buf (s_feedCh s') = [] /\ clients s' = clients s /\
    s_heap s' = heap_on (in_list (clients s))
      (finish (MsgExited (mkExited (s_exitCode s)))) (s_heap s).
Proof.
  intros HI Hpf. unfold on_pty_closed.
  destruct (waitFeedApplied_ok acc s HI Hpf) as (s1 & -> & HI1 & (t & a & ch & Hs1) & _).
  cbn [go_bind]. destruct (close_feed_ok acc s1 HI1) as (s2 & -> & Hb & Hh & Hc & He).
  cbn [go_bind]. subst s1. cbn in Hh, Hc, He.
  rewrite finish_clients_spec; rewrite ?Hc, ?Hh, ?He.
  - cbn [go_bind]. eexists. split; [done|]. done.
  - apply (inv_lists _ _ HI).
  - eapply clients_ok_all_open, HI.
Qed.

(** A kill: every listed client is closed without a last message. *)
Lemma on_stop_spec acc s :
  Inv acc s ->
  exists s', on_stop s = Val (s', None) /\ s_phase s' = Returned /\ s_done s' = true /\
    ch_buf (s_feedCh s') = [] /\ clients s' = clients s /\
    s_heap s' = heap_on (in_list (clients s)) stopped (s_heap s).
Proof.
  intros HI. unfold on_stop.
  set (x := match pendingFeed s with None => _ | _ => _ end).
  assert (exists s1, x = Val s1 /\ s_heap s1 = s_heap s /\ clients s1 = clients s /\
    exists s2, close_feed s1 = Val s2 /\ ch_buf (s_feedCh s2) = [] /\
    s_heap s2 = s_heap s /\ clients s2 = clients s) as (s1 & -> & Hh1 & Hc1 & s2 & Hs2 & Hb & Hh & Hc).
  { unfold x. destruct (pendingFeed s) as [it|] eqn:Hpf.
    - pose proof (inv_feed _ _ HI) as Hf. rewrite Hpf in Hf.
      destruct Hf as (Ho & Hcap & Hle & _ & (k & Hs & Hk & Ha) & _).
      cbn [option_list] in Hs. rewrite map_app in Hs. cbn in Hs.
      apply seq_app_inv in Hs as (H1 & H2 & H3). cbn in H2, H3. rewrite length_map in *.
      injection H2 as Hit. unfold close_applied.
      rewrite decide_False by (rewrite Ha; lia). cbn [go_bind].
      eexists. split; [done|]. do 2 (split; [done|]). unfold close_feed. cbn [s_feedCh set_pendingFeed set_s_applied].
      rewrite chan_close_open by done. cbn [go_bind]. unfold drain. cbn [s_feedCh set_s_feedCh ch_buf].
      rewrite feed_all_spec; cbn [s_applied set_s_feedCh set_pendingFeed set_s_applied].
      + cbn [go_bind]. eexists. split; [done|]. done.
      + rewrite H1. apply NoDup_seq.
      + intros n. rewrite H1, elem_of_seq, elem_of_union, elem_of_singleton, Ha. lia.
    - exists s. do 3 (split; [done|]).
      destruct (close_feed_ok acc s HI) as (s2 & ? & ? & ? & ? & _). eauto 10. }
  cbn [go_bind]. rewrite Hs2. cbn [go_bind].
  rewrite stop_clients_spec; rewrite ?Hc, ?Hh.
  - cbn [go_bind]. eexists. split; [done|]. done.
  - apply (inv_lists _ _ HI).
  - eapply clients_ok_all_open, HI.
Qed.

(** ** The other branches of the select *)

Lemma loop_head_ok acc s :
  Inv acc s -> exists s', loop_head s = Val (set_s_phase Select s') /\ Inv acc s'.
Proof.
  intros HI. unfold loop_head. destruct (prune_ok acc s HI) as (s1 & -> & HI1 & _).
  cbn [go_bind]. destruct (pendingOutput s1) as [d|] eqn:Hd; cbn [go_bind]; [|eauto].
  destruct (flush_ok acc s1 d HI1 Hd) as (pending & s2 & -> & HI2). cbn [go_bind].
  eexists. split; [done|]. by apply settle_ok.
Qed.

(** A chunk from the pty: queued to the live clients, then pending for the feed. *)
Lemma on_pty_data_ok acc data s :
  Inv acc s -> pendingFeed s = None -> pendingOutput s = None -> blen data <= ptyBatchSize ->
  exists s', on_pty_data data s = Val (set_s_phase SessionLoop.Top s') /\ Inv (acc ++ [data]) s'.
Proof.
  intros [Hl Hc Hh Hf] Hpf Hpo Hlen. pose proof Hl as (Hnd & _ & _ & Hpn). specialize (Hpn Hpo).
  unfold on_pty_data. rewrite queueOutput_spec; [|done|by eapply clients_ok_all_open].
  cbn [go_bind]. set (pend := base.filter _ _). set (h := offer_heap _ _ _ _).
  replace (ptyBatchSize <? blen data) with false by (symmetry; by apply Z.ltb_ge).
  set (po := match pend with [] => None | _ => Some data end).
  assert (Inv (acc ++ [data])
    (set_lastFeedApplied (Some (s_nextApplied s))
      (set_pendingFeed (Some (mkFeedItem data (s_nextApplied s)))
        (set_s_nextApplied (S (s_nextApplied s))
          (set_pendingOutput po (set_pendingClients pend (set_s_heap h s))))))) as HI.
  { split; cbn.
    - split; [done|]. split; [by apply list.NoDup_filter|].
      split; [intros p Hp; by apply list_elem_of_filter in Hp as [_ ?]|].
      unfold po. by destruct pend.
    - eapply clients_ok_offer; [done| | |done]; intros p Hp Ha;
        rewrite in_list_true, Ha by done; rewrite Hpo, Hpn; cbn.
      + intros _ Hfu. rewrite missing_notin; [done|].
        intros [Hq _]%list_elem_of_filter. by rewrite Ha, Hfu in Hq.
      + intros [|Hfu]; [done|].
        assert (p ∈ pend) as Hin by (apply list_elem_of_filter; by rewrite Ha, Hfu).
        unfold po. destruct pend; [by apply not_elem_of_nil in Hin|]. by rewrite missing_in.
    - by apply heap_ok_heap_on.
    - rewrite Hpf in Hf. destruct Hf as (Ho & Hcap & Hle & (fed & Ht & Hacc) & (k & Hs & Hk & Ha) & _).
      cbn in *. rewrite app_nil_r in *.
      do 3 (split; [done|]). split; [|split; [|lia]].
      + exists fed. split; [done|]. by rewrite Hacc, map_app, <- app_assoc.
      + exists k. split; [|split; [lia|done]]. rewrite map_app, Hs. cbn.
        replace (S (s_nextApplied s) - k)%nat with (S (s_nextApplied s - k)) by lia.
        rewrite seq_S. do 2 f_equal. lia. }
  eexists. split; [|exact HI]. f_equal. unfold po. cbn [pendingOutput]. destruct pend; [|done].
  destruct s. cbn in Hpo. by subst.
Qed.

(** A writer's step on a listed client keeps its stream, or ends it. *)
Lemma writer_step_ok acc p c c' s :
  Inv acc s -> s_heap s !! p = Some c ->
  sc_id c' = sc_id c -> sc_size c' = sc_size c ->
  (forall miss, client_ok acc miss c -> client_ok acc miss c') ->
  Inv acc (store p c' s).
Proof.
  intros [Hl Hc [? Hh] Hf] Hp Hid Hsz Hok. split; [done| | |done]; cbn.
  - intros q Hq. destruct (Hc q Hq) as (d & Hd & Hdok).
    destruct (decide (p = q)) as [->|]; [|exists d; by rewrite lookup_insert_ne].
    rewrite lookup_insert_eq. eexists. split; [done|]. apply Hok. congruence.
  - split; [done|]. intros q d.
    destruct (decide (p = q)) as [->|]; [|rewrite lookup_insert_ne by done; apply Hh].
    rewrite lookup_insert_eq. intros [= <-]. rewrite Hid, Hsz. by apply Hh.
Qed.

Lemma ready_ok acc b s : Inv acc s -> Inv acc (set_s_clientReady b s).
Proof. by intros [? ? ? ?]. Qed.

Lemma writer_take_ok acc p s s' : Inv acc s -> writer_take p s = Some s' -> Inv acc s'.
Proof.
  intros HI. unfold writer_take. destruct (s_heap s !! p) as [c|] eqn:Hp; [|done].
  destruct (sc_writeDone c) eqn:Hw; [done|]. destruct (sc_inflight c) eqn:Hi; [done|].
  destruct (ch_buf (sc_outCh c)) as [|m ms] eqn:Hb; [done|]. intros [= <-].
  apply ready_ok. apply (writer_step_ok acc p c); try done.
  intros miss (Ho & Hcap & Hle & Hf & Hd).
  split; [done|]. split; [done|]. split; [rewrite Hb in Hle; cbn in *; lia|]. split; [done|].
  intros _. eapply delivered_same; [|by apply Hd].
  unfold stream. cbn. by rewrite Hi, Hb.
Qed.

Lemma writer_ok_ok acc p s s' : Inv acc s -> writer_ok p s = Some s' -> Inv acc s'.
Proof.
  intros HI. unfold writer_ok. destruct (s_heap s !! p) as [c|] eqn:Hp; [|done].
  destruct (sc_inflight c) as [m|] eqn:Hi; [|done].
  destruct (sc_connClosed c); [done|]. intros [= <-].
  apply (writer_step_ok acc p c); try done.
  intros miss (Ho & Hcap & Hle & Hf & Hd). do 4 (split; [done|]).
  intros Hw. eapply delivered_same; [|by apply Hd].
  unfold stream. cbn. rewrite Hi. by rewrite <- app_assoc.
Qed.

Lemma client_ok_exit acc miss c c' :
  sc_outCh c' = sc_outCh c -> sc_final c' = sc_final c ->
  client_ok acc miss c -> client_ok acc miss (set_sc_writeDone true c').
Proof.
  intros Hch Hf (? & ? & ? & ? & _). unfold client_ok. cbn. by rewrite Hch, Hf.
Qed.

Lemma writer_err_ok acc p s s' : Inv acc s -> writer_err p s = Some s' -> Inv acc s'.
Proof.
  intros HI. unfold writer_err. destruct (s_heap s !! p) as [c|] eqn:Hp; [|done].
  destruct (sc_inflight c) as [m|] eqn:Hi; [|done]. intros [= <-].
  apply ready_ok, (writer_step_ok acc p c); try done.
  intros miss. by apply client_ok_exit.
Qed.

Lemma writer_final_ok acc p ok s s' : Inv acc s -> writer_final p ok s = Some s' -> Inv acc s'.
Proof.
  intros HI. unfold writer_final. destruct (s_heap s !! p) as [c|] eqn:Hp; [|done].
  destruct (sc_writeDone c) eqn:Hw; [done|]. destruct (sc_inflight c) eqn:Hi; [done|].
  destruct (ch_buf (sc_outCh c)) eqn:Hb; [|done].
  destruct (ch_closed (sc_outCh c)) eqn:Hcl; [|done].
  assert (forall c' miss, client_ok acc miss c -> client_ok acc miss c') as Habs.
  { intros c' miss (Ho & _). unfold chan_open in Ho. congruence. }
  destruct (sc_final c); [destruct ok; [destruct (sc_connClosed c)|]|];
    intros; simplify_eq; apply ready_ok, (writer_step_ok acc p c); auto.
Qed.

(** ** Every event *)

(** The state between events: the loop has returned and the feed is empty, or
    the invariant holds. *)
Definition good (acc : list bytes) (s : Session T) : Prop :=
  (s_phase s = Returned /\ ch_buf (s_feedCh s) = []) \/
  (s_phase s <> Returned /\ Inv acc s).

(** A writer's step, if it is one. *)
Definition writer_step (ev : event) (s : Session T) : option (Session T) :=
  match ev with
  | EvWriterTake p => writer_take p s
  | EvWriterOk p => writer_ok p s
  | EvWriterErr p => writer_err p s
  | EvWriterFinal p ok => writer_final p ok s
  | EvConnClosed p => (fun c => store p (set_sc_connClosed true c) s) <$> s_heap s !! p
  | _ => None
  end.

Lemma exec_writer ev s x :
  match ev with
  | EvWriterTake _ | EvWriterOk _ | EvWriterErr _ | EvWriterFinal _ _ | EvConnClosed _ => True
  | _ => False
  end ->
  exec ev s = Some x -> exists s', x = Val (s', None) /\ writer_step ev s = Some s'.
Proof.
  destruct ev; try done; intros _; cbn [exec writer_step];
    try (intros (s' & -> & ->)%fmap_Some; by eauto).
  all: destruct (s_heap s !! p); [|done]; intros [= <-]; eauto.
Qed.

Lemma writer_step_frame ev s s' :
  writer_step ev s = Some s' -> s_phase s' = s_phase s /\ s_feedCh s' = s_feedCh s.
Proof.
  destruct ev; cbn [writer_step]; try done;
    unfold writer_take, writer_ok, writer_err, writer_final;
    destruct (s_heap s !! p) as [c|]; try done; cbn; intros H;
    repeat match type of H with
    | context [match ?x with _ => _ end] => destruct x; try discriminate
    end; by injection H as <-.
Qed.

Lemma writer_step_inv acc ev s s' : Inv acc s -> writer_step ev s = Some s' -> Inv acc s'.
Proof.
  intros HI. destruct ev; cbn [writer_step]; try done.
  - by apply writer_take_ok.
  - by apply writer_ok_ok.
  - by apply writer_err_ok.
  - by apply writer_final_ok.
  - intros (c & Hc & ->)%fmap_Some. by apply store_conn_ok.
Qed.

Lemma feed_loop_ok acc s it items :
  Inv acc s -> ch_buf (s_feedCh s) = it :: items ->
  exists s', feed_one it (set_s_feedCh
      (mkChan items (ch_cap (s_feedCh s)) (ch_closed (s_feedCh s))) s) = Val s' /\
    Inv acc s' /\ s_phase s' = s_phase s.
Proof.
  intros [Hl Hc Hh Hf] Hb. destruct (s_feedCh s) as [buf cap cl] eqn:E. cbn in Hb. subst buf.
  apply (feed_ok_take _ _ [it]) in Hf as (_ & Hnew & Hf). cbn in Hf.
  unfold feed_one, close_applied. cbn.
  rewrite decide_False by (apply Hnew; constructor). eexists. split; [done|].
  split; [|done]. split; [done..|]. by rewrite union_empty_r_L in Hf.
Qed.

Lemma on_action_ok acc a s :
  Inv acc s -> event_ok (EvAction a) s ->
  exists s' r, on_action a s = Val (s', r) /\ good acc s'.
Proof.
  intros HI Hev. unfold on_action. destruct (prune_ok acc s HI) as (s1 & -> & HI1 & Hdom).
  cbn [go_bind].
  assert (forall s', Inv acc s' -> good acc (set_s_phase SessionLoop.Top s')) as Hgood.
  { intros s' HI'. right. split; [done | by apply phase_ok]. }
  destruct a as [spec|p|p sz|id| |]; cbn in Hev.
  - destruct (on_attach_ok acc spec s1 HI1 Hev) as (s' & r & -> & ?). eauto.
  - destruct (on_detach_ok acc p s1 HI1) as (s' & -> & ?). eauto.
  - destruct Hev as [Hp Hsz].
    destruct (on_resize_ok acc p sz s1 HI1 (Hdom p Hp) Hsz) as (s' & -> & ?). eauto.
  - destruct (on_kick_ok acc id s1 HI1) as (s' & r & -> & ?). eauto.
  - unfold on_clientInfo. rewrite client_infos_spec by (eapply clients_ok_all_in, HI1).
    cbn [go_bind]. eauto.
  - destruct (on_stop_spec acc s1 HI1) as (s' & -> & Hph & _ & Hb & _).
    eexists _, _. split; [done|]. by left.
Qed.

Lemma exec_ok acc ev s x :
  good acc s -> event_ok ev s -> exec ev s = Some x ->
  exists s' r, x = Val (s', r) /\ good (acc ++ accepted [ev]) s'.
Proof.
  intros Hg Hev Hx.
  assert (forall s' ev', writer_step ev' s = Some s' -> good acc s') as Hwriter.
  { intros s' ev' Hs. destruct (writer_step_frame _ _ _ Hs) as [Hph Hch].
    destruct Hg as [[? ?]|[? ?]]; [left | right]; rewrite Hph, ?Hch; split; auto.
    by eapply writer_step_inv. }
  destruct ev; cbn [accepted omap list_omap]; rewrite ?app_nil_r;
    try (apply exec_writer in Hx as (s' & -> & Hs); [|done]; eauto);
    cbn [exec] in Hx.
  - destruct (s_phase s) eqn:Hph; [|done..]. injection Hx as <-.
    destruct Hg as [[? _]|[_ HI]]; [congruence|].
    destruct (loop_head_ok acc s HI) as (s' & Hs' & HI'). unfold no_reply. rewrite Hs'.
    eexists _, _. split; [done|]. right. split; [done | by apply phase_ok].
  - destruct (s_phase s) eqn:Hph; [done| |done].
    destruct (pendingFeed s) eqn:Hpf; [done|]. destruct (pendingOutput s) eqn:Hpo; [done|].
    injection Hx as <-. destruct Hg as [[? _]|[_ HI]]; [congruence|].
    destruct (on_pty_data_ok acc data s HI Hpf Hpo Hev) as (s' & Hs' & HI').
    unfold no_reply. rewrite Hs'.
    eexists _, _. split; [done|]. right. split; [done | by apply phase_ok].
  - destruct (s_phase s) eqn:Hph; [done| |done].
    destruct (pendingFeed s) eqn:Hpf; [done|]. destruct (pendingOutput s) eqn:Hpo; [done|].
    injection Hx as <-. destruct Hg as [[? _]|[_ HI]]; [congruence|].
    destruct (on_pty_closed_spec acc s HI Hpf) as (s' & Hs' & Hph' & _ & Hb & _).
    unfold no_reply. rewrite Hs'. eexists _, _. split; [done|]. by left.
  - destruct (s_phase s) eqn:Hph; [done| |done]. destruct (pendingFeed s) as [it|] eqn:Hpf; [|done].
    destruct (_ <? _)%nat eqn:Hlt; [|done]. injection Hx as <-. apply Nat.ltb_lt in Hlt.
    destruct Hg as [[? _]|[_ HI]]; [congruence|].
    destruct (feed_send_ok acc s it HI Hpf Hlt) as (ch & -> & HI').
    eexists _, _. split; [done|]. right. split; [done | by apply phase_ok].
  - destruct (s_phase s) eqn:Hph; [done| |done]. destruct (pendingOutput s); [|done].
    destruct (s_clientReady s); [|done]. injection Hx as <-.
    destruct Hg as [[? _]|[_ HI]]; [congruence|].
    eexists _, _. split; [done|]. right. split; [done | by apply phase_ok, ready_ok].
  - destruct (s_phase s) eqn:Hph; [done| |done]. injection Hx as <-.
    destruct Hg as [[? _]|[_ HI]]; [congruence|]. by apply on_action_ok.
  - destruct (ch_buf (s_feedCh s)) as [|it items] eqn:Hb; [done|]. injection Hx as <-.
    destruct Hg as [[_ ?]|[Hph HI]]; [congruence|].
    destruct (feed_loop_ok acc s it items HI Hb) as (s' & Hs' & HI' & Hph'). unfold no_reply.
    rewrite Hs'. eexists _, _. split; [done|]. right. by rewrite Hph'.
Qed.

(** ** Reachable states *)

Lemma startSession_inv name pid ex policy sz : Inv [] (startSession name pid ex policy sz t0).
Proof.
  split; cbn.
  - split; [constructor|]. split; [constructor|]. done.
  - intros p Hp. by apply not_elem_of_nil in Hp.
  - split; [done|]. intros p c. by rewrite lookup_empty.
  - do 3 (split; [done || cbn; lia|]). split; [|split; [|done]].
    + exists []. split; [by exists []|done].
    + exists 0%nat. do 2 (split; [done|]). intros n. split; [set_solver | lia].
Qed.

Lemma accepted_snoc evs ev : accepted (evs ++ [ev]) = accepted evs ++ accepted [ev].
Proof. apply omap_app. Qed.

Lemma steps_good name pid ex policy sz evs s :
  steps (startSession name pid ex policy sz t0) evs s -> good (accepted evs) s.
Proof.
  remember (startSession name pid ex policy sz t0) as s0 eqn:E.
  induction 1 as [s|s evs s1 ev s2 r Hs IH Hev Hx]; subst.
  - right. split; [done | apply startSession_inv].
  - rewrite accepted_snoc. specialize (IH eq_refl).
    destruct (exec_ok _ _ _ _ IH Hev Hx) as (s' & r' & [= -> ->] & Hg). exact Hg.
Qed.
End Inv.
