(* ===== verification/SessionProps.v ===== *)
(** * SessionProps: what the run loop guarantees

    The theorems about every execution of a session from [startSession]:
    it never panics or deadlocks, each client sees the screen and then every
    later chunk once and in order, the last message of a finished session is
    [Exited], client IDs are unique, buffers are bounded, and the pty has the size
    the policy asks for after every request. *)
From Stdlib Require Import ZArith Lia.
From stdpp Require Import base gmap sets list strings numbers option pretty.
From S2P Require Import Prelude Wire Messages Chan Resize SessionLoop SessionLists SessionInv.
#[local] Open Scope Z_scope.

(** ** Sizes after a request *)

Section Sizes.
Context {T : Type} {HT : Terminal T}.
Implicit Types s : Session T.

(** The pty has the size the policy picks for the listed clients. *)
Definition settled s : Prop :=
  sizes_of (s_heap s) (clients s) = [] \/
  exists t, applyResizePolicy (s_resizePolicy s) (sizes_of (s_heap s) (clients s)) = Val t /\
    Session_size s = (cols t, rows t).

Lemma sizes_of_ok h cs next id : heap_ok h next id -> Forall termSize_ok (sizes_of h cs).
Proof.
  intros [_ Hh]. apply list.Forall_forall. intros sz (p & _ & Hp)%list_elem_of_omap.
  destruct (h !! p) as [c|] eqn:E; [|done]. destruct (sc_readOnly c); simplify_eq.
  by apply (Hh p c).
Qed.

Lemma sizes_of_ext h h' cs :
  (forall p, p ∈ cs -> (fun c => (sc_readOnly c, sc_size c)) <$> h !! p
                     = (fun c => (sc_readOnly c, sc_size c)) <$> h' !! p) ->
  sizes_of h cs = sizes_of h' cs.
Proof.
  intros H. unfold sizes_of. induction cs as [|p cs IH]; [done|]. cbn.
  assert (Hp := H p ltac:(constructor)).
  rewrite IH by (intros q Hq; apply H; by constructor).
  destruct (h !! p) as [c|], (h' !! p) as [d|]; cbn in Hp; try done.
  by injection Hp as -> ->.
Qed.

Lemma sizes_of_app h l1 l2 : sizes_of h (l1 ++ l2) = sizes_of h l1 ++ sizes_of h l2.
Proof. apply omap_app. Qed.

Lemma sizes_of_offer h cs offered sel m : sizes_of (offer_heap offered sel m h) cs = sizes_of h cs.
Proof.
  apply sizes_of_ext. intros p _. unfold offer_heap. rewrite lookup_heap_on.
  destruct (h !! p) as [c|]; [|done]. cbn. by destruct (_ && _).
Qed.

Lemma Session_size_resize sz s :
  termSize_ok sz -> Session_size (resize sz s) = (cols sz, rows sz).
Proof. intros (Hc & Hr & _). by apply unpack_pack_size. Qed.

Lemma resize_to_target_full sizes s :
  sizes <> [] -> Forall termSize_ok sizes ->
  exists t s', applyResizePolicy (s_resizePolicy s) sizes = Val t /\
    resize_to_target sizes s = Val s' /\ resized s s' /\ Session_size s' = (cols t, rows t) /\
    (Session_size s = (cols t, rows t) -> s' = s).
Proof.
  intros Hne Hok. destruct (policy_returns (s_resizePolicy s) sizes Hne) as [t Ht].
  pose proof (policy_result_ok _ _ _ Hne Hok Ht) as Htok.
  unfold resize_to_target. rewrite Ht. cbn [go_bind].
  destruct (Session_size s) as [c r] eqn:Hs. exists t. eexists. do 2 (split; [done|]).
  destruct (Z.eqb_spec (cols t) c), (Z.eqb_spec (rows t) r); cbn [negb orb]; subst;
    (split; [apply resized_refl || apply resized_resize|]);
    (split; [done || by apply Session_size_resize|]); congruence.
Qed.

Lemma arbitrate_settled acc t0 s :
  Inv t0 acc s ->
  exists s', arbitrateResize (clients s) s = Val s' /\ resized s s' /\ settled s'.
Proof.
  intros HI. unfold arbitrateResize. rewrite collectClientSizes_spec
    by (eapply clients_ok_all_in, HI). cbn [go_bind].
  destruct (sizes_of (s_heap s) (clients s)) as [|sz szs] eqn:E; cbn [length Nat.eqb].
  - exists s. split; [done|]. split; [apply resized_refl | by left].
  - destruct (resize_to_target_full (sz :: szs) s) as (t & s' & Ht & -> & Hr & Hsz & _);
      [done | rewrite <- E; eapply sizes_of_ok, HI |].
    exists s'. split; [done|]. split; [done|]. right. exists t.
    pose proof Hr as (v & calls & ops & ->). cbn in *. by rewrite E.
Qed.

Lemma settled_notify h s offered sel m :
  h = offer_heap offered sel m (s_heap s) -> settled s -> settled (set_s_heap h s).
Proof.
  intros -> [Hs|(t & Ht & Hs)]; [left | right; exists t]; cbn; by rewrite sizes_of_offer.
Qed.

(** [arbitrateResize] then [notifyClientsChanged] settle the size. *)
Lemma rearrange_settled acc t0 s :
  Inv t0 acc s ->
  exists s1 h, arbitrateResize (clients s) s = Val s1 /\ resized s s1 /\
    notifyClientsChanged (clients s1) s1 = Val (set_s_heap h s1) /\ settled (set_s_heap h s1).
Proof.
  intros HI. destruct (arbitrate_settled acc t0 s HI) as (s1 & H1 & Hr & Hset).
  pose proof (resized_ok _ _ _ _ Hr HI) as HI1. exists s1. eexists. do 2 (split; [done|]).
  split; [apply notifyClientsChanged_spec|].
  - apply (inv_lists _ _ _ HI1).
  - eapply clients_ok_all_open, HI1.
  - by eapply settled_notify.
Qed.

Lemma on_detach_settled acc t0 p s :
  Inv t0 acc s -> p ∈ clients s ->
  exists s', on_detach p s = Val (set_s_phase SessionLoop.Top s', None) /\ settled s' /\
    clients s' = removeClient (clients s) p.
Proof.
  intros HI Hp. unfold on_detach.
  destruct (Nat.eqb_spec (length (removeClient (clients s) p)) (length (clients s))) as [He|_].
  { by apply removeClient_length in He. }
  destruct (drop_ok t0 acc s p HI Hp) as (s1 & c & H1 & HI1 & _). rewrite H1. cbn [go_bind].
  destruct (rearrange_settled acc t0 s1 HI1) as (s2 & h & -> & Hr & Hn & Hset).
  cbn [go_bind]. rewrite Hn. cbn [go_bind]. eexists. split; [done|]. split; [done|].
  destruct (resized_heap _ _ Hr) as [_ Hc]. cbn. rewrite Hc. by eapply drop_clients.
Qed.

Lemma settled_closed_conn p c s :
  s_heap s !! p = Some c -> settled s -> settled (store p (set_sc_connClosed true c) s).
Proof.
  intros Hp. unfold settled. cbn. rewrite (sizes_of_ext (<[p:=_]> _) (s_heap s)); [done|].
  intros q _. destruct (decide (p = q)) as [->|]; [|by rewrite lookup_insert_ne].
  by rewrite lookup_insert_eq, Hp.
Qed.

Lemma on_kick_settled acc t0 id s :
  Inv t0 acc s -> (exists p c, p ∈ clients s /\ s_heap s !! p = Some c /\ sc_id c = id) ->
  exists s' p c c', on_kick id s = Val (set_s_phase SessionLoop.Top s', Some (RKick true)) /\
    settled s' /\ clients s' = removeClient (clients s) p /\ p ∈ clients s /\
    s_heap s !! p = Some c /\ sc_id c = id /\
    s_heap s' !! p = Some c' /\ sc_connClosed c' = true /\ stream c' = stream c /\
    ch_closed (sc_outCh c') = true.
Proof.
  intros HI (q & d & Hq & Hd & Hid). unfold on_kick.
  destruct (find_client_spec (clients s) id s) as (r & -> & Hr); [eapply clients_ok_all_in, HI|].
  cbn [go_bind]. destruct r as [p|]; [|by destruct (Hr q d Hq Hd)].
  destruct Hr as (Hp & c & Hcp & Hcid).
  destruct (drop_ok t0 acc s p HI Hp) as (s1 & c' & H1 & HI1 & Hc & Hh). rewrite H1.
  rewrite Hcp in Hc. injection Hc as <-. cbn [go_bind]. unfold close_conn.
  assert (s_heap s1 !! p = Some (closed c)) as Hc1 by (rewrite Hh; apply lookup_insert_eq).
  rewrite (deref_Val _ _ _ Hc1). cbn [go_bind].
  pose proof (store_conn_ok t0 acc p _ s1 HI1 Hc1) as HI2.
  set (s2 := store p _ s1) in *.
  change (clients s1) with (clients s2).
  destruct (rearrange_settled acc t0 s2 HI2) as (s3 & h & -> & Hr & Hn & Hset).
  cbn [go_bind]. rewrite Hn. cbn [go_bind].
  destruct (resized_heap _ _ Hr) as [Hh3 Hc3].
  assert (p ∉ clients s3) as Hnp.
  { rewrite Hc3. cbn. rewrite (drop_clients _ _ _ H1).
    rewrite elem_of_removeClient by apply (inv_lists _ _ _ HI). naive_solver. }
  exists (set_s_heap h s3), p, c, (set_sc_connClosed true (closed c)).
  split; [done|]. split; [done|].
  split; [cbn; rewrite Hc3; cbn; by eapply drop_clients|]. do 3 (split; [done|]).
  split; [|split; [reflexivity|split; reflexivity]].
  rewrite notifyClientsChanged_spec in Hn.
  - injection Hn as <-. cbn [s_heap set_s_heap].
    unfold offer_heap. rewrite lookup_heap_on, Hh3, in_list_false by done. cbn.
    by rewrite lookup_insert_eq.
  - rewrite Hc3. apply (inv_lists _ _ _ HI2).
  - rewrite Hc3, Hh3. eapply clients_ok_all_open, HI2.
Qed.

Lemma next_not_listed t0 acc s : Inv t0 acc s -> s_nextPtr s ∉ clients s.
Proof.
  intros HI Hin. destruct (inv_clients _ _ _ HI _ Hin) as (e & He & _).
  apply (inv_heap _ _ _ HI) in He as [? _]. lia.
Qed.

(** A settled size is left alone. *)
Lemma arbitrate_noop acc t0 s :
  Inv t0 acc s -> settled s -> arbitrateResize (clients s) s = Val s.
Proof.
  intros HI Hset. unfold arbitrateResize. rewrite collectClientSizes_spec
    by (eapply clients_ok_all_in, HI). cbn [go_bind].
  destruct Hset as [->|(t & Ht & Hs)]; [done|].
  destruct (sizes_of _ _) as [|sz szs] eqn:E; [done|]. cbn [length Nat.eqb].
  destruct (resize_to_target_full (sz :: szs) s) as (t' & s' & Ht' & -> & _ & _ & Heq);
    [done | rewrite <- E; eapply sizes_of_ok, HI |].
  rewrite Ht in Ht'. injection Ht' as <-. by rewrite Heq.
Qed.

Lemma on_resize_settled acc t0 p sz s :
  Inv t0 acc s -> is_Some (s_heap s !! p) -> termSize_ok sz ->
  exists s', on_resize p sz s = Val (set_s_phase SessionLoop.Top s', None) /\ settled s' /\
    clients s' = clients s.
Proof.
  intros HI [c Hp] Hsz. unfold on_resize. rewrite (deref_Val _ _ _ Hp). cbn [go_bind].
  pose proof (store_size_ok t0 acc p c sz s HI Hp Hsz) as HI1.
  set (s1 := store p _ s) in *. change (clients s) with (clients s1).
  destruct (arbitrate_settled acc t0 s1 HI1) as (s2 & -> & Hr & Hset). cbn [go_bind].
  eexists. split; [done|]. split; [done|]. apply (resized_heap _ _ Hr).
Qed.

(** An interactive attach: the first resize already gives the final size, so the
    dump is taken at it. *)
Lemma on_attach_interactive acc t0 spec s :
  Inv t0 acc s -> termSize_ok (as_size spec) -> as_readOnly spec = false ->
  exists s' r, on_attach spec s = Val (set_s_phase SessionLoop.Top s', Some r) /\
    ((exists e, r = RAttach (Err e) /\ clients s' = clients s) \/
     r = RAttach (Ok (s_nextPtr s)) /\ settled s' /\ clients s' = clients s ++ [s_nextPtr s] /\
     exists c att ms, s_heap s' !! s_nextPtr s = Some c /\ stream c = MsgAttached att :: ms /\
       outputs ms = [] /\ Attached_Created att = as_created spec /\
       (Attached_Cols att, Attached_Rows att) = Session_size s').
Proof.
  intros HI Hsz Hro. unfold on_attach. rewrite Hro.
  unfold resizeForPending. rewrite collectClientSizes_spec by (eapply clients_ok_all_in, HI).
  cbn [go_bind]. set (sizes := sizes_of (s_heap s) (clients s) ++ [as_size spec]).
  destruct (resize_to_target_full sizes s) as (t & s1 & Ht & -> & Hr & Hs1 & _).
  { unfold sizes. by destruct (sizes_of _ _). }
  { apply Forall_app. split; [eapply sizes_of_ok, HI | by constructor]. }
  cbn [go_bind]. pose proof (resized_ok _ _ _ _ Hr HI) as HI1.
  destruct (push_pending_ok _ acc s1 HI1) as (s2 & -> & HI2 & Hpf & t2 & a2 & ch2 & Hs2).
  cbn [go_bind].
  destruct (waitFeedApplied_ok _ acc s2 HI2 Hpf) as (s3 & -> & HI3 & (t3 & a3 & ch3 & Hs3) & Ht3).
  cbn [go_bind].
  assert (clients s3 = clients s /\ s_heap s3 = s_heap s /\ s_nextPtr s3 = s_nextPtr s /\
    s_resizePolicy s3 = s_resizePolicy s /\ Session_size s3 = (cols t, rows t) /\
    pendingFeed s3 = None) as (Hc3 & Hh3 & Hn3 & Hp3 & Hsz3 & Hpf3).
  { subst s3 s2. cbn in *. rewrite <- Hs1. destruct Hr as (v & calls & ops & ->). done. }
  clear Hs2 Hs3. destruct (term_dumpVTFull (s_term s3)) as [d|e] eqn:Hd; [|by eauto 10].
  unfold Session_size at 1. cbn [s_sizeVal set_nextClientID].
  change (unpack_size (s_sizeVal s3)) with (Session_size s3). rewrite Hsz3.
  unfold chan_send, chan_try_send. cbn [ch_closed make_chan ch_buf ch_cap length go_bind].
  replace (0 <? sessionClientOutBufferSize)%nat with true by done. cbn [go_bind app].
  match goal with |- context [MsgAttached ?a] => set (att := a) in *;
    pose proof (new_client_ok t0 acc s3 spec a d HI3 Hpf3 Ht3 Hd Hsz eq_refl eq_refl
      eq_refl eq_refl) as HI4 end.
  cbv zeta in HI4. rewrite Hro in HI4.
  match type of HI4 with Inv _ _ ?X => set (s4 := X) in * end.
  match goal with |- context [arbitrateResize (clients ?X) ?X] => change X with s4 end.
  assert (settled s4) as Hset.
  { right. exists t. cbn. split; [|exact Hsz3]. rewrite Hp3, Hc3, Hh3, Hn3, <- Ht. f_equal.
    rewrite sizes_of_app. unfold sizes. f_equal.
    - apply sizes_of_ext. intros q Hq. rewrite lookup_insert_ne; [done|].
      intros <-. by apply (next_not_listed t0 acc s HI).
    - unfold sizes_of. cbn. by rewrite lookup_insert_eq. }
  rewrite (arbitrate_noop acc t0 s4 HI4 Hset). cbn [go_bind].
  rewrite notifyClientsChanged_spec;
    [|apply (inv_lists _ _ _ HI4)|eapply clients_ok_all_open, HI4].
  cbn [go_bind]. eexists _, _. split; [done|]. right. rewrite <- Hn3. split; [done|].
  split; [by eapply settled_notify|]. split; [cbn; by rewrite Hc3|].
  eexists _, att, [changed_msg (clients s4) s4]. unfold offer_heap. cbn [s_heap set_s_heap].
  rewrite lookup_heap_on. cbn [s_heap s4 set_clients store set_s_heap].
  rewrite lookup_insert_eq. cbn [fmap option_fmap option_map].
  rewrite in_list_true by (cbn; set_solver). unfold full. rewrite lookup_insert_eq.
  cbn. split; [done|]. done.
Qed.
End Sizes.

(** ** A terminal for examples *)

(** A terminal that records its operations; its dump is the text it was fed. *)
#[export] Instance log_terminal : Terminal (list termOp) := {
  term_feed t d := t ++ [OpFeed d];
  term_resize t c r := t ++ [OpResize c r];
  term_dumpVTFull t := Ok (mkScreenDump (mjoin (fed_data t)) 0 0 false) }.

(** Run events from a state. *)
Fixpoint run_events {T} {HT : Terminal T} (evs : list event) (s : Session T) : option (Session T) :=
  match evs with
  | [] => Some s
  | ev :: evs' =>
      match exec ev s with
      | Some (Val (s', _)) => run_events evs' s'
      | _ => None
      end
  end.

(** [event_ok], decided. *)
Definition size_okb (sz : termSize) : bool :=
  forallb (fun z => (0 <=? z) && (z <? 2 ^ 16)) [cols sz; rows sz; xpixel sz; ypixel sz].

Definition event_okb {T} (ev : event) (s : Session T) : bool :=
  match ev with
  | EvPty data => blen data <=? ptyBatchSize
  | EvAction (attachReq spec) => size_okb (as_size spec)
  | EvAction (resizeReq p sz) => bool_decide (is_Some (s_heap s !! p)) && size_okb sz
  | _ => true
  end.

Fixpoint events_okb {T} {HT : Terminal T} (evs : list event) (s : Session T) : bool :=
  match evs with
  | [] => true
  | ev :: evs' =>
      event_okb ev s &&
      match exec ev s with
      | Some (Val (s', _)) => events_okb evs' s'
      | _ => true
      end
  end.

Lemma size_okb_ok sz : size_okb sz = true -> termSize_ok sz.
Proof.
  unfold size_okb, termSize_ok, is_u16. cbn.
  rewrite !andb_true_iff, !Z.leb_le, !Z.ltb_lt. tauto.
Qed.

Section Props.
Context {T : Type} {HT : Terminal T}.
Implicit Types s : Session T.

Lemma event_okb_ok ev s : event_okb ev s = true -> event_ok ev s.
Proof.
  destruct ev as [| | | | |[]| | | | | |]; cbn; try done.
  - apply Z.leb_le.
  - apply size_okb_ok.
  - intros [H1 H2]%andb_true_iff. apply bool_decide_eq_true in H1.
    split; [done | by apply size_okb_ok].
Qed.

Lemma steps_cons s0 ev s1 r evs s :
  event_ok ev s0 -> exec ev s0 = Some (Val (s1, r)) -> steps s1 evs s -> steps s0 (ev :: evs) s.
Proof.
  intros Hok Hx. induction 1 as [s|s1' evs s2 ev' s3 r' Hs IH Hok' Hx'].
  - apply (steps_snoc _ [] s0 ev s r); [constructor | done..].
  - rewrite app_comm_cons. by eapply steps_snoc; [apply IH| |].
Qed.

Lemma run_events_steps evs s s' :
  run_events evs s = Some s' -> events_okb evs s = true -> steps s evs s'.
Proof.
  revert s. induction evs as [|ev evs IH]; intros s; cbn.
  - intros [= <-] _. constructor.
  - destruct (exec ev s) as [[[s1 r]| |]|] eqn:E; try done.
    intros Hr [Hok Hoks]%andb_true_iff. eapply steps_cons; eauto using event_okb_ok.
Qed.

(** The state [s] is reached from the start of some session by the events [evs]. *)
Definition reachable (t0 : T) (evs : list event) s : Prop :=
  exists name pid ex policy sz, steps (startSession name pid ex policy sz t0) evs s.

Lemma reachable_good t0 evs s : reachable t0 evs s -> good t0 (accepted evs) s.
Proof. intros (name & pid & ex & policy & sz & Hs). by eapply steps_good. Qed.

Lemma reachable_inv t0 evs s :
  reachable t0 evs s -> s_phase s <> Returned -> Inv t0 (accepted evs) s.
Proof. intros [[? _]|[_ ?]]%reachable_good ?; done. Qed.

(** The streams at the end of the process. *)
Lemma exit_streams t0 evs s s' r p :
  reachable t0 evs s -> exec EvPtyClosed s = Some (Val (s', r)) -> p ∈ clients s ->
  s_done s' = true /\ s_phase s' = Returned /\ exists c, s_heap s' !! p = Some c /\ ch_closed (sc_outCh c) = true /\
    (sc_writeDone c = false -> exists att rest pre post t,
       stream c ++ option_list (sc_final c) =
         MsgAttached att :: rest ++ [MsgExited (mkExited (s_exitCode s))] /\
       Forall is_update rest /\ accepted evs = pre ++ post /\ term_is t0 pre t /\ dump_of t att /\ outputs rest = post).
Proof.
  intros Hr. cbn [exec]. destruct (s_phase s) eqn:Hph; [done| |done].
  destruct (pendingFeed s) eqn:Hpf; [done|]. destruct (pendingOutput s) eqn:Hpo; [done|].
  intros [= Hx] Hp. pose proof (reachable_inv _ _ _ Hr ltac:(congruence)) as HI.
  destruct (on_pty_closed_spec _ _ s HI Hpf) as (s1 & H1 & Hd' & Hd & _ & _ & Hh).
  unfold no_reply in Hx. rewrite H1 in Hx. injection Hx as <- <-. do 2 (split; [done|]).
  destruct (inv_clients _ _ _ HI p Hp) as (c & Hc & _ & _ & _ & _ & Hdel).
  rewrite Hh, lookup_heap_on, Hc, in_list_true by done. cbn. eexists. split; [done|].
  split; [done|]. intros Hw. destruct (Hdel Hw) as (att & rest & pre & post & t & Hs & H1' & H2 & H3 & H4 & H5).
  exists att, rest, pre, post, t. rewrite Hpo, missing_None, app_nil_r in H5.
  unfold stream, finish in *. cbn in *. rewrite app_assoc in Hs. rewrite app_assoc, Hs. done.
Qed.

(** ** Properties *)

(** C1. Delivery: in every reachable state of a running session, what a
    connected client was and will be sent is first [Attached], with the dump of
    the terminal fed exactly the chunks accepted before the attach, and then
    every chunk accepted after it, once and in order (the only one not queued
    yet is the chunk its full queue is waiting for). *)
Theorem session_delivers t0 evs s p :
  reachable t0 evs s -> s_phase s <> Returned -> p ∈ clients s ->
  exists c, s_heap s !! p = Some c /\
    (sc_writeDone c = false ->
     delivered t0 (accepted evs) (missing (pendingClients s) (pendingOutput s) p) c).
Proof.
  intros Hr Hph Hp. destruct (inv_clients _ _ _ (reachable_inv _ _ _ Hr Hph) p Hp)
    as (c & Hc & Hok). exists c. split; [done|]. apply Hok.
Qed.

(** C2. The loop never panics and never waits for ever: in every reachable state
    any event the other goroutines can produce runs to completion. No channel
    is closed twice or sent on when closed, no slice is indexed out of range
    and every [applied] channel the loop waits for is closed. *)
Theorem session_never_fails t0 evs s ev x :
  reachable t0 evs s -> event_ok ev s -> exec ev s = Some x -> exists s' r, x = Val (s', r).
Proof.
  intros Hr%reachable_good Hev Hx.
  destruct (exec_ok _ _ _ _ _ Hr Hev Hx) as (s' & r & -> & _). eauto.
Qed.

(** The terminal is fed the accepted chunks in order, once each; at most
    [feedChSize] are queued, one is pending. *)
Theorem session_feeds_in_order t0 evs s :
  reachable t0 evs s -> s_phase s <> Returned ->
  exists fed, term_is t0 fed (s_term s) /\
    accepted evs = fed ++ map fi_data (ch_buf (s_feedCh s)) ++
                     map fi_data (option_list (pendingFeed s)) /\
    (length (ch_buf (s_feedCh s)) <= feedChSize)%nat.
Proof.
  intros Hr Hph. pose proof (inv_feed _ _ _ (reachable_inv _ _ _ Hr Hph))
    as (_ & _ & Hle & (fed & Ht & Hacc) & _).
  exists fed. by rewrite <- map_app.
Qed.

(** When the process ends, every connected client's stream is complete:
    [Attached], all the chunks since, and [Exited] with the exit code last; its
    channel is closed and the session is done. *)
Theorem session_exit t0 evs s s' r p :
  reachable t0 evs s -> exec EvPtyClosed s = Some (Val (s', r)) -> p ∈ clients s ->
  s_done s' = true /\ exists c, s_heap s' !! p = Some c /\ ch_closed (sc_outCh c) = true /\
    (sc_writeDone c = false -> exists att rest pre post t,
       stream c ++ option_list (sc_final c) =
         MsgAttached att :: rest ++ [MsgExited (mkExited (s_exitCode s))] /\
       accepted evs = pre ++ post /\ term_is t0 pre t /\ dump_of t att /\ outputs rest = post).
Proof.
  intros Hr Hx Hp. destruct (exit_streams _ _ _ _ _ _ Hr Hx Hp) as (Hd & _ & c & Hc & Hcl & H).
  split; [done|]. exists c. do 2 (split; [done|]). intros Hw.
  destruct (H Hw) as (att & rest & pre & post & t & H1 & _ & H2).
  by exists att, rest, pre, post, t.
Qed.

(** A kill closes every client's channel and connection and sends no
    [Exited]; the session is done. *)
Theorem session_stop t0 evs s s' r p :
  reachable t0 evs s -> exec (EvAction stopReq) s = Some (Val (s', r)) -> p ∈ clients s' ->
  s_done s' = true /\ exists c, s_heap s' !! p = Some c /\ ch_closed (sc_outCh c) = true /\
    sc_connClosed c = true /\ sc_final c = None /\
    (sc_writeDone c = false -> forall code, MsgExited code ∉ stream c).
Proof.
  intros Hr. cbn [exec]. destruct (s_phase s) eqn:Hph; [done| |done].
  intros [= Hx] Hp. pose proof (reachable_inv _ _ _ Hr ltac:(congruence)) as HI.
  unfold on_action in Hx. destruct (prune_ok _ _ s HI) as (s1 & H1 & HI1 & _).
  rewrite H1 in Hx. cbn [go_bind] in Hx.
  destruct (on_stop_spec _ _ s1 HI1) as (s2 & H2 & _ & Hd & _ & Hc & Hh).
  rewrite H2 in Hx. injection Hx as <- <-. rewrite Hc in Hp. split; [done|].
  destruct (inv_clients _ _ _ HI1 p Hp) as (c & Hcp & _ & _ & _ & Hf & Hdel).
  rewrite Hh, lookup_heap_on, Hcp, in_list_true by done. cbn. eexists. split; [done|].
  do 3 (split; [done|]). intros Hw code. 
  destruct (Hdel Hw) as (att & rest & pre & post & t & Hs & Hup & _).
  change (stream (stopped c)) with (stream c). rewrite Hs.
  intros [?|Hin]%elem_of_cons; [done|]. rewrite list.Forall_forall in Hup. by apply Hup in Hin.
Qed.

(** Client IDs are unique in a session that has created fewer than [2^64]
    clients: kicking by ID is unambiguous. *)
Theorem session_client_ids_unique t0 evs s p q c d :
  reachable t0 evs s -> s_phase s <> Returned -> Z.of_nat (s_nextPtr s) < 2 ^ 64 ->
  s_heap s !! p = Some c -> s_heap s !! q = Some d -> sc_id c = sc_id d -> p = q.
Proof.
  intros Hr Hph Hlt Hc Hd Hid.
  pose proof (inv_heap _ _ _ (reachable_inv _ _ _ Hr Hph)) as [_ Hh].
  apply Hh in Hc as (Hp & Hc & _), Hd as (Hq & Hd & _). rewrite Hc, Hd in Hid.
  unfold client_id in Hid. apply (inj pretty) in Hid. width_lia.
Qed.

(** The requests that change who counts for the size, when they are carried out. *)
Definition rearranges (a : sessionAction) s : Prop :=
  match a with
  | attachReq spec => as_readOnly spec = false
  | detachReq p => p ∈ clients s
  | kickReq id => exists p c, p ∈ clients s /\ s_heap s !! p = Some c /\ sc_id c = id
  | resizeReq _ _ => True
  | _ => False
  end.


(** An interactive attach is answered with an error, and no client, or with a
    client whose [Attached] carries the size the session has after the attach:
    the dump is taken at the size the client will be shown. *)
Theorem attach_dump_at_final_size t0 evs s s1 s' r spec :
  reachable t0 evs s -> termSize_ok (as_size spec) -> as_readOnly spec = false ->
  prune s = Val s1 -> exec (EvAction (attachReq spec)) s = Some (Val (s', r)) ->
  (exists e, r = Some (RAttach (Err e)) /\ clients s' = clients s1) \/
  exists p c att ms, r = Some (RAttach (Ok p)) /\ clients s' = clients s1 ++ [p] /\
    s_heap s' !! p = Some c /\ stream c = MsgAttached att :: ms /\ outputs ms = [] /\
    Attached_Created att = as_created spec /\
    (Attached_Cols att, Attached_Rows att) = Session_size s'.
Proof.
  intros Hr Hsz Hro Hpr. cbn [exec]. destruct (s_phase s) eqn:Hph; [done| |done].
  intros [= Hx]. pose proof (reachable_inv _ _ _ Hr ltac:(congruence)) as HI.
  destruct (prune_ok _ _ s HI) as (s1' & H1 & HI1 & _). rewrite Hpr in H1.
  injection H1 as <-. unfold on_action in Hx. rewrite Hpr in Hx. cbn [go_bind] in Hx.
  destruct (on_attach_interactive _ _ spec s1 HI1 Hsz Hro) as (s2 & r2 & H2 & Hc).
  rewrite H2 in Hx. injection Hx as <- <-.
  destruct Hc as [(e & -> & ?)|(-> & _ & ? & c & att & ms & ?)]; [left; eauto|right].
  exists (s_nextPtr s1), c, att, ms. tauto.
Qed.

(** A kick of a connected client's ID answers true: that client leaves the
    session with its queue closed, its stream unchanged and its connection
    closed, and every other client stays. *)
Theorem kick_removes_client t0 evs s s1 s' r id :
  reachable t0 evs s -> prune s = Val s1 ->
  (exists p c, p ∈ clients s1 /\ s_heap s1 !! p = Some c /\ sc_id c = id) ->
  exec (EvAction (kickReq id)) s = Some (Val (s', r)) ->
  r = Some (RKick true) /\ exists p c c',
    s_heap s1 !! p = Some c /\ sc_id c = id /\ s_heap s' !! p = Some c' /\
    sc_connClosed c' = true /\ ch_closed (sc_outCh c') = true /\ stream c' = stream c /\
    forall q, q ∈ clients s' <-> q ∈ clients s1 /\ q <> p.
Proof.
  intros Hr Hpr Hex. cbn [exec]. destruct (s_phase s) eqn:Hph; [done| |done].
  intros [= Hx]. pose proof (reachable_inv _ _ _ Hr ltac:(congruence)) as HI.
  destruct (prune_ok _ _ s HI) as (s1' & H1 & HI1 & _). rewrite Hpr in H1.
  injection H1 as <-. unfold on_action in Hx. rewrite Hpr in Hx. cbn [go_bind] in Hx.
  destruct (on_kick_settled _ _ id s1 HI1 Hex)
    as (s2 & p & c & c' & H2 & _ & Hcl & Hp & Hc & Hid & Hc' & Hcc & Hst & Hch).
  rewrite H2 in Hx. injection Hx as <- <-. split; [done|]. exists p, c, c'.
  do 6 (split; [done|]). intros q. cbn. rewrite Hcl. apply elem_of_removeClient.
  apply (inv_lists _ _ _ HI1).
Qed.

(** *** The writers *)

Lemma writer_round p c m ms s :
  s_heap s !! p = Some c -> sc_writeDone c = false -> sc_connClosed c = false ->
  sc_inflight c = None -> ch_buf (sc_outCh c) = m :: ms ->
  exists s' c', steps s [EvWriterTake p; EvWriterOk p] s' /\ s_heap s' !! p = Some c' /\
    sc_writeDone c' = false /\ sc_connClosed c' = false /\ sc_inflight c' = None /\
    ch_buf (sc_outCh c') = ms /\ ch_closed (sc_outCh c') = ch_closed (sc_outCh c) /\
    sc_final c' = sc_final c /\ sc_written c' = sc_written c ++ [m].
Proof.
  intros Hp Hw Hcl Hi Hb. eexists _, _. split.
  - eapply steps_cons; [done| |eapply steps_cons; [done| |constructor]].
    + cbn [exec]. unfold writer_take. rewrite Hp, Hw, Hi, Hb. reflexivity.
    + cbn [exec]. unfold writer_ok. cbn. rewrite lookup_insert_eq. cbn. by rewrite Hcl.
  - cbn. rewrite lookup_insert_eq. split; [done|]. cbn. auto 10.
Qed.

Lemma steps_trans s0 evs1 s1 evs2 s2 :
  steps s0 evs1 s1 -> steps s1 evs2 s2 -> steps s0 (evs1 ++ evs2) s2.
Proof.
  intros H1. induction 1 as [s|s1' evs s2 ev' s3 r' Hs IH Hok' Hx'].
  - by rewrite app_nil_r.
  - rewrite app_assoc. eapply steps_snoc; eauto.
Qed.

Lemma writer_drains p ms : forall c s,
  s_heap s !! p = Some c -> sc_writeDone c = false -> sc_connClosed c = false ->
  sc_inflight c = None -> ch_buf (sc_outCh c) = ms ->
  exists evs s' c', steps s evs s' /\ s_heap s' !! p = Some c' /\
    sc_writeDone c' = false /\ sc_connClosed c' = false /\ sc_inflight c' = None /\
    ch_buf (sc_outCh c') = [] /\ ch_closed (sc_outCh c') = ch_closed (sc_outCh c) /\
    sc_final c' = sc_final c /\ sc_written c' = sc_written c ++ ms.
Proof.
  induction ms as [|m ms IH]; intros c s Hp Hw Hcl Hi Hb.
  - exists [], s, c. rewrite app_nil_r. split; [constructor|]. auto 10.
  - destruct (writer_round p c m ms s Hp Hw Hcl Hi Hb)
      as (s1 & c1 & Hs & Hp1 & Hw1 & Hcl1 & Hi1 & Hb1 & Hch & Hf & Hwr).
    destruct (IH c1 s1 Hp1 Hw1 Hcl1 Hi1 Hb1)
      as (evs & s2 & c2 & Hs2 & ? & ? & ? & ? & ? & ? & ? & ?).
    exists ([EvWriterTake p; EvWriterOk p] ++ evs), s2, c2.
    split; [by eapply steps_trans|].
    change (sc_written c ++ m :: ms) with (sc_written c ++ [m] ++ ms).
    rewrite app_assoc, <- Hwr. repeat split; congruence.
Qed.

Lemma writer_finishes p c s :
  s_heap s !! p = Some c -> sc_writeDone c = false -> sc_connClosed c = false ->
  sc_inflight c = None -> ch_buf (sc_outCh c) = [] -> ch_closed (sc_outCh c) = true ->
  exists s' c', exec (EvWriterFinal p true) s = Some (Val (s', None)) /\
    s_heap s' !! p = Some c' /\ sc_writeDone c' = true /\
    sc_connClosed c' = false /\ sc_written c' = sc_written c ++ option_list (sc_final c).
Proof.
  intros Hp Hw Hcl Hi Hb Hch. cbn [exec]. unfold writer_final. rewrite Hp, Hw, Hi, Hb, Hch, Hcl.
  destruct (sc_final c) as [m|]; eexists _, _; (split; [reflexivity|]); cbn;
    rewrite lookup_insert_eq, ?app_nil_r; done.
Qed.

(** The run of a writer from a closed channel to its end. *)
Lemma writer_runs_out s p c :
  s_heap s !! p = Some c -> sc_writeDone c = false -> sc_connClosed c = false ->
  ch_closed (sc_outCh c) = true ->
  exists evs s' c', steps s evs s' /\ s_heap s' !! p = Some c' /\ sc_writeDone c' = true /\
    sc_connClosed c' = false /\ sc_written c' = stream c ++ option_list (sc_final c).
Proof.
  intros Hp Hw Hcl Hch.
  assert (exists evs s1 c1, steps s evs s1 /\ s_heap s1 !! p = Some c1 /\
    sc_writeDone c1 = false /\ sc_connClosed c1 = false /\ sc_inflight c1 = None /\
    sc_outCh c1 = sc_outCh c /\ sc_final c1 = sc_final c /\
    sc_written c1 = sc_written c ++ option_list (sc_inflight c))
    as (evs1 & s1 & c1 & Hs1 & Hp1 & Hw1 & Hcl1 & Hi1 & Ho1 & Hf1 & Hwr1).
  { destruct (sc_inflight c) as [m|] eqn:Hi; cbn [option_list].
    - eexists [EvWriterOk p], _, _. split.
      + eapply steps_cons; [done| |constructor]. cbn [exec]. unfold writer_ok.
        rewrite Hp, Hi, Hcl. reflexivity.
      + cbn. rewrite lookup_insert_eq. split; [done|]. cbn. auto 10.
    - exists [], s, c. rewrite app_nil_r. split; [constructor|]. auto 10. }
  destruct (writer_drains p (ch_buf (sc_outCh c)) c1 s1 Hp1 Hw1 Hcl1 Hi1 ltac:(by rewrite Ho1))
    as (evs2 & s2 & c2 & Hs2 & Hp2 & Hw2 & Hcl2 & Hi2 & Hb2 & Hch2 & Hf2 & Hwr2).
  rewrite Ho1, Hch in Hch2.
  destruct (writer_finishes p c2 s2 Hp2 Hw2 Hcl2 Hi2 Hb2 Hch2) as (s3 & c3 & Hx & ? & ? & ? & Hwr3).
  exists (evs1 ++ evs2 ++ [EvWriterFinal p true]), s3, c3. split.
  { eapply steps_trans; [done|]. eapply steps_trans; [done|].
    eapply steps_cons; [done|exact Hx|constructor]. }
  do 3 (split; [done|]). rewrite Hwr3, Hwr2, Hwr1, Hf2, Hf1. unfold stream.
  by rewrite <- !app_assoc.
Qed.

(** A client whose channel the loop closed and whose connection works is
    sent everything: its writer can run to its end, and has then written its
    whole stream and its final message. *)
Theorem writer_delivers_all s p c :
  s_heap s !! p = Some c -> sc_writeDone c = false -> sc_connClosed c = false ->
  ch_closed (sc_outCh c) = true ->
  exists evs s' c', steps s evs s' /\ s_heap s' !! p = Some c' /\ sc_writeDone c' = true /\
    sc_written c' = stream c ++ option_list (sc_final c).
Proof.
  intros Hp Hw Hcl Hch. destruct (writer_runs_out s p c Hp Hw Hcl Hch) as (evs & s' & c' & ? & ? & ? & _ & ?).
  by exists evs, s', c'.
Qed.
End Props.

(** ** Concrete executions *)

Definition wit0 : Session (list termOp) :=
  startSession "w" 1 0 ResizePolicySmallest (mkTermSize 80 24 0 0) [].

Definition attach_at (c r : Z) : sessionAction :=
  attachReq (mkAttachSpec (mkTermSize c r 0 0) "v1" false true).

(** The state after a list of events that can all run. *)
Definition state_after (evs : list event) : Session (list termOp) :=
  match run_events evs wit0 with Some s => s | None => wit0 end.

Definition runs (evs : list event) : bool :=
  events_okb evs wit0 && bool_decide (is_Some (run_events evs wit0)).

Lemma runs_reachable evs : runs evs = true -> reachable [] evs (state_after evs).
Proof.
  unfold runs, state_after. intros [Hok [s Hs]%bool_decide_eq_true]%andb_true_iff.
  exists "w"%string, 1, 0, ResizePolicySmallest, (mkTermSize 80 24 0 0).
  rewrite Hs. by apply run_events_steps.
Qed.

Lemma in_computed (p : nat) (l : list nat) : bool_decide (p ∈ l) = true -> p ∈ l.
Proof. apply bool_decide_eq_true. Qed.

(** Two clients, a chunk before the attaches, one between and one after. *)
Definition busy_trace : list event :=
  [EvTop; EvPty [Byte.x61]; EvTop; EvFeedSend; EvTop; EvAction (attach_at 80 24); EvTop;
   EvPty [Byte.x62]; EvTop; EvAction (attach_at 100 50); EvTop; EvWriterTake 0; EvWriterOk 0;
   EvPty [Byte.x63]; EvTop; EvFeedSend; EvTop].

(** The smaller of two clients loses its connection; its handler then detaches it. *)
Definition dropped_trace : list event :=
  [EvTop; EvAction (attach_at 80 24); EvTop; EvAction (attach_at 100 50); EvTop;
   EvWriterTake 0; EvWriterErr 0; EvAction (detachReq 0); EvTop].

(** A client whose writer fails is pruned without arbitrating the size again:
    after the smaller of two clients is gone, and detached by its handler, the
    session keeps its size although the policy asks for the size of the other. *)
Theorem prune_leaves_size :
  let s := state_after dropped_trace in
  reachable [] dropped_trace s /\ s_phase s = Select /\
  sizes_of (s_heap s) (clients s) = [mkTermSize 100 50 0 0] /\
  Session_size s = (80, 24) /\ ~ settled s.
Proof.
  split; [by apply runs_reachable; vm_compute|]. split; [by vm_compute|].
  assert (sizes_of (s_heap (state_after dropped_trace)) (clients (state_after dropped_trace))
    = [mkTermSize 100 50 0 0]) as Hs by by vm_compute.
  split; [exact Hs|]. split; [by vm_compute|].
  unfold settled. rewrite Hs. intros [?|(t & Ht & Hsz)]; [done|].
  vm_compute in Ht. injection Ht as <-. by vm_compute in Hsz.
Qed.

Lemma session_delivers_witness :
  exists c, s_heap (state_after busy_trace) !! 0%nat = Some c /\
    (sc_writeDone c = false ->
     delivered [] (accepted busy_trace)
       (missing (pendingClients (state_after busy_trace))
                (pendingOutput (state_after busy_trace)) 0) c).
Proof.
  apply (session_delivers [] busy_trace (state_after busy_trace) 0).
  - apply runs_reachable. by vm_compute.
  - by vm_compute.
  - apply in_computed. by vm_compute.
Defined.

Lemma session_never_fails_witness :
  exists s' r, on_pty_closed (state_after busy_trace) = Val s' /\ r = @None reply.
Proof.
  destruct (session_never_fails [] busy_trace (state_after busy_trace) EvPtyClosed
    (no_reply (on_pty_closed (state_after busy_trace)))) as (s' & r & H).
  - apply runs_reachable. by vm_compute.
  - exact I.
  - by vm_compute.
  - destruct (on_pty_closed (state_after busy_trace)) as [s1| |]; try discriminate.
    exists s1, None. by split.
Defined.

Lemma session_feeds_in_order_witness :
  exists fed, term_is [] fed (s_term (state_after busy_trace)) /\
    accepted busy_trace = fed ++ map fi_data (ch_buf (s_feedCh (state_after busy_trace))) ++
      map fi_data (option_list (pendingFeed (state_after busy_trace))) /\
    (length (ch_buf (s_feedCh (state_after busy_trace))) <= feedChSize)%nat.
Proof.
  apply (session_feeds_in_order [] busy_trace (state_after busy_trace)).
  - apply runs_reachable. by vm_compute.
  - by vm_compute.
Defined.

(** The state and reply of an event that runs. *)
Definition after (ev : event) (s : Session (list termOp)) : Session (list termOp) * option reply :=
  match exec ev s with Some (Val x) => x | _ => (s, None) end.

Lemma session_exit_witness :
  s_done (fst (after EvPtyClosed (state_after busy_trace))) = true.
Proof.
  apply (session_exit [] busy_trace (state_after busy_trace)
    (fst (after EvPtyClosed (state_after busy_trace))) None 1).
  - apply runs_reachable. by vm_compute.
  - by vm_compute.
  - apply in_computed. by vm_compute.
Defined.

Lemma session_stop_witness :
  s_done (fst (after (EvAction stopReq) (state_after busy_trace))) = true.
Proof.
  apply (session_stop [] busy_trace (state_after busy_trace)
    (fst (after (EvAction stopReq) (state_after busy_trace))) None 1).
  - apply runs_reachable. by vm_compute.
  - by vm_compute.
  - apply in_computed. by vm_compute.
Defined.

Definition client_at (p : nat) (s : Session (list termOp)) : sessionClient :=
  match s_heap s !! p with
  | Some c => c
  | None => mkClient "" (mkTermSize 0 0 0 0) "" false (make_chan 0) false None false None []
  end.

Lemma session_client_ids_unique_witness :
  sc_id (client_at 1 (state_after busy_trace)) = "2"%string /\ 1%nat = 1%nat.
Proof.
  split; [by vm_compute|].
  apply (session_client_ids_unique [] busy_trace (state_after busy_trace) 1 1
    (client_at 1 (state_after busy_trace)) (client_at 1 (state_after busy_trace))).
  - apply runs_reachable. by vm_compute.
  - by vm_compute.
  - by vm_compute.
  - by vm_compute.
  - by vm_compute.
  - done.
Defined.

(** The state [prune] gives before an action. *)
Definition pruned (s : Session (list termOp)) : Session (list termOp) :=
  match prune s with Val s' => s' | _ => s end.


Lemma attach_dump_at_final_size_witness :
  let s := state_after busy_trace in
  let s' := fst (after (EvAction (attach_at 60 20)) s) in
  let r := snd (after (EvAction (attach_at 60 20)) s) in
  (exists e, r = Some (RAttach (Err e)) /\ clients s' = clients (pruned s)) \/
  exists p c att ms, r = Some (RAttach (Ok p)) /\ clients s' = clients (pruned s) ++ [p] /\
    s_heap s' !! p = Some c /\ stream c = MsgAttached att :: ms /\ outputs ms = [] /\
    Attached_Created att = true /\
    (Attached_Cols att, Attached_Rows att) = Session_size s'.
Proof.
  apply (attach_dump_at_final_size [] busy_trace (state_after busy_trace)
    (pruned (state_after busy_trace))
    (fst (after (EvAction (attach_at 60 20)) (state_after busy_trace)))
    (snd (after (EvAction (attach_at 60 20)) (state_after busy_trace)))
    (mkAttachSpec (mkTermSize 60 20 0 0) "v1" false true)).
  - apply runs_reachable. by vm_compute.
  - by repeat split.
  - done.
  - by vm_compute.
  - by vm_compute.
Defined.

Lemma kick_removes_client_witness :
  snd (after (EvAction (kickReq "2")) (state_after busy_trace)) = Some (RKick true).
Proof.
  apply (kick_removes_client [] busy_trace (state_after busy_trace)
    (pruned (state_after busy_trace))
    (fst (after (EvAction (kickReq "2")) (state_after busy_trace))) _ "2").
  - apply runs_reachable. by vm_compute.
  - by vm_compute.
  - exists 1%nat. eexists. split; [apply in_computed; by vm_compute|].
    split; by vm_compute.
  - by vm_compute.
Defined.

Lemma writer_delivers_all_witness :
  exists evs s' c',
    steps (fst (after EvPtyClosed (state_after busy_trace))) evs s' /\
    s_heap s' !! 0%nat = Some c' /\ sc_writeDone c' = true.
Proof.
  destruct (s_heap (fst (after EvPtyClosed (state_after busy_trace))) !! 0%nat) as [c|] eqn:Hc;
    [|by vm_compute in Hc].
  destruct (writer_delivers_all (fst (after EvPtyClosed (state_after busy_trace))) 0 c)
    as (evs & s' & c' & H1 & H2 & H3 & _); [done|..];
    try (vm_compute in Hc; injection Hc as <-; reflexivity).
  exists evs, s', c'. auto.
Defined.
