(* ===== verification/PtyGather.v ===== *)
(** * PtyGather: from pty reads to the chunks of the run loop

    Models [readPTY], [gatherPTYReads] and [exitCodeFromWaitStatus] of
    [internal/daemon/session_lifecycle.go]. The gather stage is a state machine
    whose states are the points where it blocks: waiting for a first read,
    sending a small read through, gathering a batch until the timer, sending the
    batch. *)
From Stdlib Require Import ZArith Lia List.
From stdpp Require Import base list strings option.
From S2P Require Import Prelude Chan SessionLoop.
#[local] Open Scope Z_scope.

(** ** Reading the pty *)

Definition ptyReadSize : Z := 32 * 1024.
Definition ptyBatchThreshold : Z := 1024.

(** [readPTY]: the chunks sent for the results of the [Read] calls, up to the
    first error. *)
Fixpoint readPTY (results : list (bytes * option error)) : list bytes :=
  match results with
  | [] => []
  | (data, err) :: rest =>
      (if 0 <? blen data then [data] else []) ++
      match err with Some _ => [] | None => readPTY rest end
  end.

(** ** The gather stage *)

Inductive gphase : Type :=
| GFirst                    (* select: reads or done *)
| GSmall (first : bytes)    (* batches <- first *)
| GGather (batch : bytes)   (* select: reads, timer or done *)
| GSend (batch : bytes)     (* batches <- batch *)
| GReturned.                (* batches is closed *)

Record gstate := mkG {
  g_pending : bytes;
  g_readsClosed : bool;
  g_phase : gphase }.

Inductive gevent : Type :=
| GRecv (data : bytes)      (* a value from reads *)
| GReadsClosed              (* reads is closed *)
| GTimer                    (* the batch window ended *)
| GDoneClosed               (* done is closed *)
| GSent.                    (* the receiver took the value *)

(** The head of the [gather] loop. *)
Definition gather_head (batch pending : bytes) (readsClosed : bool) : gstate :=
  mkG pending readsClosed
    (if (blen batch <? ptyBatchSize) && (blen pending =? 0) && negb readsClosed
     then GGather batch else GSend batch).

(** From a first read to the next blocking point. *)
Definition gather_first (first : bytes) (readsClosed : bool) : gstate :=
  if blen first <? ptyBatchThreshold then mkG [] readsClosed (GSmall first)
  else if ptyBatchSize <? blen first
  then gather_head (take (Z.to_nat ptyBatchSize) first) (drop (Z.to_nat ptyBatchSize) first)
         readsClosed
  else gather_head first [] readsClosed.

(** From the head of the [for]. *)
Definition gather_top (pending : bytes) (readsClosed : bool) : gstate :=
  if 0 <? blen pending then gather_first pending readsClosed
  else if readsClosed then mkG [] readsClosed GReturned
  else mkG [] readsClosed GFirst.

(** The initial state of [gatherPTYReads]. *)
Definition gather_start : gstate := gather_top [] false.

(** One event: the next state and the value sent, if the event can happen. *)
Definition gather_step (ev : gevent) (g : gstate) : option (gstate * option bytes) :=
  match g_phase g, ev with
  | GFirst, GRecv first => Some (gather_first first (g_readsClosed g), None)
  | GFirst, (GReadsClosed | GDoneClosed) =>
      Some (mkG (g_pending g) (g_readsClosed g) GReturned, None)
  | GSmall b, GSent => Some (gather_top (g_pending g) (g_readsClosed g), Some b)
  | GSend b, GSent => Some (gather_top (g_pending g) (g_readsClosed g), Some b)
  | (GSmall _ | GSend _), GDoneClosed =>
      Some (mkG (g_pending g) (g_readsClosed g) GReturned, None)
  | GGather batch, GRecv next =>
      let remaining := ptyBatchSize - blen batch in
      if remaining <? blen next
      then Some (mkG (drop (Z.to_nat remaining) next) (g_readsClosed g)
                   (GSend (batch ++ take (Z.to_nat remaining) next)), None)
      else Some (gather_head (batch ++ next) (g_pending g) (g_readsClosed g), None)
  | GGather batch, GReadsClosed => Some (mkG (g_pending g) true (GSend batch), None)
  | GGather batch, GTimer => Some (mkG (g_pending g) (g_readsClosed g) (GSend batch), None)
  | GGather batch, GDoneClosed => Some (mkG (g_pending g) (g_readsClosed g) GReturned, None)
  | _, _ => None
  end.

(** A run: the events and the values sent. *)
Inductive gathers : gstate -> list gevent -> list bytes -> gstate -> Prop :=
| gathers_nil g : gathers g [] [] g
| gathers_snoc g evs out g1 ev g2 o :
    gathers g evs out g1 -> gather_step ev g1 = Some (g2, o) ->
    gathers g (evs ++ [ev]) (out ++ option_list o) g2.

(** The reads received. *)
Definition received (evs : list gevent) : bytes :=
  List.concat (omap (fun ev => match ev with GRecv d => Some d | _ => None end) evs).

(** The data a state holds, in order. *)
Definition held (g : gstate) : bytes :=
  match g_phase g with GSmall b | GGather b | GSend b => b | _ => [] end ++ g_pending g.

(** ** The exit code *)

(** [syscall.WaitStatus], as Unix encodes it. *)
Definition ws_Exited (ws : Z) : bool := Z.land ws 127 =? 0.
Definition ws_ExitStatus (ws : Z) : Z :=
  if ws_Exited ws then Z.land (Z.shiftr ws 8) 255 else -1.
Definition ws_Signaled (ws : Z) : bool :=
  negb (Z.land ws 127 =? 127) && negb (Z.land ws 127 =? 0).
Definition ws_Signal (ws : Z) : Z := if ws_Signaled ws then Z.land ws 127 else -1.

Definition exitCodeFromWaitStatus (ws : Z) : Z :=
  if ws_Exited ws then i32 (ws_ExitStatus ws)
  else if ws_Signaled ws then i32 (128 + ws_Signal ws)
  else 1.

(** ** Lemmas *)

Lemma blen_nonneg {A} (l : list A) : 0 <= blen l.
Proof. unfold blen. lia. Qed.

Lemma blen_app {A} (l1 l2 : list A) : blen (l1 ++ l2) = blen l1 + blen l2.
Proof. unfold blen. rewrite length_app. lia. Qed.

Lemma blen_zero {A} (l : list A) : blen l = 0 -> l = [].
Proof. unfold blen. destruct l; [done | cbn; lia]. Qed.

(** What a state may hold: batches are bounded, data waits behind a full batch. *)
Definition gather_inv (g : gstate) : Prop :=
  match g_phase g with
  | GFirst => g_pending g = [] /\ g_readsClosed g = false
  | GSmall b => blen b < ptyBatchThreshold /\ g_pending g = []
  | GGather b => 0 < blen b < ptyBatchSize /\ g_pending g = [] /\ g_readsClosed g = false
  | GSend b => 0 < blen b <= ptyBatchSize
  | GReturned => True
  end.

Lemma gather_head_ok batch pending rc :
  0 < blen batch <= ptyBatchSize ->
  gather_inv (gather_head batch pending rc) /\ held (gather_head batch pending rc) = batch ++ pending.
Proof.
  intros Hb. unfold gather_head, gather_inv, held. cbn.
  destruct (Z.ltb_spec (blen batch) ptyBatchSize); cbn; [|split; [lia|done]].
  destruct (Z.eqb_spec (blen pending) 0) as [Hp|]; cbn; [|split; [lia|done]].
  apply blen_zero in Hp. destruct rc; (split; [repeat split; done || lia|done]).
Qed.

Lemma gather_first_ok first rc :
  gather_inv (gather_first first rc) /\ held (gather_first first rc) = first.
Proof.
  unfold gather_first. destruct (Z.ltb_spec (blen first) ptyBatchThreshold).
  { unfold gather_inv, held. cbn. by rewrite app_nil_r. }
  destruct (Z.ltb_spec ptyBatchSize (blen first)).
  - destruct (gather_head_ok (take (Z.to_nat ptyBatchSize) first)
      (drop (Z.to_nat ptyBatchSize) first) rc) as [Hi Hh].
    + unfold blen, ptyBatchSize in *. rewrite length_take. lia.
    + by rewrite Hh, take_drop.
  - destruct (gather_head_ok first [] rc) as [Hi Hh]; [unfold ptyBatchThreshold in *; lia|]. by rewrite Hh, app_nil_r.
Qed.

Lemma gather_top_ok pending rc :
  gather_inv (gather_top pending rc) /\ held (gather_top pending rc) = pending.
Proof.
  unfold gather_top. destruct (Z.ltb_spec 0 (blen pending)); [apply gather_first_ok|].
  pose proof (blen_nonneg pending). rewrite (blen_zero pending) by lia. by destruct rc.
Qed.

(** A step without [done] moves bytes from the reads to the batches. *)
Lemma gather_step_ok ev g g' o :
  gather_inv g -> gather_step ev g = Some (g', o) ->
  gather_inv g' /\
  (ev <> GDoneClosed -> held g ++ received [ev] = List.concat (option_list o) ++ held g') /\
  (forall b, o = Some b -> blen b <= ptyBatchSize).
Proof.
  assert (ptyBatchThreshold < ptyBatchSize) as Hlt by done.
  destruct g as [pending rc ph]. unfold gather_step, received. cbn [g_phase g_pending g_readsClosed].
  destruct ph as [|b|b|b|], ev as [d| | | |]; intros Hi Hx; cbn in Hi; try done.
  - injection Hx as <- <-. destruct (gather_first_ok d rc) as [? Hh]. rewrite Hh.
    destruct Hi as [-> _]. unfold held. cbn. by rewrite app_nil_r.
  - injection Hx as <- <-. destruct Hi as [-> _]. by split.
  - by injection Hx as <- <-.
  - by injection Hx as <- <-.
  - injection Hx as <- <-. destruct (gather_top_ok pending rc) as [? Hh]. rewrite Hh.
    destruct Hi as [Hb ->]. unfold held. cbn. rewrite !app_nil_r.
    split; [done|]. split; [done|]. intros ? [= <-]. lia.
  - destruct Hi as (Hb & -> & ->). destruct (Z.ltb_spec (ptyBatchSize - blen b) (blen d)).
    + injection Hx as <- <-. split; [|split; [|done]].
      * unfold gather_inv. cbn. rewrite blen_app. unfold blen in *. rewrite length_take. lia.
      * intros _. unfold held. cbn. rewrite !app_nil_r, <- app_assoc. by rewrite take_drop.
    + injection Hx as <- <-. destruct (gather_head_ok (b ++ d) [] false) as [? Hh];
        [rewrite blen_app; pose proof (blen_nonneg d); lia|].
      rewrite Hh. unfold held. cbn. by rewrite !app_nil_r.
  - injection Hx as <- <-. destruct Hi as (Hb & -> & ->). split; [unfold gather_inv; cbn; lia|].
    unfold held. cbn. by rewrite !app_nil_r.
  - injection Hx as <- <-. destruct Hi as (Hb & -> & ->). split; [unfold gather_inv; cbn; lia|].
    unfold held. cbn. by rewrite !app_nil_r.
  - by injection Hx as <- <-.
  - by injection Hx as <- <-.
  - injection Hx as <- <-. destruct (gather_top_ok pending rc) as [? Hh]. rewrite Hh.
    unfold held. cbn. rewrite !app_nil_r. split; [done|]. split; [done|]. intros ? [= <-]. lia.
Qed.

Lemma received_snoc evs ev : received (evs ++ [ev]) = received evs ++ received [ev].
Proof. unfold received. rewrite omap_app. apply List.concat_app. Qed.

(** Without [done], the stage returns only when it holds nothing. *)
Lemma gather_step_returned ev g g' o :
  gather_inv g -> gather_step ev g = Some (g', o) -> ev <> GDoneClosed ->
  g_phase g' = GReturned -> g_pending g' = [].
Proof.
  assert (forall b p rc, g_phase (gather_head b p rc) <> GReturned) as Hh.
  { intros b p rc. unfold gather_head. cbn. by destruct (_ && _). }
  assert (forall b rc, g_phase (gather_first b rc) <> GReturned) as Hf.
  { intros b rc. unfold gather_first. by repeat case_match. }
  assert (forall p rc, g_phase (gather_top p rc) = GReturned -> g_pending (gather_top p rc) = [])
    as Ht.
  { intros p rc. unfold gather_top. case_match; [intros H'; by apply Hf in H'|]. by case_match. }
  destruct g as [pending rc ph]. unfold gather_step. cbn [g_phase g_pending g_readsClosed].
  destruct ph as [|b|b|b|], ev as [d| | | |]; intros Hi Hx Hev Hph; cbn in Hi; try done;
    try case_match; injection Hx as <- <-;
    first [done | apply Hi | by apply Hh in Hph | by apply Hf in Hph | by apply Ht].
Qed.

Lemma gathers_inv g0 evs out g :
  gathers g0 evs out g -> gather_inv g0 ->
  gather_inv g /\ Forall (fun b => blen b <= ptyBatchSize) out /\
  (GDoneClosed ∉ evs -> held g0 ++ received evs = List.concat out ++ held g) /\
  (GDoneClosed ∉ evs -> evs <> [] -> g_phase g = GReturned -> g_pending g = []).
Proof.
  induction 1 as [g|g0 evs out g1 ev g2 o Hg IH Hx]; intros H0.
  - split; [done|]. split; [constructor|]. split; [intros _; apply app_nil_r|done].
  - destruct (IH H0) as (H1 & Hall & Heq & _).
    destruct (gather_step_ok _ _ _ _ H1 Hx) as (H2 & Hstep & Hlen). split; [done|].
    split.
    + apply Forall_app. split; [done|]. destruct o; cbn; [|constructor].
      constructor; [by apply Hlen | constructor].
    + rewrite not_elem_of_app, not_elem_of_cons. split.
      * intros (Hn & Hne & _).
        rewrite received_snoc, List.concat_app, app_assoc, Heq, <- !app_assoc by done.
        f_equal. apply Hstep. congruence.
      * intros (Hn & Hne & _) _. apply (gather_step_returned ev g1 g2 o H1 Hx). congruence.
Qed.

Lemma gather_start_inv : gather_inv gather_start.
Proof. by split. Qed.

(** ** Properties *)

(** The gather stage loses, duplicates and reorders nothing: while the session
    is not done, the reads received are the batches sent followed by what the
    stage still holds, which is nothing once it has returned; and every batch
    fits the buffers of the feed loop. *)
Theorem gather_preserves_stream evs out g :
  gathers gather_start evs out g -> GDoneClosed ∉ evs ->
  received evs = List.concat out ++ held g /\
  Forall (fun b => blen b <= ptyBatchSize) out /\
  (g_phase g = GReturned -> received evs = List.concat out).
Proof.
  intros Hg Hd. destruct (gathers_inv _ _ _ _ Hg gather_start_inv) as (_ & Hall & Heq & Hret).
  specialize (Heq Hd). split; [exact Heq|]. split; [exact Hall|].
  intros Hph. change (received evs) with (held gather_start ++ received evs). rewrite Heq. unfold held. rewrite Hph. rewrite Hret; [apply app_nil_r|done| |done].
  intros ->. inversion Hg; subst; [done|]. by destruct evs.
Qed.

Lemma gathers_cons g ev g1 o evs out g2 :
  gather_step ev g = Some (g1, o) -> gathers g1 evs out g2 ->
  gathers g (ev :: evs) (option_list o ++ out) g2.
Proof.
  intros Hx. induction 1 as [g1|g1 evs out g' ev' g'' o' Hg IH Hx'].
  - rewrite app_nil_r. apply (gathers_snoc g [] [] g ev g1 o); [constructor|done].
  - rewrite app_assoc, app_comm_cons. by eapply gathers_snoc; [apply IH|].
Qed.

(** What is left to happen once the pty is closed. *)
Definition closing (ev : gevent) : Prop := ev = GSent \/ ev = GReadsClosed.

Definition gather_measure (g : gstate) : nat :=
  4 * length (held g) +
  match g_phase g with GFirst => 1 | GSmall _ | GGather _ => 3 | GSend _ => 2 | GReturned => 0 end.

Lemma gather_top_measure p rc :
  (gather_measure (gather_top p rc) <= 4 * length p + 3)%nat.
Proof.
  unfold gather_measure. rewrite (proj2 (gather_top_ok p rc)). destruct (g_phase _); lia.
Qed.

Lemma gather_progress g :
  gather_inv g -> g_phase g <> GReturned ->
  exists ev g' o, closing ev /\ gather_step ev g = Some (g', o) /\
    (gather_measure g' < gather_measure g)%nat.
Proof.
  destruct g as [pending rc ph]. unfold gather_inv, closing. cbn [g_phase g_pending g_readsClosed].
  destruct ph as [|b|b|b|]; intros Hi Hph; [| | | |done].
  - exists GReadsClosed. eexists _, _. split; [by right|]. split; [reflexivity|].
    destruct Hi as [-> _]. cbn. lia.
  - exists GSent. eexists _, _. split; [by left|]. split; [reflexivity|].
    destruct Hi as [_ ->]. unfold gather_measure at 2. cbn [g_phase].
    assert (gather_measure (gather_top [] rc) <= 1)%nat by (destruct rc; vm_compute; auto). cbn [g_pending g_readsClosed]. lia.
  - exists GReadsClosed. eexists _, _. split; [by right|]. split; [reflexivity|].
    unfold gather_measure, held. cbn. lia.
  - exists GSent. eexists _, _. split; [by left|]. split; [reflexivity|].
    pose proof (gather_top_measure pending rc).
    unfold gather_measure at 2. unfold held. cbn [g_phase g_pending g_readsClosed]. rewrite length_app.
    unfold blen in Hi. lia.
Qed.

(** The gather stage ends: from any state it can be in, with the reads closed
    and the run loop taking its batches, it returns and closes [batches]. *)
Theorem gather_finishes evs out g :
  gathers gather_start evs out g ->
  exists evs' out' g', gathers g evs' out' g' /\ Forall closing evs' /\ g_phase g' = GReturned.
Proof.
  intros Hg. destruct (gathers_inv _ _ _ _ Hg gather_start_inv) as (Hi & _). clear Hg.
  remember (gather_measure g) as n eqn:Hn. revert g Hi Hn.
  induction (lt_wf n) as [n _ IH]. intros g Hi ->.
  destruct (g_phase g) eqn:Hph;
    [| | | |exists [], [], g; split; [constructor|]; by split].
  all: destruct (gather_progress g Hi ltac:(congruence)) as (ev & g1 & o & Hc & Hx & Hm).
  all: destruct (gather_step_ok _ _ _ _ Hi Hx) as (Hi1 & _).
  all: destruct (IH _ Hm g1 Hi1 eq_refl) as (evs' & out' & g' & Hg & Hall & Hr).
  all: exists (ev :: evs'), (option_list o ++ out'), g'.
  all: split; [by eapply gathers_cons|]; split; [by constructor | done].
Qed.

(** The exit code of a process that ended is the shell's: its status, or 128
    plus the signal, and always between 0 and 255. *)
Theorem exitCode_range ws :
  is_u32 ws ->
  0 <= exitCodeFromWaitStatus ws <= 255 /\
  (ws_Exited ws = true -> exitCodeFromWaitStatus ws = ws_ExitStatus ws) /\
  (ws_Signaled ws = true -> exitCodeFromWaitStatus ws = 128 + ws_Signal ws).
Proof.
  intros Hw. unfold exitCodeFromWaitStatus, ws_ExitStatus, ws_Signal, ws_Signaled, ws_Exited.
  assert (0 <= Z.land ws 127 < 128) as H1 by (change 127 with (Z.ones 7);
    rewrite Z.land_ones by lia; apply Z.mod_pos_bound; lia).
  assert (0 <= Z.land (Z.shiftr ws 8) 255 < 256) as H2 by (change 255 with (Z.ones 8);
    rewrite Z.land_ones by lia; apply Z.mod_pos_bound; lia).
  assert (forall z, 0 <= z < 256 -> i32 z = z) as Hi by (intros; width_lia).
  destruct (Z.eqb_spec (Z.land ws 127) 0) as [E|E]; cbn [negb andb].
  - rewrite Hi by lia. rewrite E. cbn. split; [lia|]. by split.
  - destruct (Z.eqb_spec (Z.land ws 127) 127); cbn [negb andb]; [split; [lia|]; by split|].
    rewrite Hi by lia. split; [lia|]. by split.
Qed.

(** ** Concrete runs *)

Definition gather_trace : list gevent :=
  [GRecv [Byte.x61]; GSent; GRecv (List.repeat Byte.x62 (Z.to_nat 1500));
   GRecv [Byte.x63; Byte.x64]; GTimer; GSent; GRecv (List.repeat Byte.x65 (Z.to_nat 1200))].

Fixpoint gather_run (evs : list gevent) (g : gstate) : option (list bytes * gstate) :=
  match evs with
  | [] => Some ([], g)
  | ev :: evs' =>
      match gather_step ev g with
      | Some (g1, o) =>
          match gather_run evs' g1 with
          | Some (out, g2) => Some (option_list o ++ out, g2)
          | None => None
          end
      | None => None
      end
  end.

Lemma gather_run_gathers evs g out g' :
  gather_run evs g = Some (out, g') -> gathers g evs out g'.
Proof.
  revert g out. induction evs as [|ev evs IH]; intros g out; cbn.
  - intros [= <- <-]. constructor.
  - destruct (gather_step ev g) as [[g1 o]|] eqn:Hx; [|done].
    destruct (gather_run evs g1) as [[out' g2]|] eqn:Hr; [|done].
    intros [= <- <-]. eapply gathers_cons; [done|]. by apply IH.
Qed.

Lemma not_done_computed evs :
  forallb (fun ev => match ev with GDoneClosed => false | _ => true end) evs = true ->
  GDoneClosed ∉ evs.
Proof.
  induction evs as [|ev evs IH]; cbn; [intros _; apply not_elem_of_nil|].
  intros [H1 H2]%andb_true_iff. apply not_elem_of_cons. split; [by intros <- | by apply IH].
Qed.

Definition gather_result : list bytes * gstate :=
  match gather_run gather_trace gather_start with Some r => r | None => ([], gather_start) end.

Lemma gather_preserves_stream_witness :
  map blen (fst gather_result) = [1; 1502] /\ blen (held (snd gather_result)) = 1200 /\
  received gather_trace = List.concat (fst gather_result) ++ held (snd gather_result).
Proof.
  split; [by vm_compute|]. split; [by vm_compute|].
  apply (gather_preserves_stream gather_trace (fst gather_result) (snd gather_result)).
  - apply gather_run_gathers. by vm_compute.
  - apply not_done_computed. by vm_compute.
Defined.

Lemma gather_finishes_witness :
  exists evs' out' g', gathers (snd gather_result) evs' out' g' /\ Forall closing evs' /\
    g_phase g' = GReturned.
Proof.
  apply (gather_finishes gather_trace (fst gather_result) (snd gather_result)).
  apply gather_run_gathers. by vm_compute.
Defined.

Lemma exitCode_range_witness : 0 <= exitCodeFromWaitStatus 9 <= 255 /\ exitCodeFromWaitStatus 9 = 137.
Proof.
  split; [apply (exitCode_range 9); by vm_compute | by vm_compute].
Defined.
