(* ===== verification/FeedPool.v ===== *)
(** * FeedPool: the buffers the sessions share

    Models [feedPool] of [internal/daemon/session.go] and its use in [run] and
    [feedLoop] of [session_lifecycle.go]. All sessions of the daemon take the
    buffers of their feed items from one [sync.Pool] and put them back after the
    terminal was fed, so a buffer is written while others are still read. The
    store maps a pointer to its buffer. [SessionLoop] models a feed item by the
    bytes of its chunk; the theorem below is what makes that right. *)
From Stdlib Require Import ZArith Lia.
From Stdlib Require Import Strings.Byte.
From stdpp Require Import base gmap sets list strings numbers option.
From S2P Require Import Prelude Chan Resize SessionLoop.
#[local] Open Scope Z_scope.

(** ** Data *)

(** A [[]byte] a pointer of the pool points to: its length and its array. *)
Record buffer := mkBuffer { b_len : nat; b_array : bytes }.

Definition contents (b : buffer) : bytes := take (b_len b) (b_array b).

(** The feed of one session: the pending item, the queue [feedCh], the item the feed
    loop is feeding, and what its terminal was fed. *)
Record feeder := mkFeeder {
  fd_pending : option nat;
  fd_queue : list nat;
  fd_working : option nat;
  fd_fed : list bytes }.

Definition idle : feeder := mkFeeder None [] None [].

Record pool := mkPool {
  p_store : gmap nat buffer;
  p_free : list nat;
  p_next : nat;
  p_feeders : gmap nat feeder }.

Definition feeder_of (sid : nat) (w : pool) : feeder := default idle (p_feeders w !! sid).

Definition set_feeder (sid : nat) (f : feeder) (w : pool) : pool :=
  mkPool (p_store w) (p_free w) (p_next w) (<[sid:=f]> (p_feeders w)).

(** ** [sync.Pool] *)

(** [make([]byte, ptyBatchSize)], the length as a number of list cells. *)
Definition ptyBatchCap : nat := Z.to_nat ptyBatchSize.
(** [New]. *)
Definition pool_New (w : pool) : nat * pool :=
  (p_next w,
   mkPool (<[p_next w := mkBuffer ptyBatchCap (replicate ptyBatchCap Byte.x00)]>
             (p_store w)) (p_free w) (S (p_next w)) (p_feeders w)).

(** [Get] returns any pooled pointer, or a new one. *)
Definition Get (choice : option nat) (w : pool) : nat * pool :=
  match choice with
  | Some i =>
      match p_free w !! i with
      | Some p => (p, mkPool (p_store w) (delete i (p_free w)) (p_next w) (p_feeders w))
      | None => pool_New w
      end
  | None => pool_New w
  end.

Definition Put (p : nat) (w : pool) : pool :=
  mkPool (p_store w) (p :: p_free w) (p_next w) (p_feeders w).

(** [*p], of a pointer the code holds. *)
Definition load (p : nat) (w : pool) : go buffer :=
  match p_store w !! p with Some b => Val b | None => Panic "nil pointer dereference" end.

Definition store_at (p : nat) (b : buffer) (w : pool) : pool :=
  mkPool (<[p:=b]> (p_store w)) (p_free w) (p_next w) (p_feeders w).

(** [b[:n]]: up to the capacity. *)
Definition reslice (n : nat) (b : buffer) : go buffer :=
  if (n <=? length (b_array b))%nat then Val (mkBuffer n (b_array b))
  else Panic "slice bounds out of range".

(** [copy(d, data)]. *)
Definition copy (data : bytes) (d : buffer) : buffer :=
  let n := Nat.min (b_len d) (length data) in
  mkBuffer (b_len d) (take n data ++ drop n (b_array d)).

(** ** What the goroutines do *)

(** The loop accepts a chunk. *)
Definition accept (sid : nat) (data : bytes) (choice : option nat) (w : pool) : go pool :=
  let '(bp, w) := Get choice w in
  let! b := load bp w in
  let! d := reslice (length data) b in
  let w := store_at bp (copy data d) w in
  let f := feeder_of sid w in
  Val (set_feeder sid (mkFeeder (Some bp) (fd_queue f) (fd_working f) (fd_fed f)) w).

(** [feedSend <- feedItemToSend]. *)
Definition send (sid bp : nat) (w : pool) : pool :=
  let f := feeder_of sid w in
  set_feeder sid (mkFeeder None (fd_queue f ++ [bp]) (fd_working f) (fd_fed f)) w.

(** The feed loop takes an item from [feedCh], *)
Definition take_item (sid bp : nat) (queue : list nat) (w : pool) : pool :=
  let f := feeder_of sid w in
  set_feeder sid (mkFeeder (fd_pending f) queue (Some bp) (fd_fed f)) w.

(** and has fed it: [s.term.feed( *item.data)], the full slice again, [Put]. *)
Definition finish_item (sid bp : nat) (w : pool) : go pool :=
  let! b := load bp w in
  let! whole := reslice (length (b_array b)) b in
  let f := feeder_of sid w in
  let w := set_feeder sid (mkFeeder (fd_pending f) (fd_queue f) None (fd_fed f ++ [contents b])) w in
  Val (Put bp (store_at bp whole w)).

(** [stopReq] with a pending item. *)
Definition drop_pending (sid bp : nat) (w : pool) : pool :=
  let f := feeder_of sid w in
  Put bp (set_feeder sid (mkFeeder None (fd_queue f) (fd_working f) (fd_fed f)) w).

(** ** The daemon's sessions, interleaved *)

Inductive pevent : Type :=
| PAccept (sid : nat) (data : bytes) (choice : option nat)
| PSend (sid : nat)
| PTake (sid : nat)
| PFinish (sid : nat)
| PStop (sid : nat)
| PCollect (i : nat).           (* the runtime empties the pool *)

Definition pexec (ev : pevent) (w : pool) : option (go pool) :=
  match ev with
  | PAccept sid data choice =>
      match fd_pending (feeder_of sid w) with
      | None => Some (accept sid data choice w)
      | Some _ => None
      end
  | PSend sid =>
      match fd_pending (feeder_of sid w) with
      | Some bp => Some (Val (send sid bp w))
      | None => None
      end
  | PTake sid =>
      match fd_working (feeder_of sid w), fd_queue (feeder_of sid w) with
      | None, bp :: queue => Some (Val (take_item sid bp queue w))
      | _, _ => None
      end
  | PFinish sid =>
      match fd_working (feeder_of sid w) with
      | Some bp => Some (finish_item sid bp w)
      | None => None
      end
  | PStop sid =>
      match fd_pending (feeder_of sid w) with
      | Some bp => Some (Val (drop_pending sid bp w))
      | None => None
      end
  | PCollect i => Some (Val (mkPool (p_store w) (delete i (p_free w)) (p_next w) (p_feeders w)))
  end.

Definition pevent_ok (ev : pevent) : Prop :=
  match ev with PAccept _ data _ => blen data <= ptyBatchSize | _ => True end.

Inductive psteps : pool -> list pevent -> pool -> Prop :=
| psteps_nil w : psteps w [] w
| psteps_snoc w evs w1 ev w2 :
    psteps w evs w1 -> pevent_ok ev -> pexec ev w1 = Some (Val w2) -> psteps w (evs ++ [ev]) w2.

Definition no_buffers : pool := mkPool ∅ [] 0 ∅.

(** The chunks a session accepted and did not drop, oldest first. *)
Definition kept (sid : nat) (chunks : list bytes) (ev : pevent) : list bytes :=
  match ev with
  | PAccept s data _ => if decide (s = sid) then chunks ++ [data] else chunks
  | PStop s => if decide (s = sid) then removelast chunks else chunks
  | _ => chunks
  end.

(** ** The invariant *)

#[local] Opaque ptyBatchCap.

(** The buffers of a session, in the order of their chunks. *)
Definition owned (f : feeder) : list nat :=
  option_list (fd_working f) ++ fd_queue f ++ option_list (fd_pending f).

Definition content_at (w : pool) (p : nat) : bytes :=
  match p_store w !! p with Some b => contents b | None => [] end.

(** No buffer has two owners, and the buffers of a session hold its chunks. *)
Record PInv (chunks : nat -> list bytes) (w : pool) : Prop := mkPInv {
  pi_nodup : forall sid, NoDup (p_free w ++ owned (feeder_of sid w));
  pi_apart : forall s1 s2 p, p ∈ owned (feeder_of s1 w) -> p ∈ owned (feeder_of s2 w) -> s1 = s2;
  pi_store : forall sid p, p ∈ p_free w ++ owned (feeder_of sid w) ->
    (p < p_next w)%nat /\ exists b, p_store w !! p = Some b /\ length (b_array b) = ptyBatchCap;
  pi_chunks : forall sid, chunks sid =
    fd_fed (feeder_of sid w) ++ (content_at w <$> owned (feeder_of sid w)) }.

Lemma feeder_of_set sid f w s :
  feeder_of s (set_feeder sid f w) = if decide (s = sid) then f else feeder_of s w.
Proof.
  unfold feeder_of, set_feeder. cbn. case_decide; subst.
  - by rewrite lookup_insert_eq.
  - by rewrite lookup_insert_ne.
Qed.

Lemma NoDup_sub {A} (l k : list A) : l ⊆+ k -> NoDup k -> NoDup l.
Proof. intros [m ->]%submseteq_Permutation Hk. by apply list.NoDup_app in Hk as (? & _). Qed.

(** A step of one session moves buffers between the pool and the session and writes
    only to those. *)
Lemma PInv_move chunks chunks' w w' sid :
  PInv chunks w -> p_next w' = p_next w ->
  (forall s, s <> sid -> feeder_of s w' = feeder_of s w /\ chunks' s = chunks s) ->
  p_free w' ++ owned (feeder_of sid w') ⊆+ p_free w ++ owned (feeder_of sid w) ->
  (forall p, p ∉ p_free w ++ owned (feeder_of sid w) -> p_store w' !! p = p_store w !! p) ->
  (forall p, p ∈ p_free w ++ owned (feeder_of sid w) ->
     exists b, p_store w' !! p = Some b /\ length (b_array b) = ptyBatchCap) ->
  chunks' sid = fd_fed (feeder_of sid w') ++ (content_at w' <$> owned (feeder_of sid w')) ->
  PInv chunks' w'.
Proof.
  intros [Hnd Hap Hst Hch] Hnext Hother Hsub Hsame Harr Hown.
  assert (Hnd' : NoDup (p_free w' ++ owned (feeder_of sid w'))) by (by eapply NoDup_sub).
  assert (Hin : forall p, p ∈ p_free w' ++ owned (feeder_of sid w') ->
    p ∈ p_free w ++ owned (feeder_of sid w)) by (intros p Hp; by eapply elem_of_submseteq).
  assert (Hfar : forall s p, s <> sid -> p ∈ owned (feeder_of s w) ->
    p ∉ p_free w ++ owned (feeder_of sid w)).
  { intros s p Hs Hp [Hf|Ho]%elem_of_app.
    - pose proof (Hnd s) as (_ & Hd & _)%list.NoDup_app. by destruct (Hd p Hf).
    - by destruct (Hs (Hap s sid p Hp Ho)). }
  split.
  - intros s. destruct (decide (s = sid)) as [->|Hs]; [done|].
    destruct (Hother s Hs) as [-> _]. apply list.NoDup_app. split_and!.
    + by apply list.NoDup_app in Hnd' as (? & _).
    + intros p Hp Ho. apply (Hfar s p Hs Ho), Hin, elem_of_app. by left.
    + by specialize (Hnd s) as (_ & _ & ?)%list.NoDup_app.
  - assert (Hone : forall s p, s <> sid -> p ∈ owned (feeder_of s w') ->
      p ∈ owned (feeder_of sid w') -> False).
    { intros s p Hs. destruct (Hother s Hs) as [-> _]. intros Hp Hp'. apply (Hfar s p Hs Hp), Hin, elem_of_app.
      by right. }
    intros s1 s2 p H1 H2. destruct (decide (s1 = sid)) as [->|E1], (decide (s2 = sid)) as [->|E2]; [done| | |].
    + by destruct (Hone s2 p E2).
    + by destruct (Hone s1 p E1).
    + destruct (Hother s1 E1) as [F1 _], (Hother s2 E2) as [F2 _]. rewrite F1 in H1. rewrite F2 in H2.
      by apply (Hap s1 s2 p).
  - intros s p. rewrite Hnext. destruct (decide (s = sid)) as [->|Hs].
    + intros Hp%Hin. split; [by apply (Hst sid)|]. by apply Harr.
    + destruct (Hother s Hs) as [-> _]. intros [Hp|Hp]%elem_of_app.
      * assert (p ∈ p_free w ++ owned (feeder_of sid w)) as Hp' by (apply Hin, elem_of_app; by left).
        split; [by apply (Hst sid)|]. by apply Harr.
      * rewrite (Hsame p (Hfar s p Hs Hp)). apply (Hst s), elem_of_app. by right.
  - intros s. destruct (decide (s = sid)) as [->|Hs]; [done|].
    destruct (Hother s Hs) as [-> ->]. rewrite Hch. f_equal. apply list_fmap_ext.
    intros i p Hp%list_elem_of_lookup_2. unfold content_at. by rewrite (Hsame p (Hfar s p Hs Hp)).
Qed.

(** A new buffer, put into the pool. *)
Definition grown (w : pool) : pool := let '(p, w) := pool_New w in Put p w.

Lemma PInv_grown chunks w : PInv chunks w -> PInv chunks (grown w).
Proof.
  intros [Hnd Hap Hst Hch].
  assert (Hnew : forall sid p, p ∈ p_free w ++ owned (feeder_of sid w) -> p <> p_next w).
  { intros sid p Hp. specialize (Hst sid p Hp) as [? _]. lia. }
  unfold grown, pool_New, Put. split; cbn [p_store p_free p_next p_feeders] in *; unfold feeder_of in *;
    cbn [p_feeders] in *.
  - intros sid. cbn [app]. apply list.NoDup_cons. split; [|apply Hnd]. intros Hp. by apply (Hnew sid) in Hp.
  - exact Hap.
  - intros sid p [->|Hp]%elem_of_cons.
    + split; [lia|]. eexists. rewrite lookup_insert_eq. split; [reflexivity|]. cbn [b_array].
      by rewrite length_replicate.
    + rewrite lookup_insert_ne by (symmetry; by eapply Hnew).
      destruct (Hst sid p Hp) as [? ?]. split; [lia|done].
  - intros sid. rewrite Hch. f_equal. apply list_fmap_ext. intros i p Hp%list_elem_of_lookup_2.
    unfold content_at. cbn [p_store]. rewrite lookup_insert_ne; [done|]. symmetry. apply (Hnew sid), elem_of_app.
    by right.
Qed.

(** [Get] takes a pointer out of the pool, perhaps a new one. *)
Lemma Get_spec chunks choice w bp w1 :
  PInv chunks w -> Get choice w = (bp, w1) ->
  exists w0 free, PInv chunks w0 /\ p_free w0 ≡ₚ bp :: free /\
    w1 = mkPool (p_store w0) free (p_next w0) (p_feeders w0) /\ p_feeders w0 = p_feeders w.
Proof.
  intros HI Hg. assert (Hnew : pool_New w = (bp, w1) -> exists w0 free, PInv chunks w0 /\
    p_free w0 ≡ₚ bp :: free /\ w1 = mkPool (p_store w0) free (p_next w0) (p_feeders w0) /\
    p_feeders w0 = p_feeders w).
  { intros Hn. exists (grown w), (p_free w). split; [by apply PInv_grown|].
    unfold grown. rewrite Hn. unfold pool_New in Hn. by injection Hn as <- <-. }
  unfold Get in Hg. destruct choice as [i|]; [|by apply Hnew].
  destruct (p_free w !! i) as [p|] eqn:Hi; [|by apply Hnew]. injection Hg as <- <-.
  exists w, (delete i (p_free w)). split; [done|]. split; [by apply delete_Permutation|]. done.
Qed.

Lemma contents_copy data d :
  (length data <= length (b_array d))%nat -> b_len d = length data ->
  contents (copy data d) = data /\ length (b_array (copy data d)) = length (b_array d).
Proof.
  intros Hl Hd. unfold contents, copy. cbn [b_len b_array]. rewrite Hd, Nat.min_id.
  rewrite (take_ge data) by lia. split; [by rewrite take_app_length|].
  rewrite length_app, length_drop. lia.
Qed.

(** ** Every step *)

Lemma owned_free_sub w sid p :
  p ∈ owned (feeder_of sid w) -> p ∈ p_free w ++ owned (feeder_of sid w).
Proof. intros H. apply elem_of_app. by right. Qed.

(** A step that only moves the session's own buffers. *)
Lemma PInv_shift chunks w sid f free :
  PInv chunks w -> free ++ owned f ⊆+ p_free w ++ owned (feeder_of sid w) ->
  fd_fed f = fd_fed (feeder_of sid w) -> owned f = owned (feeder_of sid w) ->
  PInv chunks (set_feeder sid f (mkPool (p_store w) free (p_next w) (p_feeders w))).
Proof.
  intros HI Hsub Hfed Hown. eapply (PInv_move chunks chunks w _ sid HI); [done| | |done| |].
  - intros s Hs. rewrite feeder_of_set, decide_False by done. done.
  - rewrite feeder_of_set, decide_True by done. exact Hsub.
  - intros p Hp. by apply (pi_store _ _ HI sid).
  - rewrite feeder_of_set, decide_True by done. rewrite Hfed, Hown. apply (pi_chunks _ _ HI).
Qed.

Lemma accept_ok chunks w sid data choice :
  PInv chunks w -> fd_pending (feeder_of sid w) = None -> blen data <= ptyBatchSize ->
  exists w', accept sid data choice w = Val w' /\
    PInv (fun s => kept s (chunks s) (PAccept sid data choice)) w'.
Proof.
  intros HI Hpend Hlen. unfold accept. destruct (Get choice w) as [bp w1] eqn:Hg.
  destruct (Get_spec _ _ _ _ _ HI Hg) as (w0 & free & HI0 & Hfree & -> & Hf).
  assert (Hf0 : forall s, feeder_of s w0 = feeder_of s w) by (intros s; unfold feeder_of; by rewrite Hf).
  destruct (pi_store _ _ HI0 sid bp) as (_ & b & Hb & Hcap).
  { rewrite Hfree. set_solver. }
  unfold load. cbn [p_store]. rewrite Hb. cbn [go_bind]. unfold reslice. rewrite Hcap.
  assert (length data <= ptyBatchCap)%nat as Hl.
  { change ptyBatchCap with (Z.to_nat ptyBatchSize). unfold blen in Hlen. lia. }
  rewrite (proj2 (Nat.leb_le _ _)) by done. cbn [go_bind]. eexists. split; [reflexivity|].
  destruct (contents_copy data (mkBuffer (length data) (b_array b))) as [Hcd Hca]; [cbn; lia|done|].
  set (d := copy data _) in *. set (f := feeder_of sid _).
  assert (f = feeder_of sid w0) as -> by done. rewrite Hf0.
  set (f' := mkFeeder (Some bp) _ _ _).
  assert (Ho' : owned f' = owned (feeder_of sid w0) ++ [bp]).
  { rewrite Hf0. unfold owned, f'. cbn. rewrite Hpend. cbn. by rewrite app_nil_r, app_assoc. }
  assert (Hbp : bp ∉ owned (feeder_of sid w0)).
  { pose proof (pi_nodup _ _ HI0 sid) as (_ & Hd & _)%list.NoDup_app. apply Hd. rewrite Hfree. set_solver. }
  eapply (PInv_move chunks _ w0 _ sid HI0); [done| | | | |].
  - intros s Hs. rewrite feeder_of_set, decide_False by done. split; [done|]. cbn. by rewrite decide_False.
  - rewrite feeder_of_set, decide_True by done. rewrite Ho'. cbn [p_free set_feeder store_at].
    rewrite Hfree. rewrite app_assoc, (comm (++) _ [bp]). done.
  - intros p Hp. cbn. apply lookup_insert_ne. intros ->. apply Hp. rewrite Hfree. set_solver.
  - intros p Hp. cbn. destruct (decide (bp = p)) as [->|Hne].
    + rewrite lookup_insert_eq. exists d. split; [done|]. by rewrite Hca.
    + rewrite lookup_insert_ne by done. by apply (pi_store _ _ HI0 sid).
  - rewrite feeder_of_set, decide_True by done. rewrite Ho', fmap_app. cbn [kept].
    rewrite decide_True by done. rewrite (pi_chunks _ _ HI0 sid), Hf0. unfold f'. cbn [fd_fed].
    rewrite <- app_assoc. f_equal. f_equal.
    + apply list_fmap_ext. intros i p Hp%list_elem_of_lookup_2. unfold content_at. cbn.
      rewrite lookup_insert_ne; [done|]. intros ->. apply Hbp. by rewrite Hf0.
    + cbn. unfold content_at. cbn. by rewrite lookup_insert_eq, Hcd.
Qed.

Lemma finish_ok chunks w sid bp :
  PInv chunks w -> fd_working (feeder_of sid w) = Some bp ->
  exists w', finish_item sid bp w = Val w' /\ PInv chunks w'.
Proof.
  intros HI Hwk. unfold finish_item.
  assert (Ho : owned (feeder_of sid w) =
    bp :: fd_queue (feeder_of sid w) ++ option_list (fd_pending (feeder_of sid w))).
  { unfold owned. by rewrite Hwk. }
  destruct (pi_store _ _ HI sid bp) as (_ & b & Hb & Hcap).
  { apply owned_free_sub. rewrite Ho. by constructor. }
  unfold load. rewrite Hb. cbn [go_bind]. unfold reslice. rewrite (proj2 (Nat.leb_le _ _)) by done.
  cbn [go_bind]. eexists. split; [reflexivity|].
  assert (Hbp : bp ∉ fd_queue (feeder_of sid w) ++ option_list (fd_pending (feeder_of sid w))).
  { pose proof (pi_nodup _ _ HI sid) as (_ & _ & Hd)%list.NoDup_app. rewrite Ho in Hd.
    by apply list.NoDup_cons in Hd as [? _]. }
  set (f := mkFeeder _ _ None _). set (w1 := set_feeder sid f w).
  assert (Hf : forall s, feeder_of s (Put bp (store_at bp (mkBuffer (length (b_array b)) (b_array b)) w1)) =
    if decide (s = sid) then f else feeder_of s w) by (intros s; apply (feeder_of_set sid f w s)).
  eapply (PInv_move chunks chunks w _ sid HI); [done| | | | |].
  - intros s Hs. by rewrite Hf, decide_False.
  - rewrite Hf, decide_True by done. rewrite Ho. cbn. by rewrite Permutation_middle.
  - intros p Hp. cbn. apply lookup_insert_ne. intros ->. apply Hp, owned_free_sub. rewrite Ho. by constructor.
  - intros p Hp. cbn. destruct (decide (bp = p)) as [->|Hne].
    + rewrite lookup_insert_eq. eexists. split; [reflexivity|]. exact Hcap.
    + rewrite lookup_insert_ne by done. by apply (pi_store _ _ HI sid).
  - rewrite Hf, decide_True by done. rewrite (pi_chunks _ _ HI sid), Ho. unfold f. cbn [fd_fed].
    rewrite <- app_assoc. f_equal. cbn. unfold content_at at 1. rewrite Hb. f_equal.
    apply list_fmap_ext. intros i p Hp%list_elem_of_lookup_2. unfold content_at. cbn.
    rewrite lookup_insert_ne; [done|]. by intros ->.
Qed.

Lemma drop_pending_keeps chunks w sid bp :
  PInv chunks w -> fd_pending (feeder_of sid w) = Some bp ->
  PInv (fun s => kept s (chunks s) (PStop sid)) (drop_pending sid bp w).
Proof.
  intros HI Hp. unfold drop_pending. set (f := mkFeeder None _ _ _).
  assert (Ho : owned (feeder_of sid w) = owned f ++ [bp]).
  { unfold owned, f. cbn. rewrite Hp. cbn. by rewrite app_nil_r, app_assoc. }
  assert (Hf : forall s, feeder_of s (Put bp (set_feeder sid f w)) =
    if decide (s = sid) then f else feeder_of s w) by (intros s; apply (feeder_of_set sid f w s)).
  eapply (PInv_move chunks _ w _ sid HI); [done| | |done| |].
  - intros s Hs. rewrite Hf, decide_False by done. split; [done|]. cbn. by rewrite decide_False.
  - rewrite Hf, decide_True by done. rewrite Ho. cbn. rewrite app_assoc, (comm (++) _ [bp]). done.
  - intros p Hq. by apply (pi_store _ _ HI sid).
  - rewrite Hf, decide_True by done. cbn [kept]. rewrite decide_True by done.
    rewrite (pi_chunks _ _ HI sid), Ho, fmap_app. cbn [fmap list_fmap].
    rewrite app_assoc, removelast_last. done.
Qed.

Lemma pexec_ok chunks ev w x :
  PInv chunks w -> pevent_ok ev -> pexec ev w = Some x ->
  exists w', x = Val w' /\ PInv (fun s => kept s (chunks s) ev) w'.
Proof.
  intros HI Hok. destruct ev as [sid data choice|sid|sid|sid|sid|i]; cbn [pexec].
  - destruct (fd_pending _) eqn:Hp; [done|]. intros [= <-].
    destruct (accept_ok chunks w sid data choice HI Hp Hok) as (w' & -> & H). eauto.
  - destruct (fd_pending _) as [bp|] eqn:Hp; [|done]. intros [= <-]. eexists. split; [reflexivity|].
    unfold send. destruct w as [st fr nx fs]. apply (PInv_shift chunks (mkPool st fr nx fs) sid _ fr HI);
      cbn [fd_fed p_free]; [|done|]; unfold owned; cbn; rewrite Hp; cbn; rewrite app_nil_r; done.
  - destruct (fd_working _) eqn:Hw; [done|]. destruct (fd_queue _) as [|bp q] eqn:Hq; [done|].
    intros [= <-]. eexists. split; [reflexivity|]. unfold take_item. destruct w as [st fr nx fs].
    apply (PInv_shift chunks (mkPool st fr nx fs) sid _ fr HI);
      cbn [fd_fed p_free]; [|done|]; unfold owned; cbn; rewrite Hw, Hq; done.
  - destruct (fd_working _) as [bp|] eqn:Hw; [|done]. intros [= <-].
    destruct (finish_ok chunks w sid bp HI Hw) as (w' & -> & H). eauto.
  - destruct (fd_pending _) as [bp|] eqn:Hp; [|done]. intros [= <-]. eexists. split; [reflexivity|].
    by apply drop_pending_keeps.
  - intros [= <-]. eexists. split; [reflexivity|].
    eapply (PInv_move chunks _ w _ 0%nat HI); [done|done| |done| |].
    + cbn. apply submseteq_skips_r, sublist_submseteq, sublist_delete.
    + intros p Hp. by apply (pi_store _ _ HI 0%nat).
    + apply (pi_chunks _ _ HI).
Qed.

Lemma psteps_inv evs w :
  psteps no_buffers evs w -> PInv (fun s => foldl (kept s) [] evs) w.
Proof.
  remember no_buffers as w0 eqn:E. induction 1 as [w|w evs w1 ev w2 Hs IH Hok Hx]; subst.
  - split; intros; unfold feeder_of in *; cbn in *; rewrite ?lookup_empty in *; cbn in *; try done.
    + constructor.
    + by apply not_elem_of_nil in H.
    + by apply not_elem_of_nil in H.
  - destruct (pexec_ok _ _ _ _ (IH eq_refl) Hok Hx) as (w' & [= <-] & HI).
    destruct HI as [H1 H2 H3 H4]. split; [done..|]. intros sid. rewrite foldl_snoc. apply H4.
Qed.

(** ** Properties *)

(** C31. The shared buffers never mix sessions or chunks. In any interleaving of any
    number of sessions, whatever buffers [Get] hands out: no step panics, no buffer
    belongs to two sessions or to a session and the pool, and what the terminal of
    a session was fed, then what its buffers hold, is exactly the chunks the
    session accepted and did not drop, in order. *)
Theorem buffers_never_mixed evs w sid :
  psteps no_buffers evs w ->
  foldl (kept sid) [] evs = fd_fed (feeder_of sid w) ++ (content_at w <$> owned (feeder_of sid w)) /\
  (forall p, p ∈ owned (feeder_of sid w) ->
     p ∉ p_free w /\ forall other, p ∈ owned (feeder_of other w) -> other = sid) /\
  forall ev x, pevent_ok ev -> pexec ev w = Some x -> exists w', x = Val w'.
Proof.
  intros Hs. pose proof (psteps_inv _ _ Hs) as HI. split; [apply (pi_chunks _ _ HI)|]. split.
  - intros p Hp. split.
    + pose proof (pi_nodup _ _ HI sid) as (_ & Hd & _)%list.NoDup_app. intros Hf. by apply (Hd p Hf).
    + intros other Ho. by apply (pi_apart _ _ HI other sid p).
  - intros ev x Hok Hx. destruct (pexec_ok _ _ _ _ HI Hok Hx) as (w' & -> & _). eauto.
Qed.

(** Run events from a state. *)
Fixpoint prun (evs : list pevent) (w : pool) : option pool :=
  match evs with
  | [] => Some w
  | ev :: evs =>
      match pexec ev w with Some (Val w') => prun evs w' | _ => None end
  end.

Lemma prun_steps evs : forall w0 pre w w',
  psteps w0 pre w -> Forall pevent_ok evs -> prun evs w = Some w' -> psteps w0 (pre ++ evs) w'.
Proof.
  induction evs as [|ev evs IH]; intros w0 pre w w' Hs Hok; cbn [prun].
  - intros [= <-]. by rewrite app_nil_r.
  - apply List.Forall_cons_iff in Hok as [Hev Hok].
    destruct (pexec ev w) as [[w1| |]|] eqn:Hx; [|done..]. intros Hr.
    rewrite (cons_middle ev pre evs), app_assoc. apply (IH _ _ w1); [|done..].
    by eapply psteps_snoc.
Qed.

(** Session 2 reuses the buffer of session 1, whose next chunk then needs a new one. *)
Definition ex_mix : list pevent :=
  [PAccept 1 [Byte.x61; Byte.x62] None; PSend 1; PTake 1; PFinish 1;
   PAccept 2 [Byte.x63] (Some 0%nat); PAccept 1 [Byte.x64] (Some 0%nat); PSend 1; PTake 1].

Lemma buffers_never_mixed_witness :
  exists w, psteps no_buffers ex_mix w /\
    [[Byte.x61; Byte.x62]; [Byte.x64]] =
      fd_fed (feeder_of 1 w) ++ (content_at w <$> owned (feeder_of 1 w)).
Proof.
  assert (exists w, prun ex_mix no_buffers = Some w) as [w Hw].
  { assert (match prun ex_mix no_buffers with Some _ => true | None => false end = true) as H
      by (vm_compute; reflexivity).
    destruct (prun ex_mix no_buffers) as [w|]; [by exists w|discriminate H]. }
  assert (Hs : psteps no_buffers ex_mix w).
  { apply (prun_steps ex_mix no_buffers [] no_buffers w); [constructor| |exact Hw].
    repeat (apply List.Forall_cons; [done || by vm_compute|]). apply List.Forall_nil. }
  exists w. split; [exact Hs|]. destruct (buffers_never_mixed ex_mix w 1 Hs) as (H & _). exact H.
Defined.
