(* ===== verification/Persist.v ===== *)
(** * Persist: saved sessions on disk

    Models [internal/daemon/persist.go]: the state file format, and the state
    directory as a file system in which a crash or an error can come between any
    two system calls and within a write. *)
From Stdlib Require Import ZArith Lia Ascii.
From stdpp Require Import base gmap sets list strings numbers option pretty sorting.
From S2P Require Import Prelude GoStrings Wire.
#[local] Open Scope Z_scope.

(** ** The state file *)

Definition stateMagic : bytes := bytes_of_string "HTST".
Definition stateVersion : Z := 2.
Definition maxStateSnapshotBytes : Z := Z.shiftl 128 20.

(** [time.Time] as nanoseconds since the epoch; [t.Unix()] and
    [time.Unix(sec, 0)]. *)
Definition time_Unix (t : Z) : Z := t / 10 ^ 9.
Definition unix_Time (sec : Z) : Z := sec * 10 ^ 9.

Record sessionState := mkState {
  Cols : Z;
  Rows : Z;
  SavedAt : Z;
  Snapshot : bytes }.

Definition encodeState (s : sessionState) : result bytes :=
  if blen (Snapshot s) =? 0 then Err (Errorf "persist: snapshot is empty")
  else if maxStateSnapshotBytes <? blen (Snapshot s) then
    Err (Errorf ("persist: snapshot too large: " +:+ pretty (blen (Snapshot s)) +:+ " bytes"))
  else Ok (stateMagic ++ [byte_of_Z stateVersion] ++ be_encode 2 (Cols s) ++
           be_encode 2 (Rows s) ++ be_encode 8 (u64 (time_Unix (SavedAt s))) ++
           be_encode 4 (u32 (blen (Snapshot s))) ++ Snapshot s).

(** [fmt.Sprintf("%x", b)]. *)
Definition hex_bytes (b : bytes) : string :=
  Join (map (fun x => hex_byte (Z_of_byte x)) b) "".

(** [fmt.Errorf("prefix: %w", err)] around a read. *)
Definition dec_wrap {A} (prefix : string) (g : dec A) : dec A := fun r =>
  match g r with
  | (r', Err e) => (r', Err (Wrapf prefix e))
  | (r', Ok a) => (r', Ok a)
  end.

(** [binary.Read] of a [uint64]. *)
Definition ReadU64 : dec Z := b <~ ReadFull 8; dec_ret (be_decode b).

(** What follows the magic. *)
Definition decodeState_body : dec sessionState :=
  version <~ dec_wrap "persist: read version" ReadU8;
  if negb (version =? stateVersion) then
    dec_fail (Errorf ("persist: unsupported version " +:+ pretty version))
  else
    cols <~ dec_wrap "persist: read cols" ReadU16;
    rows <~ dec_wrap "persist: read rows" ReadU16;
    savedAtUnix <~ dec_wrap "persist: read saved_at" ReadU64;
    snapshotLen <~ dec_wrap "persist: read snapshot" ReadU32;
    if snapshotLen =? 0 then dec_fail (Errorf "persist: snapshot is empty")
    else if maxStateSnapshotBytes <? snapshotLen then
      dec_fail (Errorf ("persist: snapshot too large: " +:+ pretty snapshotLen +:+ " bytes"))
    else
      snapshot <~ dec_wrap "persist: read snapshot" (ReadFull (Z.to_nat snapshotLen));
      dec_ret (mkState cols rows (unix_Time (i64 savedAtUnix)) snapshot).

Definition decodeState (data : bytes) : result sessionState :=
  if blen data <? 4 then Err (Errorf "persist: state file too short")
  else if negb (bool_decide (take 4 data = stateMagic)) then
    Err (Errorf ("persist: bad magic " +:+ hex_bytes (take 4 data)))
  else snd (decodeState_body (NewReader (drop 4 data))).

(** The values of the fields: uint16 sizes, a time whose seconds are an int64. *)
Definition state_ok (s : sessionState) : Prop :=
  is_u16 (Cols s) /\ is_u16 (Rows s) /\ is_i64 (time_Unix (SavedAt s)) /\
  0 < blen (Snapshot s) <= maxStateSnapshotBytes.

(** What a save keeps: the time in whole seconds. *)
Definition saved_form (s : sessionState) : sessionState :=
  mkState (Cols s) (Rows s) (unix_Time (time_Unix (SavedAt s))) (Snapshot s).

(** ** Lemmas on the format *)

Lemma parses_wrap {A} prefix (g : dec A) bs a : parses g bs a -> parses (dec_wrap prefix g) bs a.
Proof. intros H rest e. unfold dec_wrap. by rewrite H. Qed.

Lemma dec_wrap_inv {A} prefix (g : dec A) r r' a :
  dec_wrap prefix g r = (r', Ok a) -> g r = (r', Ok a).
Proof. unfold dec_wrap. destruct (g r) as [? [?|?]]; intros; by simplify_eq. Qed.

Lemma maxStateSnapshotBytes_u32 : maxStateSnapshotBytes < 2 ^ 32.
Proof. done. Qed.

(** The bytes after the magic. *)
Definition state_body (s : sessionState) : bytes :=
  [byte_of_Z stateVersion] ++ be_encode 2 (Cols s) ++ be_encode 2 (Rows s) ++
  be_encode 8 (u64 (time_Unix (SavedAt s))) ++ be_encode 4 (u32 (blen (Snapshot s))) ++
  Snapshot s.

Lemma encodeState_eq s :
  0 < blen (Snapshot s) <= maxStateSnapshotBytes ->
  encodeState s = Ok (stateMagic ++ state_body s).
Proof.
  intros [H1 H2]. unfold encodeState. destruct (Z.eqb_spec (blen (Snapshot s)) 0); [lia|].
  by destruct (Z.ltb_spec maxStateSnapshotBytes (blen (Snapshot s))); [lia|].
Qed.

Lemma encodeState_Ok_inv s data :
  encodeState s = Ok data ->
  0 < blen (Snapshot s) <= maxStateSnapshotBytes /\ data = stateMagic ++ state_body s.
Proof.
  intros H. assert (0 < blen (Snapshot s) <= maxStateSnapshotBytes) as Hl.
  { unfold encodeState in H. destruct (Z.eqb_spec (blen (Snapshot s)) 0); [done|].
    destruct (Z.ltb_spec maxStateSnapshotBytes (blen (Snapshot s))); [done|].
    split; [|done]. assert (0 <= blen (Snapshot s)) by (unfold blen; lia). lia. }
  rewrite encodeState_eq in H by done. by injection H as <-.
Qed.

Lemma parses_body s : state_ok s -> parses decodeState_body (state_body s) (saved_form s).
Proof.
  intros (Hc & Hr & Ht & H1 & H2). pose proof maxStateSnapshotBytes_u32.
  assert (u32 (blen (Snapshot s)) = blen (Snapshot s)) as Hlen
    by (unfold u32; apply Z.mod_small; lia).
  unfold decodeState_body, state_body.
  eapply parses_bind; [apply parses_wrap; by apply (parses_be 1 stateVersion)|].
  cbn [negb Z.eqb Pos.eqb stateVersion].
  eapply parses_bind; [apply parses_wrap, (parses_be 2); exact Hc|].
  eapply parses_bind; [apply parses_wrap, (parses_be 2); exact Hr|].
  eapply parses_bind; [apply parses_wrap, (parses_be 8); width_lia|].
  eapply parses_bind; [apply parses_wrap, (parses_be 4); rewrite Hlen; lia|].
  rewrite Hlen. destruct (Z.eqb_spec (blen (Snapshot s)) 0); [lia|].
  destruct (Z.ltb_spec maxStateSnapshotBytes (blen (Snapshot s))); [lia|].
  rewrite <- (app_nil_r (Snapshot s)) at 2.
  eapply parses_bind; [apply parses_wrap, parses_ReadFull; unfold blen; lia|].
  assert (i64 (u64 (time_Unix (SavedAt s))) = time_Unix (SavedAt s)) as -> by width_lia.
  apply parses_ret.
Qed.

Lemma decodeState_encoded s data extra :
  state_ok s -> encodeState s = Ok data -> decodeState (data ++ extra) = Ok (saved_form s).
Proof.
  intros Hok [_ ->]%encodeState_Ok_inv. rewrite <- app_assoc. unfold decodeState.
  destruct (Z.ltb_spec (blen (stateMagic ++ state_body s ++ extra)) 4) as [Hlt|_].
  { unfold blen in Hlt. rewrite length_app in Hlt. cbn in Hlt. lia. }
  change 4%nat with (length stateMagic). rewrite take_app_length, drop_app_length.
  rewrite bool_decide_true by done. cbn [negb]. unfold NewReader.
  by rewrite (parses_body s Hok extra EOF).
Qed.

Lemma read_be_inv n r r' v :
  (b <~ ReadFull n; dec_ret (be_decode b)) r = (r', Ok v) ->
  rd_data r = be_encode n v ++ rd_data r' /\ 0 <= v < 256 ^ Z.of_nat n.
Proof.
  intros H. dec_inv. apply ReadFull_inv in H0 as (Hl & Hd & _). split.
  - rewrite Hd. f_equal. rewrite <- Hl. symmetry. apply be_encode_decode.
  - by apply be_decode_range_n.
Qed.

Lemma decodeState_body_inv r r' s :
  decodeState_body r = (r', Ok s) ->
  state_ok s /\ saved_form s = s /\ rd_data r = state_body s ++ rd_data r'.
Proof.
  pose proof maxStateSnapshotBytes_u32 as Hmax. unfold decodeState_body. intros H.
  apply dec_bind_inv in H as (r1 & v & H1%dec_wrap_inv & H).
  destruct (Z.eqb_spec v stateVersion) as [->|]; cbn [negb] in H; [|done].
  apply dec_bind_inv in H as (r2 & co & H2%dec_wrap_inv & H).
  apply dec_bind_inv in H as (r3 & ro & H3%dec_wrap_inv & H).
  apply dec_bind_inv in H as (r4 & sec & H4%dec_wrap_inv & H).
  apply dec_bind_inv in H as (r5 & n & H5%dec_wrap_inv & H).
  apply read_be_inv in H1 as [H1 _], H2 as [H2 Hc], H3 as [H3 Hr], H4 as [H4 Hs], H5 as [H5 Hn].
  destruct (Z.eqb_spec n 0); [done|].
  destruct (Z.ltb_spec maxStateSnapshotBytes n) as [|Hle]; [done|].
  apply dec_bind_inv in H as (r6 & snap & H6%dec_wrap_inv & H).
  apply ReadFull_inv in H6 as (Hlen & H6 & _). unfold dec_ret in H. injection H as <- <-.
  assert (blen snap = n) as Hb by (unfold blen; lia).
  assert (time_Unix (unix_Time (i64 sec)) = i64 sec) as Ht
    by (unfold time_Unix, unix_Time; by rewrite Z.div_mul).
  split; [|split].
  - unfold state_ok. cbn [Cols Rows SavedAt Snapshot]. rewrite Ht, Hb. repeat split; width_lia.
  - unfold saved_form. cbn. by rewrite Ht.
  - unfold state_body. cbn [Cols Rows SavedAt Snapshot].
    rewrite Ht, Hb, H1, H2, H3, H4, H5, H6.
    replace (u64 (i64 sec)) with sec by (clear -Hs; width_lia).
    replace (u32 n) with n by (unfold u32; rewrite Z.mod_small; lia).
    by rewrite <- !app_assoc.
Qed.

(** ** Properties of the format *)

(** C28. A saved session is read back: [decodeState] on what [encodeState] wrote,
    whatever follows it in the file, gives the same sizes and snapshot and the
    time in whole seconds; and a state is written exactly when its snapshot has
    between one byte and 128 MiB. *)
Theorem decode_encode_state s :
  is_u16 (Cols s) -> is_u16 (Rows s) -> is_i64 (time_Unix (SavedAt s)) ->
  (is_ok (encodeState s) = true <-> 0 < blen (Snapshot s) <= maxStateSnapshotBytes) /\
  forall data extra, encodeState s = Ok data -> decodeState (data ++ extra) = Ok (saved_form s).
Proof.
  intros Hc Hr Ht. split.
  - split; [|intros; by rewrite encodeState_eq].
    destruct (encodeState s) eqn:E; [|done]. intros _. by apply encodeState_Ok_inv in E as [? _].
  - intros data extra He. pose proof He as [Hl _]%encodeState_Ok_inv.
    by apply decodeState_encoded.
Qed.

(** Whatever the bytes of a state file, [decodeState] only returns states in
    range that the file really starts with the encoding of. *)
Theorem decodeState_sound data s :
  decodeState data = Ok s ->
  state_ok s /\ exists enc extra, encodeState s = Ok enc /\ data = enc ++ extra.
Proof.
  unfold decodeState. destruct (Z.ltb_spec (blen data) 4) as [|Hl]; [done|].
  case_bool_decide as Hm; cbn [negb]; [|done].
  destruct (decodeState_body _) as [r [s'|e]] eqn:Hb; cbn; [|done]. intros [= ->].
  apply decodeState_body_inv in Hb as (Hok & _ & Hd). split; [done|].
  exists (stateMagic ++ state_body s), (rd_data r). split; [apply encodeState_eq, Hok|].
  rewrite <- app_assoc, <- Hd, <- Hm. cbn. by rewrite take_drop.
Qed.

(** ** The file system *)

Inductive node : Type := File (data : bytes) | Dir.

(** Nodes by absolute, cleaned path. *)
Abbreviation fsys := (gmap string node).

(** What can go wrong in one save: a failing [MkdirAll], an [OpenFile] or a
    [Write] that fails after some bytes, a failing [Rename], a failing
    [Remove]. *)
Record faults := mkFaults {
  f_mkdir : option error;
  f_open : option error;
  f_write : option (nat * error);
  f_rename : option error;
  f_remove : option error }.

Definition no_faults : faults := mkFaults None None None None None.

(** [stateDir()], given the environment variable and the home directory (or the
    temporary directory when there is none). *)
Definition stateDir (XDG_STATE_HOME home : string) : string :=
  if negb (String.eqb XDG_STATE_HOME "")
  then filepath_Join [XDG_STATE_HOME; "hauntty"; "sessions"]
  else filepath_Join [home; ".local"; "state"; "hauntty"; "sessions"].

Definition state_path (dir name : string) : string := filepath_Join [dir; name +:+ ".state"].

(** [os.MkdirAll(dir)]; the parents of [dir] are not represented. *)
Definition os_MkdirAll (f : faults) (dir : string) (fs : fsys) : fsys * result unit :=
  match f_mkdir f, fs !! dir with
  | Some e, _ => (fs, Err e)
  | None, Some (File _) => (fs, Err (Errorf "not a directory"))
  | None, _ => (<[dir := Dir]> fs, Ok tt)
  end.

(** [os.WriteFile]: the file systems it goes through, one per byte written. *)
Definition os_WriteFile (f : faults) (p : string) (data : bytes) (fs : fsys) :
    list fsys * fsys * result unit :=
  match f_open f, fs !! p with
  | Some e, _ => ([], fs, Err e)
  | None, Some Dir => ([], fs, Err (Errorf "is a directory"))
  | None, _ =>
      let upto n := map (fun k => <[p := File (take k data)]> fs) (seq 0 (S n)) in
      match f_write f with
      | Some (n, e) => (upto n, <[p := File (take n data)]> fs, Err e)
      | None => (upto (length data), <[p := File data]> fs, Ok tt)
      end
  end.

Definition os_Rename (f : faults) (old new : string) (fs : fsys) : fsys * result unit :=
  match f_rename f, fs !! old, fs !! new with
  | Some e, _, _ => (fs, Err e)
  | None, None, _ => (fs, Err ErrNotExist)
  | None, Some _, Some Dir => (fs, Err (Errorf "file exists"))
  | None, Some n, _ => (<[new := n]> (delete old fs), Ok tt)
  end.

Definition os_Remove (f : faults) (p : string) (fs : fsys) : fsys * result unit :=
  match f_remove f, fs !! p with
  | Some e, _ => (fs, Err e)
  | None, None => (fs, Err ErrNotExist)
  | None, Some _ => (delete p fs, Ok tt)
  end.

Definition os_ReadFile (p : string) (fs : fsys) : result bytes :=
  match fs !! p with
  | Some (File d) => Ok d
  | Some Dir => Err (Errorf "is a directory")
  | None => Err ErrNotExist
  end.

(** The name of [p] in directory [dir], if it is directly there. *)
Definition child_name (dir p : string) : option string :=
  if HasPrefix p (dir +:+ "/") then
    let rest := str_drop (String.length (dir +:+ "/")) p in
    if no_char "/" rest && negb (String.eqb rest "") then Some rest else None
  else None.

(** The order of file names and of session names. *)
Definition name_le (a b : string) : Prop := String.leb a b = true.
#[global] Instance name_le_dec : RelDecision name_le.
Proof. intros a b. unfold name_le. apply _. Defined.
Definition entry_le (e1 e2 : string * bool) : Prop := name_le e1.1 e2.1.
#[global] Instance entry_le_dec : RelDecision entry_le.
Proof. intros e1 e2. unfold entry_le. apply _. Defined.

(** [os.ReadDir]: names and whether they are directories, sorted by name. *)
Definition os_ReadDir (dir : string) (fs : fsys) : result (list (string * bool)) :=
  match fs !! dir with
  | None => Err ErrNotExist
  | Some (File _) => Err (Errorf "not a directory")
  | Some Dir =>
      Ok (merge_sort entry_le
            (omap (fun '(p, n) =>
               (fun name => (name, match n with Dir => true | File _ => false end))
                 <$> child_name dir p) (map_to_list fs)))
  end.

(** ** Saving and loading *)

(** [writeStateInDir]: the file systems it goes through, the last one, and the
    result. *)
Definition writeStateInDir (f : faults) (dir name : string) (state : sessionState) (fs : fsys) :
    list fsys * fsys * result unit :=
  match encodeState state with
  | Err e => ([], fs, Err (Wrapf "persist: encode state" e))
  | Ok data =>
      match os_MkdirAll f dir fs with
      | (fs, Err e) => ([], fs, Err (Wrapf "persist: create dir" e))
      | (fs, Ok _) =>
          let path := state_path dir name in
          let tmp := path +:+ ".tmp" in
          match os_WriteFile f tmp data fs with
          | (seen, fs', Err e) => (fs :: seen, fs', Err (Wrapf "persist: write tmp" e))
          | (seen, fs', Ok _) =>
              match os_Rename f tmp path fs' with
              | (fs'', Err e) =>
                  (fs :: seen ++ [fs''], fst (os_Remove f tmp fs''), Err (Wrapf "persist: rename" e))
              | (fs'', Ok _) => (fs :: seen, fs'', Ok tt)
              end
          end
      end
  end.

Definition loadState (dir name : string) (fs : fsys) : result sessionState :=
  match os_ReadFile (state_path dir name) fs with
  | Err e => Err e
  | Ok data => decodeState data
  end.

(** [os.IsNotExist]. *)
Definition IsNotExist (e : error) : bool := bool_decide (e = ErrNotExist).

Definition listDeadSessions (dir : string) (running : string -> bool) (fs : fsys) :
    result (list string) :=
  match os_ReadDir dir fs with
  | Err e => if IsNotExist e then Ok [] else Err e
  | Ok entries =>
      Ok (omap (fun '(n, isDir) =>
            if (isDir : bool) || negb (HasSuffix n ".state") then None
            else let name := TrimSuffix n ".state" in
                 if running name then None else Some name) entries)
  end.

Definition cleanState (f : faults) (dir name : string) (fs : fsys) : fsys * result unit :=
  match os_Remove f (state_path dir name) fs with
  | (fs', Err e) => (fs', if IsNotExist e then Ok tt else Err e)
  | (fs', Ok _) => (fs', Ok tt)
  end.

(** The errors of the removals are ignored. *)
Definition cleanStaleTmp (f : faults) (dir : string) (fs : fsys) : fsys :=
  match os_ReadDir dir fs with
  | Err _ => fs
  | Ok entries =>
      foldl (fun fs '(n, isDir) =>
          if negb isDir && HasSuffix n ".state.tmp"
          then fst (os_Remove f (filepath_Join [dir; n]) fs) else fs) fs entries
  end.

(** [saveAllWith]: every session is saved, in the order of the names, and the
    errors are joined. *)
Definition saveAllWith {S St} (save : string -> S -> St -> St * option error)
    (sessions : gmap string S) (st : St) : St * list error :=
  foldl (fun acc e =>
      let '(st, errs) := acc in
      let '(name, s) := e in
      match save name s st with
      | (st', Some e) => (st', errs ++ [Wrapf name e])
      | (st', None) => (st', errs)
      end) (st, [])
    (omap (fun name => (fun s => (name, s)) <$> sessions !! name)
       (merge_sort name_le (elements (dom sessions)))).

(** ** Lemmas on paths *)

(** A directory as [stateDir] gives it: absolute and clean. *)
Definition dir_ok (dir : string) : Prop :=
  filepath_Clean dir = dir /\ HasPrefix dir "/" = true /\ dir <> "/".

Definition name_ok (name : string) : Prop := no_char "/" name = true.

Lemma dir_ne_child dir n : dir <> dir +:+ "/" +:+ n.
Proof.
  intros H. apply (f_equal String.length) in H. rewrite !length_str_app in H. cbn in H. lia.
Qed.

Lemma tmp_ne_path p : p <> p +:+ ".tmp".
Proof.
  intros H. apply (f_equal String.length) in H. rewrite length_str_app in H. cbn in H. lia.
Qed.

Lemma Join_snoc l x sep : l <> [] -> Join (l ++ [x]) sep = Join l sep +:+ sep +:+ x.
Proof.
  induction l as [|y [|z l] IH]; intros Hne; [done|done|].
  assert (Join ((y :: z :: l) ++ [x]) sep = y +:+ sep +:+ Join ((z :: l) ++ [x]) sep) as -> by done.
  assert (Join (y :: z :: l) sep = y +:+ sep +:+ Join (z :: l) sep) as -> by done.
  rewrite IH by done. by rewrite !str_app_assoc.
Qed.

(** Joining a file name to a clean directory only adds a slash. *)
Lemma Join_child dir x :
  dir_ok dir -> no_char "/" x = true -> (2 < String.length x)%nat ->
  filepath_Join [dir; x] = dir +:+ "/" +:+ x.
Proof.
  intros (Hclean & Hroot & Hne) Hx Hlen.
  assert (dir <> "") as Hd by (by intros ->).
  assert (forall y, (String.length y <= 2)%nat -> String.eqb x y = false) as Hneq.
  { intros y Hy. apply String.eqb_neq. intros ->. lia. }
  unfold filepath_Join. rewrite !filter_cons, filter_nil.
  rewrite (proj2 (String.eqb_neq dir "")), (Hneq "") by (done || cbn; lia).
  cbn [negb]. rewrite !decide_True by done.
  change (Join [dir; x] "/") with (dir +:+ String "/" x).
  unfold filepath_Clean in Hclean |- *. rewrite Hroot in Hclean.
  rewrite (proj2 (HasPrefix_spec (dir +:+ String "/" x) "/")).
  2: { apply HasPrefix_spec in Hroot as [r ->]. exists (r +:+ String "/" x).
       by rewrite str_app_assoc. }
  rewrite Split_app by done. rewrite foldl_app. cbn [foldl].
  set (st := foldl (clean_step true) [] (Split dir "/")) in *.
  unfold clean_step at 1. rewrite (Hneq ""), (Hneq "."), (Hneq "..") by (cbn; lia).
  cbn [orb]. rewrite reverse_cons, Join_snoc.
  - rewrite str_app_assoc, Hclean. done.
  - intros Hnil. rewrite Hnil in Hclean. by rewrite <- Hclean in Hne.
Qed.

Lemma no_char_state name : name_ok name -> no_char "/" (name +:+ ".state") = true.
Proof. unfold name_ok. intros H. by rewrite no_char_app, H. Qed.

Lemma state_path_eq dir name :
  dir_ok dir -> name_ok name -> state_path dir name = dir +:+ "/" +:+ name +:+ ".state".
Proof.
  intros Hd Hn. apply Join_child; [done | by apply no_char_state|].
  rewrite length_str_app. cbn. lia.
Qed.

Lemma child_name_child dir x :
  no_char "/" x = true -> x <> "" -> child_name dir (dir +:+ "/" +:+ x) = Some x.
Proof.
  intros Hx Hne. unfold child_name. rewrite str_app_assoc, HasPrefix_app, str_drop_app, Hx.
  by rewrite (proj2 (String.eqb_neq x "")).
Qed.

Lemma child_name_Some dir p x :
  child_name dir p = Some x -> p = dir +:+ "/" +:+ x /\ no_char "/" x = true.
Proof.
  unfold child_name. destruct (HasPrefix p (dir +:+ "/")) eqn:Hp; [|done].
  apply HasPrefix_spec in Hp as [r ->]. rewrite str_drop_app.
  destruct (no_char "/" r) eqn:Hr; [|done]. cbn [andb]. case_match; [|done].
  intros [= ->]. by rewrite str_app_assoc.
Qed.

(** Membership in a directory listing. *)
Lemma elem_of_ReadDir dir fs entries x isDir :
  os_ReadDir dir fs = Ok entries -> x <> "" ->
  (x, isDir) ∈ entries <->
  no_char "/" x = true /\
  exists n, fs !! (dir +:+ "/" +:+ x) = Some n /\ isDir = match n with Dir => true | _ => false end.
Proof.
  intros H Hne. unfold os_ReadDir in H. destruct (fs !! dir) as [[?|]|]; [done| |done].
  injection H as <-. rewrite merge_sort_Permutation, list_elem_of_omap. split.
  - intros ([p n] & Hin & (y & Hy & [= -> ->])%fmap_Some). apply elem_of_map_to_list in Hin.
    apply child_name_Some in Hy as [-> Hy]. eauto.
  - intros (Hx & n & Hn & ->). exists (dir +:+ "/" +:+ x, n).
    rewrite elem_of_map_to_list, child_name_child by done. by split.
Qed.

(** ** Lemmas on one save *)

(** The files one save of [name] can touch. *)
Definition touched (dir name p : string) : Prop :=
  p = dir \/ p = state_path dir name \/ p = state_path dir name +:+ ".tmp".

(** [fs'] keeps [fs] except in what a save of [name] touches, where the state
    file is still the old one. *)
Definition before_rename (dir name : string) (fs fs' : fsys) : Prop :=
  fs' !! state_path dir name = fs !! state_path dir name /\
  forall p, ~ touched dir name p -> fs' !! p = fs !! p.

Lemma MkdirAll_spec f dir fs fs' r :
  os_MkdirAll f dir fs = (fs', r) ->
  (forall p, p <> dir -> fs' !! p = fs !! p) /\ (r = Ok tt -> fs' !! dir = Some Dir).
Proof.
  unfold os_MkdirAll. destruct (f_mkdir f); [by intros [= <- <-]|].
  destruct (fs !! dir) as [[?|]|]; intros [= <- <-]; [done|..];
    (split; [intros; by rewrite lookup_insert_ne | intros _; apply lookup_insert_eq]).
Qed.

Lemma Rename_spec f old new data fs fs' r :
  fs !! old = Some (File data) -> os_Rename f old new fs = (fs', r) ->
  match r with
  | Ok _ => fs' = <[new := File data]> (delete old fs)
  | Err _ => fs' = fs
  end.
Proof.
  intros Ho. unfold os_Rename. rewrite Ho. destruct (f_rename f); [by intros [= <- <-]|].
  by destruct (fs !! new) as [[?|]|]; intros [= <- <-].
Qed.

Lemma Remove_other f p q fs : p <> q -> fst (os_Remove f q fs) !! p = fs !! p.
Proof.
  intros. unfold os_Remove. destruct (f_remove f); [done|]. destruct (fs !! q); [|done].
  by apply lookup_delete_ne.
Qed.

Lemma WriteFile_spec f p data fs seen fs' r :
  os_WriteFile f p data fs = (seen, fs', r) ->
  (forall fs1, fs1 ∈ fs' :: seen -> forall q, q <> p -> fs1 !! q = fs !! q) /\
  (r = Ok tt -> fs' !! p = Some (File data)).
Proof.
  unfold os_WriteFile.
  assert (forall n fs1, fs1 ∈ map (fun k => <[p := File (take k data)]> fs) (seq 0 (S n)) ->
    forall q, q <> p -> fs1 !! q = fs !! q) as Hup.
  { intros n fs1 (k & -> & _)%list_elem_of_fmap q Hq. by rewrite lookup_insert_ne. }
  assert (forall n d (fs1 : fsys), fs1 ∈ <[p := File d]> fs ::
      map (fun k => <[p := File (take k data)]> fs) (seq 0 (S n)) ->
    forall q, q <> p -> fs1 !! q = fs !! q) as Hup'.
  { intros n d fs1 [->|Hin]%elem_of_cons q Hq; [by rewrite lookup_insert_ne | by eapply Hup]. }
  assert (forall fs1 : fsys, fs1 ∈ [fs] -> forall q, q <> p -> fs1 !! q = fs !! q) as Hsame
    by (by intros fs1 ->%list_elem_of_singleton).
  destruct (f_open f); [by intros [= <- <- <-]|].
  destruct (fs !! p) as [[?|]|]; [|by intros [= <- <- <-]|];
    (destruct (f_write f) as [[n e]|]; intros [= <- <- <-]; split;
      [by apply Hup'|done|by apply Hup'|intros _; apply lookup_insert_eq]).
Qed.

(** Every file system a save goes through has the old state file; the last has
    the new one if the save succeeded. *)
Lemma writeStateInDir_spec f dir name state fs seen fs' r :
  dir <> state_path dir name -> dir <> state_path dir name +:+ ".tmp" ->
  writeStateInDir f dir name state fs = (seen, fs', r) ->
  (forall fs1, fs1 ∈ seen -> before_rename dir name fs fs1) /\
  (forall p, ~ touched dir name p -> fs' !! p = fs !! p) /\
  match r with
  | Err _ => fs' !! state_path dir name = fs !! state_path dir name
  | Ok _ => exists data, encodeState state = Ok data /\
      fs' !! state_path dir name = Some (File data) /\
      fs' !! (state_path dir name +:+ ".tmp") = None /\ fs' !! dir = Some Dir
  end.
Proof.
  unfold writeStateInDir. set (path := state_path dir name). intros Hd1 Hd2 H.
  pose proof (tmp_ne_path path) as Htp.
  destruct (encodeState state) as [data|e] eqn:He.
  2: { simplify_eq. split; [intros ? Hin; by apply not_elem_of_nil in Hin|]. done. }
  destruct (os_MkdirAll f dir fs) as [fs1 rm] eqn:Hm.
  apply MkdirAll_spec in Hm as [Hm Hmd].
  assert (before_rename dir name fs fs1) as Hb1.
  { split; [apply Hm; done|]. intros p Hp. apply Hm. intros ->. apply Hp. by left. }
  destruct rm as [[]|e]; [specialize (Hmd eq_refl)|].
  2: { simplify_eq. split; [intros ? Hin; by apply not_elem_of_nil in Hin|].
       by destruct Hb1. }
  destruct (os_WriteFile f (path +:+ ".tmp") data fs1) as [[seen1 fs2] rw] eqn:Hw.
  apply WriteFile_spec in Hw as [Hw Hok].
  assert (forall fs3, fs3 ∈ fs2 :: seen1 -> before_rename dir name fs fs3 /\ fs3 !! dir = Some Dir)
    as Hb.
  { intros fs3 H3. specialize (Hw fs3 H3). split; [split|].
    - rewrite Hw by done. apply (proj1 Hb1).
    - intros p Hp. rewrite Hw by (intros ->; apply Hp; right; by right). by apply (proj2 Hb1).
    - by rewrite Hw. }
  assert (before_rename dir name fs fs2 /\ fs2 !! dir = Some Dir) as [Hb2 Hdir2]
    by (apply Hb; constructor).
  assert (forall fs3, fs3 ∈ fs1 :: seen1 -> before_rename dir name fs fs3) as Hseen.
  { intros fs3 [->|H3]%elem_of_cons; [done|]. apply Hb. by constructor. }
  destruct rw as [[]|e]; [specialize (Hok eq_refl)|simplify_eq; split; [done|]; by destruct Hb2].
  destruct (os_Rename f (path +:+ ".tmp") path fs2) as [fs3 [[]|e]] eqn:Hr;
    apply (Rename_spec _ _ _ data) in Hr as ->; try done; simplify_eq.
  - split; [done|]. split; [|exists data; split; [done|]].
    + intros p Hp. rewrite lookup_insert_ne by (intros <-; apply Hp; right; by left).
      rewrite lookup_delete_ne by (intros <-; apply Hp; right; by right). by apply (proj2 Hb2).
    + rewrite lookup_insert_eq, !lookup_insert_ne, lookup_delete_eq, lookup_delete_ne by done.
      by split.
  - split; [|split].
    + intros fs3 H3. rewrite app_comm_cons, elem_of_app, list_elem_of_singleton in H3.
      destruct H3 as [H3| ->]; auto.
    + intros p Hp. rewrite Remove_other by (intros ->; apply Hp; right; by right). by apply (proj2 Hb2).
    + rewrite Remove_other by done. apply (proj1 Hb2).
Qed.

Lemma dir_ne_state dir name :
  dir_ok dir -> name_ok name ->
  dir <> state_path dir name /\ dir <> state_path dir name +:+ ".tmp".
Proof.
  intros Hd Hn. rewrite state_path_eq by done. rewrite <- !str_app_assoc.
  split; apply dir_ne_child.
Qed.

Lemma loadState_ext dir name fs fs' :
  fs !! state_path dir name = fs' !! state_path dir name ->
  loadState dir name fs = loadState dir name fs'.
Proof. intros H. unfold loadState, os_ReadFile. by rewrite H. Qed.

Lemma elem_of_listDead dir running fs dead name :
  listDeadSessions dir running fs = Ok dead -> fs !! dir = Some Dir ->
  name ∈ dead <->
  name_ok name /\ running name = false /\
  exists data, fs !! (dir +:+ "/" +:+ name +:+ ".state") = Some (File data).
Proof.
  unfold listDeadSessions. intros H Hdir.
  destruct (os_ReadDir dir fs) as [entries|e] eqn:Hr.
  2: { unfold os_ReadDir in Hr. by rewrite Hdir in Hr. }
  injection H as <-. rewrite list_elem_of_omap. split.
  - intros ([n isDir] & Hin & Hx). destruct isDir; [done|].
    destruct (HasSuffix n ".state") eqn:Hs; [|done]. cbn [negb orb] in Hx.
    destruct (running (TrimSuffix n ".state")) eqn:Hrun; [done|]. injection Hx as Hx.
    apply HasSuffix_spec in Hs. rewrite Hx in Hs, Hrun. subst n.
    assert (name +:+ ".state" <> "") as Hne.
    { intros E. apply (f_equal String.length) in E. rewrite length_str_app in E. cbn in E. lia. }
    apply (elem_of_ReadDir _ _ _ _ _ Hr Hne) in Hin as (Hx' & [data|] & Hn & Hd); [|done].
    unfold name_ok. rewrite no_char_app in Hx'. apply andb_true_iff in Hx' as [? _]. eauto.
  - intros (Hn & Hrun & data & Hf).
    assert (name +:+ ".state" <> "") as Hne.
    { intros E. apply (f_equal String.length) in E. rewrite length_str_app in E. cbn in E. lia. }
    exists (name +:+ ".state", false). rewrite HasSuffix_app, TrimSuffix_app. cbn [negb orb].
    rewrite Hrun. split; [|done]. apply (elem_of_ReadDir _ _ _ _ _ Hr Hne).
    split; [by apply no_char_state|]. by exists (File data).
Qed.

Lemma save_crash_safe_load f dir name state fs seen fs' :
  dir_ok dir -> name_ok name -> state_ok state ->
  writeStateInDir f dir name state fs = (seen, fs', Ok tt) ->
  loadState dir name fs' = Ok (saved_form state).
Proof.
  intros Hd Hn Hok H. destruct (dir_ne_state dir name Hd Hn) as [Hd1 Hd2].
  destruct (writeStateInDir_spec _ _ _ _ _ _ _ _ Hd1 Hd2 H)
    as (_ & _ & data & He & Hp & _).
  unfold loadState, os_ReadFile. rewrite Hp.
  rewrite <- (app_nil_r data). by apply decodeState_encoded.
Qed.

(** ** Properties of the state directory *)

(** C25. Saving is atomic: whatever fails, and wherever the daemon is killed in the
    middle of a save, the session can afterwards be loaded as it was before the
    save or as it was saved; it is the saved one when the save succeeded, and the
    old one when it returned an error. No other file than the temporary one
    changes. *)
Theorem save_crash_safe f dir name state fs seen fs' r :
  dir_ok dir -> name_ok name -> state_ok state ->
  writeStateInDir f dir name state fs = (seen, fs', r) ->
  (forall fs1, fs1 ∈ fs' :: seen ->
     (loadState dir name fs1 = loadState dir name fs \/
      loadState dir name fs1 = Ok (saved_form state)) /\
     forall p, ~ touched dir name p -> fs1 !! p = fs !! p) /\
  (r = Ok tt -> loadState dir name fs' = Ok (saved_form state)) /\
  (is_ok r = false -> loadState dir name fs' = loadState dir name fs).
Proof.
  intros Hd Hn Hok H. destruct (dir_ne_state dir name Hd Hn) as [Hd1 Hd2].
  destruct (writeStateInDir_spec _ _ _ _ _ _ _ _ Hd1 Hd2 H) as (Hseen & Hrest & Hr).
  assert (match r with Ok _ => loadState dir name fs' = Ok (saved_form state)
          | Err _ => loadState dir name fs' = loadState dir name fs end) as Hload.
  { destruct r as [[]|e]; [by eapply save_crash_safe_load | by apply loadState_ext]. }
  split; [|by destruct r as [[]|]].
  intros fs1 [->|Hin]%elem_of_cons.
  - split; [|done]. destruct r; auto.
  - destruct (Hseen _ Hin) as [Hp Ho]. split; [left; by apply loadState_ext | done].
Qed.

(** The dead sessions are the state files: a name is listed exactly when it
    has no slash, is not running and its [.state] file exists; so a session
    that was saved and does not run is listed and can be restored. *)
Theorem dead_sessions_are_saved f dir name state fs seen fs' running dead :
  dir_ok dir -> name_ok name -> state_ok state ->
  writeStateInDir f dir name state fs = (seen, fs', Ok tt) ->
  listDeadSessions dir running fs' = Ok dead ->
  (forall n, n ∈ dead <-> name_ok n /\ running n = false /\
     exists data, fs' !! state_path dir n = Some (File data)) /\
  (running name = false -> name ∈ dead /\ loadState dir name fs' = Ok (saved_form state)).
Proof.
  intros Hd Hn Hok H Hl. destruct (dir_ne_state dir name Hd Hn) as [Hd1 Hd2].
  destruct (writeStateInDir_spec _ _ _ _ _ _ _ _ Hd1 Hd2 H)
    as (_ & _ & data & He & Hp & _ & Hdir).
  assert (forall n, n ∈ dead <-> name_ok n /\ running n = false /\
     exists data, fs' !! state_path dir n = Some (File data)) as Hiff.
  { intros n. rewrite (elem_of_listDead _ _ _ _ _ Hl Hdir). split; intros (H1 & H2 & H3);
      rewrite state_path_eq in * by done; eauto. }
  split; [exact Hiff|]. intros Hrun. split; [apply Hiff; eauto|].
  by eapply save_crash_safe_load.
Qed.

(** *** The leftovers of interrupted saves *)

Definition stale (e : string * bool) : bool := negb e.2 && HasSuffix e.1 ".state.tmp".

Definition remove_stale (f : faults) (dir : string) (entries : list (string * bool)) (fs : fsys) : fsys :=
  foldl (fun fs '(n, isDir) =>
      if negb isDir && HasSuffix n ".state.tmp"
      then fst (os_Remove f (filepath_Join [dir; n]) fs) else fs) fs entries.

Lemma HasSuffix_length s suf :
  HasSuffix s suf = true -> (String.length suf <= String.length s)%nat.
Proof. intros [H _]%andb_true_iff. by apply Nat.leb_le. Qed.

Lemma remove_stale_other f dir entries fs p :
  (forall n, (n, false) ∈ entries -> HasSuffix n ".state.tmp" = true -> filepath_Join [dir; n] <> p) ->
  remove_stale f dir entries fs !! p = fs !! p.
Proof.
  unfold remove_stale. revert fs. induction entries as [|[n isDir] es IH]; intros fs H; [done|].
  cbn [foldl]. rewrite IH by (intros m Hm; apply H; by constructor).
  destruct isDir; [done|]. cbn [negb andb]. destruct (HasSuffix n ".state.tmp") eqn:Hs; [|done].
  apply Remove_other. intros ->. by apply (H n); [constructor| |].
Qed.

Lemma remove_stale_gone f dir entries fs n :
  f_remove f = None -> (n, false) ∈ entries -> HasSuffix n ".state.tmp" = true ->
  remove_stale f dir entries fs !! filepath_Join [dir; n] = None.
Proof.
  intros Hf. unfold remove_stale. revert fs.
  assert (forall es fs, fs !! filepath_Join [dir; n] = None ->
    remove_stale f dir es fs !! filepath_Join [dir; n] = None) as Hkeep.
  { unfold remove_stale. induction es as [|[m d] es IH]; intros fs Hn; [done|]. cbn [foldl].
    apply IH. destruct (_ && _); [|done]. unfold os_Remove. rewrite Hf.
    destruct (fs !! filepath_Join [dir; m]); [|done]. cbn. by rewrite lookup_delete_None; right. }
  induction entries as [|[m d] es IH]; intros fs Hin Hs; [by apply not_elem_of_nil in Hin|].
  apply elem_of_cons in Hin as [[= <- <-]|Hin]; [|by apply IH].
  cbn [foldl negb andb]. rewrite Hs. apply Hkeep. unfold os_Remove. rewrite Hf.
  destruct (fs !! filepath_Join [dir; n]) eqn:E; cbn; [apply lookup_delete_eq | done].
Qed.

Lemma state_not_stale name : HasSuffix (name +:+ ".state") ".state.tmp" = false.
Proof.
  destruct (HasSuffix _ _) eqn:H; [|done]. apply HasSuffix_spec in H.
  assert (HasSuffix (name +:+ ".state") "p" = true) as H'.
  { rewrite H. change ".state.tmp" with (".state.tm" +:+ "p").
    rewrite str_app_assoc. apply HasSuffix_app. }
  change ".state" with (".stat" +:+ "e") in H'. rewrite str_app_assoc in H'.
  unfold HasSuffix in H'. rewrite length_str_app in H'.
  replace (String.length (name +:+ ".stat") + String.length "e" - String.length "p")%nat
    with (String.length (name +:+ ".stat")) in H' by (cbn; lia).
  rewrite str_drop_app in H'. by rewrite andb_false_r in H'.
Qed.

(** The start-up cleaning removes every leftover [.state.tmp] file and no saved
    session: each session loads as before. *)
Theorem cleanStaleTmp_keeps_sessions f dir fs :
  dir_ok dir -> f_remove f = None ->
  (forall name, name_ok name -> loadState dir name (cleanStaleTmp f dir fs) = loadState dir name fs) /\
  (fs !! dir = Some Dir -> forall n data, no_char "/" n = true ->
     HasSuffix n ".state.tmp" = true ->
     cleanStaleTmp f dir fs !! (dir +:+ "/" +:+ n) <> Some (File data)).
Proof.
  intros Hd Hf.
  assert (forall n, no_char "/" n = true -> HasSuffix n ".state.tmp" = true ->
    filepath_Join [dir; n] = dir +:+ "/" +:+ n) as Hjoin.
  { intros n Hn Hs. apply Join_child; [done..|]. apply HasSuffix_length in Hs. cbn in Hs. lia. }
  unfold cleanStaleTmp. destruct (os_ReadDir dir fs) as [entries|e] eqn:Hr.
  2: { split; [done|]. intros Hdir. unfold os_ReadDir in Hr. by rewrite Hdir in Hr. }
  change (foldl _ fs entries) with (remove_stale f dir entries fs).
  assert (forall n d, (n, d) ∈ entries -> HasSuffix n ".state.tmp" = true -> no_char "/" n = true) as Hslash.
  { intros n d Hin Hs. assert (n <> "") as Hne by (intros ->; done).
    by apply (elem_of_ReadDir _ _ _ _ _ Hr Hne) in Hin as [? _]. }
  split.
  - intros name Hn. apply loadState_ext. apply remove_stale_other. intros n Hin Hs.
    rewrite Hjoin by eauto. rewrite state_path_eq by done.
    intros E%str_app_inj_l%str_app_inj_l. subst n. by rewrite state_not_stale in Hs.
  - intros Hdir n data Hn Hs.
    assert (n <> "") as Hne by (intros ->; done).
    destruct (decide ((n, false) ∈ entries)) as [Hin|Hnin].
    + rewrite <- Hjoin by done. by rewrite remove_stale_gone.
    + rewrite remove_stale_other.
      * intros Hfile. apply Hnin. apply (elem_of_ReadDir _ _ _ _ _ Hr Hne).
        split; [done|]. by eexists.
      * intros m Hm Hms E. rewrite Hjoin in E by eauto.
        apply str_app_inj_l, str_app_inj_l in E. by subst m.
Qed.

(** *** Saving every session *)

(** A live session, as [saveSession] sees it: what [snapshot] returns, and the
    size and time it is saved with. *)
Record liveState := mkLive { lv_snapshot : result bytes; lv_cols : Z; lv_rows : Z; lv_now : Z }.

Definition saveSession (f : faults) (dir name : string) (s : liveState) (fs : fsys) :
    fsys * option error :=
  match lv_snapshot s with
  | Err e => (fs, Some (Wrapf "persist: snapshot terminal" e))
  | Ok snapshot =>
      match writeStateInDir f dir name (mkState (lv_cols s) (lv_rows s) (lv_now s) snapshot) fs with
      | (_, fs', Ok _) => (fs', None)
      | (_, fs', Err e) => (fs', Some e)
      end
  end.

Definition saveAll (f : faults) (dir : string) (sessions : gmap string liveState) (fs : fsys) :
    fsys * list error :=
  saveAllWith (fun name s fs => saveSession f dir name s fs) sessions fs.

(** No directory but [dir], which no file takes the place of. *)
Definition only_dir (dir : string) (fs : fsys) : Prop :=
  (forall data, fs !! dir <> Some (File data)) /\ forall p, fs !! p = Some Dir -> p = dir.

Lemma state_path_inj dir n m :
  dir_ok dir -> name_ok n -> name_ok m -> state_path dir n = state_path dir m -> n = m.
Proof.
  intros Hd Hn Hm. rewrite !state_path_eq by done.
  intros H%str_app_inj_l%str_app_inj_l. by apply str_app_inj_r in H.
Qed.

Lemma state_path_not_tmp dir n m :
  dir_ok dir -> name_ok n -> name_ok m -> state_path dir n <> state_path dir m +:+ ".tmp".
Proof.
  intros Hd Hn Hm. rewrite !state_path_eq, <- !str_app_assoc by done.
  intros H%str_app_inj_l%str_app_inj_l. pose proof (state_not_stale n) as Hs.
  rewrite H in Hs. change (".state" +:+ ".tmp") with ".state.tmp" in Hs.
  by rewrite HasSuffix_app in Hs.
Qed.

(** Saving one session leaves the others' files. *)
Lemma saveSession_other f dir n m s fs :
  dir_ok dir -> name_ok n -> name_ok m -> n <> m ->
  fst (saveSession f dir n s fs) !! state_path dir m = fs !! state_path dir m.
Proof.
  intros Hd Hn Hm Hne. unfold saveSession. destruct (lv_snapshot s) as [snap|e]; [|done].
  destruct (writeStateInDir _ _ _ _ _) as [[seen fs'] r] eqn:H.
  destruct (dir_ne_state dir n Hd Hn) as [Hd1 Hd2], (dir_ne_state dir m Hd Hm) as [Hd3 _].
  destruct (writeStateInDir_spec _ _ _ _ _ _ _ _ Hd1 Hd2 H) as (_ & Hrest & _).
  assert (fs' !! state_path dir m = fs !! state_path dir m) as Heq.
  { apply Hrest. intros [E|[E|E]]; [by apply Hd3| |].
    - by apply state_path_inj in E.
    - by apply state_path_not_tmp in E. }
  by destruct r.
Qed.

Lemma writeState_no_faults dir name state fs data :
  dir_ok dir -> name_ok name -> only_dir dir fs -> encodeState state = Ok data ->
  exists seen fs', writeStateInDir no_faults dir name state fs = (seen, fs', Ok tt) /\ only_dir dir fs'.
Proof.
  intros Hd Hn [Hfile Honly] He. destruct (dir_ne_state dir name Hd Hn) as [Hd1 Hd2].
  pose proof (tmp_ne_path (state_path dir name)) as Htp. unfold writeStateInDir. rewrite He.
  assert (os_MkdirAll no_faults dir fs = (<[dir := Dir]> fs, Ok tt)) as ->.
  { unfold os_MkdirAll. cbn [f_mkdir no_faults].
    destruct (fs !! dir) as [[d|]|] eqn:E; [by destruct (Hfile d)|done..]. }
  set (path := state_path dir name) in *.
  unfold os_WriteFile. cbn [f_open f_write no_faults]. rewrite lookup_insert_ne by done.
  assert (forall p, p <> dir -> fs !! p <> Some Dir) as Hnd by (intros p Hp E; by apply Honly in E).
  destruct (fs !! (path +:+ ".tmp")) as [[d|]|] eqn:Et; [|by destruct (Hnd (path +:+ ".tmp")); [done|]|].
  all: unfold os_Rename; cbn [f_rename no_faults]; rewrite lookup_insert_eq, !lookup_insert_ne by done.
  all: assert (only_dir dir (<[path := File data]> (delete (path +:+ ".tmp")
         (<[path +:+ ".tmp" := File data]> (<[dir := Dir]> fs))))) as Hod
    by (split; [intros d'; rewrite lookup_insert_ne, lookup_delete_ne, lookup_insert_ne,
                  lookup_insert_eq by done; done
               |intros p; rewrite lookup_insert_Some, lookup_delete_Some, !lookup_insert_Some;
                intros [[_ ?]|(_ & _ & [[_ ?]|(_ & [[<- _]|[_ ?]])])]; [done..|by apply Honly]]).
  all: destruct (fs !! path) as [[d2|]|] eqn:Ep; [|by destruct (Hnd path); [done|]|];
    eexists _, _; (split; [reflexivity | exact Hod]).
Qed.

Definition live_form (s : liveState) (snapshot : bytes) : sessionState :=
  mkState (lv_cols s) (lv_rows s) (lv_now s) snapshot.

Lemma saveSession_no_faults dir name s fs :
  dir_ok dir -> name_ok name -> only_dir dir fs ->
  only_dir dir (fst (saveSession no_faults dir name s fs)) /\
  forall snap, lv_snapshot s = Ok snap -> state_ok (live_form s snap) ->
    loadState dir name (fst (saveSession no_faults dir name s fs)) = Ok (saved_form (live_form s snap)).
Proof.
  intros Hd Hn Ho. unfold saveSession. destruct (lv_snapshot s) as [snap|e]; [|by split].
  fold (live_form s snap). destruct (encodeState (live_form s snap)) as [data|e] eqn:He.
  - destruct (writeState_no_faults dir name _ fs data Hd Hn Ho He) as (seen & fs' & Hw & Ho').
    rewrite Hw. split; [done|]. intros ? [= <-] Hok. cbn [fst].
    by eapply save_crash_safe_load.
  - unfold writeStateInDir. rewrite He. split; [done|]. intros ? [= <-] (_ & _ & _ & Hl).
    by rewrite encodeState_eq in He.
Qed.

(** The sessions [saveAll] visits, in order. *)
Definition visited (sessions : gmap string liveState) : list (string * liveState) :=
  omap (fun name => (fun s => (name, s)) <$> sessions !! name)
    (merge_sort name_le (elements (dom sessions))).

Definition save_step (f : faults) (dir : string) (acc : fsys * list error)
    (e : string * liveState) : fsys * list error :=
  let '(st, errs) := acc in
  let '(name, s) := e in
  match saveSession f dir name s st with
  | (st', Some e) => (st', errs ++ [Wrapf name e])
  | (st', None) => (st', errs)
  end.

Lemma saveAll_fold f dir sessions fs :
  saveAll f dir sessions fs = foldl (save_step f dir) (fs, []) (visited sessions).
Proof. done. Qed.

Lemma save_step_fst f dir fs errs name s :
  fst (save_step f dir (fs, errs) (name, s)) = fst (saveSession f dir name s fs).
Proof. cbn. by destruct (saveSession f dir name s fs) as [? [?|]]. Qed.

Lemma elem_of_visited sessions name s :
  (name, s) ∈ visited sessions <-> sessions !! name = Some s.
Proof.
  unfold visited. rewrite list_elem_of_omap. split.
  - by intros (n & _ & (s' & Hs & [= -> ->])%fmap_Some).
  - intros Hs. exists name. rewrite merge_sort_Permutation, elem_of_elements, elem_of_dom, Hs.
    by split; [eexists|].
Qed.

Lemma visited_NoDup sessions : NoDup (visited sessions).*1.
Proof.
  unfold visited. assert (NoDup (merge_sort name_le (elements (dom sessions)))) as H
    by (rewrite merge_sort_Permutation; apply NoDup_elements).
  induction H as [|n l Hn Hl IH]; [constructor|]. cbn [omap list_omap].
  destruct (sessions !! n) as [s|]; [|done]. cbn. constructor; [|done].
  intros ([? ?] & Heq & (m & Hm & (? & _ & [= -> ->])%fmap_Some)%list_elem_of_omap)%list_elem_of_fmap.
  cbn in Heq. by subst.
Qed.

Lemma save_fold dir l fs errs name s snap :
  dir_ok dir -> only_dir dir fs -> Forall name_ok l.*1 -> NoDup l.*1 ->
  lv_snapshot s = Ok snap -> state_ok (live_form s snap) ->
  (name, s) ∈ l \/ name_ok name /\ name ∉ l.*1 /\
    loadState dir name fs = Ok (saved_form (live_form s snap)) ->
  loadState dir name (fst (foldl (save_step no_faults dir) (fs, errs) l)) =
    Ok (saved_form (live_form s snap)).
Proof.
  intros Hd Ho Hok Hnd Hsnap Hst. revert fs errs Ho.
  induction l as [|[n t] l IH]; intros fs errs Ho Hin.
  { destruct Hin as [Hin|(_ & _ & ?)]; [by apply not_elem_of_nil in Hin | done]. }
  cbn [fmap list_fmap fst] in Hok, Hnd. apply Forall_cons in Hok as [Hn Hok].
  apply list.NoDup_cons in Hnd as [Hnl Hnd]. cbn [foldl].
  destruct (saveSession_no_faults dir n t fs Hd Hn Ho) as [Ho' Hsave].
  pose proof (save_step_fst no_faults dir fs errs n t) as Hfst.
  destruct (save_step no_faults dir (fs, errs) (n, t)) as [fs' errs'] eqn:E. cbn [fst] in Hfst.
  subst fs'. apply IH; [done..|]. clear IH.
  destruct Hin as [[[= -> ->]|Hin]%elem_of_cons|(Hname & Hnotin & Hload)].
  - right. split; [done|]. split; [done|]. by apply Hsave.
  - by left.
  - right. cbn in Hnotin. apply not_elem_of_cons in Hnotin as [Hne Hnotin].
    do 2 (split; [done|]). rewrite <- Hload. apply loadState_ext, saveSession_other; auto.
Qed.

(** A save of all sessions is not stopped by a session that cannot be saved:
    every session whose snapshot can be taken is on disk afterwards. *)
Theorem saveAll_saves_each dir sessions fs name s snap :
  dir_ok dir -> only_dir dir fs -> (forall n, is_Some (sessions !! n) -> name_ok n) ->
  sessions !! name = Some s -> lv_snapshot s = Ok snap -> state_ok (live_form s snap) ->
  loadState dir name (fst (saveAll no_faults dir sessions fs)) = Ok (saved_form (live_form s snap)).
Proof.
  intros Hd Ho Hok Hs Hsnap Hst. rewrite saveAll_fold. apply (save_fold _ _ _ _ _ s); try done.
  - apply list.Forall_forall. intros n ([m t] & -> & Hm)%list_elem_of_fmap.
    apply elem_of_visited in Hm. apply Hok. by eexists.
  - apply visited_NoDup.
  - left. by apply elem_of_visited.
Qed.

(** A session name is not checked, and [filepath.Join] resolves it: the state of
    a session named [../x] is saved and loads by that name, but outside the state
    directory, so it is never listed as a dead session. *)
Theorem unsafe_name_escapes :
  let dir := "/home/u/state"%string in
  let st := mkState 80 24 0 [Byte.x00] in
  let '(_, fs, r) := writeStateInDir no_faults dir "../x" st ∅ in
  r = Ok tt /\ state_path dir "../x" = "/home/u/x.state"%string /\
  loadState dir "../x" fs = Ok st /\ listDeadSessions dir (fun _ => false) fs = Ok [].
Proof. by vm_compute. Qed.

(** ** Concrete saves *)

Definition wit_dir : string := "/home/u/.local/state/hauntty/sessions".
Definition wit_state : sessionState := mkState 80 24 (1700000000 * 10 ^ 9 + 5) [Byte.x01; Byte.x02].

Lemma wit_dir_ok : dir_ok wit_dir.
Proof. split; [by vm_compute|]. split; by vm_compute. Qed.

Lemma wit_state_ok : state_ok wit_state.
Proof. by vm_compute. Qed.

Definition wit_save (f : faults) : list fsys * fsys * result unit :=
  writeStateInDir f wit_dir "work" wit_state ∅.

Lemma decode_encode_state_witness :
  is_ok (encodeState wit_state) = true /\
  match encodeState wit_state with
  | Ok data => decodeState (data ++ [Byte.xff]) = Ok (saved_form wit_state)
  | Err _ => False
  end.
Proof.
  destruct (decode_encode_state wit_state ltac:(by vm_compute) ltac:(by vm_compute)
    ltac:(by vm_compute)) as [H1 H2].
  split; [by apply H1; vm_compute|].
  destruct (encodeState wit_state) as [data|] eqn:E; [by apply H2 | by vm_compute in E].
Defined.

Lemma decodeState_sound_witness :
  exists s, state_ok s /\ Cols s = 80.
Proof.
  destruct (encodeState wit_state) as [data|] eqn:E; [|by vm_compute in E].
  assert (decodeState data = Ok (saved_form wit_state)) as H
    by (vm_compute in E; injection E as <-; by vm_compute).
  exists (saved_form wit_state). split; [apply (decodeState_sound data _ H) | done].
Defined.

(** A write that fails after ten bytes. *)
Definition short_write : faults := mkFaults None None (Some (10%nat, EOF)) None None.

Lemma wit_save_eq f : writeStateInDir f wit_dir "work" wit_state ∅ =
  (fst (fst (wit_save f)), snd (fst (wit_save f)), snd (wit_save f)).
Proof. unfold wit_save. by destruct (writeStateInDir _ _ _ _ _) as [[? ?] ?]. Qed.

Lemma save_crash_safe_witness :
  loadState wit_dir "work" (snd (fst (wit_save no_faults))) = Ok (saved_form wit_state) /\
  loadState wit_dir "work" (snd (fst (wit_save short_write))) = loadState wit_dir "work" ∅.
Proof.
  pose proof (save_crash_safe no_faults wit_dir "work" wit_state ∅ _ _ _ wit_dir_ok eq_refl
    wit_state_ok (wit_save_eq no_faults)) as (_ & H1 & _).
  pose proof (save_crash_safe short_write wit_dir "work" wit_state ∅ _ _ _ wit_dir_ok eq_refl
    wit_state_ok (wit_save_eq short_write)) as (_ & _ & H2).
  split; [apply H1 | apply H2]; by vm_compute.
Defined.

Lemma dead_sessions_are_saved_witness :
  exists dead, listDeadSessions wit_dir (fun _ => false) (snd (fst (wit_save no_faults))) = Ok dead /\
    "work"%string ∈ dead.
Proof.
  assert (listDeadSessions wit_dir (fun _ => false) (snd (fst (wit_save no_faults))) =
    Ok ["work"%string]) as Hl by by vm_compute.
  assert (writeStateInDir no_faults wit_dir "work" wit_state ∅ =
    (fst (fst (wit_save no_faults)), snd (fst (wit_save no_faults)), Ok tt)) as Hw.
  { rewrite wit_save_eq. f_equal. }
  exists ["work"%string]. split; [exact Hl|].
  pose proof (dead_sessions_are_saved no_faults wit_dir "work" wit_state ∅ _ _ (fun _ => false) _
    wit_dir_ok eq_refl wit_state_ok Hw Hl) as [_ H].
  by apply H.
Defined.

Lemma cleanStaleTmp_keeps_sessions_witness :
  loadState wit_dir "work" (cleanStaleTmp no_faults wit_dir (snd (fst (wit_save short_write)))) =
  loadState wit_dir "work" (snd (fst (wit_save short_write))).
Proof.
  pose proof (cleanStaleTmp_keeps_sessions no_faults wit_dir
    (snd (fst (wit_save short_write))) wit_dir_ok eq_refl) as [H _].
  by apply H.
Defined.

Definition wit_sessions : gmap string liveState :=
  {["a" := mkLive (Err EOF) 80 24 0; "b" := mkLive (Ok [Byte.x01]) 80 24 0]}.

Lemma saveAll_saves_each_witness :
  loadState wit_dir "b" (fst (saveAll no_faults wit_dir wit_sessions ∅)) =
    Ok (mkState 80 24 0 [Byte.x01]).
Proof.
  apply (saveAll_saves_each wit_dir wit_sessions ∅ "b" (mkLive (Ok [Byte.x01]) 80 24 0) [Byte.x01]
    wit_dir_ok); [| |by vm_compute|done|by vm_compute].
  - split; [done|]. intros p. by rewrite lookup_empty.
  - intros n [t Ht]. unfold wit_sessions in Ht.
    apply lookup_insert_Some in Ht as [[<- _]|[_ [<- _]%lookup_singleton_Some]]; done.
Defined.
