(* ===== verification/Saver.v ===== *)
(** * Saver: the periodic saves of the daemon

    Models the [persister] of [internal/daemon/persist.go]: its ticker loop and the
    saves of all sessions, with every state of the file system they go through, so
    that a crash can be put anywhere between two of them. *)
From Stdlib Require Import ZArith Lia.
From stdpp Require Import base gmap sets list strings numbers option sorting.
From S2P Require Import Prelude GoStrings Persist.
#[local] Open Scope Z_scope.

(** ** The interval *)

Definition time_Second : Z := 10 ^ 9.

(** [time.Duration(cfg.StatePersistenceInterval) * time.Second], both [int64]. *)
Definition persist_interval (secs : Z) : Z := i64 (i64 secs * time_Second).

(** [time.NewTicker] panics unless the interval is positive. *)
Definition NewTicker (interval : Z) : option error :=
  if interval <=? 0 then Some (Errorf "non-positive interval for NewTicker") else None.

(** ** Saves, with the file systems they go through *)

Definition saveSession_seen (f : faults) (dir name : string) (s : liveState) (fs : fsys) :
    list fsys * fsys * option error :=
  match lv_snapshot s with
  | Err e => ([], fs, Some (Wrapf "persist: snapshot terminal" e))
  | Ok snapshot =>
      match writeStateInDir f dir name (live_form s snapshot) fs with
      | (seen, fs', Ok _) => (seen, fs', None)
      | (seen, fs', Err e) => (seen, fs', Some e)
      end
  end.

(** One save of the loop, which keeps what was gone through. *)
Definition save_seen (f : string -> faults) (dir name : string) (s : liveState)
    (acc : list fsys * fsys) : list fsys * fsys * option error :=
  let '(seen, fs) := acc in
  let '(seen', fs', err) := saveSession_seen (f name) dir name s fs in
  (seen ++ fs :: seen', fs', err).

Definition saveAll_seen (f : string -> faults) (dir : string) (sessions : gmap string liveState)
    (fs : fsys) : list fsys * fsys :=
  fst (saveAllWith (save_seen f dir) sessions ([], fs)).

(** ** The loop *)

(** What the select of the loop takes: a tick, with the live sessions and what goes
    wrong in the save of each, or the end of the context. *)
Inductive saver_event :=
| Tick (f : string -> faults) (sessions : gmap string liveState)
| CtxDone.

(** The file systems gone through, the last one, and whether the loop returned. *)
Fixpoint loop (dir : string) (evs : list saver_event) (fs : fsys) : list fsys * fsys * bool :=
  match evs with
  | [] => ([], fs, false)
  | CtxDone :: _ => ([], fs, true)
  | Tick f sessions :: evs =>
      let '(seen, fs) := saveAll_seen f dir sessions fs in
      let '(seen', fs', returned) := loop dir evs fs in
      (seen ++ seen', fs', returned)
  end.

(** [newPersister] and [start]: the loop of the given interval, or its panic. *)
Definition persister (dir : string) (secs : Z) (evs : list saver_event) (fs : fsys) :
    error + (list fsys * fsys * bool) :=
  match NewTicker (persist_interval secs) with
  | Some e => inl e
  | None => inr (loop dir evs fs)
  end.

(** ** What a save can do *)

(** Without what it goes through it is the save of [Persist.v]. *)
Lemma saveSession_seen_fst f dir name s fs :
  (let '(_, fs', err) := saveSession_seen f dir name s fs in (fs', err)) = saveSession f dir name s fs.
Proof.
  unfold saveSession_seen, saveSession. destruct (lv_snapshot s) as [snap|e]; [|done].
  fold (live_form s snap). by destruct (writeStateInDir _ _ _ _ _) as [[? ?] [?|?]].
Qed.

(** A live session has the widths of its fields. *)
Definition live_ok (s : liveState) : Prop :=
  is_u16 (lv_cols s) /\ is_u16 (lv_rows s) /\ is_i64 (time_Unix (lv_now s)).

(** The disk has a snapshot of the session. *)
Definition has_snapshot (dir name : string) (s : liveState) (fs : fsys) : Prop :=
  exists snap, lv_snapshot s = Ok snap /\ loadState dir name fs = Ok (saved_form (live_form s snap)).

Lemma save_loads f dir name s fs seen fs' err :
  dir_ok dir -> name_ok name -> live_ok s ->
  saveSession_seen f dir name s fs = (seen, fs', err) ->
  forall fs1, fs1 ∈ fs' :: seen ->
    loadState dir name fs1 = loadState dir name fs \/ has_snapshot dir name s fs1.
Proof.
  intros Hd Hn (Hc & Hr & Ht). unfold saveSession_seen, has_snapshot.
  destruct (lv_snapshot s) as [snap|e]; [|intros [= <- <- <-] fs1 ->%list_elem_of_singleton; by left].
  destruct (writeStateInDir f dir name (live_form s snap) fs) as [[seen1 fs2] r] eqn:Hw.
  destruct (dir_ne_state dir name Hd Hn) as [Hd1 Hd2].
  pose proof (writeStateInDir_spec _ _ _ _ _ _ _ _ Hd1 Hd2 Hw) as (Hseen & _ & Hres).
  intros H fs1 Hin. assert (seen = seen1 /\ fs' = fs2) as [-> ->] by (destruct r; by simplify_eq). clear H.
  apply elem_of_cons in Hin as [->|Hin]; [|left; apply loadState_ext; by destruct (Hseen _ Hin)].
  destruct r as [[]|e]; [|left; by apply loadState_ext]. right. exists snap. split; [done|].
  apply (save_crash_safe_load f dir name (live_form s snap) fs seen1 fs2); [done..| |done].
  destruct Hres as (data & He & _). apply encodeState_Ok_inv in He as [Hl _]. exact (conj Hc (conj Hr (conj Ht Hl))).
Qed.

Lemma save_other f dir n m s fs seen fs' err :
  dir_ok dir -> name_ok n -> name_ok m -> n <> m ->
  saveSession_seen f dir n s fs = (seen, fs', err) ->
  forall fs1, fs1 ∈ fs' :: seen -> loadState dir m fs1 = loadState dir m fs.
Proof.
  intros Hd Hn Hm Hne. unfold saveSession_seen.
  destruct (lv_snapshot s) as [snap|e]; [|by intros [= <- <- <-] fs1 ->%list_elem_of_singleton].
  destruct (writeStateInDir f dir n (live_form s snap) fs) as [[seen1 fs2] r] eqn:Hw.
  destruct (dir_ne_state dir n Hd Hn) as [Hd1 Hd2], (dir_ne_state dir m Hd Hm) as [Hd3 _].
  pose proof (writeStateInDir_spec _ _ _ _ _ _ _ _ Hd1 Hd2 Hw) as (Hseen & Hrest & _).
  intros H fs1 Hin. assert (seen = seen1 /\ fs' = fs2) as [-> ->] by (destruct r; by simplify_eq). clear H.
  assert (Ht : ~ touched dir n (state_path dir m)).
  { intros [E|[E|E]]; [by apply Hd3| |].
    - by apply state_path_inj in E.
    - by apply state_path_not_tmp in E. }
  apply loadState_ext. apply elem_of_cons in Hin as [->|Hin]; [by apply Hrest|].
  destruct (Hseen _ Hin) as [_ Ho]. by apply Ho.
Qed.

(** *** No directory appears but the one of the states *)

Lemma only_dir_file dir p data fs :
  p <> dir -> only_dir dir fs -> only_dir dir (<[p := File data]> fs).
Proof.
  intros Hp [H1 H2]. split; [intros d; by rewrite lookup_insert_ne|].
  intros q [[_ ?]|[_ Hq]]%lookup_insert_Some; [done|by apply H2].
Qed.

Lemma only_dir_delete dir p fs : only_dir dir fs -> only_dir dir (delete p fs).
Proof. intros [H1 H2]. split; [intros d [_ H]%lookup_delete_Some|intros q [_ H]%lookup_delete_Some]; naive_solver. Qed.

Lemma only_dir_MkdirAll f dir fs : only_dir dir fs -> only_dir dir (fst (os_MkdirAll f dir fs)).
Proof.
  intros Ho. pose proof Ho as [H1 H2]. unfold os_MkdirAll.
  assert (only_dir dir (<[dir := Dir]> fs)).
  { split; [intros d; by rewrite lookup_insert_eq|].
    intros q [[? _]|[_ Hq]]%lookup_insert_Some; [done|by apply H2]. }
  by repeat case_match.
Qed.

Lemma only_dir_WriteFile f dir p data fs :
  p <> dir -> only_dir dir fs -> only_dir dir (snd (fst (os_WriteFile f p data fs))).
Proof.
  intros Hp Ho. unfold os_WriteFile. repeat case_match; try done; by apply only_dir_file.
Qed.

Lemma only_dir_Rename f dir old new fs :
  old <> dir -> new <> dir -> only_dir dir fs -> only_dir dir (fst (os_Rename f old new fs)).
Proof.
  intros Ho Hn H. unfold os_Rename. destruct (f_rename f); [done|].
  destruct (fs !! old) as [[data|]|] eqn:E; [| |done].
  - destruct (fs !! new) as [[]|]; try done; by apply only_dir_file, only_dir_delete.
  - by apply H in E.
Qed.

Lemma only_dir_Remove f dir p fs : only_dir dir fs -> only_dir dir (fst (os_Remove f p fs)).
Proof.
  intros H. unfold os_Remove. repeat case_match; try done. by apply only_dir_delete.
Qed.

Lemma save_only_dir f dir name s fs seen fs' err :
  dir_ok dir -> name_ok name -> only_dir dir fs ->
  saveSession_seen f dir name s fs = (seen, fs', err) -> only_dir dir fs'.
Proof.
  intros Hd Hn Ho. destruct (dir_ne_state dir name Hd Hn) as [Hp Ht]. unfold saveSession_seen, writeStateInDir.
  destruct (lv_snapshot s) as [snap|e]; [|by intros [= _ <- _]].
  destruct (encodeState _) as [data|e]; [|by intros [= _ <- _]].
  pose proof (only_dir_MkdirAll f dir fs Ho) as H1.
  destruct (os_MkdirAll f dir fs) as [fs1 [[]|e]]; [|by intros [= _ <- _]]. cbn [fst] in H1.
  set (tmp := state_path dir name +:+ ".tmp") in *.
  pose proof (only_dir_WriteFile f dir tmp data fs1 (not_eq_sym Ht) H1) as H2.
  destruct (os_WriteFile f tmp data fs1) as [[seen1 fs2] [[]|e]]; [|by intros [= _ <- _]]. cbn [fst snd] in H2.
  pose proof (only_dir_Rename f dir tmp (state_path dir name) fs2 (not_eq_sym Ht) (not_eq_sym Hp) H2) as H3.
  destruct (os_Rename f tmp _ fs2) as [fs3 [[]|e]]; cbn [fst] in H3; intros [= _ <- _]; [done|].
  by apply only_dir_Remove.
Qed.

(** *** All sessions *)

Definition seen_step (f : string -> faults) (dir : string) (acc : list fsys * fsys)
    (e : string * liveState) : list fsys * fsys :=
  let '(seen, fs) := acc in
  let '(seen', fs', _) := saveSession_seen (f e.1) dir e.1 e.2 fs in
  (seen ++ fs :: seen', fs').

Lemma saveAll_seen_fold f dir sessions fs :
  saveAll_seen f dir sessions fs = foldl (seen_step f dir) ([], fs) (visited sessions).
Proof.
  unfold saveAll_seen, saveAllWith. fold (visited sessions).
  match goal with |- fst (foldl ?F _ _) = _ =>
    enough (H : forall l acc errs, fst (foldl F (acc, errs) l) = foldl (seen_step f dir) acc l)
      by apply H end.
  induction l as [|[n s] l IH]; intros [seen fs0] errs; [done|].
  cbn [foldl]. unfold save_seen at 2, seen_step at 2. cbn [fst snd].
  destruct (saveSession_seen (f n) dir n s fs0) as [[seen' fs'] [e|]]; apply IH.
Qed.

(** What each save keeps, the fold keeps; [J] of what is gone through. *)
Lemma seen_fold (I J : fsys -> Prop) f dir l :
  (forall fs, I fs -> J fs) ->
  (forall n s fs seen fs' err, (n, s) ∈ l -> I fs -> saveSession_seen (f n) dir n s fs = (seen, fs', err) ->
     I fs' /\ Forall J seen) ->
  forall seen fs, I fs -> Forall J seen ->
    let '(seen', fs') := foldl (seen_step f dir) (seen, fs) l in I fs' /\ Forall J seen'.
Proof.
  intros HIJ. induction l as [|[n s] l IH]; intros Hstep seen fs HI HJ; [done|].
  cbn [foldl]. unfold seen_step at 2. cbn [fst snd].
  destruct (saveSession_seen (f n) dir n s fs) as [[seen1 fs1] err] eqn:E.
  destruct (Hstep n s fs seen1 fs1 err (list_elem_of_here _ _) HI E) as [HI1 HJ1].
  apply IH; [|done|].
  - intros m t fs2 seen2 fs3 err2 Hin. apply (Hstep m t). by right.
  - apply Forall_app. split; [done|]. constructor; auto.
Qed.

Section Disk.
Context (dir : string) (Hd : dir_ok dir).

(** Sessions whose names are file names. *)
Definition sessions_ok (sessions : gmap string liveState) : Prop :=
  forall n s, sessions !! n = Some s -> name_ok n /\ live_ok s.

(** The disk is as good as in [fs0]: it has the state of then, or a snapshot. *)
Definition kept (name : string) (fs0 : fsys) (sessions : gmap string liveState) (fs : fsys) : Prop :=
  loadState dir name fs = loadState dir name fs0 \/
  exists s, sessions !! name = Some s /\ has_snapshot dir name s fs.

Lemma kept_ext name fs0 sessions fs fs' :
  loadState dir name fs' = loadState dir name fs -> kept name fs0 sessions fs -> kept name fs0 sessions fs'.
Proof. unfold kept, has_snapshot. by intros ->. Qed.

Lemma saveAll_kept f sessions fs name :
  sessions_ok sessions -> name_ok name -> only_dir dir fs ->
  let '(seen, fs') := saveAll_seen f dir sessions fs in
  only_dir dir fs' /\ forall fs1, fs1 ∈ fs' :: seen -> kept name fs sessions fs1.
Proof.
  intros Hs Hn Ho. rewrite saveAll_seen_fold.
  pose proof (seen_fold (fun x => only_dir dir x /\ kept name fs sessions x) (kept name fs sessions)
    f dir (visited sessions)) as H.
  ospecialize (H _ _ [] fs _ _).
  - by intros x [_ Hx].
  - intros n s fs1 seen fs2 err Hin%elem_of_visited [Ho1 Hk] E. destruct (Hs n s Hin) as [Hn' Hl].
    assert (Hall : forall x, x ∈ fs2 :: seen -> kept name fs sessions x).
    { intros x Hx. destruct (decide (n = name)) as [->|Hne].
      - destruct (save_loads _ _ _ _ _ _ _ _ Hd Hn Hl E x Hx) as [Hsame|Hnew].
        + by eapply kept_ext.
        + right. by exists s.
      - eapply kept_ext; [|exact Hk]. by eapply (save_other _ _ n). }
    split; [split|]; [by eapply save_only_dir|apply Hall; constructor|].
    apply list.Forall_forall. intros x Hx. apply Hall. by constructor.
  - split; [done|by left].
  - constructor.
  - destruct (foldl _ _ _) as [seen fs']. destruct H as [[H1 H2] H3]. split; [done|].
    intros fs1 [->|Hin]%elem_of_cons; [done|]. by eapply (proj1 (list.Forall_forall _ _)) in H3.
Qed.

(** A session without faults is on disk after the tick. *)
Lemma saveAll_saves f sessions fs name s snap :
  sessions_ok sessions -> only_dir dir fs -> sessions !! name = Some s -> f name = no_faults ->
  lv_snapshot s = Ok snap -> state_ok (live_form s snap) ->
  loadState dir name (snd (saveAll_seen f dir sessions fs)) = Ok (saved_form (live_form s snap)).
Proof.
  intros Hs Ho Hin Hf Hsnap Hst. destruct (Hs _ _ Hin) as [Hn _].
  assert (exists l1 l2, visited sessions = l1 ++ (name, s) :: l2) as (l1 & l2 & Hv)
    by by apply list_elem_of_split, elem_of_visited.
  assert (Hl2 : forall n t, (n, t) ∈ l2 -> n <> name).
  { intros n t Hnt ->. pose proof (visited_NoDup sessions) as Hnd.
    rewrite Hv, fmap_app, fmap_cons in Hnd. apply list.NoDup_app in Hnd as (_ & _ & Hnd).
    apply list.NoDup_cons in Hnd as [Hnd _]. apply Hnd. apply list_elem_of_fmap. by exists (name, t). }
  assert (Hvis : forall n t, (n, t) ∈ l1 \/ (n, t) ∈ l2 -> name_ok n).
  { intros n t Hnt. apply (Hs n t), elem_of_visited. rewrite Hv, elem_of_app, elem_of_cons. naive_solver. }
  rewrite saveAll_seen_fold, Hv, foldl_app. cbn [foldl].
  pose proof (seen_fold (only_dir dir) (fun _ => True) f dir l1) as H1.
  ospecialize (H1 _ _ [] fs Ho _); [done| |constructor|].
  { intros n t fs1 seen fs2 err Hnt Ho1 E. split; [|by apply list.Forall_forall].
    eapply save_only_dir; [done|by apply (Hvis n t); left|done|exact E]. }
  destruct (foldl (seen_step f dir) ([], fs) l1) as [seen1 fs1]. destruct H1 as [Ho1 _].
  unfold seen_step at 2. cbn [fst snd]. rewrite Hf.
  destruct (saveSession_no_faults dir name s fs1 Hd Hn Ho1) as [Ho2 Hload].
  specialize (Hload snap Hsnap Hst). rewrite <- saveSession_seen_fst in Ho2, Hload.
  destruct (saveSession_seen no_faults dir name s fs1) as [[seen2 fs2] err]. cbn [fst] in Ho2, Hload.
  pose proof (seen_fold (fun x => loadState dir name x = Ok (saved_form (live_form s snap))) (fun _ => True)
    f dir l2) as H2.
  ospecialize (H2 _ _ (seen1 ++ fs1 :: seen2) fs2 Hload _); [done| |by apply list.Forall_forall|].
  { intros n t fs3 seen fs4 err' Hnt Hl E. split; [|by apply list.Forall_forall]. rewrite <- Hl.
    eapply (save_other _ _ n); [done|by apply (Hvis n t); right|done|by eapply Hl2|exact E|constructor]. }
  destruct (foldl _ _ l2) as [seen3 fs3]. by destruct H2.
Qed.
End Disk.

(** *** The loop *)

Definition event_ok (ev : saver_event) : Prop :=
  match ev with Tick _ sessions => sessions_ok sessions | CtxDone => True end.

Lemma loop_app dir evs evs' fs :
  loop dir (evs ++ evs') fs =
  (let '(seen, fs1, returned) := loop dir evs fs in
   if returned then (seen, fs1, true)
   else let '(seen', fs2, returned) := loop dir evs' fs1 in (seen ++ seen', fs2, returned)).
Proof.
  revert fs. induction evs as [|[f sessions|] evs IH]; intros fs; [|cbn [app loop]|done].
  - cbn. by destruct (loop dir evs' fs) as [[? ?] ?].
  - destruct (saveAll_seen f dir sessions fs) as [seen fs1]. rewrite IH.
    destruct (loop dir evs fs1) as [[seen1 fs2] [|]]; [done|].
    destruct (loop dir evs' fs2) as [[? ?] ?]. by rewrite app_assoc.
Qed.

Lemma saveAll_only_dir dir f sessions fs :
  dir_ok dir -> sessions_ok sessions -> only_dir dir fs ->
  only_dir dir (snd (saveAll_seen f dir sessions fs)).
Proof.
  intros Hd Hs Ho. pose proof (saveAll_kept dir Hd f sessions fs "" Hs eq_refl Ho) as H.
  destruct (saveAll_seen f dir sessions fs). by destruct H.
Qed.

Lemma loop_only_dir dir evs fs :
  dir_ok dir -> Forall event_ok evs -> only_dir dir fs -> only_dir dir (snd (fst (loop dir evs fs))).
Proof.
  intros Hd Hevs. revert fs. induction Hevs as [|[f sessions|] evs Hev _ IH]; intros fs Ho; [done| |done].
  cbn [loop]. pose proof (saveAll_only_dir dir f sessions fs Hd Hev Ho) as H.
  destruct (saveAll_seen f dir sessions fs) as [seen fs1]. specialize (IH fs1 H).
  by destruct (loop dir evs fs1) as [[? ?] ?].
Qed.

(** ** Properties *)

(** The loop starts just when the interval, in nanoseconds, fits in 63 bits; a
    longer one is accepted by [New] and panics when the loop starts. *)
Lemma NewTicker_panics secs :
  0 < secs <= 9223372036 + 9223372036 ->
  NewTicker (persist_interval secs) = None <-> secs <= 9223372036.
Proof.
  intros Hs. unfold NewTicker, persist_interval, time_Second.
  destruct (decide (secs <= 9223372036)).
  - replace (i64 (i64 secs * 10 ^ 9)) with (secs * 10 ^ 9) by width_lia.
    by destruct (Z.leb_spec (secs * 10 ^ 9) 0); [lia|].
  - replace (i64 (i64 secs * 10 ^ 9)) with (secs * 10 ^ 9 - 2 ^ 64) by width_lia.
    destruct (Z.leb_spec (secs * 10 ^ 9 - 2 ^ 64) 0); [|lia]. by split; [|lia].
Qed.

(** C26. A crash loses at most what came after the last tick. After a tick that saved a
    session, wherever the daemon is killed during the next tick, and whatever fails
    in it, the restarted daemon (which first removes stale temporary files) loads
    that session as the one tick saved it or as the other did; so it does when the
    session is no longer there to be saved. *)
Theorem crash_loses_one_interval dir secs before f1 sessions1 f2 sessions2 fs seen fs1 name s snap :
  dir_ok dir -> only_dir dir fs -> Forall event_ok (before ++ [Tick f1 sessions1; Tick f2 sessions2]) ->
  persister dir secs (before ++ [Tick f1 sessions1]) fs = inr (seen, fs1, false) ->
  sessions1 !! name = Some s -> f1 name = no_faults ->
  lv_snapshot s = Ok snap -> state_ok (live_form s snap) ->
  exists seen2 fs2,
    persister dir secs (before ++ [Tick f1 sessions1; Tick f2 sessions2]) fs = inr (seen ++ seen2, fs2, false) /\
    forall crashed, crashed ∈ fs2 :: seen2 ->
      let disk := cleanStaleTmp no_faults dir crashed in
      loadState dir name disk = Ok (saved_form (live_form s snap)) \/
      exists s', sessions2 !! name = Some s' /\ has_snapshot dir name s' disk.
Proof.
  intros Hd Ho Hevs Hp Hs Hf Hsnap Hst. unfold persister in *.
  destruct (NewTicker _); [done|]. injection Hp as Hl.
  apply Forall_app in Hevs as [Hb [H1 [H2 _]%list.Forall_cons]%list.Forall_cons].
  change [Tick f1 sessions1; Tick f2 sessions2] with ([Tick f1 sessions1] ++ [Tick f2 sessions2]).
  rewrite app_assoc, loop_app, Hl. rewrite loop_app in Hl.
  pose proof (loop_only_dir dir before fs Hd Hb Ho) as Hob.
  destruct (loop dir before fs) as [[seenb fsb] [|]]; [done|]. cbn [fst snd loop] in *.
  pose proof (saveAll_saves dir Hd f1 sessions1 fsb name s snap H1 Hob Hs Hf Hsnap Hst) as Hload.
  pose proof (saveAll_only_dir dir f1 sessions1 fsb Hd H1 Hob) as Ho1.
  destruct (saveAll_seen f1 dir sessions1 fsb) as [seen1 fs1']. injection Hl as <- <-. cbn [snd] in Hload, Ho1.
  destruct (H1 name s Hs) as [Hn _].
  pose proof (saveAll_kept dir Hd f2 sessions2 fs1' name H2 Hn Ho1) as Hk.
  destruct (saveAll_seen f2 dir sessions2 fs1') as [seen2 fs2]. destruct Hk as [_ Hk].
  exists seen2, fs2. rewrite !app_nil_r. split; [done|]. intros crashed Hin.
  destruct (cleanStaleTmp_keeps_sessions no_faults dir crashed Hd eq_refl) as [Hclean _].
  unfold has_snapshot. rewrite (Hclean name Hn).
  destruct (Hk crashed Hin) as [Hsame|Hnew]; [left; by rewrite Hsame|by right].
Qed.

(** One session; the disk is full during the second tick. *)
Definition ex_live (data : bytes) : liveState := mkLive (Ok data) 80 24 (1700000000 * 10 ^ 9).
Definition ex_sessions (data : bytes) : gmap string liveState := {["work" := ex_live data]}.
Definition ex_disk : fsys := {[wit_dir := Dir]}.

Definition ex_tick1 : saver_event := Tick (fun _ => no_faults) (ex_sessions [Byte.x01]).
Definition ex_tick2 : saver_event := Tick (fun _ => short_write) (ex_sessions [Byte.x02]).

(** How many file systems a run goes through, if the loop still runs. *)
Definition gone_through (evs : list saver_event) : option nat :=
  match persister wit_dir 30 evs ex_disk with
  | inr (seen, _, false) => Some (length seen)
  | _ => None
  end.

Lemma crash_loses_one_interval_witness :
  exists seen fs1 seen2 fs2,
    persister wit_dir 30 [ex_tick1] ex_disk = inr (seen, fs1, false) /\
    persister wit_dir 30 [ex_tick1; ex_tick2] ex_disk = inr (seen ++ seen2, fs2, false) /\
    (10 < length seen2)%nat /\
    forall crashed, crashed ∈ fs2 :: seen2 ->
      let disk := cleanStaleTmp no_faults wit_dir crashed in
      loadState wit_dir "work" disk = Ok (saved_form (live_form (ex_live [Byte.x01]) [Byte.x01])) \/
      exists s', ex_sessions [Byte.x02] !! "work" = Some s' /\ has_snapshot wit_dir "work" s' disk.
Proof.
  assert (Hok : forall data n s, ex_sessions data !! n = Some s -> name_ok n /\ live_ok s).
  { unfold ex_sessions. intros data n s [<- <-]%lookup_singleton_Some. split; [done|].
    vm_compute. repeat split; discriminate. }
  assert (Hod : only_dir wit_dir ex_disk).
  { unfold ex_disk. split; [intros d; by rewrite lookup_singleton_eq|].
    by intros p [<- _]%lookup_singleton_Some. }
  assert (L1 : gone_through [ex_tick1] = Some 25%nat) by (vm_compute; reflexivity).
  assert (L2 : gone_through [ex_tick1; ex_tick2] = Some 38%nat) by (vm_compute; reflexivity).
  unfold gone_through in L1, L2.
  destruct (persister wit_dir 30 [ex_tick1] ex_disk) as [e|[[seen fs1] [|]]] eqn:E; [discriminate L1..|].
  destruct (crash_loses_one_interval wit_dir 30 [] (fun _ => no_faults) (ex_sessions [Byte.x01])
    (fun _ => short_write) (ex_sessions [Byte.x02]) ex_disk seen fs1 "work" (ex_live [Byte.x01]) [Byte.x01])
    as (seen2 & fs2 & Hp & Hall).
  - exact wit_dir_ok.
  - exact Hod.
  - constructor; [exact (Hok [Byte.x01])|constructor; [exact (Hok [Byte.x02])|constructor]].
  - exact E.
  - reflexivity.
  - reflexivity.
  - reflexivity.
  - vm_compute. repeat split; discriminate.
  - exists seen, fs1, seen2, fs2. split; [reflexivity|]. split; [exact Hp|]. split; [|exact Hall].
    change ([] ++ [Tick (fun _ => no_faults) (ex_sessions [Byte.x01]);
                   Tick (fun _ => short_write) (ex_sessions [Byte.x02])]) with [ex_tick1; ex_tick2] in Hp.
    rewrite Hp, length_app in L2. injection L1 as L1. injection L2 as L2. lia.
Defined.
