(* ===== verification/Ghostty.v ===== *)
(** * Ghostty: constants and the wasm boundary of [libghostty]

    Models the Go side of [libghostty/]: the key, modifier and result constants,
    the checks on wasm lengths and memory ranges, the layout of the formatter
    options, and the chunking of [VTWrite]. The wasm module itself is generated
    code and a parameter. *)
From Stdlib Require Import ZArith Lia List.
From stdpp Require Import base list strings numbers option pretty.
From S2P Require Import Prelude.
#[local] Open Scope Z_scope.

(** ** Keys ([key_event.go]) *)

Definition KeyActionRelease : Z := 0.
Definition KeyActionPress : Z := 1.
Definition KeyActionRepeat : Z := 2.

Definition ModShift : Z := 1.
Definition ModCtrl : Z := 2.
Definition ModAlt : Z := 4.
Definition ModSuper : Z := 8.
Definition ModCapsLock : Z := 16.
Definition ModNumLock : Z := 32.
Definition ModShiftSide : Z := 64.
Definition ModCtrlSide : Z := 128.
Definition ModAltSide : Z := 256.
Definition ModSuperSide : Z := 512.

Definition KeyUnidentified : Z := 0.
Definition KeyBackquote : Z := 1.
Definition KeyBackslash : Z := 2.
Definition KeyBracketLeft : Z := 3.
Definition KeyBracketRight : Z := 4.
Definition KeyComma : Z := 5.
Definition KeyDigit0 : Z := 6.
Definition KeyDigit1 : Z := 7.
Definition KeyDigit2 : Z := 8.
Definition KeyDigit3 : Z := 9.
Definition KeyDigit4 : Z := 10.
Definition KeyDigit5 : Z := 11.
Definition KeyDigit6 : Z := 12.
Definition KeyDigit7 : Z := 13.
Definition KeyDigit8 : Z := 14.
Definition KeyDigit9 : Z := 15.
Definition KeyEqual : Z := 16.
Definition KeyIntlBackslash : Z := 17.
Definition KeyIntlRo : Z := 18.
Definition KeyIntlYen : Z := 19.
Definition KeyA : Z := 20.
Definition KeyB : Z := 21.
Definition KeyC : Z := 22.
Definition KeyD : Z := 23.
Definition KeyE : Z := 24.
Definition KeyF : Z := 25.
Definition KeyG : Z := 26.
Definition KeyH : Z := 27.
Definition KeyI : Z := 28.
Definition KeyJ : Z := 29.
Definition KeyK : Z := 30.
Definition KeyL : Z := 31.
Definition KeyM : Z := 32.
Definition KeyN : Z := 33.
Definition KeyO : Z := 34.
Definition KeyP : Z := 35.
Definition KeyQ : Z := 36.
Definition KeyR : Z := 37.
Definition KeyS : Z := 38.
Definition KeyT : Z := 39.
Definition KeyU : Z := 40.
Definition KeyV : Z := 41.
Definition KeyW : Z := 42.
Definition KeyX : Z := 43.
Definition KeyY : Z := 44.
Definition KeyZ : Z := 45.
Definition KeyMinus : Z := 46.
Definition KeyPeriod : Z := 47.
Definition KeyQuote : Z := 48.
Definition KeySemicolon : Z := 49.
Definition KeySlash : Z := 50.
Definition KeyAltLeft : Z := 51.
Definition KeyAltRight : Z := 52.
Definition KeyBackspace : Z := 53.
Definition KeyCapsLock : Z := 54.
Definition KeyContextMenu : Z := 55.
Definition KeyControlLeft : Z := 56.
Definition KeyControlRight : Z := 57.
Definition KeyEnter : Z := 58.
Definition KeyMetaLeft : Z := 59.
Definition KeyMetaRight : Z := 60.
Definition KeyShiftLeft : Z := 61.
Definition KeyShiftRight : Z := 62.
Definition KeySpace : Z := 63.
Definition KeyTab : Z := 64.
Definition KeyConvert : Z := 65.
Definition KeyKanaMode : Z := 66.
Definition KeyNonConvert : Z := 67.
Definition KeyDelete : Z := 68.
Definition KeyEnd : Z := 69.
Definition KeyHelp : Z := 70.
Definition KeyHome : Z := 71.
Definition KeyInsert : Z := 72.
Definition KeyPageDown : Z := 73.
Definition KeyPageUp : Z := 74.
Definition KeyArrowDown : Z := 75.
Definition KeyArrowLeft : Z := 76.
Definition KeyArrowRight : Z := 77.
Definition KeyArrowUp : Z := 78.
Definition KeyNumLock : Z := 79.
Definition KeyNumpad0 : Z := 80.
Definition KeyNumpad1 : Z := 81.
Definition KeyNumpad2 : Z := 82.
Definition KeyNumpad3 : Z := 83.
Definition KeyNumpad4 : Z := 84.
Definition KeyNumpad5 : Z := 85.
Definition KeyNumpad6 : Z := 86.
Definition KeyNumpad7 : Z := 87.
Definition KeyNumpad8 : Z := 88.
Definition KeyNumpad9 : Z := 89.
Definition KeyNumpadAdd : Z := 90.
Definition KeyNumpadBackspace : Z := 91.
Definition KeyNumpadClear : Z := 92.
Definition KeyNumpadClearEntry : Z := 93.
Definition KeyNumpadComma : Z := 94.
Definition KeyNumpadDecimal : Z := 95.
Definition KeyNumpadDivide : Z := 96.
Definition KeyNumpadEnter : Z := 97.
Definition KeyNumpadEqual : Z := 98.
Definition KeyNumpadMemoryAdd : Z := 99.
Definition KeyNumpadMemoryClear : Z := 100.
Definition KeyNumpadMemoryRecall : Z := 101.
Definition KeyNumpadMemoryStore : Z := 102.
Definition KeyNumpadMemorySub : Z := 103.
Definition KeyNumpadMultiply : Z := 104.
Definition KeyNumpadParenLeft : Z := 105.
Definition KeyNumpadParenRight : Z := 106.
Definition KeyNumpadSubtract : Z := 107.
Definition KeyNumpadSeparator : Z := 108.
Definition KeyNumpadUp : Z := 109.
Definition KeyNumpadDown : Z := 110.
Definition KeyNumpadRight : Z := 111.
Definition KeyNumpadLeft : Z := 112.
Definition KeyNumpadBegin : Z := 113.
Definition KeyNumpadHome : Z := 114.
Definition KeyNumpadEnd : Z := 115.
Definition KeyNumpadInsert : Z := 116.
Definition KeyNumpadDelete : Z := 117.
Definition KeyNumpadPageUp : Z := 118.
Definition KeyNumpadPageDown : Z := 119.
Definition KeyEscape : Z := 120.
Definition KeyF1 : Z := 121.
Definition KeyF2 : Z := 122.
Definition KeyF3 : Z := 123.
Definition KeyF4 : Z := 124.
Definition KeyF5 : Z := 125.
Definition KeyF6 : Z := 126.
Definition KeyF7 : Z := 127.
Definition KeyF8 : Z := 128.
Definition KeyF9 : Z := 129.
Definition KeyF10 : Z := 130.
Definition KeyF11 : Z := 131.
Definition KeyF12 : Z := 132.
Definition KeyF13 : Z := 133.
Definition KeyF14 : Z := 134.
Definition KeyF15 : Z := 135.
Definition KeyF16 : Z := 136.
Definition KeyF17 : Z := 137.
Definition KeyF18 : Z := 138.
Definition KeyF19 : Z := 139.
Definition KeyF20 : Z := 140.
Definition KeyF21 : Z := 141.
Definition KeyF22 : Z := 142.
Definition KeyF23 : Z := 143.
Definition KeyF24 : Z := 144.
Definition KeyF25 : Z := 145.
Definition KeyFn : Z := 146.
Definition KeyFnLock : Z := 147.
Definition KeyPrintScreen : Z := 148.
Definition KeyScrollLock : Z := 149.
Definition KeyPause : Z := 150.
Definition KeyBrowserBack : Z := 151.
Definition KeyBrowserFavorites : Z := 152.
Definition KeyBrowserForward : Z := 153.
Definition KeyBrowserHome : Z := 154.
Definition KeyBrowserRefresh : Z := 155.
Definition KeyBrowserSearch : Z := 156.
Definition KeyBrowserStop : Z := 157.
Definition KeyEject : Z := 158.
Definition KeyLaunchApp1 : Z := 159.
Definition KeyLaunchApp2 : Z := 160.
Definition KeyLaunchMail : Z := 161.
Definition KeyMediaPlayPause : Z := 162.
Definition KeyMediaSelect : Z := 163.
Definition KeyMediaStop : Z := 164.
Definition KeyMediaTrackNext : Z := 165.
Definition KeyMediaTrackPrevious : Z := 166.
Definition KeyPower : Z := 167.
Definition KeySleep : Z := 168.
Definition KeyAudioVolumeDown : Z := 169.
Definition KeyAudioVolumeMute : Z := 170.
Definition KeyAudioVolumeUp : Z := 171.
Definition KeyWakeUp : Z := 172.
Definition KeyCopy : Z := 173.
Definition KeyCut : Z := 174.
Definition KeyPaste : Z := 175.

(** ** Results ([result.go]) *)

Definition ResultSuccess : Z := 0.
Definition ResultOutOfMemory : Z := -1.
Definition ResultInvalidValue : Z := -2.
Definition ResultOutOfSpace : Z := -3.
Definition ResultNoValue : Z := -4.
Definition ResultIOError : Z := -5.
Definition ResultLimitExceeded : Z := -6.

(** The text of an [Error]. *)
Definition Error_Error (r : Z) : string :=
  if r =? ResultOutOfMemory then "ghostty: out of memory"
  else if r =? ResultInvalidValue then "ghostty: invalid value"
  else if r =? ResultOutOfSpace then "ghostty: out of space"
  else if r =? ResultNoValue then "ghostty: no value"
  else if r =? ResultIOError then "ghostty: I/O error"
  else if r =? ResultLimitExceeded then "ghostty: limit exceeded"
  else "ghostty: result=" +:+ pretty r.

Definition ghostty_error (r : Z) : error := Errorf (Error_Error r).

Definition resultError (r : Z) : option error :=
  if r =? ResultSuccess then None else Some (ghostty_error r).

(** ** Lengths and memory ([wasm.go]) *)

(** [uint] is 64 bits. *)
Definition wasmUint (value : Z) : result Z :=
  if u32 (-1) <? value then Err (ghostty_error ResultLimitExceeded) else Ok (u32 value).

Definition wasmLength (length : Z) : result Z :=
  if (length <? 0) || (u32 (-1) <? u64 length)
  then Err (ghostty_error ResultLimitExceeded) else Ok (u32 length).

Definition boolByte (value : bool) : Byte.byte := byte_of_Z (if value then 1 else 0).

(** The wasm module as [VTWrite] uses it: its memory and the function that feeds a
    terminal. [mem_set] writes through the slice of the memory. *)
Class Module (M : Type) := {
  mem : M -> bytes;
  mem_set : M -> bytes -> M;
  Xghostty_terminal_vt_write : M -> Z -> Z -> Z -> M }.
#[export] Hint Mode Module ! : typeclass_instances.

Section Wasm.
Context {M : Type} `{!Module M}.

(** [bytes(ptr, length)]: the range check and the slice. *)
Definition mem_bytes (ptr length : Z) (m : M) : result bytes :=
  if blen (mem m) <? u64 (ptr + length)
  then Err (Errorf "libghostty: invalid wasm memory range")
  else Ok (take (Z.to_nat length) (drop (Z.to_nat ptr) (mem m))).

(** Overwrite the memory from [ptr] on. *)
Definition mem_write (ptr : Z) (data : bytes) (m : M) : M :=
  mem_set m (take (Z.to_nat ptr) (mem m) ++ data ++ drop (Z.to_nat ptr + length data) (mem m)).

Definition mem_put (ptr : Z) (data : bytes) (m : M) : M * result unit :=
  match mem_bytes ptr (u32 (blen data)) m with
  | Err e => (m, Err e)
  | Ok _ => (mem_write ptr data m, Ok tt)
  end.

(** ** [VTWrite] ([terminal.go]) *)

Definition feedBufferSize : Z := 64 * 1024.

(** One round: [put] the chunk in the feed buffer and write it; [None] is the
    panic. *)
Definition vt_write_chunk (term feedPtr : Z) (chunk : bytes) (m : M) : option M :=
  match mem_put feedPtr chunk m with
  | (_, Err _) => None
  | (m, Ok _) => Some (Xghostty_terminal_vt_write m (i32 term) (i32 feedPtr) (i32 (blen chunk)))
  end.

Fixpoint vt_write_loop (fuel : nat) (term feedPtr : Z) (data : bytes) (m : M) : option M :=
  match fuel with
  | O => None
  | S fuel' =>
      if 0 <? blen data then
        let length := Z.min (blen data) feedBufferSize in
        match vt_write_chunk term feedPtr (take (Z.to_nat length) data) m with
        | None => None
        | Some m => vt_write_loop fuel' term feedPtr (drop (Z.to_nat length) data) m
        end
      else Some m
  end.

(** Every round takes at least one byte: one round more than bytes is enough. *)
Definition VTWrite (term feedPtr : Z) (data : bytes) (m : M) : option M :=
  vt_write_loop (S (length data)) term feedPtr data m.
End Wasm.

(** The pieces [VTWrite] cuts its data into. *)
Fixpoint vt_chunks (fuel : nat) (data : bytes) : list bytes :=
  match fuel with
  | O => []
  | S fuel' =>
      match data with
      | [] => []
      | _ => take (Z.to_nat feedBufferSize) data ::
             vt_chunks fuel' (drop (Z.to_nat feedBufferSize) data)
      end
  end.

(** ** Formatter options ([formatter.go]) *)

Definition formatterOptionsSize : Z := 40.
Definition formatterExtraSize : Z := 24.
Definition formatterScreenSize : Z := 12.
Definition selectionSize : Z := 32.

Definition FormatterFormatPlain : Z := 0.
Definition FormatterFormatVT : Z := 1.
Definition FormatterFormatHTML : Z := 2.

(** A selection: the 12 bytes of each grid reference, and the flag. *)
Record Selection := mkSelection { Start : bytes; End_ : bytes; Rectangle : bool }.

Record formatterOpts := mkFormatterOpts {
  fo_format : Z;
  fo_unwrap : bool;
  fo_trim : bool;
  fo_selection : option Selection;
  fo_extraPalette : bool;
  fo_extraModes : bool;
  fo_extraScrolling : bool;
  fo_extraTabstops : bool;
  fo_extraPwd : bool;
  fo_extraKeyboard : bool;
  fo_extraCursor : bool;
  fo_extraStyle : bool;
  fo_extraHyperlink : bool;
  fo_extraProtection : bool;
  fo_extraKittyKeyboard : bool;
  fo_extraCharsets : bool }.

(** The options of [NewFormatter] set one field each. *)
Definition FormatterOption : Type := formatterOpts -> formatterOpts.

Definition WithFormatterFormat (v : Z) : FormatterOption := fun o =>
  mkFormatterOpts v (fo_unwrap o) (fo_trim o) (fo_selection o) (fo_extraPalette o)
    (fo_extraModes o) (fo_extraScrolling o) (fo_extraTabstops o) (fo_extraPwd o)
    (fo_extraKeyboard o) (fo_extraCursor o) (fo_extraStyle o) (fo_extraHyperlink o)
    (fo_extraProtection o) (fo_extraKittyKeyboard o) (fo_extraCharsets o).
Definition WithFormatterUnwrap (v : bool) : FormatterOption := fun o =>
  mkFormatterOpts (fo_format o) v (fo_trim o) (fo_selection o) (fo_extraPalette o)
    (fo_extraModes o) (fo_extraScrolling o) (fo_extraTabstops o) (fo_extraPwd o)
    (fo_extraKeyboard o) (fo_extraCursor o) (fo_extraStyle o) (fo_extraHyperlink o)
    (fo_extraProtection o) (fo_extraKittyKeyboard o) (fo_extraCharsets o).
Definition WithFormatterTrim (v : bool) : FormatterOption := fun o =>
  mkFormatterOpts (fo_format o) (fo_unwrap o) v (fo_selection o) (fo_extraPalette o)
    (fo_extraModes o) (fo_extraScrolling o) (fo_extraTabstops o) (fo_extraPwd o)
    (fo_extraKeyboard o) (fo_extraCursor o) (fo_extraStyle o) (fo_extraHyperlink o)
    (fo_extraProtection o) (fo_extraKittyKeyboard o) (fo_extraCharsets o).
Definition WithFormatterSelection (v : option Selection) : FormatterOption := fun o =>
  mkFormatterOpts (fo_format o) (fo_unwrap o) (fo_trim o) v (fo_extraPalette o)
    (fo_extraModes o) (fo_extraScrolling o) (fo_extraTabstops o) (fo_extraPwd o)
    (fo_extraKeyboard o) (fo_extraCursor o) (fo_extraStyle o) (fo_extraHyperlink o)
    (fo_extraProtection o) (fo_extraKittyKeyboard o) (fo_extraCharsets o).
Definition WithFormatterExtraPalette (v : bool) : FormatterOption := fun o =>
  mkFormatterOpts (fo_format o) (fo_unwrap o) (fo_trim o) (fo_selection o) v (fo_extraModes o)
    (fo_extraScrolling o) (fo_extraTabstops o) (fo_extraPwd o) (fo_extraKeyboard o)
    (fo_extraCursor o) (fo_extraStyle o) (fo_extraHyperlink o) (fo_extraProtection o)
    (fo_extraKittyKeyboard o) (fo_extraCharsets o).
Definition WithFormatterExtraModes (v : bool) : FormatterOption := fun o =>
  mkFormatterOpts (fo_format o) (fo_unwrap o) (fo_trim o) (fo_selection o) (fo_extraPalette o) v
    (fo_extraScrolling o) (fo_extraTabstops o) (fo_extraPwd o) (fo_extraKeyboard o)
    (fo_extraCursor o) (fo_extraStyle o) (fo_extraHyperlink o) (fo_extraProtection o)
    (fo_extraKittyKeyboard o) (fo_extraCharsets o).
Definition WithFormatterExtraScrollingRegion (v : bool) : FormatterOption := fun o =>
  mkFormatterOpts (fo_format o) (fo_unwrap o) (fo_trim o) (fo_selection o) (fo_extraPalette o)
    (fo_extraModes o) v (fo_extraTabstops o) (fo_extraPwd o) (fo_extraKeyboard o)
    (fo_extraCursor o) (fo_extraStyle o) (fo_extraHyperlink o) (fo_extraProtection o)
    (fo_extraKittyKeyboard o) (fo_extraCharsets o).
Definition WithFormatterExtraTabstops (v : bool) : FormatterOption := fun o =>
  mkFormatterOpts (fo_format o) (fo_unwrap o) (fo_trim o) (fo_selection o) (fo_extraPalette o)
    (fo_extraModes o) (fo_extraScrolling o) v (fo_extraPwd o) (fo_extraKeyboard o)
    (fo_extraCursor o) (fo_extraStyle o) (fo_extraHyperlink o) (fo_extraProtection o)
    (fo_extraKittyKeyboard o) (fo_extraCharsets o).
Definition WithFormatterExtraPwd (v : bool) : FormatterOption := fun o =>
  mkFormatterOpts (fo_format o) (fo_unwrap o) (fo_trim o) (fo_selection o) (fo_extraPalette o)
    (fo_extraModes o) (fo_extraScrolling o) (fo_extraTabstops o) v (fo_extraKeyboard o)
    (fo_extraCursor o) (fo_extraStyle o) (fo_extraHyperlink o) (fo_extraProtection o)
    (fo_extraKittyKeyboard o) (fo_extraCharsets o).
Definition WithFormatterExtraKeyboard (v : bool) : FormatterOption := fun o =>
  mkFormatterOpts (fo_format o) (fo_unwrap o) (fo_trim o) (fo_selection o) (fo_extraPalette o)
    (fo_extraModes o) (fo_extraScrolling o) (fo_extraTabstops o) (fo_extraPwd o) v
    (fo_extraCursor o) (fo_extraStyle o) (fo_extraHyperlink o) (fo_extraProtection o)
    (fo_extraKittyKeyboard o) (fo_extraCharsets o).
Definition WithFormatterExtraCursor (v : bool) : FormatterOption := fun o =>
  mkFormatterOpts (fo_format o) (fo_unwrap o) (fo_trim o) (fo_selection o) (fo_extraPalette o)
    (fo_extraModes o) (fo_extraScrolling o) (fo_extraTabstops o) (fo_extraPwd o)
    (fo_extraKeyboard o) v (fo_extraStyle o) (fo_extraHyperlink o) (fo_extraProtection o)
    (fo_extraKittyKeyboard o) (fo_extraCharsets o).
Definition WithFormatterExtraStyle (v : bool) : FormatterOption := fun o =>
  mkFormatterOpts (fo_format o) (fo_unwrap o) (fo_trim o) (fo_selection o) (fo_extraPalette o)
    (fo_extraModes o) (fo_extraScrolling o) (fo_extraTabstops o) (fo_extraPwd o)
    (fo_extraKeyboard o) (fo_extraCursor o) v (fo_extraHyperlink o) (fo_extraProtection o)
    (fo_extraKittyKeyboard o) (fo_extraCharsets o).
Definition WithFormatterExtraHyperlink (v : bool) : FormatterOption := fun o =>
  mkFormatterOpts (fo_format o) (fo_unwrap o) (fo_trim o) (fo_selection o) (fo_extraPalette o)
    (fo_extraModes o) (fo_extraScrolling o) (fo_extraTabstops o) (fo_extraPwd o)
    (fo_extraKeyboard o) (fo_extraCursor o) (fo_extraStyle o) v (fo_extraProtection o)
    (fo_extraKittyKeyboard o) (fo_extraCharsets o).
Definition WithFormatterExtraProtection (v : bool) : FormatterOption := fun o =>
  mkFormatterOpts (fo_format o) (fo_unwrap o) (fo_trim o) (fo_selection o) (fo_extraPalette o)
    (fo_extraModes o) (fo_extraScrolling o) (fo_extraTabstops o) (fo_extraPwd o)
    (fo_extraKeyboard o) (fo_extraCursor o) (fo_extraStyle o) (fo_extraHyperlink o) v
    (fo_extraKittyKeyboard o) (fo_extraCharsets o).
Definition WithFormatterExtraKittyKeyboard (v : bool) : FormatterOption := fun o =>
  mkFormatterOpts (fo_format o) (fo_unwrap o) (fo_trim o) (fo_selection o) (fo_extraPalette o)
    (fo_extraModes o) (fo_extraScrolling o) (fo_extraTabstops o) (fo_extraPwd o)
    (fo_extraKeyboard o) (fo_extraCursor o) (fo_extraStyle o) (fo_extraHyperlink o)
    (fo_extraProtection o) v (fo_extraCharsets o).
Definition WithFormatterExtraCharsets (v : bool) : FormatterOption := fun o =>
  mkFormatterOpts (fo_format o) (fo_unwrap o) (fo_trim o) (fo_selection o) (fo_extraPalette o)
    (fo_extraModes o) (fo_extraScrolling o) (fo_extraTabstops o) (fo_extraPwd o)
    (fo_extraKeyboard o) (fo_extraCursor o) (fo_extraStyle o) (fo_extraHyperlink o)
    (fo_extraProtection o) (fo_extraKittyKeyboard o) v.

(** [formatterOpts{}] and the loop over the options. *)
Definition no_options : formatterOpts :=
  mkFormatterOpts FormatterFormatPlain false false None false false false false false false false
    false false false false false.

Definition apply_options (options : list FormatterOption) : formatterOpts :=
  fold_left (fun opts option => option opts) options no_options.

(** [binary.LittleEndian.PutUint32]. *)
Definition le32 (v : Z) : bytes := rev (be_encode 4 v).

(** Write bytes at an offset of a cleared buffer. *)
Definition put_at (off : nat) (v : bytes) (data : bytes) : bytes :=
  take off data ++ v ++ drop (off + length v) data.

(** The 40 bytes [NewFormatter] passes, without and with a selection. *)
Definition formatter_options (o : formatterOpts) (selectionPtr : Z) : bytes :=
  let data := List.repeat Byte.x00 (Z.to_nat formatterOptionsSize) in
  let data := put_at 0 (le32 formatterOptionsSize) data in
  let data := put_at 4 (le32 (u32 (fo_format o))) data in
  let data := put_at 8 [boolByte (fo_unwrap o)] data in
  let data := put_at 9 [boolByte (fo_trim o)] data in
  let data := put_at 12 (le32 formatterExtraSize) data in
  let data := put_at 16 [boolByte (fo_extraPalette o)] data in
  let data := put_at 17 [boolByte (fo_extraModes o)] data in
  let data := put_at 18 [boolByte (fo_extraScrolling o)] data in
  let data := put_at 19 [boolByte (fo_extraTabstops o)] data in
  let data := put_at 20 [boolByte (fo_extraPwd o)] data in
  let data := put_at 21 [boolByte (fo_extraKeyboard o)] data in
  let data := put_at 24 (le32 formatterScreenSize) data in
  let data := put_at 28 [boolByte (fo_extraCursor o)] data in
  let data := put_at 29 [boolByte (fo_extraStyle o)] data in
  let data := put_at 30 [boolByte (fo_extraHyperlink o)] data in
  let data := put_at 31 [boolByte (fo_extraProtection o)] data in
  let data := put_at 32 [boolByte (fo_extraKittyKeyboard o)] data in
  let data := put_at 33 [boolByte (fo_extraCharsets o)] data in
  match fo_selection o with
  | Some _ => put_at 36 (le32 selectionPtr) data
  | None => data
  end.

Definition selection_bytes (s : Selection) : bytes :=
  let data := List.repeat Byte.x00 (Z.to_nat selectionSize) in
  let data := put_at 0 (le32 selectionSize) data in
  let data := put_at 4 (Start s) data in
  let data := put_at 16 (End_ s) data in
  put_at 28 [boolByte (Rectangle s)] data.

(** ** Lemmas *)

Lemma blen_take_le {A} (n : Z) (l : list A) : 0 <= n <= blen l -> blen (take (Z.to_nat n) l) = n.
Proof. unfold blen. rewrite length_take. lia. Qed.

Lemma vt_chunks_spec fuel data :
  (length data < fuel)%nat ->
  List.concat (vt_chunks fuel data) = data /\
  Forall (fun c => 0 < blen c <= feedBufferSize) (vt_chunks fuel data).
Proof.
  revert data. induction fuel as [|fuel IH]; intros data Hlen; [lia|].
  cbn [vt_chunks]. destruct data as [|b data]; [by split|].
  assert (0 < feedBufferSize) as Hpos by done.
  destruct (IH (drop (Z.to_nat feedBufferSize) (b :: data))) as [Hc Hall].
  { rewrite length_drop. cbn in *. lia. }
  cbn [List.concat]. rewrite Hc, take_drop. split; [done|].
  constructor; [|done]. unfold blen. rewrite length_take. cbn. lia.
Qed.

Section WasmLemmas.
Context {M : Type} `{!Module M}.

(** The memory of the module: what the slice writes is read back, a call never
    shrinks it, and its size is that of a 32-bit address space at most. *)
Class MemoryLaws : Prop := {
  mem_mem_set : forall (m : M) b, mem (mem_set m b) = b;
  mem_vt_write_grows : forall (m : M) t p n, blen (mem m) <= blen (mem (Xghostty_terminal_vt_write m t p n)) }.

Context {HM : MemoryLaws}.
Implicit Types m : M.

Lemma mem_write_length ptr data m :
  0 <= ptr -> ptr + blen data <= blen (mem m) -> blen (mem (mem_write ptr data m)) = blen (mem m).
Proof.
  intros Hp Hl. unfold mem_write. rewrite mem_mem_set. unfold blen in *.
  rewrite !length_app, length_take, length_drop. lia.
Qed.

Lemma mem_write_at ptr data m :
  0 <= ptr -> ptr + blen data <= blen (mem m) ->
  take (length data) (drop (Z.to_nat ptr) (mem (mem_write ptr data m))) = data.
Proof.
  intros Hp Hl. unfold mem_write. rewrite mem_mem_set.
  rewrite drop_app_ge by (rewrite length_take; lia). rewrite length_take.
  replace (Z.to_nat ptr - Z.to_nat ptr `min` length (mem m))%nat with O by (unfold blen in *; lia).
  rewrite drop_0. by rewrite take_app_length.
Qed.

Lemma mem_put_ok ptr data m :
  is_u32 ptr -> is_u32 (blen data) -> ptr + blen data <= blen (mem m) ->
  mem_put ptr data m = (mem_write ptr data m, Ok tt).
Proof.
  intros Hp Hd Hl. unfold mem_put, mem_bytes.
  replace (u32 (blen data)) with (blen data) by (unfold u32; rewrite Z.mod_small; [done|exact Hd]).
  replace (u64 (ptr + blen data)) with (ptr + blen data) by (clear - Hp Hd; width_lia).
  by destruct (Z.ltb_spec (blen (mem m)) (ptr + blen data)); [lia|].
Qed.

(** One call of the module per chunk, the chunk being in the feed buffer. *)
Definition write_chunk (term feedPtr : Z) (m : M) (chunk : bytes) : M :=
  Xghostty_terminal_vt_write (mem_write feedPtr chunk m) (i32 term) (i32 feedPtr) (i32 (blen chunk)).

Lemma vt_write_loop_spec fuel term feedPtr data m :
  is_u32 feedPtr -> feedPtr + feedBufferSize <= blen (mem m) -> (length data < fuel)%nat ->
  vt_write_loop fuel term feedPtr data m =
    Some (foldl (write_chunk term feedPtr) m (vt_chunks fuel data)).
Proof.
  intros Hp. revert data m. induction fuel as [|fuel IH]; intros data m Hm Hlen; [lia|].
  cbn [vt_write_loop vt_chunks]. destruct data as [|b data]; [done|].
  destruct (Z.ltb_spec 0 (blen (b :: data))) as [_|Hz]; [|unfold blen in Hz; cbn in Hz; lia].
  assert (forall l : bytes, take (Z.to_nat (blen l `min` feedBufferSize)) l =
    take (Z.to_nat feedBufferSize) l) as Ht.
  { intros l. destruct (Z.le_ge_cases (blen l) feedBufferSize); [|f_equal; lia].
    rewrite !take_ge; unfold blen in *; [done|lia|lia]. }
  assert (forall l : bytes, drop (Z.to_nat (blen l `min` feedBufferSize)) l =
    drop (Z.to_nat feedBufferSize) l) as Hdr.
  { intros l. destruct (Z.le_ge_cases (blen l) feedBufferSize); [|f_equal; lia].
    rewrite !drop_ge; unfold blen in *; [done|lia|lia]. }
  rewrite Ht, Hdr. set (chunk := take _ (b :: data)). set (rest := drop _ (b :: data)).
  assert (blen chunk <= feedBufferSize) as Hc
    by (unfold chunk, blen; rewrite length_take; unfold feedBufferSize; lia).
  assert (0 <= blen chunk) as Hc0 by (unfold blen; lia).
  assert (feedBufferSize < 2 ^ 32) as Hf by done.
  unfold vt_write_chunk. rewrite mem_put_ok; [|done|unfold is_u32; lia|lia].
  rewrite IH; [done| |].
  - etrans; [|apply mem_vt_write_grows]. rewrite mem_write_length; [done|apply Hp|lia].
  - unfold rest. rewrite length_drop. cbn in *.
    assert (0 < feedBufferSize) by done. lia.
Qed.

(** C38. [VTWrite] gives the terminal all its data, in order, in pieces of at most
    64 KiB, each in the feed buffer when the module is called; it never panics
    as long as the buffer is inside the module's memory. *)
Theorem VTWrite_delivers term feedPtr data m :
  is_u32 feedPtr -> feedPtr + feedBufferSize <= blen (mem m) ->
  let chunks := vt_chunks (S (length data)) data in
  VTWrite term feedPtr data m = Some (foldl (write_chunk term feedPtr) m chunks) /\
  List.concat chunks = data /\ Forall (fun c => 0 < blen c <= feedBufferSize) chunks /\
  forall c m', c ∈ chunks -> blen (mem m) <= blen (mem m') ->
    take (length c) (drop (Z.to_nat feedPtr) (mem (mem_write feedPtr c m'))) = c.
Proof.
  intros Hp Hm chunks. destruct (vt_chunks_spec (S (length data)) data) as [Hc Hall]; [lia|].
  split; [by apply vt_write_loop_spec; [..|lia]|]. split; [done|]. split; [done|].
  intros c m' Hin Hm'. rewrite list.Forall_forall in Hall. apply Hall in Hin.
  apply mem_write_at; [apply Hp | lia].
Qed.
End WasmLemmas.

(** The formatter options are the 40 bytes the module expects: the sizes of the
    structure and of its two parts, the format, each flag at its offset, and
    the selection pointer only when there is a selection. *)
Theorem formatter_options_layout o selectionPtr :
  is_u32 selectionPtr -> is_u32 (fo_format o) ->
  let data := formatter_options o selectionPtr in
  let u32_at n := be_decode (rev (take 4 (drop n data))) in
  let flag_at n b := data !! n = Some (boolByte b) in
  blen data = formatterOptionsSize /\
  u32_at 0%nat = 40 /\ u32_at 4%nat = fo_format o /\ u32_at 12%nat = 24 /\ u32_at 24%nat = 12 /\
  flag_at 8%nat (fo_unwrap o) /\ flag_at 9%nat (fo_trim o) /\ flag_at 16%nat (fo_extraPalette o) /\
  flag_at 17%nat (fo_extraModes o) /\ flag_at 18%nat (fo_extraScrolling o) /\
  flag_at 20%nat (fo_extraPwd o) /\ flag_at 21%nat (fo_extraKeyboard o) /\
  flag_at 28%nat (fo_extraCursor o) /\ flag_at 29%nat (fo_extraStyle o) /\
  flag_at 30%nat (fo_extraHyperlink o) /\ flag_at 31%nat (fo_extraProtection o) /\
  flag_at 32%nat (fo_extraKittyKeyboard o) /\ flag_at 33%nat (fo_extraCharsets o) /\
  u32_at 36%nat = (if fo_selection o then selectionPtr else 0).
Proof.
  intros Hp Hf. assert (forall v, is_u32 v -> be_decode (be_encode 4 v) = v) as Hbe.
  { intros v Hv. rewrite be_decode_encode. apply Z.mod_small, Hv. }
  assert (u32 (fo_format o) = fo_format o) as Hu by (apply Z.mod_small, Hf).
  specialize (Hbe (fo_format o) Hf) as Hbf. specialize (Hbe selectionPtr Hp) as Hbs. clear Hbe.
  unfold formatter_options, le32. rewrite Hu.
  destruct (be_encode 4 (fo_format o)) as [|f1 [|f2 [|f3 [|f4 [|]]]]] eqn:Ef; try discriminate.
  destruct (be_encode 4 selectionPtr) as [|s1 [|s2 [|s3 [|s4 [|]]]]] eqn:Es; try discriminate.
  destruct o as [fmt un tr [sel|] pal mo sc tab pwd kb cu st hy pr kk ch]; cbn in *;
    repeat split; assumption || reflexivity.
Qed.

(** ** A module for examples *)

(** A memory and the list of what was written to the terminal. *)
#[export] Instance log_module : Module (bytes * list bytes) := {
  mem m := m.1;
  mem_set m b := (b, m.2);
  Xghostty_terminal_vt_write m t p n :=
    (m.1, m.2 ++ [take (Z.to_nat n) (drop (Z.to_nat p) m.1)]) }.

Lemma log_module_laws : MemoryLaws (M := bytes * list bytes).
Proof. split; [done|]. intros. done. Qed.

Definition wit_memory : bytes * list bytes := (List.repeat Byte.x00 (Z.to_nat 65600), []).

Lemma VTWrite_delivers_witness :
  VTWrite 4 16 [Byte.x61; Byte.x62] wit_memory =
    Some (foldl (write_chunk 4 16) wit_memory (vt_chunks 3 [Byte.x61; Byte.x62])).
Proof.
  apply (VTWrite_delivers (HM := log_module_laws) 4 16 [Byte.x61; Byte.x62] wit_memory).
  - by split.
  - unfold wit_memory, blen. cbn [mem log_module fst]. rewrite repeat_length, Z2Nat.id by lia. unfold feedBufferSize. lia.
Defined.

Definition wit_opts : formatterOpts :=
  mkFormatterOpts FormatterFormatVT true true None false true true false true true true true true
    true true true.

Lemma formatter_options_layout_witness :
  blen (formatter_options wit_opts 0) = formatterOptionsSize.
Proof. apply (formatter_options_layout wit_opts 0); by vm_compute. Defined.
