(* ===== verification/Proc.v ===== *)
(** * Proc: handler code as sequences of atomic operations

    A request handler runs concurrently with the other connections, the watchers
    of the sessions and the shutdown. Its code is a [proc]: a tree of atomic
    operations (a section under the server's mutex, a file-system call, a message
    to a session's loop, a write on the connection), each continuing with the
    answer the rest of the system gives. A theorem over all answers of all
    operations holds in every interleaving. *)
From stdpp Require Import base list.
From S2P Require Import Prelude.

Section Proc.
Context {op : Type -> Type}.

Inductive proc (A : Type) : Type :=
| Ret (a : A)
| Do (B : Type) (o : op B) (k : B -> proc A).

(** An operation with its answer. *)
Inductive step : Type := Step (B : Type) (o : op B) (b : B).

(** [p] can do the operations of [tr] with those answers and return [a]. *)
Inductive runs (A : Type) : proc A -> list step -> A -> Prop :=
| runs_ret a : runs A (Ret A a) [] a
| runs_do B o k b tr a :
    runs A (k b) tr a -> runs A (Do A B o k) (Step B o b :: tr) a.

(** What holds of every run: of its operations and its result. *)
Fixpoint wp {A} (p : proc A) (Q : list step -> A -> Prop) : Prop :=
  match p with
  | Ret _ a => Q [] a
  | Do _ B o k => forall b : B, wp (k b) (fun tr a => Q (Step B o b :: tr) a)
  end.

Fixpoint bind {A A'} (p : proc A) (f : A -> proc A') : proc A' :=
  match p with
  | Ret _ a => f a
  | Do _ B o k => Do A' B o (fun b => bind (k b) f)
  end.

(** What [defer] does: [after] runs however [body] ends. *)
Definition deferred {A} (after : proc unit) (body : proc A) : proc A :=
  bind body (fun a => bind after (fun _ => Ret A a)).

Lemma wp_runs {A} (p : proc A) Q tr a : wp p Q -> runs A p tr a -> Q tr a.
Proof.
  intros Hw Hr. revert Q Hw. induction Hr as [a|B o k b tr a Hr IH]; intros Q Hw; [exact Hw|].
  apply (IH (fun tr a => Q (Step B o b :: tr) a)), Hw.
Qed.

Lemma wp_mono {A} (p : proc A) Q Q' :
  (forall tr a, Q tr a -> Q' tr a) -> wp p Q -> wp p Q'.
Proof.
  revert Q Q'. induction p as [a|B o k IH]; intros Q Q' HQ Hw; [by apply HQ|].
  intros b. apply (IH b (fun tr a => Q (Step B o b :: tr) a)); [|apply Hw].
  intros; by apply HQ.
Qed.

Lemma wp_bind {A A'} (p : proc A) (f : A -> proc A') Q :
  wp p (fun tr a => wp (f a) (fun tr' b => Q (tr ++ tr') b)) -> wp (bind p f) Q.
Proof.
  revert Q. induction p as [a|B o k IH]; intros Q Hw; [exact Hw|].
  intros b. apply IH, Hw.
Qed.

Lemma wp_true {A} (p : proc A) (Q : list step -> A -> Prop) : (forall tr a, Q tr a) -> wp p Q.
Proof. revert Q. induction p as [a|B o k IH]; intros Q HQ; simpl; auto. Qed.

Lemma wp_and {A} (p : proc A) (Q Q' : list step -> A -> Prop) :
  wp p Q -> wp p Q' -> wp p (fun tr a => Q tr a /\ Q' tr a).
Proof.
  revert Q Q'. induction p as [a|B o k IH]; intros Q Q'; simpl; [done|]. intros H H' b.
  apply (IH b (fun tr a => Q (Step B o b :: tr) a) (fun tr a => Q' (Step B o b :: tr) a)); auto.
Qed.

(** *** Programs over a state of the outside

    [legal] says when an operation may be done, [allowed] which answers the outside
    may give to it, [next] what then becomes of the outside. *)
Section Safe.
Context {W : Type} (legal : forall B, op B -> W -> Prop).
Context (allowed : forall B, op B -> B -> W -> Prop) (next : forall B, op B -> B -> W -> W).

(** Every operation is legal, and at the end [Q] holds of the outside and the result. *)
Fixpoint safe {A} (p : proc A) (w : W) (Q : W -> A -> Prop) : Prop :=
  match p with
  | Ret _ a => Q w a
  | Do _ B o k =>
      legal B o w /\ forall b : B, allowed B o b w -> safe (k b) (next B o b w) Q
  end.

(** A run whose answers are all allowed. *)
Inductive answered : list step -> W -> W -> Prop :=
| answered_nil w : answered [] w w
| answered_cons B o b tr w w' :
    allowed B o b w -> answered tr (next B o b w) w' -> answered (Step B o b :: tr) w w'.

(** Every operation of a run is legal when it is done. *)
Inductive all_legal : list step -> W -> Prop :=
| all_legal_nil w : all_legal [] w
| all_legal_cons B o b tr w :
    legal B o w -> all_legal tr (next B o b w) -> all_legal (Step B o b :: tr) w.

(** The first step of an answered run. *)
Lemma answered_inv B o b tr w w' :
  answered (Step B o b :: tr) w w' -> allowed B o b w /\ answered tr (next B o b w) w'.
Proof.
  intros Ha. refine (match Ha in answered t v v' return
    match t with
    | Step B o b :: tr => allowed B o b v /\ answered tr (next B o b v) v'
    | [] => True
    end with
    | answered_nil w => I
    | answered_cons B o b tr w w' Hb Hn => conj Hb Hn
    end).
Qed.

Lemma safe_mono {A} (p : proc A) w (Q Q' : W -> A -> Prop) :
  (forall w a, Q w a -> Q' w a) -> safe p w Q -> safe p w Q'.
Proof.
  intros HQ. revert w. induction p as [a|B o k IH]; intros w; cbn [safe]; [apply HQ|].
  intros [Hl Hk]. split; [done|]. intros b Hb. by apply IH, Hk.
Qed.

Lemma safe_bind {A A'} (p : proc A) (f : A -> proc A') w Q :
  safe p w (fun w a => safe (f a) w Q) -> safe (bind p f) w Q.
Proof.
  revert w. induction p as [a|B o k IH]; intros w; cbn [safe bind]; [done|].
  intros [Hl Hk]. split; [done|]. intros b Hb. by apply IH, Hk.
Qed.

Lemma safe_run {A} (p : proc A) w w' Q tr a :
  safe p w Q -> runs A p tr a -> answered tr w w' -> all_legal tr w /\ Q w' a.
Proof.
  intros Hs Hr. revert w Hs. induction Hr as [a|B o k b tr a Hr IH]; intros w Hs Ha.
  - inversion Ha; subst. split; [constructor|done].
  - apply answered_inv in Ha as [Hb Ha]. destruct Hs as [Hl Hk].
    destruct (IH _ (Hk b Hb) Ha) as [Hall HQ]. split; [by constructor|done].
Qed.
(** A run with the answers of a function: one that is always allowed to give its
    answers always has a run. *)
Fixpoint drive {A} (answer : forall B, op B -> W -> B) (p : proc A) (w : W) : list step * A * W :=
  match p with
  | Ret _ a => ([], a, w)
  | Do _ B o k =>
      let b := answer B o w in
      let '(tr, a, w') := drive answer (k b) (next B o b w) in
      (Step B o b :: tr, a, w')
  end.

Lemma drive_runs {A} answer (p : proc A) w tr a w' :
  (forall B (o : op B) w, allowed B o (answer B o w) w) ->
  drive answer p w = (tr, a, w') -> runs A p tr a /\ answered tr w w'.
Proof.
  intros Hok. revert w tr a w'. induction p as [a0|B o k IH]; intros w tr a w'; cbn [drive].
  - intros [= <- <- <-]. split; constructor.
  - destruct (drive answer _ _) as [[tr1 a1] w1] eqn:Hd. intros [= <- <- <-].
    destruct (IH _ _ _ _ _ Hd) as [H1 H2]. split; constructor; auto.
Qed.
End Safe.

(** Every [proc] has a run for any way of answering. *)
Lemma runs_total {A} (p : proc A) (answer : forall B, op B -> B) :
  exists tr a, runs A p tr a.
Proof.
  induction p as [a|B o k IH]; [exists [], a; constructor|].
  destruct (IH (answer B o)) as (tr & a & Hr). exists (Step B o (answer B o) :: tr), a.
  by constructor.
Qed.
End Proc.

Arguments proc : clear implicits.
Arguments step : clear implicits.
Arguments Ret {op A} _.
Arguments Do {op A B} & _ _.
Arguments bind {op A A'} & _ _.
Arguments deferred {op A} _ & _.
Arguments Step {op B} _ _.
Arguments runs {op A} _ _ _.
Arguments safe {op W} _ _ _ {A} _ _ _.
Arguments answered {op W} _ _ _ _ _.
Arguments all_legal {op W} _ _ _ _.
Arguments drive {op W} _ {A} _ _ _.

Declare Scope proc_scope.
Delimit Scope proc_scope with proc.
Notation "'do!' x := o 'in' k" := (Do o (fun x => k))
  (at level 10, x pattern, o at level 200, k at level 200) : proc_scope.
Notation "'call!' x := p 'in' k" := (bind p (fun x => k))
  (at level 10, x pattern, p at level 200, k at level 200) : proc_scope.
#[global] Open Scope proc_scope.

(** Symbolic execution: every operation with every answer, every case. *)
Ltac destruct_inner x :=
  lazymatch x with
  | context [match ?y with _ => _ end] => destruct_inner y
  | _ => destruct x eqn:?
  end.
Ltac wp_head p :=
  lazymatch p with
  | bind ?q _ => wp_head q
  | match ?x with _ => _ end => destruct_inner x
  end.
Ltac wp_go :=
  repeat (cbn [wp bind app];
    match goal with
    | |- wp ?p _ => wp_head p
    | |- forall _, _ => intros ?
    end).

(** A given run. *)
Ltac run_go := repeat first [apply runs_ret | apply runs_do].
