(* ===== verification/GhosttyCalls.v ===== *)
(** * GhosttyCalls: passing values through the memory of the module

    The methods of [KeyEncoder], [KeyEvent], [Terminal], [Formatter] and
    [SnapshotDecoder] as programs of the module's operations: blocks are allocated
    and freed, slices of its memory are taken, and objects are created through a
    slot. Every method holds the runtime's mutex, so its operations are not
    interleaved with those of another. [GhosttyMem.v] proves how they treat the
    module's memory. *)
From Stdlib Require Import ZArith Lia.
From stdpp Require Import base list strings numbers option countable.
From S2P Require Import Prelude Wire Ghostty Proc.
#[local] Open Scope Z_scope.

(** ** The operations of the module *)

Inductive kind := KEncoder | KEvent | KTerminal | KFormatter | KDecoder.

#[export] Instance kind_eq_dec : EqDecision kind.
Proof. solve_decision. Defined.
Definition kind_to_nat (k : kind) : nat :=
  match k with KEncoder => 0 | KEvent => 1 | KTerminal => 2 | KFormatter => 3 | KDecoder => 4 end.
Definition kind_of_nat (n : nat) : kind :=
  match n with 0 => KEncoder | 1 => KEvent | 2 => KTerminal | 3 => KFormatter | _ => KDecoder end%nat.
#[export] Instance kind_countable : Countable kind.
Proof. apply (inj_countable' kind_to_nat kind_of_nat). by intros []. Defined.

(** The fields of a key event that are plain numbers. *)
Inductive field := FAction | FKey | FMods | FConsumedMods | FComposing | FUnshiftedCodepoint.

(** The functions the module exports, with their arguments. *)
Inductive export :=
| key_encoder_new (alloc slot : Z)
| key_event_new (alloc slot : Z)
| terminal_new (alloc slot cols rows : Z)
| formatter_terminal_new (alloc slot term opts : Z)
| snapshot_decoder_new_buf (alloc slot source length : Z)
| snapshot_decoder_decode (dec slot : Z)
| key_encoder_free (p : Z)
| key_event_free (p : Z)
| terminal_free (p : Z)
| formatter_free (p : Z)
| snapshot_decoder_free (p : Z)
| key_encoder_setopt (enc option value : Z)
| key_encoder_setopt_from_terminal (enc term : Z)
| key_encoder_encode (enc event buf size written : Z)
| key_event_set (f : field) (event value : Z)
| key_event_get (f : field) (event : Z)
| key_event_set_utf8 (event p size : Z)
| key_event_get_utf8 (event size : Z)
| snapshot_encode_alloc (term alloc out size : Z)
| snapshot_decoder_set (dec option value : Z)
| terminal_reset (term : Z)
| terminal_resize (term cols rows width height : Z)
| terminal_vt_write (term p size : Z)
| terminal_set (term option value : Z)
| terminal_get (term data out : Z)
| terminal_grid_ref (term point ref : Z)
| formatter_format_alloc (fmt alloc out size : Z)
| formatter_format_buf (fmt buf size written : Z).

(** [MemLen] takes the slice of the whole memory; reads and writes go through it. *)
Inductive op : Type -> Type :=
| MemLen : op Z
| MemRead (p n : Z) : op bytes
| MemWrite (p : Z) (data : bytes) : op unit
| WasmAlloc (n : Z) : op Z
| WasmFree (p n : Z) : op unit
| AllocOpaque : op Z
| FreeOpaque (slot : Z) : op unit
| TakeOpaque (slot : Z) : op Z
| GhosttyFree (alloc p n : Z) : op unit
| Call (f : export) : op Z.

#[local] Abbreviation proc := (proc op).

(** ** The runtime ([wasm.go]) *)

Definition rt_alloc (length : Z) : proc (result Z) :=
  if length =? 0 then Ret (Ok 0)
  else
    do! r := WasmAlloc (i32 length) in
    let ptr := u32 r in
    if ptr =? 0 then Ret (Err (ghostty_error ResultOutOfMemory)) else Ret (Ok ptr).

Definition rt_free (ptr length : Z) : proc unit :=
  if negb (ptr =? 0) then do! _ := WasmFree (i32 ptr) (i32 length) in Ret tt else Ret tt.

(** [opaque(constructor)]; the slot is freed by a [defer]. *)
Definition rt_opaque (constructor : Z -> export) : proc (result Z) :=
  do! s := AllocOpaque in
  let slot := u32 s in
  if slot =? 0 then Ret (Err (ghostty_error ResultOutOfMemory))
  else
    deferred (do! _ := FreeOpaque (i32 slot) in Ret tt)
      (do! res := Call (constructor slot) in
       match resultError res with
       | Some e => Ret (Err e)
       | None =>
           do! p := TakeOpaque (i32 slot) in
           let ptr := u32 p in
           if ptr =? 0 then Ret (Err (ghostty_error ResultOutOfMemory)) else Ret (Ok ptr)
       end).

(** [bytes(ptr, length)]: [None] when the slice [ptr, ptr+length) is in the memory. *)
Definition rt_bytes (ptr length : Z) : proc (option error) :=
  do! memory := MemLen in
  if memory <? u64 (u64 ptr + u64 length)
  then Ret (Some (Errorf "libghostty: invalid wasm memory range")) else Ret None.

Definition rt_put (ptr : Z) (data : bytes) : proc (option error) :=
  call! err := rt_bytes ptr (u32 (blen data)) in
  match err with
  | Some e => Ret (Some e)
  | None => do! _ := MemWrite ptr data in Ret None
  end.

(** The shape of most methods: allocate, return [failed] of the error, and free the
    block by a [defer]. *)
Definition with_alloc {A} (length : Z) (failed : error -> A) (body : Z -> proc A) : proc A :=
  call! r := rt_alloc length in
  match r with
  | Err e => Ret (failed e)
  | Ok ptr => deferred (rt_free ptr length) (body ptr)
  end.

(** Take the slice, and go on when it is in range. *)
Definition with_bytes {A} (ptr length : Z) (failed : error -> A) (body : proc A) : proc A :=
  call! err := rt_bytes ptr length in
  match err with
  | Some e => Ret (failed e)
  | None => body
  end.

Definition value32 (value : Z) (f : Z -> export) : proc (option error) :=
  with_alloc 4 Some (fun ptr =>
    with_bytes ptr 4 Some
      (do! _ := MemWrite ptr (le32 value) in
       do! r := Call (f ptr) in
       Ret (resultError r))).

Definition le_decode (b : bytes) : Z := be_decode (rev b).
Definition le16 (v : Z) : bytes := rev (be_encode 2 v).

(** A method that may panic. *)
Inductive out (A : Type) : Type :=
| Returned (a : A)
| Panicked (e : error).
Arguments Returned {A} _.
Arguments Panicked {A} _.

(** ** Key encoder ([key_encoder.go]) *)

Record KeyEncoder := mkKeyEncoder { enc_ptr : Z }.

Definition KeyEncoderOptKittyFlags : Z := 5.
Definition KeyEncoderOptMacOSOptionAsAlt : Z := 6.

Definition NewKeyEncoder : proc (result KeyEncoder) :=
  call! r := rt_opaque (fun slot => key_encoder_new 0 (i32 slot)) in
  Ret (match r with Err e => Err e | Ok ptr => Ok (mkKeyEncoder ptr) end).

Definition KeyEncoder_Close (enc : KeyEncoder) : proc KeyEncoder :=
  if enc_ptr enc =? 0 then Ret enc
  else
    do! _ := Call (key_encoder_free (i32 (enc_ptr enc))) in
    Ret (mkKeyEncoder 0).

Definition SetOptBool (enc : KeyEncoder) (option : Z) (value : bool) : proc (out unit) :=
  with_alloc 1 Panicked (fun ptr =>
    with_bytes ptr 1 Panicked
      (do! _ := MemWrite ptr [boolByte value] in
       do! _ := Call (key_encoder_setopt (i32 (enc_ptr enc)) (i32 option) (i32 ptr)) in
       Ret (Returned tt))).

Definition SetOptKittyFlags (enc : KeyEncoder) (flags : Z) : proc (out unit) :=
  with_alloc 1 Panicked (fun ptr =>
    with_bytes ptr 1 Panicked
      (do! _ := MemWrite ptr [byte_of_Z flags] in
       do! _ := Call (key_encoder_setopt (i32 (enc_ptr enc)) (i32 KeyEncoderOptKittyFlags) (i32 ptr)) in
       Ret (Returned tt))).

Definition SetOptOptionAsAlt (enc : KeyEncoder) (value : Z) : proc (out unit) :=
  with_alloc 4 Panicked (fun ptr =>
    with_bytes ptr 4 Panicked
      (do! _ := MemWrite ptr (le32 (u32 value)) in
       do! _ := Call (key_encoder_setopt (i32 (enc_ptr enc)) (i32 KeyEncoderOptMacOSOptionAsAlt) (i32 ptr)) in
       Ret (Returned tt))).

Definition SetOptFromTerminal (enc : KeyEncoder) (term : Z) : proc unit :=
  do! _ := Call (key_encoder_setopt_from_terminal (i32 (enc_ptr enc)) (i32 term)) in
  Ret tt.

(** ** Key event ([key_event.go]) *)

Record KeyEvent := mkKeyEvent { ev_ptr : Z; utf8Ptr : Z; utf8Len : Z }.

Definition NewKeyEvent : proc (result KeyEvent) :=
  call! r := rt_opaque (fun slot => key_event_new 0 (i32 slot)) in
  Ret (match r with Err e => Err e | Ok ptr => Ok (mkKeyEvent ptr 0 0) end).

Definition KeyEvent_Close (e : KeyEvent) : proc KeyEvent :=
  if ev_ptr e =? 0 then Ret e
  else
    do! _ := Call (key_event_free (i32 (ev_ptr e))) in
    call! _ := rt_free (utf8Ptr e) (utf8Len e) in
    Ret (mkKeyEvent 0 0 0).

Definition SetAction (e : KeyEvent) (action : Z) : proc unit :=
  do! _ := Call (key_event_set FAction (i32 (ev_ptr e)) (i32 action)) in Ret tt.
Definition Action (e : KeyEvent) : proc Z :=
  do! r := Call (key_event_get FAction (i32 (ev_ptr e))) in Ret r.
Definition SetKey (e : KeyEvent) (key : Z) : proc unit :=
  do! _ := Call (key_event_set FKey (i32 (ev_ptr e)) (i32 key)) in Ret tt.
Definition Key (e : KeyEvent) : proc Z :=
  do! r := Call (key_event_get FKey (i32 (ev_ptr e))) in Ret r.
Definition SetMods (e : KeyEvent) (mods : Z) : proc unit :=
  do! _ := Call (key_event_set FMods (i32 (ev_ptr e)) (i32 mods)) in Ret tt.
Definition Mods (e : KeyEvent) : proc Z :=
  do! r := Call (key_event_get FMods (i32 (ev_ptr e))) in Ret (u16 r).
Definition SetConsumedMods (e : KeyEvent) (mods : Z) : proc unit :=
  do! _ := Call (key_event_set FConsumedMods (i32 (ev_ptr e)) (i32 mods)) in Ret tt.
Definition ConsumedMods (e : KeyEvent) : proc Z :=
  do! r := Call (key_event_get FConsumedMods (i32 (ev_ptr e))) in Ret (u16 r).
Definition SetComposing (e : KeyEvent) (composing : bool) : proc unit :=
  do! _ := Call (key_event_set FComposing (i32 (ev_ptr e)) (i32 (Z_of_byte (boolByte composing)))) in Ret tt.
Definition Composing (e : KeyEvent) : proc bool :=
  do! r := Call (key_event_get FComposing (i32 (ev_ptr e))) in Ret (negb (r =? 0)).
Definition SetUnshiftedCodepoint (e : KeyEvent) (codepoint : Z) : proc unit :=
  do! _ := Call (key_event_set FUnshiftedCodepoint (i32 (ev_ptr e)) (i32 codepoint)) in Ret tt.
Definition UnshiftedCodepoint (e : KeyEvent) : proc Z :=
  do! r := Call (key_event_get FUnshiftedCodepoint (i32 (ev_ptr e))) in Ret (i32 r).

(** The end of [SetUTF8]. *)
Definition set_utf8 (e : KeyEvent) : proc (out unit * KeyEvent) :=
  do! _ := Call (key_event_set_utf8 (i32 (ev_ptr e)) (i32 (utf8Ptr e)) (i32 (utf8Len e))) in
  Ret (Returned tt, e).

Definition SetUTF8 (e : KeyEvent) (value : bytes) : proc (out unit * KeyEvent) :=
  call! _ := rt_free (utf8Ptr e) (utf8Len e) in
  let e := mkKeyEvent (ev_ptr e) 0 0 in
  if blen value =? 0 then set_utf8 e
  else
    match wasmLength (blen value) with
    | Err err => Ret (Panicked err, e)
    | Ok length =>
        call! r := rt_alloc length in
        match r with
        | Err err => Ret (Panicked err, e)
        | Ok ptr =>
            call! err := rt_put ptr value in
            match err with
            | Some err => Ret (Panicked err, e)
            | None => set_utf8 (mkKeyEvent (ev_ptr e) ptr length)
            end
        end
    end.

Definition UTF8 (e : KeyEvent) : proc (out bytes) :=
  with_alloc 4 Panicked (fun lengthPtr =>
    do! p := Call (key_event_get_utf8 (i32 (ev_ptr e)) (i32 lengthPtr)) in
    let ptr := u32 p in
    with_bytes lengthPtr 4 Panicked
      (do! lengthData := MemRead lengthPtr 4 in
       let length := le_decode lengthData in
       with_bytes ptr length Panicked
         (do! data := MemRead ptr length in
          Ret (Returned data)))).

(** [Encode]: the buffer as it is when the deferred functions run comes with the
    result. *)
Definition encode_result (bufferPtr length result : Z) : proc (Prelude.result bytes) :=
  match resultError result with
  | Some e => Ret (Err e)
  | None => with_bytes bufferPtr length Err (do! data := MemRead bufferPtr length in Ret (Ok data))
  end.

(** One call of the encoder: its result and the length it reports. *)
Definition encode_once (enc : KeyEncoder) (event : KeyEvent) (bufferPtr bufferLen lengthPtr : Z) :
    proc (result (Z * Z)) :=
  do! r := Call (key_encoder_encode (i32 (enc_ptr enc)) (i32 (ev_ptr event)) (i32 bufferPtr)
                   (i32 bufferLen) (i32 lengthPtr)) in
  with_bytes lengthPtr 4 Err
    (do! lengthData := MemRead lengthPtr 4 in
     Ret (Ok (r, le_decode lengthData))).

Definition encode_buffered (enc : KeyEncoder) (event : KeyEvent) (bufferPtr bufferLen lengthPtr : Z) :
    proc (result bytes * Z * Z) :=
  call! r := encode_once enc event bufferPtr bufferLen lengthPtr in
  match r with
  | Err e => Ret (Err e, bufferPtr, bufferLen)
  | Ok (result, length) =>
      if result =? ResultOutOfSpace then
        call! _ := rt_free bufferPtr bufferLen in
        let bufferLen := length in
        call! r := rt_alloc bufferLen in
        match r with
        | Err e => Ret (Err e, 0, bufferLen)
        | Ok bufferPtr =>
            call! r := encode_once enc event bufferPtr bufferLen lengthPtr in
            match r with
            | Err e => Ret (Err e, bufferPtr, bufferLen)
            | Ok (result, length) =>
                call! r := encode_result bufferPtr length result in
                Ret (r, bufferPtr, bufferLen)
            end
        end
      else
        call! r := encode_result bufferPtr length result in
        Ret (r, bufferPtr, bufferLen)
  end.

Definition Encode (enc : KeyEncoder) (event : KeyEvent) : proc (result bytes) :=
  with_alloc 4 Err (fun lengthPtr =>
    let bufferLen := 128 in
    call! r := rt_alloc bufferLen in
    match r with
    | Err e => Ret (Err e)
    | Ok bufferPtr =>
        call! (r, bufferPtr, bufferLen) := encode_buffered enc event bufferPtr bufferLen lengthPtr in
        call! _ := rt_free bufferPtr bufferLen in
        Ret r
    end).

(** ** Terminal ([terminal.go], [terminal_data.go], [grid_ref.go]) *)

Record Terminal := mkTerminal { t_ptr : Z; feedPtr : Z }.

Record TerminalConfig := mkTerminalConfig {
  Cols : Z;
  Rows : Z;
  MaxScrollbackLines : option Z;
  ContinuationMaxBytes : option Z }.

Definition WithSize (cols rows : Z) (c : TerminalConfig) : TerminalConfig :=
  mkTerminalConfig cols rows (MaxScrollbackLines c) (ContinuationMaxBytes c).
Definition WithMaxScrollbackLines (lines : Z) (c : TerminalConfig) : TerminalConfig :=
  mkTerminalConfig (Cols c) (Rows c) (Some lines) (ContinuationMaxBytes c).
Definition WithContinuationMaxBytes (limit : Z) (c : TerminalConfig) : TerminalConfig :=
  mkTerminalConfig (Cols c) (Rows c) (MaxScrollbackLines c) (Some limit).

Definition terminalOptionScrollbackMaxLines : Z := 28.
Definition terminalOptionContinuationMaxBytes : Z := 31.

Definition wrapTerminalLocked (ptr : Z) : proc (result Terminal) :=
  call! r := rt_alloc feedBufferSize in
  Ret (match r with Err e => Err e | Ok feed => Ok (mkTerminal ptr feed) end).

Definition closeLocked (t : Terminal) : proc Terminal :=
  let rest := call! _ := rt_free (feedPtr t) feedBufferSize in Ret (mkTerminal 0 0) in
  if negb (t_ptr t =? 0) then do! _ := Call (terminal_free (i32 (t_ptr t))) in rest else rest.

Definition Terminal_Close (t : Terminal) : proc Terminal := closeLocked t.

Definition set_limit (t : Terminal) (option limit : Z) : proc (Datatypes.option error) :=
  match wasmUint limit with
  | Err e => Ret (Some e)
  | Ok value => value32 value (fun ptr => terminal_set (i32 (t_ptr t)) (i32 option) (i32 ptr))
  end.

Definition setContinuationMaxBytesLocked (t : Terminal) (limit : Z) : proc (option error) :=
  set_limit t terminalOptionContinuationMaxBytes limit.

Definition setScrollbackMaxLinesLocked (t : Terminal) (limit : option Z) : proc (option error) :=
  match limit with
  | None =>
      do! r := Call (terminal_set (i32 (t_ptr t)) (i32 terminalOptionScrollbackMaxLines) 0) in
      Ret (resultError r)
  | Some limit => set_limit t terminalOptionScrollbackMaxLines limit
  end.

Definition SetContinuationMaxBytes (t : Terminal) (limit : Z) := setContinuationMaxBytesLocked t limit.
Definition SetScrollbackMaxLines (t : Terminal) (limit : option Z) := setScrollbackMaxLinesLocked t limit.

(** One optional setting of [NewTerminal]: on an error the terminal is closed. *)
Definition set_or_close {A} (t : Terminal) (setting : option A) (set : A -> proc (option error))
    (rest : proc (result Terminal)) : proc (result Terminal) :=
  match setting with
  | None => rest
  | Some v =>
      call! err := set v in
      match err with
      | Some e => call! _ := closeLocked t in Ret (Err e)
      | None => rest
      end
  end.

Definition NewTerminal (opts : list (TerminalConfig -> TerminalConfig)) : proc (result Terminal) :=
  let cfg := foldl (fun c opt => opt c) (mkTerminalConfig 0 0 None None) opts in
  call! r := rt_opaque (fun slot => terminal_new 0 (i32 slot) (i32 (Cols cfg)) (i32 (Rows cfg))) in
  match r with
  | Err e => Ret (Err e)
  | Ok ptr =>
      call! r := wrapTerminalLocked ptr in
      match r with
      | Err e => do! _ := Call (terminal_free (i32 ptr)) in Ret (Err e)
      | Ok t =>
          set_or_close t (MaxScrollbackLines cfg) (fun n => setScrollbackMaxLinesLocked t (Some n))
            (set_or_close t (ContinuationMaxBytes cfg) (setContinuationMaxBytesLocked t)
               (Ret (Ok t)))
      end
  end.

Definition Reset (t : Terminal) : proc unit :=
  do! _ := Call (terminal_reset (i32 (t_ptr t))) in Ret tt.

Definition Terminal_Resize (t : Terminal) (cols rows cellWidthPx cellHeightPx : Z) : proc (option error) :=
  do! r := Call (terminal_resize (i32 (t_ptr t)) (i32 cols) (i32 rows) (i32 cellWidthPx) (i32 cellHeightPx)) in
  Ret (resultError r).

(** [VTWrite] over the pieces into which its loop cuts the data ([vt_chunks], as
    [vt_write_loop_spec] shows). *)
Fixpoint feed_chunks (t : Terminal) (chunks : list bytes) : proc (out unit) :=
  match chunks with
  | [] => Ret (Returned tt)
  | chunk :: chunks =>
      call! err := rt_put (feedPtr t) chunk in
      match err with
      | Some e => Ret (Panicked e)
      | None =>
          do! _ := Call (terminal_vt_write (i32 (t_ptr t)) (i32 (feedPtr t)) (i32 (blen chunk))) in
          feed_chunks t chunks
      end
  end.

Definition feed (t : Terminal) (data : bytes) : proc (out unit) :=
  feed_chunks t (vt_chunks (S (length data)) data).

Definition terminalDataCols : Z := 1.
Definition terminalDataRows : Z := 2.
Definition terminalDataCursorX : Z := 3.
Definition terminalDataCursorY : Z := 4.
Definition terminalDataActiveScreen : Z := 6.
Definition terminalDataPwd : Z := 13.
Definition terminalDataVTGround : Z := 38.

(** Read a value of [size] bytes: what all getters share. *)
Definition get_data {A} (t : Terminal) (data size : Z) (failed : error -> A)
    (found : bytes -> proc A) : proc A :=
  with_alloc size failed (fun ptr =>
    do! r := Call (terminal_get (i32 (t_ptr t)) (i32 data) (i32 ptr)) in
    match resultError r with
    | Some e => Ret (failed e)
    | None => with_bytes ptr size failed (do! value := MemRead ptr size in found value)
    end).

Definition getUint16 (t : Terminal) (data : Z) : proc (result Z) :=
  get_data t data 2 Err (fun value => Ret (Ok (le_decode value))).
Definition getUint32Locked (t : Terminal) (data : Z) : proc (result Z) :=
  get_data t data 4 Err (fun value => Ret (Ok (le_decode value))).

Definition Terminal_Cols (t : Terminal) := getUint16 t terminalDataCols.
Definition Terminal_Rows (t : Terminal) := getUint16 t terminalDataRows.
Definition CursorX (t : Terminal) := getUint16 t terminalDataCursorX.
Definition CursorY (t : Terminal) := getUint16 t terminalDataCursorY.
Definition ActiveScreen (t : Terminal) := getUint32Locked t terminalDataActiveScreen.
Definition VTGround (t : Terminal) : proc (result bool) :=
  get_data t terminalDataVTGround 1 Err (fun value => Ret (Ok (negb (le_decode value =? 0)))).

(** A terminal without a directory answers [ResultNoValue], which is no error. *)
Definition Pwd (t : Terminal) : proc (result bytes) :=
  with_alloc 8 Err (fun ptr =>
    do! r := Call (terminal_get (i32 (t_ptr t)) (i32 terminalDataPwd) (i32 ptr)) in
    match resultError r with
    | Some e => if r =? ResultNoValue then Ret (Ok []) else Ret (Err e)
    | None =>
        with_bytes ptr 8 Err
          (do! value := MemRead ptr 8 in
           let strPtr := le_decode (take 4 value) in
           let strLen := le_decode (drop 4 value) in
           with_bytes strPtr strLen Err
             (do! data := MemRead strPtr strLen in Ret (Ok data)))
    end).

Record Point := mkPoint { Tag : Z; X : Z; Y : Z }.

Definition pointSize : Z := 24.
Definition gridRefSize : Z := 12.

Definition point_bytes (p : Point) : bytes :=
  let data := List.repeat Byte.x00 (Z.to_nat pointSize) in
  let data := put_at 0 (le32 (u32 (Tag p))) data in
  let data := put_at 8 (le16 (u16 (X p))) data in
  put_at 12 (le32 (Y p)) data.

Definition GridRef (t : Terminal) (point : Point) : proc (result bytes) :=
  with_alloc pointSize Err (fun pointPtr =>
    with_bytes pointPtr pointSize Err
      (do! _ := MemWrite pointPtr (point_bytes point) in
       with_alloc gridRefSize Err (fun refPtr =>
         with_bytes refPtr gridRefSize Err
           (do! _ := MemWrite refPtr (put_at 0 (le32 gridRefSize) (List.repeat Byte.x00 (Z.to_nat gridRefSize))) in
            do! r := Call (terminal_grid_ref (i32 (t_ptr t)) (i32 pointPtr) (i32 refPtr)) in
            match resultError r with
            | Some e => Ret (Err e)
            | None =>
                with_bytes refPtr gridRefSize Err
                  (do! refData := MemRead refPtr gridRefSize in Ret (Ok refData))
            end)))).

(** ** Formatter ([formatter.go]) *)

Record Formatter := mkFormatter { f_ptr : Z }.

Definition new_formatter (t : Terminal) (optionsPtr : Z) : proc (result Formatter) :=
  call! r := rt_opaque (fun slot =>
    formatter_terminal_new 0 (i32 slot) (i32 (t_ptr t)) (i32 optionsPtr)) in
  Ret (match r with Err e => Err e | Ok ptr => Ok (mkFormatter ptr) end).

(** The options are written before the selection is allocated, and the pointer to
    it in a slice taken afterwards. *)
Definition NewFormatter (t : Terminal) (opts : formatterOpts) : proc (result Formatter) :=
  with_alloc formatterOptionsSize Err (fun optionsPtr =>
    with_bytes optionsPtr formatterOptionsSize Err
      (do! _ := MemWrite optionsPtr (formatter_options opts 0) in
       match fo_selection opts with
       | None => new_formatter t optionsPtr
       | Some selection =>
           with_alloc selectionSize Err (fun selectionPtr =>
             with_bytes selectionPtr selectionSize Err
               (do! _ := MemWrite selectionPtr (selection_bytes selection) in
                with_bytes optionsPtr formatterOptionsSize Err
                  (do! _ := MemWrite (optionsPtr + 36) (le32 selectionPtr) in
                   new_formatter t optionsPtr)))
       end)).

Definition Formatter_Close (f : Formatter) : proc Formatter :=
  if f_ptr f =? 0 then Ret f
  else do! _ := Call (formatter_free (i32 (f_ptr f))) in Ret (mkFormatter 0).

(** Output that the module allocates: its pointer and length are in the slot, and a
    [defer] frees it. Shared by [Format] and [Snapshot]. *)
Definition take_output (encode : Z -> Z -> export) : proc (result bytes) :=
  with_alloc 8 Err (fun slot =>
    do! r := Call (encode (i32 slot) (i32 (u32 (slot + 4)))) in
    match resultError r with
    | Some e => Ret (Err e)
    | None =>
        with_bytes slot 8 Err
          (do! output := MemRead slot 8 in
           let ptr := le_decode (take 4 output) in
           let length := le_decode (drop 4 output) in
           deferred (do! _ := GhosttyFree 0 (i32 ptr) (i32 length) in Ret tt)
             (with_bytes ptr length Err
                (do! data := MemRead ptr length in Ret (Ok data))))
    end).

Definition Format (f : Formatter) : proc (result bytes) :=
  take_output (fun out size => formatter_format_alloc (i32 (f_ptr f)) 0 out size).

Definition FormatString (f : Formatter) : proc (result bytes) := Format f.

(** The caller's buffer after the call, with [FormatBuf]'s results. *)
Definition format_buf (f : Formatter) (buf : bytes) (ptr length : Z) : proc (Z * option error * bytes) :=
  let failed e := (0, Some e, buf) in
  with_alloc 4 failed (fun writtenPtr =>
    do! r := Call (formatter_format_buf (i32 (f_ptr f)) (i32 ptr) (i32 length) (i32 writtenPtr)) in
    with_bytes writtenPtr 4 failed
      (do! writtenData := MemRead writtenPtr 4 in
       let written := le_decode writtenData in
       if (r =? ResultSuccess) && (0 <? written) then
         with_bytes ptr written failed
           (do! data := MemRead ptr written in
            let n := Nat.min (List.length buf) (List.length data) in
            Ret (written, resultError r, take n data ++ drop n buf))
       else Ret (written, resultError r, buf))).

Definition FormatBuf (f : Formatter) (buf : bytes) : proc (Z * option error * bytes) :=
  match wasmLength (blen buf) with
  | Err e => Ret (0, Some e, buf)
  | Ok length =>
      if 0 <? blen buf
      then with_alloc length (fun e => (0, Some e, buf)) (fun ptr => format_buf f buf ptr length)
      else format_buf f buf 0 length
  end.

(** ** Snapshots ([snapshot.go]) *)

Definition Snapshot (t : Terminal) : proc (result bytes) :=
  take_output (fun out size => snapshot_encode_alloc (i32 (t_ptr t)) 0 out size).

Record SnapshotDecoder := mkDecoder { d_ptr : Z; sourcePtr : Z; sourceLen : Z }.

Definition snapshotDecoderOptionMaxContinuationBytes : Z := 0.
Definition snapshotDecoderOptionRetainContinuation : Z := 1.

Definition newSnapshotDecoderBytes (data : bytes) : proc (result SnapshotDecoder) :=
  match wasmLength (blen data) with
  | Err e => Ret (Err e)
  | Ok length =>
      call! r := rt_alloc length in
      match r with
      | Err e => Ret (Err e)
      | Ok sourcePtr =>
          call! err := rt_put sourcePtr data in
          match err with
          | Some e => call! _ := rt_free sourcePtr length in Ret (Err e)
          | None =>
              call! r := rt_opaque (fun slot =>
                snapshot_decoder_new_buf 0 (i32 slot) (i32 sourcePtr) (i32 length)) in
              match r with
              | Err e => call! _ := rt_free sourcePtr length in Ret (Err e)
              | Ok ptr => Ret (Ok (mkDecoder ptr sourcePtr length))
              end
          end
      end
  end.

Definition releaseSourceLocked (d : SnapshotDecoder) : proc SnapshotDecoder :=
  call! _ := rt_free (sourcePtr d) (sourceLen d) in
  Ret (mkDecoder (d_ptr d) 0 0).

Definition SnapshotDecoder_Close (d : SnapshotDecoder) : proc SnapshotDecoder :=
  if negb (d_ptr d =? 0) then
    do! _ := Call (snapshot_decoder_free (i32 (d_ptr d))) in
    releaseSourceLocked (mkDecoder 0 (sourcePtr d) (sourceLen d))
  else releaseSourceLocked d.

Definition SetMaxContinuationBytes (d : SnapshotDecoder) (limit : Z) : proc (option error) :=
  match wasmUint limit with
  | Err e => Ret (Some e)
  | Ok value =>
      value32 value (fun ptr =>
        snapshot_decoder_set (i32 (d_ptr d)) snapshotDecoderOptionMaxContinuationBytes (i32 ptr))
  end.

Definition SetRetainContinuation (d : SnapshotDecoder) (retain : bool) : proc (option error) :=
  with_alloc 1 Some (fun ptr =>
    with_bytes ptr 1 Some
      (do! _ := MemWrite ptr [boolByte retain] in
       do! r := Call (snapshot_decoder_set (i32 (d_ptr d)) snapshotDecoderOptionRetainContinuation (i32 ptr)) in
       Ret (resultError r))).

(** The decoder is updated: its source is released after a success. *)
Definition Decode (d : SnapshotDecoder) : proc (result Terminal * SnapshotDecoder) :=
  call! r := rt_opaque (fun slot => snapshot_decoder_decode (i32 (d_ptr d)) (i32 slot)) in
  match r with
  | Err e => Ret (Err e, d)
  | Ok ptr =>
      call! r := wrapTerminalLocked ptr in
      match r with
      | Err e => do! _ := Call (terminal_free (i32 ptr)) in Ret (Err e, d)
      | Ok t => call! d := releaseSourceLocked d in Ret (Ok t, d)
      end
  end.
