(* ===== verification/GhosttyMem.v ===== *)
(** * GhosttyMem: the memory of the module under the methods of [GhosttyCalls.v]

    A machine of what the module has given out: the blocks and objects that are
    live, what an object has borrowed (the text of an event, the source of a decoder,
    the terminal of a formatter), the slot and the output under way, and how long a
    slice of its memory stays valid. A method is [good] when every operation it does is legal there,
    whatever the module answers within its contract. Programs are sequences of
    calls on numbered objects. *)
From Stdlib Require Import ZArith Lia.
From stdpp Require Import base list strings numbers option gmap gmultiset.
From S2P Require Import Prelude Wire Ghostty Proc GhosttyCalls.
#[local] Open Scope Z_scope.

#[local] Abbreviation proc := (proc op).

(** ** The machine *)

(** What an object of the module still points to: bytes that were passed to it, or the
    terminal it was made from. *)
Inductive kept : Type :=
| KBytes (p n : Z)
| KTerm (t : Z).

(** What the module has given out: the blocks, the objects, what each object keeps a
    pointer to, the slot in use with the object in it (and what that will keep), the
    place of an output and that output, and the size of the memory at the last slice
    taken, while no call has been made since. *)
Record world := mkWorld {
  w_blocks : gmultiset (Z * Z);
  w_objs : gmultiset (kind * Z);
  w_kept : gmap (kind * Z) kept;
  w_slot : option (Z * option (kind * option kept));
  w_place : option Z;
  w_output : option (Z * Z);
  w_len : option Z }.

Definition set_blocks b w := mkWorld b (w_objs w) (w_kept w) (w_slot w) (w_place w) (w_output w) (w_len w).
Definition set_objs o w := mkWorld (w_blocks w) o (w_kept w) (w_slot w) (w_place w) (w_output w) (w_len w).
Definition set_kept k w := mkWorld (w_blocks w) (w_objs w) k (w_slot w) (w_place w) (w_output w) (w_len w).
Definition set_slot s w := mkWorld (w_blocks w) (w_objs w) (w_kept w) s (w_place w) (w_output w) (w_len w).
Definition set_place p w := mkWorld (w_blocks w) (w_objs w) (w_kept w) (w_slot w) p (w_output w) (w_len w).
Definition set_output o w := mkWorld (w_blocks w) (w_objs w) (w_kept w) (w_slot w) (w_place w) o (w_len w).
Definition set_len l w := mkWorld (w_blocks w) (w_objs w) (w_kept w) (w_slot w) (w_place w) (w_output w) l.

Definition live (k : kind) (p : Z) (w : world) : Prop := (k, u32 p) ∈ w_objs w.

(** [n] bytes from [p] on lie in a block. *)
Definition in_block (p n : Z) (w : world) : Prop :=
  n = 0 \/ exists b s, (b, s) ∈ w_blocks w /\ b <= u32 p /\ u32 p + n <= b + s.

(** The last slice of the memory has the bytes from [p] on. *)
Definition in_slice (p n : Z) (w : world) : Prop :=
  exists l, w_len w = Some l /\ 0 <= p /\ 0 <= n /\ p + n <= l.

Definition data_size (data : Z) : Z :=
  if data =? terminalDataPwd then 8
  else if data =? terminalDataVTGround then 1
  else if data =? terminalDataActiveScreen then 4
  else 2.

Definition option_size (option : Z) : Z :=
  if option =? KeyEncoderOptMacOSOptionAsAlt then 4 else 1.

Definition free_slot (slot : Z) (w : world) : Prop := w_slot w = Some (u32 slot, None).

(** What an object keeps a pointer to is still there. *)
Definition kept_ok (k : kind) (p : Z) (w : world) : Prop :=
  match w_kept w !! (k, u32 p) with
  | Some (KBytes q n) => in_block q n w
  | Some (KTerm t) => live KTerminal t w
  | None => True
  end.

(** What the module requires of its arguments: live objects, and blocks as long as
    what it reads or writes there. A call that reads what an object keeps a pointer to
    (the text of an event, the source of a decoder, the terminal of a formatter) needs
    it still to be there. *)
Definition legal_call (f : export) (w : world) : Prop :=
  match f with
  | key_encoder_new _ slot => free_slot slot w
  | key_event_new _ slot => free_slot slot w
  | terminal_new _ slot _ _ => free_slot slot w
  | formatter_terminal_new _ slot term opts =>
      free_slot slot w /\ live KTerminal term w /\ in_block opts formatterOptionsSize w
  | snapshot_decoder_new_buf _ slot source length => free_slot slot w /\ in_block source (u32 length) w
  | snapshot_decoder_decode dec slot => free_slot slot w /\ live KDecoder dec w /\ kept_ok KDecoder dec w
  | key_encoder_free p => live KEncoder p w
  | key_event_free p => live KEvent p w
  | terminal_free p => live KTerminal p w
  | formatter_free p => live KFormatter p w
  | snapshot_decoder_free p => live KDecoder p w
  | key_encoder_setopt enc option value => live KEncoder enc w /\ in_block value (option_size option) w
  | key_encoder_setopt_from_terminal enc term => live KEncoder enc w /\ live KTerminal term w
  | key_encoder_encode enc event buf size written =>
      live KEncoder enc w /\ live KEvent event w /\ kept_ok KEvent event w /\ in_block buf (u32 size) w /\ in_block written 4 w
  | key_event_set _ event _ => live KEvent event w
  | key_event_get _ event => live KEvent event w
  | key_event_set_utf8 event p size => live KEvent event w /\ in_block p (u32 size) w
  | key_event_get_utf8 event size => live KEvent event w /\ kept_ok KEvent event w /\ in_block size 4 w
  | snapshot_encode_alloc term _ out size => live KTerminal term w /\ in_block out 4 w /\ in_block size 4 w
  | snapshot_decoder_set dec option value =>
      live KDecoder dec w /\
      in_block value (if option =? snapshotDecoderOptionRetainContinuation then 1 else 4) w
  | terminal_reset term => live KTerminal term w
  | terminal_resize term _ _ _ _ => live KTerminal term w
  | terminal_vt_write term p size => live KTerminal term w /\ in_block p (u32 size) w
  | terminal_set term _ value => live KTerminal term w /\ (value = 0 \/ in_block value 4 w)
  | terminal_get term data out => live KTerminal term w /\ in_block out (data_size data) w
  | terminal_grid_ref term point ref =>
      live KTerminal term w /\ in_block point pointSize w /\ in_block ref gridRefSize w
  | formatter_format_alloc fmt _ out size => live KFormatter fmt w /\ kept_ok KFormatter fmt w /\ in_block out 4 w /\ in_block size 4 w
  | formatter_format_buf fmt buf size written =>
      live KFormatter fmt w /\ kept_ok KFormatter fmt w /\ in_block buf (u32 size) w /\ in_block written 4 w
  end.

Definition legal (B : Type) (o : op B) (w : world) : Prop :=
  match o with
  | MemLen => True
  | MemRead p n => in_slice p n w
  | MemWrite p data => in_slice p (blen data) w /\ in_block p (blen data) w
  | WasmAlloc n => True
  | WasmFree p n => (u32 p, u32 n) ∈ w_blocks w
  | AllocOpaque => w_slot w = None
  | FreeOpaque slot => free_slot slot w
  | TakeOpaque slot => exists k, w_slot w = Some (u32 slot, Some k)
  | GhosttyFree _ p n => w_output w = Some (u32 p, u32 n)
  | Call f => legal_call f w
  end.

(** The contract of the module: its memory has every block it gave out and at most
    2^32 bytes, a block ends in it, and a slot that was filled has an object that is
    not another one. *)
Definition allowed (B : Type) (o : op B) : B -> world -> Prop :=
  match o in op B return B -> world -> Prop with
  | MemLen => fun l w =>
      0 <= l <= 2 ^ 32 /\ forall b s, (b, s) ∈ w_blocks w -> b + s <= l
  | MemRead _ n => fun data _ => blen data = n
  | WasmAlloc n => fun p _ => u32 p + u32 n <= 2 ^ 32
  | TakeOpaque _ => fun p w =>
      u32 p <> 0 /\
      match w_slot w with Some (_, Some (k, _)) => (k, u32 p) ∉ w_objs w | _ => True end
  | _ => fun _ _ => True
  end.

(** The object a successful call puts in its slot, the one it frees, and the place
    where it leaves an output. *)
Definition creates (f : export) : option kind :=
  match f with
  | key_encoder_new _ _ => Some KEncoder
  | key_event_new _ _ => Some KEvent
  | terminal_new _ _ _ _ => Some KTerminal
  | formatter_terminal_new _ _ _ _ => Some KFormatter
  | snapshot_decoder_new_buf _ _ _ _ => Some KDecoder
  | snapshot_decoder_decode _ _ => Some KTerminal
  | _ => None
  end.

Definition frees (f : export) : option (kind * Z) :=
  match f with
  | key_encoder_free p => Some (KEncoder, u32 p)
  | key_event_free p => Some (KEvent, u32 p)
  | terminal_free p => Some (KTerminal, u32 p)
  | formatter_free p => Some (KFormatter, u32 p)
  | snapshot_decoder_free p => Some (KDecoder, u32 p)
  | _ => None
  end.

Definition outputs (f : export) : option Z :=
  match f with
  | snapshot_encode_alloc _ _ out _ => Some (u32 out)
  | formatter_format_alloc _ _ out _ => Some (u32 out)
  | _ => None
  end.

(** What the object a call creates keeps a pointer to, and what one is lent later. *)
Definition borrows (f : export) : option kept :=
  match f with
  | formatter_terminal_new _ _ term _ => Some (KTerm (u32 term))
  | snapshot_decoder_new_buf _ _ source length => Some (KBytes (u32 source) (u32 length))
  | _ => None
  end.

Definition lends (f : export) : option (kind * Z * kept) :=
  match f with
  | key_event_set_utf8 event p size => Some (KEvent, u32 event, KBytes (u32 p) (u32 size))
  | _ => None
  end.

Definition next_call (f : export) (r : Z) (w : world) : world :=
  let w := match creates f, w_slot w with
           | Some k, Some (slot, _) => if r =? 0 then set_slot (Some (slot, Some (k, borrows f))) w else w
           | _, _ => w
           end in
  let w := match frees f with
           | Some o => set_kept (delete o (w_kept w)) (set_objs (w_objs w ∖ {[+ o +]}) w)
           | None => w
           end in
  let w := match lends f with
           | Some (o, x) => set_kept (<[o := x]> (w_kept w)) w
           | None => w
           end in
  match outputs f with
  | Some place => if r =? 0 then set_place (Some place) w else w
  | None => w
  end.

Definition next (B : Type) (o : op B) : B -> world -> world :=
  match o in op B return B -> world -> world with
  | MemLen => fun l w => set_len (Some l) w
  | MemRead p n => fun data w =>
      if bool_decide (w_place w = Some p) && (n =? 8)
      then set_output (Some (le_decode (take 4 data), le_decode (drop 4 data))) (set_place None w)
      else w
  | MemWrite _ _ => fun _ w => w
  | WasmAlloc n => fun r w =>
      set_len None (if u32 r =? 0 then w else set_blocks (w_blocks w ⊎ {[+ (u32 r, u32 n) +]}) w)
  | WasmFree p n => fun _ w => set_len None (set_blocks (w_blocks w ∖ {[+ (u32 p, u32 n) +]}) w)
  | AllocOpaque => fun s w =>
      set_len None (if u32 s =? 0 then w else set_slot (Some (u32 s, None)) w)
  | FreeOpaque _ => fun _ w => set_len None (set_slot None w)
  | TakeOpaque slot => fun p w =>
      set_len None
        (match w_slot w with
         | Some (slot, Some (k, b)) =>
             set_kept (partial_alter (fun _ => b) (k, u32 p) (w_kept w))
               (set_objs (w_objs w ⊎ {[+ (k, u32 p) +]}) (set_slot (Some (slot, None)) w))
         | _ => w
         end)
  | GhosttyFree _ _ _ => fun _ w => set_len None (set_output None w)
  | Call f => fun r w => set_len None (next_call f r w)
  end.

Notation good := (safe legal allowed next).

(** Nothing is under way: no slot, no output. *)
Definition quiet (w : world) : Prop :=
  w_slot w = None /\ w_place w = None /\ w_output w = None.

(** ** Specifications of the runtime *)

Lemma u32_i32 z : u32 (i32 z) = u32 z.
Proof. width_lia. Qed.
Lemma u32_id z : is_u32 z -> u32 z = z.
Proof. intros H. apply Z.mod_small, H. Qed.
Lemma u32_ok z : is_u32 (u32 z).
Proof. apply Z.mod_pos_bound. done. Qed.
Lemma le_decode_ok b : blen b <= 4 -> is_u32 (le_decode b).
Proof.
  intros Hb. unfold le_decode. pose proof (be_decode_range (rev b)) as [H0 H1].
  replace (blen (rev b)) with (blen b) in H1 by (unfold blen; by rewrite length_rev).
  split; [done|]. eapply Z.lt_le_trans; [apply H1|]. change (2 ^ 32) with (256 ^ 4).
  apply Z.pow_le_mono_r; lia.
Qed.
Lemma wasmLength_Ok n l : is_i64 n -> wasmLength n = Ok l -> l = n /\ is_u32 n.
Proof.
  unfold wasmLength. intros Hn. destruct (Z.ltb_spec n 0); [done|].
  destruct (Z.ltb_spec (u32 (-1)) (u64 n)) as [|H1]; [done|]. intros [= <-].
  replace (u64 n) with n in H1 by width_lia. change (u32 (-1)) with (2 ^ 32 - 1) in H1.
  assert (is_u32 n) by (unfold is_u32; lia). by rewrite u32_id.
Qed.
Lemma wasmUint_Ok n l : wasmUint n = Ok l -> is_u32 l.
Proof. unfold wasmUint. case_match; [done|]. intros [= <-]. apply u32_ok. Qed.
#[export] Hint Resolve u32_ok : go_db.

(** A block of the caller's own, or no bytes at all. *)
Definition own (p n : Z) (w : world) : Prop :=
  (p = 0 /\ n = 0) \/ exists b s, (b, s) ∈ w_blocks w /\ b <= p /\ p + n <= b + s.

Lemma own_block p n w : (p, n) ∈ w_blocks w -> own p n w.
Proof. intros H. right. exists p, n. split; [done|lia]. Qed.

Lemma own_in_block p n w : is_u32 p -> own p n w -> in_block p n w.
Proof.
  intros Hp [[-> ->]|(b & s & Hb & H1 & H2)]; [by left|right]. exists b, s. by rewrite u32_id.
Qed.

Lemma give_back `{Countable A} (X : gmultiset A) x : (X ⊎ {[+ x +]}) ∖ {[+ x +]} = X.
Proof. multiset_solver. Qed.

Lemma safe_alloc w n (Q : world -> result Z -> Prop) :
  is_u32 n ->
  (n = 0 -> Q w (Ok 0)) ->
  (forall p, is_u32 p -> p <> 0 -> p + n <= 2 ^ 32 -> n <> 0 ->
     Q (set_len None (set_blocks (w_blocks w ⊎ {[+ (p, n) +]}) w)) (Ok p)) ->
  (n <> 0 -> Q (set_len None w) (Err (ghostty_error ResultOutOfMemory))) ->
  good (rt_alloc n) w Q.
Proof.
  intros Hn H0 Hok Herr. unfold rt_alloc. destruct (Z.eqb_spec n 0) as [->|Hnz]; [by apply H0|].
  cbn [safe]. split; [exact I|]. intros r Hr. cbn [next allowed] in Hr |- *.
  rewrite u32_i32, (u32_id n Hn) in *. destruct (Z.eqb_spec (u32 r) 0) as [E|E]; cbn [safe]; [by apply Herr|].
  apply Hok; auto with go_db.
Qed.

Lemma safe_free w p n (Q : world -> unit -> Prop) :
  is_u32 p -> is_u32 n ->
  (p = 0 -> Q w tt) ->
  (p <> 0 -> (p, n) ∈ w_blocks w /\ Q (set_len None (set_blocks (w_blocks w ∖ {[+ (p, n) +]}) w)) tt) ->
  good (rt_free p n) w Q.
Proof.
  intros Hp Hn H0 H1. unfold rt_free. destruct (Z.eqb_spec p 0) as [->|Hnz]; cbn [negb safe]; [by apply H0|].
  cbn [next legal]. rewrite !u32_i32, (u32_id p Hp), (u32_id n Hn).
  destruct (H1 Hnz) as [Hin HQ]. split; [done|]. by intros _ _.
Qed.

Lemma safe_deferred {A} (after : proc unit) (body : proc A) w Q :
  good body w (fun w1 a => good after w1 (fun w2 _ => Q w2 a)) -> good (deferred after body) w Q.
Proof.
  intros H. unfold deferred. apply safe_bind. eapply safe_mono; [|exact H]. intros w1 a Ha.
  apply safe_bind. eapply safe_mono; [|exact Ha]. by intros.
Qed.

Lemma safe_with_alloc {A} w n failed (body : Z -> proc A) Q :
  is_u32 n -> n <> 0 ->
  Q (set_len None w) (failed (ghostty_error ResultOutOfMemory)) ->
  (forall p, is_u32 p -> p <> 0 -> p + n <= 2 ^ 32 ->
     let w1 := set_len None (set_blocks (w_blocks w ⊎ {[+ (p, n) +]}) w) in
     good (body p) w1 (fun w2 a => w_blocks w2 = w_blocks w1 /\ Q (set_len None (set_blocks (w_blocks w) w2)) a)) ->
  good (with_alloc n failed body) w Q.
Proof.
  intros Hn Hnz Herr Hbody. unfold with_alloc. apply safe_bind, safe_alloc; [done|done| |by cbn].
  intros p Hp Hpz Hend _. cbn beta. apply safe_deferred. eapply safe_mono; [|by apply Hbody].
  cbn. intros w2 a [Hw2 HQ]. apply safe_free; [done|done|done|]. intros _. rewrite Hw2.
  split; [multiset_solver|].
  by rewrite give_back.
Qed.

Lemma rt_bytes_cases w p n Q :
  is_u32 p -> is_u32 n ->
  (forall l, l <= 2 ^ 32 -> (forall b s, (b, s) ∈ w_blocks w -> b + s <= l) -> 0 <= l ->
     Q (set_len (Some l) w) (if l <? p + n then Some (Errorf "libghostty: invalid wasm memory range") else None)) ->
  good (rt_bytes p n) w Q.
Proof.
  intros Hp Hn H. unfold rt_bytes. cbn [safe legal]. split; [exact I|]. intros l [Hl Hall]. cbn [next].
  replace (u64 (u64 p + u64 n)) with (p + n) by (clear - Hp Hn; width_lia).
  specialize (H l (proj2 Hl) Hall (proj1 Hl)). by destruct (l <? p + n).
Qed.

Lemma safe_with_bytes {A} w p n failed (body : proc A) Q :
  is_u32 p -> is_u32 n ->
  (own p n w \/ forall l, Q (set_len (Some l) w) (failed (Errorf "libghostty: invalid wasm memory range"))) ->
  (forall l, p + n <= l -> good body (set_len (Some l) w) Q) ->
  good (with_bytes p n failed body) w Q.
Proof.
  intros Hp Hn Hfail Hbody. unfold with_bytes. apply safe_bind, rt_bytes_cases; [done|done|].
  intros l Hl Hall Hl0. destruct (Z.ltb_spec l (p + n)); cbn [safe]; [|by apply Hbody].
  destruct Hfail as [[[-> ->]|(b & s & Hb & H1 & H2)]|Hf]; [lia| |apply Hf].
  apply Hall in Hb. lia.
Qed.

Lemma safe_put w p data Q :
  is_u32 p -> is_u32 (blen data) -> own p (blen data) w ->
  (forall l, Q (set_len (Some l) w) None) ->
  good (rt_put p data) w Q.
Proof.
  intros Hp Hd Hown HQ. unfold rt_put. rewrite (u32_id _ Hd). apply safe_bind, rt_bytes_cases; [done|done|].
  intros l Hl Hall Hl0. destruct (Z.ltb_spec l (p + blen data)); cbn [safe legal].
  - destruct Hown as [[? ?]|(b & s & Hb & H1 & H2)]; [lia|]. apply Hall in Hb. lia.
  - split; [split|by intros [] _; apply HQ].
    + exists l. cbn. unfold is_u32 in *. by repeat split; try lia.
    + by apply own_in_block.
Qed.

Lemma slot_i32 s w : w_slot w = Some (u32 s, None) -> free_slot (i32 (u32 s)) w.
Proof. unfold free_slot. by rewrite u32_i32, (u32_id (u32 s)) by apply u32_ok. Qed.

Lemma slot_new s l w : is_u32 s -> free_slot (i32 s) (set_len l (set_slot (Some (s, None)) w)).
Proof. intros Hs. unfold free_slot. by rewrite u32_i32, (u32_id s Hs). Qed.

(** A new object, with what it keeps. *)
Definition with_object (k : kind) (b : option kept) (p : Z) (w : world) : world :=
  set_len None (set_kept (partial_alter (fun _ => b) (k, p) (w_kept w))
    (set_objs (w_objs w ⊎ {[+ (k, p) +]}) w)).

Lemma safe_opaque w k b (c : Z -> export) (Q : world -> result Z -> Prop) :
  w_slot w = None ->
  (forall s, creates (c s) = Some k /\ frees (c s) = None /\ outputs (c s) = None /\
     borrows (c s) = b /\ lends (c s) = None) ->
  (forall s, is_u32 s -> legal_call (c s) (set_len None (set_slot (Some (s, None)) w))) ->
  (forall e, Q (set_len None w) (Err e)) ->
  (forall p, is_u32 p -> p <> 0 -> (k, p) ∉ w_objs w -> Q (with_object k b p w) (Ok p)) ->
  good (rt_opaque c) w Q.
Proof.
  intros Hs Hc Hlegal Herr Hok. unfold rt_opaque. cbn [safe legal]. split; [done|].
  intros s _. cbn [next]. destruct (Z.eqb_spec (u32 s) 0) as [E|E]; cbn [safe]; [apply Herr|].
  apply safe_deferred. destruct (Hc (u32 s)) as (Hk & Hf & Ho & Hb & Hd). cbn [safe legal].
  split; [apply Hlegal, u32_ok|]. intros res _.
  assert (Hn : next_call (c (u32 s)) res (set_len None (set_slot (Some (u32 s, None)) w)) =
    set_len None (set_slot (Some (u32 s, if res =? 0 then Some (k, b) else None)) w)).
  { unfold next_call. rewrite Hk, Hf, Ho, Hd, Hb. cbn. by destruct (res =? 0). }
  cbn [next]. rewrite Hn. clear Hn. unfold resultError, ResultSuccess.
  destruct w as [wb wo wk ws wp wt wl]; cbn in *; subst ws.
  destruct (Z.eqb_spec res 0) as [->|Hr]; cbn [safe].
  - split; [eexists; cbn; by rewrite u32_i32, (u32_id (u32 s)) by apply u32_ok|].
    intros p [Hp Hp2]. cbn in Hp, Hp2 |- *. destruct (Z.eqb_spec (u32 p) 0); [done|]. cbn [safe legal].
    split; [by apply slot_i32|]. intros [] _. apply Hok; auto with go_db.
  - split; [by apply slot_i32|]. intros [] _. apply Herr.
Qed.

(** ** Specifications of the methods *)

(** The objects, what they keep, and the blocks are those of [w]. *)
Definition same (w w' : world) : Prop :=
  w_blocks w' = w_blocks w /\ w_objs w' = w_objs w /\ quiet w' /\ w_kept w' = w_kept w.

(** The only panics are for want of memory. *)
Definition out_of_memory (e : error) : Prop :=
  e = ghostty_error ResultOutOfMemory \/ e = ghostty_error ResultLimitExceeded.
Definition out_ok {A} (r : out A) : Prop :=
  match r with Returned _ => True | Panicked e => out_of_memory e end.

Definition holds (k : kind) (p : Z) (w : world) : Prop := is_u32 p /\ (k, p) ∈ w_objs w.

Lemma holds_live k p w w' : holds k p w -> w_objs w' = w_objs w -> live k (i32 p) w'.
Proof. intros [Hp Hin] Hw. unfold live. by rewrite Hw, u32_i32, (u32_id _ Hp). Qed.

Lemma in_block_i32 p n w : is_u32 p -> own p n w -> in_block (i32 p) n w.
Proof.
  intros Hp H%own_in_block; [|done]. unfold in_block in *. by rewrite u32_i32.
Qed.

Lemma blen_le32 v : blen (le32 v) = 4.
Proof. unfold le32, blen. by rewrite length_rev, length_be_encode. Qed.
Lemma blen_le16 v : blen (le16 v) = 2.
Proof. unfold le16, blen. by rewrite length_rev, length_be_encode. Qed.
Lemma blen_put_at off v data n m :
  blen data = n -> blen v = m -> Z.of_nat off + m <= n -> blen (put_at off v data) = n.
Proof.
  unfold put_at, blen. intros <- <- H. rewrite !length_app, length_take, length_drop. lia.
Qed.
Lemma blen_zeros n : 0 <= n -> blen (List.repeat Byte.x00 (Z.to_nat n)) = n.
Proof. intros. unfold blen. rewrite repeat_length. lia. Qed.
Lemma blen1 {A} (x : A) : blen [x] = 1.
Proof. done. Qed.

(** The length of a buffer that is built in place. *)
Ltac blen_solve :=
  cbv zeta;
  lazymatch goal with
  | |- blen (put_at _ _ _) = _ => eapply blen_put_at; [blen_solve|blen_solve|cbn; lia]
  | |- blen (le32 _) = _ => apply blen_le32
  | |- blen (le16 _) = _ => apply blen_le16
  | |- blen [_] = _ => apply blen1
  | |- blen (List.repeat _ _) = _ => apply blen_zeros; lia
  | |- _ => eassumption
  end.

Lemma blen_point p : blen (point_bytes p) = pointSize.
Proof. unfold point_bytes, pointSize. blen_solve. Qed.
Lemma blen_ref : blen (put_at 0 (le32 gridRefSize) (List.repeat Byte.x00 (Z.to_nat gridRefSize))) = gridRefSize.
Proof. reflexivity. Qed.
Lemma blen_options o p : blen (formatter_options o p) = formatterOptionsSize.
Proof. unfold formatter_options, formatterOptionsSize. destruct (fo_selection o); blen_solve. Qed.
Lemma blen_selection s : blen (Start s) = gridRefSize -> blen (End_ s) = gridRefSize ->
  blen (selection_bytes s) = selectionSize.
Proof. unfold selection_bytes, selectionSize, gridRefSize. intros Hs He. blen_solve. Qed.
Lemma blen_take4 (b : bytes) : blen (take 4 b) <= 4.
Proof. unfold blen. rewrite length_take. lia. Qed.
Lemma blen_drop4 (b : bytes) : blen b = 8 -> blen (drop 4 b) <= 4.
Proof. unfold blen. rewrite length_drop. lia. Qed.

Lemma in_last (X : gmultiset (Z * Z)) x : x ∈ X ⊎ {[+ x +]}.
Proof. multiset_solver. Qed.
Lemma in_earlier (X : gmultiset (Z * Z)) x y : x ∈ X -> x ∈ X ⊎ {[+ y +]}.
Proof. multiset_solver. Qed.

Lemma safe_ret {A} (a : A) w (Q : world -> A -> Prop) : Q w a -> good (Ret a) w Q.
Proof. done. Qed.

Lemma safe_call {A} f (k : Z -> proc A) w Q :
  legal_call f w -> creates f = None -> frees f = None -> outputs f = None -> lends f = None ->
  (forall r, good (k r) (set_len None w) Q) ->
  good (Do (Call f) k) w Q.
Proof.
  intros Hl Hc Hf Ho Hd Hk. split; [exact Hl|]. intros r _. cbn [next]. unfold next_call.
  rewrite Hc, Hf, Ho, Hd. apply Hk.
Qed.

Lemma safe_read {A} p n (k : bytes -> proc A) w Q :
  in_slice p n w -> w_place w = None ->
  (forall data, blen data = n -> good (k data) w Q) -> good (Do (MemRead p n) k) w Q.
Proof.
  intros Hs Hp Hk. split; [exact Hs|]. intros data Hd. cbn [next]. rewrite Hp. cbn.
  by apply Hk.
Qed.

Lemma safe_write {A} p data n (k : unit -> proc A) w Q :
  blen data = n -> in_slice p n w -> is_u32 p -> own p n w ->
  good (k tt) w Q -> good (Do (MemWrite p data) k) w Q.
Proof. intros <- Hs Hp Ho Hk. split; [split; [done|by apply own_in_block]|]. by intros [] _. Qed.

(** More blocks do no harm to what is kept. *)
Lemma kept_ok_mono k p w w' :
  kept_ok k p w -> w_kept w' = w_kept w -> w_objs w' = w_objs w ->
  (forall x, x ∈ w_blocks w -> x ∈ w_blocks w') -> kept_ok k p w'.
Proof.
  unfold kept_ok, live, in_block. intros H -> -> Hb. destruct (w_kept w !! _) as [[q n|q]|]; [|done..].
  destruct H as [H|(b & s & Hin & H)]; [by left|right]. exists b, s. split; [by apply Hb|done].
Qed.

Ltac world_cbn :=
  cbn [set_len set_blocks set_objs set_kept set_slot set_place set_output
       w_blocks w_objs w_kept w_slot w_place w_output w_len].
Ltac own_solve :=
  first [assumption
        | solve [apply own_block; world_cbn;
            repeat first [assumption | apply in_last | apply in_earlier]]].
Ltac width_const :=
  first [assumption | apply u32_ok | solve [split; [apply Z.leb_le|apply Z.ltb_lt]; vm_compute; reflexivity]].
Ltac write_len :=
  lazymatch goal with
  | |- blen (le32 _) = _ => apply blen_le32
  | |- blen [_] = _ => apply blen1
  | |- blen (point_bytes _) = _ => apply blen_point
  | |- blen (formatter_options _ _) = _ => apply blen_options
  | |- blen (selection_bytes _) = _ => apply blen_selection; assumption
  | |- _ => apply blen_ref
  end.
Ltac slice_solve :=
  unfold is_u32, pointSize, gridRefSize, formatterOptionsSize, selectionSize in *; lia.
Lemma safe_GhosttyFree p n w Q :
  is_u32 p -> is_u32 n -> w_output w = Some (p, n) -> Q (set_len None (set_output None w)) tt ->
  good (do! _ := GhosttyFree 0 (i32 p) (i32 n) in Ret tt) w Q.
Proof.
  intros Hp Hn Hw HQ. split; [|by intros [] _]. cbn [legal]. by rewrite !u32_i32, !u32_id.
Qed.

Ltac place_solve :=
  world_cbn;
  match goal with
  | |- None = None => reflexivity
  | H : quiet ?w |- w_place ?w = None => exact (proj1 (proj2 H))
  end.
Ltac mem_step :=
  match goal with
  | |- good (with_alloc _ _ _) _ _ =>
      apply safe_with_alloc; [width_const|discriminate| |intros ?p ?Hp ?Hpz ?Hend; cbv zeta]
  | |- good (with_bytes ?p ?n _ _) _ _ =>
      is_var p; lazymatch n with le_decode _ => fail | _ => idtac end;
      apply safe_with_bytes; [width_const|width_const|left; own_solve|intros ?l ?Hl]
  | |- good (Do (MemWrite _ _) _) _ _ =>
      eapply safe_write; [write_len|eexists; split; [reflexivity|try solve [slice_solve]]|width_const|own_solve|]
  | |- good (Do (MemRead _ _) _) _ _ =>
      apply safe_read; [eexists; split; [reflexivity|try solve [slice_solve]]|place_solve|intros ?data ?Hdata]
  | |- good (Do (Call _) _) _ _ =>
      apply safe_call; [|reflexivity|reflexivity|reflexivity|reflexivity|intros ?r]
  | |- good (match resultError ?r with _ => _ end) _ _ => destruct (resultError r) eqn:?
  | |- good (Ret _) _ _ => apply safe_ret; cbv beta
  end.
Ltac kept_solve :=
  eapply kept_ok_mono; [eassumption|reflexivity|reflexivity|];
  world_cbn; intros ? ?; repeat first [assumption | apply in_earlier].
Ltac legal_solve :=
  cbn [legal_call]; repeat split;
    first [eapply holds_live; [eassumption|reflexivity]
          | kept_solve
          | apply in_block_i32; [assumption|own_solve]
          | right; apply in_block_i32; [assumption|own_solve]].
Ltac mem_solve :=
  match goal with
  | |- legal_call _ _ => try solve [legal_solve]
  | |- _ <= _ /\ _ => slice_solve
  | |- w_blocks _ = w_blocks _ /\ _ => split; [reflexivity|mem_solve]
  | |- same _ _ /\ _ => split; [mem_solve|try first [exact I|left; reflexivity|left; left; reflexivity|right; reflexivity]]
  | |- same _ _ => split; [reflexivity|split; [reflexivity|split; [assumption|reflexivity]]]
  | _ => idtac
  end.
Ltac mem_go := repeat mem_step; mem_solve.

(** A slice at a place the module names: it may be out of range. *)
Ltac foreign Hptr Hlen :=
  let H1 := fresh in let H2 := fresh in
  pose proof Hptr as H1; pose proof Hlen as H2;
  apply safe_with_bytes; [exact H1|exact H2|right; intros ?; mem_go|intros ? ?; mem_go].

Lemma format_buf_ok w f buf ptr :
  quiet w -> holds KFormatter (f_ptr f) w -> kept_ok KFormatter (i32 (f_ptr f)) w ->
  is_u32 (blen buf) -> is_u32 ptr -> own ptr (blen buf) w ->
  good (format_buf f buf ptr (blen buf)) w (fun w' _ => same w w').
Proof.
  intros Hq Hf Hk Hb Hp Hown. unfold format_buf. mem_go.
  - repeat split; [by eapply holds_live|kept_solve| |apply in_block_i32; [done|own_solve]].
    rewrite u32_i32, u32_id by done. apply in_block_i32; [done|].
    destruct Hown as [?|(b & s & Hin & H)]; [by left|right; exists b, s]. split; [by apply in_earlier|done].
  - destruct (_ && _); mem_go. foreign Hp (le_decode_ok data ltac:(lia)).
Qed.

Section Methods.
Context (w : world) (Hq : quiet w).

Lemma SetOptBool_ok enc option value :
  holds KEncoder (enc_ptr enc) w -> i32 option <> KeyEncoderOptMacOSOptionAsAlt ->
  good (SetOptBool enc option value) w (fun w' r => same w w' /\ out_ok r).
Proof.
  intros He Ho. unfold SetOptBool. mem_go. cbn [legal_call]. unfold option_size.
  destruct (Z.eqb_spec (i32 option) KeyEncoderOptMacOSOptionAsAlt); [done|]. legal_solve.
Qed.

Lemma SetOptKittyFlags_ok enc flags :
  holds KEncoder (enc_ptr enc) w ->
  good (SetOptKittyFlags enc flags) w (fun w' r => same w w' /\ out_ok r).
Proof. intros He. unfold SetOptKittyFlags. mem_go. Qed.

Lemma SetOptOptionAsAlt_ok enc value :
  holds KEncoder (enc_ptr enc) w ->
  good (SetOptOptionAsAlt enc value) w (fun w' r => same w w' /\ out_ok r).
Proof. intros He. unfold SetOptOptionAsAlt. mem_go. Qed.

Lemma SetOptFromTerminal_ok enc t :
  holds KEncoder (enc_ptr enc) w -> holds KTerminal t w ->
  good (SetOptFromTerminal enc t) w (fun w' _ => same w w').
Proof. intros He Ht. unfold SetOptFromTerminal. mem_go. Qed.

Lemma event_set_ok f e v :
  holds KEvent (ev_ptr e) w ->
  good (do! _ := Call (key_event_set f (i32 (ev_ptr e)) v) in Ret tt) w (fun w' _ => same w w').
Proof. intros He. mem_go. Qed.

Lemma event_get_ok {A} f e (g : Z -> A) :
  holds KEvent (ev_ptr e) w ->
  good (do! r := Call (key_event_get f (i32 (ev_ptr e))) in Ret (g r)) w (fun w' _ => same w w').
Proof. intros He. mem_go. Qed.

Lemma UTF8_ok e :
  holds KEvent (ev_ptr e) w -> kept_ok KEvent (i32 (ev_ptr e)) w -> good (UTF8 e) w (fun w' r => same w w' /\
    match r with
    | Returned _ => True
    | Panicked err => out_of_memory err \/ err = Errorf "libghostty: invalid wasm memory range"
    end).
Proof.
  intros He Hk. unfold UTF8. mem_go.
  foreign (u32_ok r) (le_decode_ok data ltac:(lia)).
Qed.

Lemma value32_ok value (f : Z -> export) :
  is_u32 value ->
  (forall p w', in_block p 4 w' -> w_objs w' = w_objs w -> legal_call (f p) w') ->
  (forall p, creates (f p) = None /\ frees (f p) = None /\ outputs (f p) = None /\ lends (f p) = None) ->
  good (value32 value f) w (fun w' _ => same w w').
Proof.
  intros Hv Hl Hf. unfold value32. mem_go.
  destruct (Hf p) as (Hc & Hfr & Ho & Hd). apply safe_call; [|done|done|done|done|intros r]; mem_go.
  apply Hl; [|reflexivity]. apply own_in_block; [done|own_solve].
Qed.

Lemma GridRef_ok t point :
  holds KTerminal (t_ptr t) w -> good (GridRef t point) w (fun w' _ => same w w').
Proof. intros Ht. unfold GridRef. mem_go. Qed.

Lemma Pwd_ok t : holds KTerminal (t_ptr t) w -> good (Pwd t) w (fun w' _ => same w w').
Proof.
  intros Ht. unfold Pwd. mem_go; [by case_match; mem_go|].
  foreign (le_decode_ok (take 4 data) (blen_take4 data)) (le_decode_ok (drop 4 data) (blen_drop4 data Hdata)).
Qed.

Lemma get_data_ok {A} t data size failed (found : bytes -> proc A) :
  holds KTerminal (t_ptr t) w -> is_u32 size -> size <> 0 -> size = data_size (i32 data) ->
  (forall b, exists a, found b = Ret a) ->
  good (get_data t data size failed found) w (fun w' _ => same w w').
Proof.
  intros Ht Hs Hz He Hf. unfold get_data. apply safe_with_alloc; [done|done|mem_go|].
  intros p Hp Hpz Hend. cbv zeta. mem_go.
  - split; [by eapply holds_live|]. rewrite <- He. apply in_block_i32; [done|own_solve].
  - destruct (Hf data0) as [a ->]. mem_go.
Qed.

Lemma set_limit_ok t option limit :
  holds KTerminal (t_ptr t) w -> good (set_limit t option limit) w (fun w' _ => same w w').
Proof.
  intros Ht. unfold set_limit. destruct (wasmUint limit) eqn:E; [|mem_go].
  apply value32_ok; [by eapply wasmUint_Ok| |done]. intros p w' Hp Hw'.
  split; [by eapply holds_live|right]. unfold in_block in *. by rewrite u32_i32.
Qed.

Lemma setScrollback_ok t limit :
  holds KTerminal (t_ptr t) w ->
  good (setScrollbackMaxLinesLocked t limit) w (fun w' _ => same w w').
Proof.
  intros Ht. destruct limit; [by apply set_limit_ok|]. cbn [setScrollbackMaxLinesLocked]. mem_go.
  split; [by eapply holds_live|by left].
Qed.

Lemma SetMaxContinuationBytes_ok d limit :
  holds KDecoder (d_ptr d) w -> good (SetMaxContinuationBytes d limit) w (fun w' _ => same w w').
Proof.
  intros Hd. unfold SetMaxContinuationBytes. destruct (wasmUint limit) eqn:E; [|mem_go].
  apply value32_ok; [by eapply wasmUint_Ok| |done]. intros p w' Hp Hw'.
  split; [by eapply holds_live|]. unfold in_block in *. by rewrite u32_i32.
Qed.

Lemma SetRetainContinuation_ok d retain :
  holds KDecoder (d_ptr d) w -> good (SetRetainContinuation d retain) w (fun w' _ => same w w').
Proof. intros Hd. unfold SetRetainContinuation. mem_go. Qed.

Lemma feed_ok t chunks :
  holds KTerminal (t_ptr t) w -> is_u32 (feedPtr t) -> (feedPtr t, feedBufferSize) ∈ w_blocks w ->
  Forall (fun c => 0 < blen c <= feedBufferSize) chunks ->
  good (feed_chunks t chunks) w (fun w' r => same w w' /\ out_ok r).
Proof.
  intros Ht Hf Hin Hall. revert w Hq Ht Hin. induction Hall as [|c chunks Hc Hall IH]; intros w0 Hq0 Ht Hin.
  - cbn [feed_chunks]. mem_go.
  - cbn [feed_chunks]. unfold feedBufferSize in *. apply safe_bind, safe_put; [done| | |].
    + unfold is_u32. lia.
    + right. exists (feedPtr t), (64 * 1024). split; [done|lia].
    + intros l. mem_go.
      * split; [by eapply holds_live|]. apply in_block_i32; [done|]. rewrite u32_i32, u32_id by (unfold is_u32; lia).
        right. exists (feedPtr t), (64 * 1024). split; [done|lia].
      * exact (IH (set_len None (set_len (Some l) w0)) Hq0 Ht Hin).
Qed.

Lemma take_output_ok (encode : Z -> Z -> export) :
  (forall out size w', in_block out 4 w' -> in_block size 4 w' -> w_objs w' = w_objs w ->
     w_kept w' = w_kept w -> (forall x, x ∈ w_blocks w -> x ∈ w_blocks w') -> legal_call (encode out size) w') ->
  (forall o s, creates (encode o s) = None /\ frees (encode o s) = None /\ outputs (encode o s) = Some (u32 o) /\
     lends (encode o s) = None) ->
  good (take_output encode) w (fun w' _ => same w w').
Proof.
  intros Hl He. unfold take_output. mem_step; [mem_go|].
  destruct (He (i32 p) (i32 (u32 (p + 4)))) as (Hc & Hf & Ho & Hld). split.
  - apply Hl; [| |reflexivity|reflexivity|world_cbn; intros ? ?; by apply in_earlier];
      (apply in_block_i32; [done || apply u32_ok|right; exists p, 8]);
      (split; [world_cbn; apply in_last|]); [lia|].
    assert (is_u32 (p + 4)) by (unfold is_u32 in *; lia). rewrite u32_id by done. lia.
  - intros r _. cbn [next]. unfold next_call. rewrite Hc, Hf, Hld, Ho, u32_i32, (u32_id p) by done.
    unfold resultError, ResultSuccess. destruct (Z.eqb_spec r 0) as [->|Hr]; [|mem_go].
    mem_step. split; [eexists; split; [reflexivity|slice_solve]|].
    intros data Hd. cbn [next]. world_cbn. rewrite bool_decide_true by done. cbn [andb Z.eqb Pos.eqb].
    pose proof (le_decode_ok (take 4 data) (blen_take4 data)) as H1.
    pose proof (le_decode_ok (drop 4 data) (blen_drop4 data Hd)) as H2.
    apply safe_deferred.
    foreign H1 H2; (apply safe_GhosttyFree; [done|done|reflexivity|]);
      (split; [reflexivity|]); destruct Hq as (? & ? & ?); by repeat split.
Qed.

Lemma Format_ok f :
  holds KFormatter (f_ptr f) w -> kept_ok KFormatter (i32 (f_ptr f)) w -> good (Format f) w (fun w' _ => same w w').
Proof.
  intros Hf Hk. apply take_output_ok; [|done]. intros out size w' Ho Hs Hw' Hk' Hb. cbn [legal_call].
  split; [by eapply holds_live|]. split; [|done]. by eapply kept_ok_mono.
Qed.

Lemma Snapshot_ok t : holds KTerminal (t_ptr t) w -> good (Snapshot t) w (fun w' _ => same w w').
Proof.
  intros Ht. apply take_output_ok; [|done]. intros out size w' Ho Hs Hw' Hk' Hb. cbn [legal_call].
  split; [by eapply holds_live|done].
Qed.

Lemma FormatBuf_ok f buf :
  holds KFormatter (f_ptr f) w -> kept_ok KFormatter (i32 (f_ptr f)) w -> is_i64 (blen buf) ->
  good (FormatBuf f buf) w (fun w' _ => same w w').
Proof.
  intros Hf Hk Hb. unfold FormatBuf. destruct (wasmLength (blen buf)) as [n|e] eqn:E; [|mem_go].
  apply (wasmLength_Ok _ _ Hb) in E as [-> Hn]. destruct (Z.ltb_spec 0 (blen buf)) as [Hz|Hz].
  - apply safe_with_alloc; [done|lia|mem_go|]. intros p Hp Hpz Hend. cbv zeta.
    eapply safe_mono; [|apply format_buf_ok; [exact Hq|exact Hf|kept_solve|done|done|own_solve]].
    cbn beta. intros w2 a (H1 & H2 & H3 & H4). split; [exact H1|]. by repeat split; apply H3 || apply H2 || apply H4.
  - assert (Hz0 : blen buf = 0) by (unfold blen in *; lia). rewrite Hz0. rewrite <- Hz0 at 2.
    apply format_buf_ok; [done|done|done|done|done|by left].
Qed.
End Methods.

(** ** Objects and what they own *)

(** A block behind a pointer that may be zero. *)
Definition owned (p n : Z) : gmultiset (Z * Z) := if p =? 0 then ∅ else {[+ (p, n) +]}.

Lemma owned_free w p n B Q :
  is_u32 p -> is_u32 n -> w_blocks w = B ⊎ owned p n ->
  (forall l, Q (set_len l (set_blocks B w)) tt) -> good (rt_free p n) w Q.
Proof.
  intros Hp Hn Hw HQ. unfold owned in Hw. apply safe_free; [done|done| |].
  - intros ->. cbn in Hw. specialize (HQ (w_len w)). rewrite (right_id_L ∅ (⊎)) in Hw.
    subst B. by destruct w.
  - intros Hz. destruct (Z.eqb_spec p 0); [done|]. rewrite Hw. split; [apply in_last|].
    rewrite give_back. apply HQ.
Qed.

Lemma owned_alloc w n Q :
  is_u32 n ->
  (forall p l, is_u32 p -> (n <> 0 -> p <> 0) ->
     let w1 := set_len l (set_blocks (w_blocks w ⊎ owned p n) w) in own p n w1 -> Q w1 (Ok p)) ->
  Q (set_len None w) (Err (ghostty_error ResultOutOfMemory)) ->
  good (rt_alloc n) w Q.
Proof.
  intros Hn Hok Herr. apply safe_alloc; [done| | |done].
  - intros ->. specialize (Hok 0 (w_len w)). unfold owned in Hok. cbn in Hok.
    rewrite (right_id_L ∅ (⊎)) in Hok. destruct w. apply Hok; [by split|done|by left].
  - intros p Hp Hz _ Hnz. specialize (Hok p None Hp (fun _ => Hz)). unfold owned in Hok.
    destruct (Z.eqb_spec p 0); [done|]. apply Hok. apply own_block, in_last.
Qed.

Lemma encode_once_ok w enc event buf size written :
  quiet w -> holds KEncoder (enc_ptr enc) w -> holds KEvent (ev_ptr event) w ->
  kept_ok KEvent (i32 (ev_ptr event)) w ->
  is_u32 buf -> is_u32 size -> is_u32 written -> own buf size w -> own written 4 w ->
  good (encode_once enc event buf size written) w (fun w' r =>
    same w w' /\ match r with Ok (_, length) => is_u32 length | Err _ => True end).
Proof.
  intros Hq He Hv Hk Hb Hs Hw Hob How. unfold encode_once. mem_go.
  - repeat split; try by eapply holds_live.
    + done.
    + rewrite u32_i32, (u32_id size) by done. by apply in_block_i32.
    + by apply in_block_i32.
  - apply le_decode_ok. lia.
Qed.

Lemma encode_result_ok w buf length result :
  quiet w -> is_u32 buf -> is_u32 length ->
  good (encode_result buf length result) w (fun w' _ => same w w').
Proof. intros Hq Hb Hl. unfold encode_result. mem_go. foreign Hb Hl. Qed.

Lemma encode_buffered_ok w B enc event buf size written :
  quiet w -> holds KEncoder (enc_ptr enc) w -> holds KEvent (ev_ptr event) w ->
  (forall w', w_kept w' = w_kept w -> w_objs w' = w_objs w -> (forall x, x ∈ B -> x ∈ w_blocks w') ->
     kept_ok KEvent (i32 (ev_ptr event)) w') ->
  is_u32 buf -> buf <> 0 -> is_u32 size -> is_u32 written ->
  w_blocks w = B ⊎ {[+ (buf, size) +]} -> (written, 4) ∈ B ->
  good (encode_buffered enc event buf size written) w (fun w' '(_, buf', size') =>
    w_blocks w' = B ⊎ owned buf' size' /\ is_u32 buf' /\ is_u32 size' /\
    w_objs w' = w_objs w /\ quiet w' /\ w_kept w' = w_kept w).
Proof.
  intros Hq He Hv Hk Hb Hbz Hs Hw HB Hin. unfold encode_buffered.
  assert (HB' : w_blocks w = B ⊎ owned buf size)
    by (unfold owned; by destruct (Z.eqb_spec buf 0)).
  apply safe_bind. eapply safe_mono; [|apply encode_once_ok; try done].
  2: { apply Hk; [done..|]. rewrite HB. intros x. apply in_earlier. }
  2: { apply own_block. rewrite HB. apply in_last. }
  2: { apply own_block. rewrite HB. by apply in_earlier. }
  cbn beta. intros w1 r [(H1 & H2 & H3 & H4) Hr]. rewrite HB' in H1.
  destruct r as [[res length]|e]; [|by split_and!].
  destruct (res =? ResultOutOfSpace).
  2: { apply safe_bind. eapply safe_mono; [|by apply encode_result_ok].
       cbn beta. intros w2 a (G1 & G2 & G3 & G4). apply safe_ret. rewrite G1, G2, G4. by split_and!. }
  apply safe_bind. apply (owned_free w1 buf size B); [done|done|done|].
  intros l. apply safe_bind, owned_alloc; [done| |]; cbv zeta.
  - intros p l' Hp _ Hown. apply safe_bind.
    eapply safe_mono; [|apply encode_once_ok; [exact H3| | | |done|done|done|exact Hown|]].
    + cbn beta. intros w2 r [(G1 & G2 & G3 & G4) Hr2].
      destruct r as [[res2 length2]|e]; [|apply safe_ret; rewrite G1, G2, G4; by split_and!].
      apply safe_bind. eapply safe_mono; [|by apply encode_result_ok].
      cbn beta. intros w3 a (K1 & K2 & K3 & K4). apply safe_ret. rewrite K1, K2, K4, G1, G2, G4. by split_and!.
    + unfold holds in *. world_cbn. by rewrite H2.
    + unfold holds in *. world_cbn. by rewrite H2.
    + apply Hk; [done|done|]. world_cbn. multiset_solver.
    + apply own_block. world_cbn. multiset_solver.
  - apply safe_ret. world_cbn. unfold owned. cbn [Z.eqb]. rewrite (right_id_L ∅ (⊎)). by split_and!.
Qed.

Lemma Encode_ok w enc event :
  quiet w -> holds KEncoder (enc_ptr enc) w -> holds KEvent (ev_ptr event) w ->
  kept_ok KEvent (i32 (ev_ptr event)) w ->
  good (Encode enc event) w (fun w' _ => same w w').
Proof.
  intros Hq He Hv Hk. unfold Encode. mem_step; [mem_go|].
  apply safe_bind, safe_alloc; [width_const|done| |intros _; mem_go].
  intros bp Hbp Hbz _ _. apply safe_bind.
  eapply safe_mono; [|eapply encode_buffered_ok; try done; [|apply in_last]].
  2: { intros w' H1 H2 H3. eapply kept_ok_mono; [exact Hk|exact H1|exact H2|].
       intros x Hx. apply H3. world_cbn. by apply in_earlier. }
  cbn beta. intros w2 [[r buf'] size'] (H1 & H2 & H3 & H4 & H5 & H6).
  apply safe_bind. eapply (owned_free w2 _ _ _ _ H2 H3 H1). intros l. apply safe_ret.
  split; [done|]. split_and!; [done|exact H4|exact H5|exact H6].
Qed.

(** The panic a method ended in. *)
Definition panic_of {A} (r : out A) : option error :=
  match r with Returned _ => None | Panicked e => Some e end.

(** The objects of the library a program holds, closed or not; a formatter with the
    number of its terminal and that terminal's pointer, a decoder with whether it has
    decoded. *)
Inductive object :=
| OEncoder (enc : KeyEncoder)
| OEvent (e : KeyEvent)
| OTerminal (t : Terminal)
| OFormatter (f : Formatter) (t : nat) (term : Z)
| ODecoder (d : SnapshotDecoder) (used : bool).

Definition object_kind (o : object) : kind :=
  match o with
  | OEncoder _ => KEncoder | OEvent _ => KEvent | OTerminal _ => KTerminal
  | OFormatter _ _ _ => KFormatter | ODecoder _ _ => KDecoder
  end.
Definition object_ptr (o : object) : Z :=
  match o with
  | OEncoder enc => enc_ptr enc | OEvent e => ev_ptr e | OTerminal t => t_ptr t
  | OFormatter f _ _ => f_ptr f | ODecoder d _ => d_ptr d
  end.
(** The block an object keeps: its text, feed buffer or source. *)
Definition object_block (o : object) : Z * Z :=
  match o with
  | OEncoder _ | OFormatter _ _ _ => (0, 0)
  | OEvent e => (utf8Ptr e, utf8Len e)
  | OTerminal t => (feedPtr t, feedBufferSize)
  | ODecoder d _ => (sourcePtr d, sourceLen d)
  end.
Definition is_open (o : object) : bool := negb (object_ptr o =? 0).

Definition object_blocks (o : object) : gmultiset (Z * Z) :=
  owned (fst (object_block o)) (snd (object_block o)).
Definition object_objs (o : object) : gmultiset (kind * Z) :=
  if object_ptr o =? 0 then ∅ else {[+ (object_kind o, object_ptr o) +]}.

(** Widths, and: a closed object keeps no block, an open terminal its feed buffer. *)
Definition object_ok (o : object) : Prop :=
  is_u32 (object_ptr o) /\ is_u32 (fst (object_block o)) /\ is_u32 (snd (object_block o)) /\
  match o with
  | OTerminal t => t_ptr t <> 0 <-> feedPtr t <> 0
  | OEvent e => ev_ptr e = 0 -> utf8Ptr e = 0
  | ODecoder d _ => d_ptr d = 0 -> sourcePtr d = 0
  | _ => True
  end.

(** What the module keeps for an open object is what the Go object says: the text of an
    event is its block or empty, the source of a decoder that has not decoded its
    block. *)
Definition keeps (w : world) (o : object) : Prop :=
  object_ptr o <> 0 ->
  match o with
  | OEvent e =>
      match w_kept w !! (KEvent, ev_ptr e) with
      | Some (KBytes p n) => n = 0 \/ (p = utf8Ptr e /\ n = utf8Len e /\ p <> 0)
      | Some (KTerm _) => False
      | None => True
      end
  | OFormatter f _ term => w_kept w !! (KFormatter, f_ptr f) = Some (KTerm term)
  | ODecoder d false =>
      w_kept w !! (KDecoder, d_ptr d) = Some (KBytes (sourcePtr d) (sourceLen d)) /\
      (sourceLen d = 0 \/ sourcePtr d <> 0)
  | _ => True
  end.

(** No object twice. *)
Definition uniq (X : gmultiset (kind * Z)) : Prop := forall x, (multiplicity x X <= 1)%nat.

(** The outside holds what [o] owns and, besides, [B] and [O], for which it keeps what
    [K] says. *)
Definition has (w : world) (o : object) (B : gmultiset (Z * Z)) (O : gmultiset (kind * Z))
    (K : gmap (kind * Z) kept) : Prop :=
  quiet w /\ w_blocks w = B ⊎ object_blocks o /\ w_objs w = O ⊎ object_objs o /\ object_ok o /\
  (forall x, x ∈ O -> w_kept w !! x = K !! x) /\ uniq (w_objs w).

(** As before, for what was there. *)
Definition still (w w' : world) : Prop :=
  w_blocks w' = w_blocks w /\ w_objs w' = w_objs w /\ quiet w' /\
  forall x, x ∈ w_objs w -> w_kept w' !! x = w_kept w !! x.

Definition created {A} (G : A -> object) (w : world) (w' : world) (r : result A) : Prop :=
  match r with
  | Ok a => is_open (G a) = true /\ has w' (G a) (w_blocks w) (w_objs w) (w_kept w) /\ keeps w' (G a)
  | Err _ => still w w'
  end.

Lemma uniq_add X x : uniq X -> x ∉ X -> uniq (X ⊎ {[+ x +]}).
Proof.
  intros HX Hx y. specialize (HX y). rewrite elem_of_multiplicity in Hx.
  rewrite multiplicity_disj_union, multiplicity_singleton. case_decide; [subst y|]; lia.
Qed.

Lemma uniq_fresh X x : uniq (X ⊎ {[+ x +]}) -> x ∉ X.
Proof.
  intros H. specialize (H x). rewrite multiplicity_disj_union, multiplicity_singleton, decide_True in H by done.
  rewrite elem_of_multiplicity. lia.
Qed.

Lemma uniq_l X Y : uniq (X ⊎ Y) -> uniq X.
Proof. intros H x. specialize (H x). rewrite multiplicity_disj_union in H. lia. Qed.

Lemma keeps_ext w w' o :
  (object_ptr o <> 0 -> w_kept w' !! (object_kind o, object_ptr o) = w_kept w !! (object_kind o, object_ptr o)) ->
  keeps w o -> keeps w' o.
Proof. unfold keeps. intros H Hk Hz. specialize (Hk Hz). destruct o; cbn in *; rewrite ?(H Hz); done. Qed.

Lemma has_new {A} (G : A -> object) k b w p a :
  quiet w -> uniq (w_objs w) -> (k, p) ∉ w_objs w ->
  is_u32 p -> p <> 0 -> object_ptr (G a) = p -> object_kind (G a) = k ->
  object_blocks (G a) = ∅ -> object_ok (G a) -> keeps (with_object k b p w) (G a) ->
  created G w (with_object k b p w) (Ok a).
Proof.
  intros Hq Hu Hn Hp Hz Hptr Hk Hb Hok Hkeep. cbn [created]. unfold is_open, has, object_objs. rewrite Hptr, Hk, Hb.
  destruct (Z.eqb_spec p 0); [done|]. rewrite (right_id_L ∅ (⊎)). split_and!; try done.
  - intros x Hx. cbn. rewrite lookup_partial_alter_ne; [done|]. by intros <-.
  - by apply uniq_add.
Qed.

Lemma created_err {A} (G : A -> object) w l e :
  quiet w -> created G w (set_len l w) (Err e).
Proof. done. Qed.

Lemma NewKeyEncoder_ok w : quiet w -> uniq (w_objs w) -> good NewKeyEncoder w (created OEncoder w).
Proof.
  intros Hq Hu. unfold NewKeyEncoder. apply safe_bind, (safe_opaque _ KEncoder None); [apply Hq|done| | |].
  - intros s Hs. by apply slot_new.
  - intros e. by apply created_err.
  - intros p Hp Hz Hn. by apply safe_ret, has_new.
Qed.

Lemma NewKeyEvent_ok w : quiet w -> uniq (w_objs w) -> good NewKeyEvent w (created OEvent w).
Proof.
  intros Hq Hu. unfold NewKeyEvent. apply safe_bind, (safe_opaque _ KEvent None); [apply Hq|done| | |].
  - intros s Hs. by apply slot_new.
  - intros e. by apply created_err.
  - intros p Hp Hz Hn. apply safe_ret, has_new; try done. intros _. cbn. by rewrite lookup_partial_alter_eq.
Qed.

Lemma new_formatter_ok w t n opts :
  quiet w -> uniq (w_objs w) -> holds KTerminal (t_ptr t) w -> is_u32 opts -> own opts formatterOptionsSize w ->
  good (new_formatter t opts) w (created (fun f => OFormatter f n (t_ptr t)) w).
Proof.
  intros Hq Hu Ht Ho Hown. unfold new_formatter.
  apply safe_bind, (safe_opaque _ KFormatter (Some (KTerm (u32 (i32 (t_ptr t)))))); [apply Hq|done| | |].
  - intros s Hs. split_and!; [by apply slot_new|by eapply holds_live|].
    by apply in_block_i32.
  - intros e. by apply created_err.
  - intros p Hp Hz Hn. apply safe_ret, has_new; try done. intros _. cbn.
    rewrite lookup_partial_alter_eq, u32_i32, u32_id; [done|apply Ht].
Qed.

(** Freeing the blocks allocated before an object was created. *)
Lemma created_free {A} (G : A -> object) w w1 w' r l :
  w_objs w1 = w_objs w -> w_kept w1 = w_kept w -> created G w1 w' r -> (forall a, object_blocks (G a) = ∅) ->
  w_blocks w' = w_blocks w1 /\ created G w (set_len l (set_blocks (w_blocks w) w')) r.
Proof.
  intros Ho Hk Hc He. destruct r as [a|e].
  - destruct Hc as (Hopen & (Hq & H1 & H2 & H3 & H4 & H5) & H6). rewrite (He a), (right_id_L ∅ (⊎)) in H1.
    split; [done|]. split; [done|]. split; [|done]. unfold has. rewrite (He a), (right_id_L ∅ (⊎)).
    world_cbn. rewrite <- Ho, <- Hk. by split_and!.
  - destruct Hc as (H1 & H2 & H3 & H4). split; [done|]. unfold created, still. world_cbn.
    rewrite H2, Ho. split_and!; try done. intros x. rewrite <- Ho, <- Hk. apply H4.
Qed.

Definition selection_ok (s : Selection) : Prop :=
  blen (Start s) = gridRefSize /\ blen (End_ s) = gridRefSize.

Lemma formatter_in_block w p t n B w1 :
  holds KTerminal (t_ptr t) w -> uniq (w_objs w) -> is_u32 p ->
  w_blocks w1 = B -> w_objs w1 = w_objs w -> w_kept w1 = w_kept w -> quiet w1 -> own p formatterOptionsSize w1 ->
  good (new_formatter t p) w1 (fun w2 a =>
    w_blocks w2 = B /\
    forall l, created (fun f => OFormatter f n (t_ptr t)) w (set_len l (set_blocks (w_blocks w) w2)) a).
Proof.
  intros Ht Hu Hp <- Ho Hk Hq1 Hown. eapply safe_mono; [|apply (new_formatter_ok _ _ n); [done|by rewrite Ho| |done|done]].
  - cbn beta. intros w2 a Ha. split; [|intros l];
      by eapply (created_free (fun f => OFormatter f n (t_ptr t)) w w1 w2 a None).
  - unfold holds in *. by rewrite Ho.
Qed.

Lemma NewFormatter_ok w t n opts :
  quiet w -> uniq (w_objs w) -> holds KTerminal (t_ptr t) w ->
  match fo_selection opts with Some s => selection_ok s | None => True end ->
  good (NewFormatter t opts) w (created (fun f => OFormatter f n (t_ptr t)) w).
Proof.
  intros Hq Hu Ht Hsel. unfold NewFormatter. mem_step; [by apply created_err|].
  mem_step. mem_step. destruct (fo_selection opts) as [s|].
  2: { world_cbn. eapply safe_mono; [|eapply (formatter_in_block w p); try done; own_solve].
       cbn beta. intros w2 a [H1 H2]. split; [exact H1|apply H2]. }
  destruct Hsel as [Hs1 Hs2]. mem_step.
  { split; [done|]. repeat split; apply Hq. }
  mem_step. mem_step. apply safe_with_bytes; [done|width_const|left; own_solve|intros l' Hl'].
  assert (Hp36 : is_u32 (p + 36)) by (unfold is_u32, formatterOptionsSize in *; lia).
  eapply safe_write; [apply blen_le32| |exact Hp36| |].
  - eexists. split; [reflexivity|]. unfold is_u32, formatterOptionsSize in *. lia.
  - right. exists p, formatterOptionsSize. split; [world_cbn; apply in_earlier, in_last|].
    unfold formatterOptionsSize. lia.
  - world_cbn. eapply safe_mono; [|eapply (formatter_in_block w p); try done; own_solve].
    cbn beta. intros w2 a [H1 H2]. split_and!; [exact H1|done|apply (H2 None)].
Qed.

(** A call that frees an object. *)
Definition without_object (l : option Z) (x : kind * Z) (O : gmultiset (kind * Z)) (w : world) : world :=
  set_len l (set_kept (delete x (w_kept w)) (set_objs O w)).

Lemma safe_free_call {A} f k p (c : Z -> proc A) w O Q :
  creates f = None -> frees f = Some (k, u32 (i32 p)) -> outputs f = None -> lends f = None ->
  (live k (i32 p) w -> legal_call f w) -> is_u32 p ->
  w_objs w = O ⊎ {[+ (k, p) +]} ->
  (forall r l, good (c r) (without_object l (k, p) O w) Q) -> good (Do (Call f) c) w Q.
Proof.
  intros Hc Hf Ho Hd Hl Hp Hw Hk. rewrite u32_i32, (u32_id p Hp) in Hf. split.
  - apply Hl. unfold live. rewrite u32_i32, (u32_id p Hp), Hw. multiset_solver.
  - intros r _. cbn [next]. unfold next_call. rewrite Hc, Hf, Ho, Hd, Hw.
    replace ((O ⊎ {[+ (k, p) +]}) ∖ {[+ (k, p) +]}) with O by multiset_solver. apply Hk.
Qed.

Lemma owned_0 B n : B ⊎ owned 0 n = B.
Proof. apply (right_id_L ∅ (⊎)). Qed.
Lemma blocks_none B o n : object_block o = (0, n) -> B ⊎ object_blocks o = B.
Proof. intros H. unfold object_blocks. rewrite H. apply (right_id_L ∅ (⊎)). Qed.
Lemma objs_none O o : object_ptr o = 0 -> O ⊎ object_objs o = O.
Proof. intros H. unfold object_objs. rewrite H. apply (right_id_L ∅ (⊎)). Qed.

Lemma has_open_objs w o B O K :
  has w o B O K -> object_ptr o <> 0 -> w_objs w = O ⊎ {[+ (object_kind o, object_ptr o) +]}.
Proof.
  intros (_ & _ & H & _) Hz. rewrite H. unfold object_objs. by destruct (Z.eqb_spec (object_ptr o) 0).
Qed.

Lemma has_holds w o B O K :
  has w o B O K -> object_ptr o <> 0 -> holds (object_kind o) (object_ptr o) w.
Proof.
  intros H Hz. split; [apply H|]. rewrite (has_open_objs _ _ _ _ _ H Hz). multiset_solver.
Qed.

(** The objects other than one that is closed. *)
Definition around (w : world) (O : gmultiset (kind * Z)) (K : gmap (kind * Z) kept) : Prop :=
  quiet w /\ w_objs w = O /\ (forall x, x ∈ O -> w_kept w !! x = K !! x) /\ uniq O.

Lemma closed_around w o B O K l :
  has w o B O K -> object_ptr o <> 0 -> around (without_object l (object_kind o, object_ptr o) O w) O K.
Proof.
  intros H Hz. pose proof (has_open_objs _ _ _ _ _ H Hz) as Ho. destruct H as (Hq & _ & _ & _ & Hk & Hu).
  rewrite Ho in Hu. split; [done|]. split; [done|]. split; [|by eapply uniq_l].
  intros x Hx. cbn. rewrite lookup_delete_ne; [by apply Hk|]. intros <-. by apply uniq_fresh in Hu.
Qed.

Lemma has_around w o B O K : has w o B O K -> object_ptr o = 0 -> around w O K.
Proof.
  intros (Hq & _ & Ho & _ & Hk & Hu) Hz. rewrite objs_none in Ho by done. rewrite Ho in Hu. by split_and!.
Qed.

Lemma has_closed w o B O K :
  object_ptr o = 0 -> object_ok o -> around w O K -> w_blocks w = B ⊎ object_blocks o -> has w o B O K.
Proof.
  intros Hz Hok (Hq & Ho & Hk & Hu) Hb. unfold has. rewrite objs_none by done. rewrite Ho. by split_and!.
Qed.

Lemma KeyEncoder_Close_ok w enc B O K :
  has w (OEncoder enc) B O K ->
  good (KeyEncoder_Close enc) w (fun w' enc' => has w' (OEncoder enc') B O K /\ enc_ptr enc' = 0).
Proof.
  intros H. unfold KeyEncoder_Close. destruct (Z.eqb_spec (enc_ptr enc) 0) as [E|E]; [done|].
  eapply (safe_free_call _ KEncoder (enc_ptr enc)); try done; [apply H|by apply (has_open_objs _ _ _ _ _ H)|].
  intros _ l. apply safe_ret. split; [|done]. apply has_closed; [done|done|exact (closed_around _ _ _ _ _ l H E)|apply H].
Qed.

Lemma Formatter_Close_ok w f n term B O K :
  has w (OFormatter f n term) B O K ->
  good (Formatter_Close f) w (fun w' f' => has w' (OFormatter f' n term) B O K /\ f_ptr f' = 0).
Proof.
  intros H. unfold Formatter_Close. destruct (Z.eqb_spec (f_ptr f) 0) as [E|E]; [done|].
  eapply (safe_free_call _ KFormatter (f_ptr f)); try done; [apply H|by apply (has_open_objs _ _ _ _ _ H)|].
  intros _ l. apply safe_ret. split; [|done]. apply has_closed; [done|done|exact (closed_around _ _ _ _ _ l H E)|apply H].
Qed.

Lemma KeyEvent_Close_ok w e B O K :
  has w (OEvent e) B O K ->
  good (KeyEvent_Close e) w (fun w' e' => has w' (OEvent e') B O K /\ ev_ptr e' = 0).
Proof.
  intros H. unfold KeyEvent_Close. destruct (Z.eqb_spec (ev_ptr e) 0) as [E|E]; [done|].
  eapply (safe_free_call _ KEvent (ev_ptr e)); try done; [apply H|by apply (has_open_objs _ _ _ _ _ H)|].
  intros _ l. pose proof (closed_around _ _ _ _ _ l H E) as Ha.
  destruct H as (_ & Hb & _ & (Hp & Hu & Hn & _) & _). apply safe_bind.
  apply (owned_free _ _ _ B); try done. intros l'. apply safe_ret. split; [|done].
  apply has_closed; [done|done|exact Ha|]. by rewrite (blocks_none _ _ 0).
Qed.

Lemma closeLocked_ok w t B O K :
  has w (OTerminal t) B O K ->
  good (closeLocked t) w (fun w' t' => t' = mkTerminal 0 0 /\ has w' (OTerminal t') B O K).
Proof.
  intros H. unfold closeLocked. pose proof H as (_ & Hb & _ & (_ & Hf & _) & _).
  assert (Hrest : forall w1, around w1 O K -> w_blocks w1 = B ⊎ owned (feedPtr t) feedBufferSize ->
    good (call! _ := rt_free (feedPtr t) feedBufferSize in Ret (mkTerminal 0 0)) w1
      (fun w' t' => t' = mkTerminal 0 0 /\ has w' (OTerminal t') B O K)).
  { intros w1 Ha Hb1. apply safe_bind, (owned_free _ _ _ B); [done|width_const|done|].
    intros l. apply safe_ret. split; [done|]. apply has_closed; [done|done|exact Ha|].
    by rewrite (blocks_none _ _ feedBufferSize). }
  destruct (Z.eqb_spec (t_ptr t) 0) as [E|E]; cbn [negb].
  - apply Hrest; [by eapply has_around|done].
  - eapply (safe_free_call _ KTerminal (t_ptr t)); try done; [apply H|by apply (has_open_objs _ _ _ _ _ H)|].
    intros _ l. apply Hrest; [exact (closed_around _ _ _ _ _ l H E)|done].
Qed.

(** Freeing the source of a decoder: closed, or used up. *)
Lemma releaseSource_ok w d B (Q : world -> SnapshotDecoder -> Prop) :
  w_blocks w = B ⊎ owned (sourcePtr d) (sourceLen d) ->
  is_u32 (sourcePtr d) -> is_u32 (sourceLen d) ->
  (forall l, Q (set_len l (set_blocks B w)) (mkDecoder (d_ptr d) 0 0)) ->
  good (releaseSourceLocked d) w Q.
Proof.
  intros Hb Hs Hn HQ. unfold releaseSourceLocked.
  by apply safe_bind, (owned_free _ _ _ B).
Qed.

Lemma SnapshotDecoder_Close_ok w d u B O K :
  has w (ODecoder d u) B O K ->
  good (SnapshotDecoder_Close d) w (fun w' d' => d' = mkDecoder 0 0 0 /\ has w' (ODecoder d' u) B O K).
Proof.
  intros H. unfold SnapshotDecoder_Close. pose proof H as (_ & Hb & _ & (Hp & Hs & Hn & _) & _).
  assert (Hend : forall w1, around w1 O K -> w_blocks w1 = w_blocks w ->
    good (releaseSourceLocked (mkDecoder 0 (sourcePtr d) (sourceLen d))) w1
      (fun w' d' => d' = mkDecoder 0 0 0 /\ has w' (ODecoder d' u) B O K)).
  { intros w1 Ha Hb1. apply (releaseSource_ok _ _ B); [by rewrite Hb1, Hb|done|done|].
    intros l. split; [done|]. apply has_closed; [done|done|exact Ha|]. by rewrite (blocks_none _ _ 0). }
  destruct (Z.eqb_spec (d_ptr d) 0) as [E|E]; cbn [negb].
  - replace (releaseSourceLocked d) with (releaseSourceLocked (mkDecoder 0 (sourcePtr d) (sourceLen d)))
      by (destruct d; cbn in *; by subst).
    apply Hend; [by eapply has_around|done].
  - eapply (safe_free_call _ KDecoder (d_ptr d)); try done; [by apply (has_open_objs _ _ _ _ _ H)|].
    intros _ l. apply Hend; [exact (closed_around _ _ _ _ _ l H E)|done].
Qed.

(** The text is only exchanged together with the module's pointer to it; for want of
    memory it is left to a freed text. *)
Lemma SetUTF8_ok w e value B O K :
  has w (OEvent e) B O K -> ev_ptr e <> 0 -> is_i64 (blen value) ->
  good (SetUTF8 e value) w (fun w' '(r, e') =>
    ev_ptr e' = ev_ptr e /\ has w' (OEvent e') B O K /\ out_ok r /\
    (panic_of r = None -> keeps w' (OEvent e'))).
Proof.
  intros H Hz Hv. unfold SetUTF8. apply safe_bind.
  pose proof (has_open_objs _ _ _ _ _ H Hz) as Ho. cbn in Ho.
  destruct H as (Hq & Hb & _ & (Hp & Hs & Hn & _) & Hk & Hu).
  assert (Hfresh : (KEvent, ev_ptr e) ∉ O) by (rewrite Ho in Hu; by apply uniq_fresh).
  apply (owned_free _ _ _ B); try done. intros l.
  assert (Hset : forall w1 p n, quiet w1 -> is_u32 p -> is_u32 n -> w_objs w1 = w_objs w -> w_kept w1 = w_kept w ->
    w_blocks w1 = B ⊎ owned p n -> (own p n w1) -> (n <> 0 -> p <> 0) ->
    good (set_utf8 (mkKeyEvent (ev_ptr e) p n)) w1 (fun w' '(r, e') =>
      ev_ptr e' = ev_ptr e /\ has w' (OEvent e') B O K /\ out_ok r /\ (panic_of r = None -> keeps w' (OEvent e')))).
  { intros w1 p n Hq1 Hp1 Hn1 Ho1 Hk1 Hb1 Hown Hpn. unfold set_utf8. cbn [ev_ptr utf8Ptr utf8Len]. split.
    - split; [eapply holds_live; [|reflexivity]; split; [done|]; rewrite Ho1, Ho; multiset_solver|].
      rewrite u32_i32, (u32_id n) by done. by apply in_block_i32.
    - intros r _. cbn [next]. unfold next_call. cbn [creates frees outputs lends]. apply safe_ret. split; [done|].
      rewrite !u32_i32, !u32_id by done. split; [|split; [done|]].
      + unfold has, object_objs. cbn. rewrite Ho1, Ho, Hk1. destruct (Z.eqb_spec (ev_ptr e) 0); [done|].
        rewrite Ho in Hu. split_and!; try done. intros x Hx. rewrite lookup_insert_ne; [by apply Hk|]. by intros <-.
      + intros _ _. cbn. rewrite lookup_insert_eq. destruct (Z.eq_dec n 0); [by left|right]. auto. }
  assert (Hpanic : forall w1 err, quiet w1 -> w_objs w1 = w_objs w -> w_kept w1 = w_kept w -> w_blocks w1 = B ->
    out_of_memory err ->
    ev_ptr (mkKeyEvent (ev_ptr e) 0 0) = ev_ptr e /\ has w1 (OEvent (mkKeyEvent (ev_ptr e) 0 0)) B O K /\
    out_ok (Panicked (A := unit) err) /\ (panic_of (Panicked (A := unit) err) = None ->
      keeps w1 (OEvent (mkKeyEvent (ev_ptr e) 0 0)))).
  { intros w1 err Hq1 Ho1 Hk1 Hb1 Herr. unfold has. rewrite (blocks_none _ _ 0) by done. unfold object_objs. cbn. rewrite Ho1, Ho, Hb1, Hk1.
    destruct (Z.eqb_spec (ev_ptr e) 0); [done|]. rewrite Ho in Hu. by split_and!. }
  destruct (blen value =? 0).
  { apply Hset; try done; [|by left]. by rewrite owned_0. }
  destruct (wasmLength (blen value)) as [n|err] eqn:E.
  2: { apply safe_ret, Hpanic; try done. right. unfold wasmLength in E. case_match; congruence. }
  apply (wasmLength_Ok _ _ Hv) in E as [-> Hlen]. apply safe_bind, owned_alloc; [done| |]; cbv zeta.
  - intros p l' Hp' Hpz Hown. apply safe_bind, safe_put; try done. intros l2. by apply Hset.
  - apply safe_ret, Hpanic; try done. by left.
Qed.

Lemma NewDecoder_ok w data :
  quiet w -> uniq (w_objs w) -> is_i64 (blen data) ->
  good (newSnapshotDecoderBytes data) w (created (fun d => ODecoder d false) w).
Proof.
  intros Hq Hu Hd. unfold newSnapshotDecoderBytes. destruct (wasmLength (blen data)) as [n|e] eqn:E; [|done].
  apply (wasmLength_Ok _ _ Hd) in E as [-> Hlen]. apply safe_bind, owned_alloc; [done| |done]; cbv zeta.
  intros p l Hp Hpz Hown. apply safe_bind, safe_put; try done. intros l2.
  apply safe_bind, (safe_opaque _ KDecoder (Some (KBytes (u32 (i32 p)) (u32 (i32 (blen data)))))); [apply Hq|done| | |].
  - intros s Hs. split; [by apply slot_new|].
    rewrite u32_i32, (u32_id (blen data)) by done. by apply in_block_i32.
  - intros e. apply safe_bind, (owned_free _ _ _ (w_blocks w)); try done.
  - intros q Hp' Hz Hn. apply safe_ret. cbn [created]. unfold is_open, has, object_objs, keeps. cbn in Hn |- *.
    destruct (Z.eqb_spec q 0); [done|]. rewrite !u32_i32, !u32_id by done.
    split; [done|]. split; [|intros _; split; [apply lookup_partial_alter_eq|]].
    + split_and!; try done; [|by apply uniq_add].
      intros x Hx. rewrite lookup_partial_alter_ne; [done|]. by intros <-.
    + destruct (Z.eq_dec (blen data) 0); auto.
Qed.

Lemma wrapTerminal_ok w p B O K :
  quiet w -> w_blocks w = B -> w_objs w = O ⊎ {[+ (KTerminal, p) +]} -> is_u32 p -> p <> 0 ->
  (forall x, x ∈ O -> w_kept w !! x = K !! x) -> uniq (w_objs w) ->
  good (wrapTerminalLocked p) w (fun w' r =>
    match r with
    | Ok t => t_ptr t = p /\ has w' (OTerminal t) B O K
    | Err _ => same w w'
    end).
Proof.
  intros Hq Hb Ho Hp Hz Hk Hu. unfold wrapTerminalLocked. apply safe_bind, owned_alloc; [width_const| |by apply safe_ret].
  cbv zeta. intros q l Hq' Hqz _. apply safe_ret. split; [done|]. unfold has, object_objs. cbn.
  destruct (Z.eqb_spec p 0); [done|]. rewrite Hb. assert (q <> 0) by by apply Hqz. by split_and!.
Qed.

Lemma has_same w w' o B O K : same w w' -> has w o B O K -> has w' o B O K.
Proof.
  intros (H1 & H2 & H3 & H4) (_ & ? & ? & ? & ? & ?). unfold has. rewrite H1, H2, H4. by split_and!.
Qed.

Lemma set_or_close_ok {A} w0 w t (setting : option A) set rest :
  has w (OTerminal t) (w_blocks w0) (w_objs w0) (w_kept w0) ->
  (forall v w1, has w1 (OTerminal t) (w_blocks w0) (w_objs w0) (w_kept w0) -> good (set v) w1 (fun w' _ => same w1 w')) ->
  (forall w1, has w1 (OTerminal t) (w_blocks w0) (w_objs w0) (w_kept w0) -> good rest w1 (created OTerminal w0)) ->
  good (set_or_close t setting set rest) w (created OTerminal w0).
Proof.
  intros H Hset Hrest. unfold set_or_close. destruct setting as [v|]; [|by apply Hrest].
  apply safe_bind. eapply safe_mono; [|by apply Hset]. cbn beta. intros w1 r Hs.
  pose proof (has_same _ _ _ _ _ _ Hs H) as H'.
  destruct r as [e|]; [|by apply Hrest]. apply safe_bind.
  eapply safe_mono; [|by apply closeLocked_ok]. cbn beta. intros w2 t' [-> H2].
  apply safe_ret. destruct (has_around _ _ _ _ _ H2 eq_refl) as (Hq & Ho & Hk & _).
  destruct H2 as (_ & Hb & _). cbn [created]. unfold still. rewrite Hb, (blocks_none _ _ feedBufferSize) by done.
  by split_and!.
Qed.

(** A terminal the module has just made, wrapped or freed again. *)
Lemma new_terminal_around w p B :
  quiet w -> uniq (w_objs w) -> (KTerminal, p) ∉ w_objs w -> is_u32 p -> p <> 0 -> w_blocks w = B ->
  good (wrapTerminalLocked p) (with_object KTerminal None p w) (fun w' r =>
    match r with
    | Ok t => t_ptr t = p /\ has w' (OTerminal t) B (w_objs w) (w_kept w)
    | Err _ => same (with_object KTerminal None p w) w'
    end).
Proof.
  intros Hq Hu Hn Hp Hz <-. apply wrapTerminal_ok; try done; [|by apply uniq_add].
  intros x Hx. cbn. rewrite lookup_partial_alter_ne; [done|]. by intros <-.
Qed.

(** Freeing it leaves what was there. *)
Lemma freed_still w p w' l :
  quiet w -> (KTerminal, p) ∉ w_objs w -> same (with_object KTerminal None p w) w' ->
  still w (without_object l (KTerminal, p) (w_objs w) w').
Proof.
  intros Hq Hn (H1 & H2 & H3 & H4). split_and!; [done|done|done|]. intros x Hx. cbn. rewrite H4. cbn.
  assert (x <> (KTerminal, p)) by (by intros ->). rewrite lookup_delete_ne, lookup_partial_alter_ne by done. done.
Qed.

Lemma NewTerminal_ok w opts :
  quiet w -> uniq (w_objs w) -> good (NewTerminal opts) w (created OTerminal w).
Proof.
  intros Hq Hu. unfold NewTerminal. set (cfg := foldl _ _ _).
  apply safe_bind, (safe_opaque _ KTerminal None); [apply Hq|done| |done|].
  { intros s Hs. by apply slot_new. }
  intros p Hp Hz Hn. apply safe_bind.
  eapply safe_mono; [|by apply (new_terminal_around w p (w_blocks w))].
  cbn beta. intros w1 r Hr. destruct r as [t|e].
  - destruct Hr as [Ht H]. assert (Htz : object_ptr (OTerminal t) <> 0) by (cbn; congruence).
    assert (Hset : forall w2, has w2 (OTerminal t) (w_blocks w) (w_objs w) (w_kept w) ->
      quiet w2 /\ holds KTerminal (t_ptr t) w2)
      by (intros w2 H2; split; [apply H2|by apply (has_holds _ _ _ _ _ H2)]).
    apply set_or_close_ok; [done| |].
    + intros v w2 [H2 H3]%Hset. by apply set_limit_ok.
    + intros w2 H2. apply set_or_close_ok; [done| |].
      * intros v w3 [H3 H4]%Hset. by apply set_limit_ok.
      * intros w3 H3. apply safe_ret. split; [|done]. unfold is_open. by destruct (Z.eqb_spec (object_ptr (OTerminal t)) 0).
  - pose proof (fun l => freed_still w p w1 l Hq Hn Hr) as Hs. destruct Hr as (H1 & H2 & H3 & H4).
    by apply (safe_free_call _ KTerminal p _ _ (w_objs w)).
Qed.

(** What a decoder that has not decoded needs: its source. *)
Lemma decoder_kept w d B O K :
  has w (ODecoder d false) B O K -> keeps w (ODecoder d false) -> d_ptr d <> 0 ->
  kept_ok KDecoder (i32 (d_ptr d)) w.
Proof.
  intros (_ & Hb & _ & (Hp & Hs & _) & _) Hk Hz. destruct (Hk Hz) as [Hd Hn]. cbn in Hp, Hs.
  unfold kept_ok. rewrite u32_i32, u32_id, Hd by done. destruct Hn as [Hn|Hn]; [by left|right].
  exists (sourcePtr d), (sourceLen d). rewrite u32_id by done. split; [|lia]. rewrite Hb. unfold object_blocks, owned. cbn.
  destruct (Z.eqb_spec (sourcePtr d) 0); [done|]. apply in_last.
Qed.

Lemma Decode_ok w d B O K :
  has w (ODecoder d false) B O K -> keeps w (ODecoder d false) -> d_ptr d <> 0 ->
  good (Decode d) w (fun w' '(r, d') =>
    match r with
    | Ok t => t_ptr t <> 0 /\ d_ptr d' = d_ptr d /\
        has w' (OTerminal t) (B ⊎ object_blocks (ODecoder d' true)) (O ⊎ object_objs (ODecoder d' true)) (w_kept w) /\
        object_ok (ODecoder d' true)
    | Err _ => d' = d /\ still w w'
    end).
Proof.
  intros H Hkeep Hz. unfold Decode. pose proof H as (Hq & Hb & Ho & Hok & Hk & Hu).
  pose proof (has_holds _ _ _ _ _ H Hz) as Hh. pose proof (decoder_kept _ _ _ _ _ H Hkeep Hz) as Hsrc.
  apply safe_bind, (safe_opaque _ KTerminal None); [apply Hq|done| | |].
  - intros s Hs. split; [by apply slot_new|]. split; [by eapply holds_live|done].
  - intros e. apply safe_ret. split; [done|]. by split_and!.
  - intros p Hp Hpz Hn. apply safe_bind.
    eapply safe_mono; [|by apply (new_terminal_around w p (w_blocks w))].
    cbn beta. intros w1 r Hr. destruct r as [t|e].
    + destruct Hr as [Ht (G1 & G2 & G3 & G4 & G5 & G6)]. destruct Hok as (Hp1 & Hs1 & Hn1 & _). apply safe_bind.
      apply (releaseSource_ok _ _ (B ⊎ object_blocks (OTerminal t))); [|done|done|].
      * rewrite G2, Hb. unfold object_blocks at 1. cbn [object_block fst snd]. multiset_solver.
      * intros l. apply safe_ret. split; [congruence|]. split; [done|]. split; [|done].
        assert (Ho' : O ⊎ object_objs (ODecoder (mkDecoder (d_ptr d) 0 0) true) = w_objs w) by (by rewrite Ho).
        rewrite Ho', (blocks_none B (ODecoder (mkDecoder (d_ptr d) 0 0) true) 0) by done.
        unfold has. by split_and!.
    + pose proof (fun l => freed_still w p w1 l Hq Hn Hr) as Hs. destruct Hr as (H1 & H2 & H3 & H4).
      apply (safe_free_call _ KTerminal p _ _ (w_objs w)); try done.
Qed.

(** ** Programs that use the library *)

Inductive getter := GCols | GRows | GCursorX | GCursorY | GActiveScreen | GVTGround | GPwd.

(** One call of a method; objects are numbered in the order they were made. *)
Inductive call :=
| CNewKeyEncoder
| CNewKeyEvent
| CNewTerminal (opts : list (TerminalConfig -> TerminalConfig))
| CNewFormatter (t : nat) (opts : formatterOpts)
| CNewDecoder (data : bytes)
| CClose (h : nat)
| CSetOptBool (h : nat) (option : Z) (value : bool)
| CSetOptKittyFlags (h : nat) (flags : Z)
| CSetOptOptionAsAlt (h : nat) (value : Z)
| CSetOptFromTerminal (h t : nat)
| CEncode (h event : nat)
| CSet (f : field) (h : nat) (value : Z)
| CGet (f : field) (h : nat)
| CSetUTF8 (h : nat) (value : bytes)
| CUTF8 (h : nat)
| CReset (h : nat)
| CResize (h : nat) (cols rows width height : Z)
| CVTWrite (h : nat) (data : bytes)
| CSetContinuationMaxBytes (h : nat) (limit : Z)
| CSetScrollbackMaxLines (h : nat) (limit : option Z)
| CTerminalGet (g : getter) (h : nat)
| CGridRef (h : nat) (point : Point)
| CSnapshot (h : nat)
| CFormat (h : nat)
| CFormatBuf (h : nat) (buf : bytes)
| CSetMaxContinuationBytes (h : nat) (limit : Z)
| CSetRetainContinuation (h : nat) (retain : bool)
| CDecode (h : nat).

(** The objects after a call, and the panic it ended in. *)
Definition after : Type := list object * option error.

Definition keeping {A} (st : list object) (p : proc A) : proc after :=
  call! _ := p in Ret (st, None).
Definition keeping_or_panic {A} (st : list object) (p : proc (out A)) : proc after :=
  call! r := p in Ret (st, panic_of r).
Definition adding {A} (G : A -> object) (st : list object) (p : proc (result A)) : proc after :=
  call! r := p in Ret (match r with Ok a => st ++ [G a] | Err _ => st end, None).
Definition updating {A} (G : A -> object) (h : nat) (st : list object) (p : proc A) : proc after :=
  call! a := p in Ret (<[h := G a]> st, None).

(** The open object of a number: calls on others are not made. *)
Definition get (st : list object) (h : nat) : option object :=
  match st !! h with Some o => if is_open o then Some o else None | None => None end.

Definition run_close (h : nat) (st : list object) : proc after :=
  match st !! h with
  | Some (OEncoder o) => updating OEncoder h st (KeyEncoder_Close o)
  | Some (OEvent o) => updating OEvent h st (KeyEvent_Close o)
  | Some (OTerminal o) => updating OTerminal h st (Terminal_Close o)
  | Some (OFormatter o t term) => updating (fun o => OFormatter o t term) h st (Formatter_Close o)
  | Some (ODecoder o used) => updating (fun o => ODecoder o used) h st (SnapshotDecoder_Close o)
  | None => Ret (st, None)
  end.

Definition run_set (f : field) (e : KeyEvent) (value : Z) : proc unit :=
  match f with
  | FAction => SetAction e value
  | FKey => SetKey e value
  | FMods => SetMods e value
  | FConsumedMods => SetConsumedMods e value
  | FComposing => SetComposing e (negb (value =? 0))
  | FUnshiftedCodepoint => SetUnshiftedCodepoint e value
  end.

Definition run_get (f : field) (e : KeyEvent) (st : list object) : proc after :=
  match f with
  | FAction => keeping st (Action e)
  | FKey => keeping st (Key e)
  | FMods => keeping st (Mods e)
  | FConsumedMods => keeping st (ConsumedMods e)
  | FComposing => keeping st (Composing e)
  | FUnshiftedCodepoint => keeping st (UnshiftedCodepoint e)
  end.

Definition run_terminal_get (g : getter) (t : Terminal) (st : list object) : proc after :=
  match g with
  | GCols => keeping st (Terminal_Cols t)
  | GRows => keeping st (Terminal_Rows t)
  | GCursorX => keeping st (CursorX t)
  | GCursorY => keeping st (CursorY t)
  | GActiveScreen => keeping st (ActiveScreen t)
  | GVTGround => keeping st (VTGround t)
  | GPwd => keeping st (Pwd t)
  end.

Definition run_encoder (c : call) (enc : KeyEncoder) (st : list object) : proc after :=
  match c with
  | CSetOptBool _ option value => keeping_or_panic st (SetOptBool enc option value)
  | CSetOptKittyFlags _ flags => keeping_or_panic st (SetOptKittyFlags enc flags)
  | CSetOptOptionAsAlt _ value => keeping_or_panic st (SetOptOptionAsAlt enc value)
  | CSetOptFromTerminal _ t =>
      match get st t with
      | Some (OTerminal t) => keeping st (SetOptFromTerminal enc (t_ptr t))
      | _ => Ret (st, None)
      end
  | CEncode _ e =>
      match get st e with
      | Some (OEvent e) => keeping st (Encode enc e)
      | _ => Ret (st, None)
      end
  | _ => Ret (st, None)
  end.

Definition run_event (c : call) (h : nat) (e : KeyEvent) (st : list object) : proc after :=
  match c with
  | CSet f _ value => keeping st (run_set f e value)
  | CGet f _ => run_get f e st
  | CSetUTF8 _ value => call! (r, e) := SetUTF8 e value in Ret (<[h := OEvent e]> st, panic_of r)
  | CUTF8 _ => call! r := UTF8 e in Ret (st, panic_of r)
  | _ => Ret (st, None)
  end.

Definition run_terminal (c : call) (h : nat) (t : Terminal) (st : list object) : proc after :=
  match c with
  | CNewFormatter _ opts => adding (fun f => OFormatter f h (t_ptr t)) st (NewFormatter t opts)
  | CReset _ => keeping st (Reset t)
  | CResize _ cols rows width height => keeping st (Terminal_Resize t cols rows width height)
  | CVTWrite _ data => keeping_or_panic st (feed t data)
  | CSetContinuationMaxBytes _ limit => keeping st (SetContinuationMaxBytes t limit)
  | CSetScrollbackMaxLines _ limit => keeping st (SetScrollbackMaxLines t limit)
  | CTerminalGet g _ => run_terminal_get g t st
  | CGridRef _ point => keeping st (GridRef t point)
  | CSnapshot _ => keeping st (Snapshot t)
  | _ => Ret (st, None)
  end.

(** The module reads the terminal of a formatter, so a formatter is only used while its
    terminal is open. *)
Definition run_formatter (c : call) (f : Formatter) (t : nat) (st : list object) : proc after :=
  match get st t with
  | Some (OTerminal _) =>
      match c with
      | CFormat _ => keeping st (Format f)
      | CFormatBuf _ buf => keeping st (FormatBuf f buf)
      | _ => Ret (st, None)
      end
  | _ => Ret (st, None)
  end.

(** A decoder that has decoded has given up its source, and does not decode again. *)
Definition run_decoder (c : call) (h : nat) (d : SnapshotDecoder) (used : bool) (st : list object) : proc after :=
  match c with
  | CSetMaxContinuationBytes _ limit => keeping st (SetMaxContinuationBytes d limit)
  | CSetRetainContinuation _ retain => keeping st (SetRetainContinuation d retain)
  | CDecode _ =>
      if used then Ret (st, None)
      else
        call! (r, d) := Decode d in
        Ret (match r with
             | Ok t => <[h := ODecoder d true]> st ++ [OTerminal t]
             | Err _ => <[h := ODecoder d false]> st
             end, None)
  | _ => Ret (st, None)
  end.

(** The object a call is made on. *)
Definition receiver (c : call) : nat :=
  match c with
  | CNewKeyEncoder | CNewKeyEvent | CNewTerminal _ | CNewDecoder _ => 0%nat
  | CNewFormatter h _ | CClose h | CSetOptBool h _ _ | CSetOptKittyFlags h _
  | CSetOptOptionAsAlt h _ | CSetOptFromTerminal h _ | CEncode h _ | CSet _ h _ | CGet _ h
  | CSetUTF8 h _ | CUTF8 h | CReset h | CResize h _ _ _ _ | CVTWrite h _
  | CSetContinuationMaxBytes h _ | CSetScrollbackMaxLines h _ | CTerminalGet _ h | CGridRef h _
  | CSnapshot h | CFormat h | CFormatBuf h _ | CSetMaxContinuationBytes h _
  | CSetRetainContinuation h _ | CDecode h => h
  end.

Definition run_call (c : call) (st : list object) : proc after :=
  match c with
  | CNewKeyEncoder => adding OEncoder st NewKeyEncoder
  | CNewKeyEvent => adding OEvent st NewKeyEvent
  | CNewTerminal opts => adding OTerminal st (NewTerminal opts)
  | CNewDecoder data => adding (fun d => ODecoder d false) st (newSnapshotDecoderBytes data)
  | CClose h => run_close h st
  | _ =>
      let h := receiver c in
      match get st h with
      | Some (OEncoder enc) => run_encoder c enc st
      | Some (OEvent e) => run_event c h e st
      | Some (OTerminal t) => run_terminal c h t st
      | Some (OFormatter f t _) => run_formatter c f t st
      | Some (ODecoder d used) => run_decoder c h d used st
      | None => Ret (st, None)
      end
  end.

(** A program; a panic ends it. *)
Fixpoint run_calls (cs : list call) (st : list object) : proc after :=
  match cs with
  | [] => Ret (st, None)
  | c :: cs =>
      call! (st, panic) := run_call c st in
      match panic with
      | Some e => Ret (st, Some e)
      | None => run_calls cs st
      end
  end.

(** Slices and strings are shorter than 2^63, a grid reference is 12 bytes, and
    [SetOptBool] is not given the option that is a number. *)
Definition call_ok (c : call) : Prop :=
  match c with
  | CNewFormatter _ opts => match fo_selection opts with Some s => selection_ok s | None => True end
  | CNewDecoder data => is_i64 (blen data)
  | CSetOptBool _ option _ => i32 option <> KeyEncoderOptMacOSOptionAsAlt
  | CSetUTF8 _ value => is_i64 (blen value)
  | CFormatBuf _ buf => is_i64 (blen buf)
  | _ => True
  end.

(** ** The invariant of a program *)

(** What the objects own together. *)
Definition total {A} `{Countable A} (f : object -> gmultiset A) (st : list object) : gmultiset A :=
  foldr (fun o acc => f o ⊎ acc) ∅ st.

(** A formatter has the pointer of its terminal, as long as that is open. *)
Definition linked (st : list object) (o : object) : Prop :=
  match o with
  | OFormatter _ h term =>
      (h < length st)%nat /\ forall t, st !! h = Some (OTerminal t) -> t_ptr t <> 0 -> t_ptr t = term
  | _ => True
  end.

(** What is allocated is what the objects own; and what the module keeps for them is
    there, unless a panic has ended the program. *)
Definition balanced (w : world) (st : list object) : Prop :=
  quiet w /\ w_blocks w = total object_blocks st /\ w_objs w = total object_objs st /\
  Forall object_ok st /\ uniq (w_objs w) /\ Forall (linked st) st.

Definition inv (w : world) (st : list object) : Prop := balanced w st /\ Forall (keeps w) st.

Lemma total_snoc {A} `{Countable A} (f : object -> gmultiset A) st o :
  total f (st ++ [o]) = total f st ⊎ f o.
Proof.
  induction st as [|o' st IH].
  - change (f o ⊎ ∅ = ∅ ⊎ f o). multiset_solver.
  - change (f o' ⊎ total f (st ++ [o]) = f o' ⊎ total f st ⊎ f o). rewrite IH. multiset_solver.
Qed.

(** The rest of the objects around one of them. *)
Definition rest {A} `{Countable A} (f : object -> gmultiset A) (st : list object) (h : nat) : gmultiset A :=
  total f (delete h st).

Lemma total_rest {A} `{Countable A} (f : object -> gmultiset A) st h o :
  st !! h = Some o -> total f st = rest f st h ⊎ f o.
Proof.
  unfold rest. revert h. induction st as [|o' st IH]; intros [|h] Hh; try done.
  - injection Hh as ->. change (f o ⊎ total f st = total f st ⊎ f o). multiset_solver.
  - change (f o' ⊎ total f st = f o' ⊎ total f (delete h st) ⊎ f o). rewrite (IH h Hh). multiset_solver.
Qed.

Lemma rest_insert {A} `{Countable A} (f : object -> gmultiset A) st h o o' :
  st !! h = Some o -> total f (<[h := o']> st) = rest f st h ⊎ f o'.
Proof.
  unfold rest. revert h. induction st as [|o1 st IH]; intros [|h] Hh; try done.
  - change (f o' ⊎ total f st = total f st ⊎ f o'). multiset_solver.
  - change (f o1 ⊎ total f (<[h := o']> st) = f o1 ⊎ total f (delete h st) ⊎ f o').
    rewrite (IH h Hh). multiset_solver.
Qed.

Lemma in_total {A} `{Countable A} (f : object -> gmultiset A) st o x :
  o ∈ st -> x ∈ f o -> x ∈ total f st.
Proof.
  intros Ho Hx. induction st as [|o' st IH]; [by apply not_elem_of_nil in Ho|].
  change (x ∈ f o' ⊎ total f st). apply elem_of_cons in Ho as [<-|Ho]; [multiset_solver|].
  specialize (IH Ho). multiset_solver.
Qed.

Lemma own_key o : object_ptr o <> 0 -> (object_kind o, object_ptr o) ∈ object_objs o.
Proof. unfold object_objs. destruct (Z.eqb_spec (object_ptr o) 0); [done|]. multiset_solver. Qed.

Lemma rest_key st h j o :
  st !! j = Some o -> j <> h -> object_ptr o <> 0 ->
  (object_kind o, object_ptr o) ∈ rest object_objs st h.
Proof.
  intros Hj Hn Hz. apply (in_total _ _ o); [|by apply own_key].
  apply list_elem_of_lookup. destruct (decide (j < h)%nat).
  - exists j. by rewrite list_lookup_delete_lt.
  - exists (Nat.pred j). rewrite list_lookup_delete_ge by lia. by replace (S (Nat.pred j)) with j by lia.
Qed.

(** The same object, perhaps closed. *)
Definition like (o o' : object) : Prop :=
  (object_ptr o' = object_ptr o \/ object_ptr o' = 0) /\
  match o, o' with
  | OEncoder _, OEncoder _ | OEvent _, OEvent _ | OTerminal _, OTerminal _ | ODecoder _ _, ODecoder _ _ => True
  | OFormatter _ h term, OFormatter _ h' term' => h' = h /\ term' = term
  | _, _ => False
  end.

Lemma linked_insert st j o1 o1' o :
  st !! j = Some o1 -> like o1 o1' -> linked st o -> linked (<[j := o1']> st) o.
Proof.
  intros Hj [Hp Hl] Ho. destruct o; try done. destruct Ho as [Hlt Ho]. split; [by rewrite length_insert|].
  intros t' Ht Hz. destruct (decide (t = j)) as [->|Hne].
  - rewrite list_lookup_insert_eq in Ht by done. injection Ht as ->. destruct o1 as [| |t1| |]; try done.
    cbn in Hp. destruct Hp as [Hp|Hp]; [|done]. rewrite Hp. apply (Ho _ Hj). by rewrite <- Hp.
  - rewrite list_lookup_insert_ne in Ht by done. by apply Ho.
Qed.

Lemma like_linked st o o' : like o o' -> linked st o -> linked st o'.
Proof. intros [_ Hl]. destruct o, o'; try done. by destruct Hl as [-> ->]. Qed.

Lemma linked_app st o' o : linked st o -> linked (st ++ [o']) o.
Proof.
  destruct o; try done. intros [Hlt Ho]. split; [rewrite length_app; cbn; lia|].
  rewrite lookup_app_l by done. exact Ho.
Qed.

Lemma inv_has w st h o :
  inv w st -> st !! h = Some o -> has w o (rest object_blocks st h) (rest object_objs st h) (w_kept w).
Proof.
  intros [(Hq & Hb & Ho & Hall & Hu & _) _] Hh. unfold has.
  rewrite list.Forall_lookup in Hall.
  split_and!; [done|rewrite Hb; by apply total_rest|rewrite Ho; by apply total_rest|by eapply Hall|done|done].
Qed.

Lemma has_balanced w w' st h o o' :
  inv w st -> st !! h = Some o -> like o o' ->
  has w' o' (rest object_blocks st h) (rest object_objs st h) (w_kept w) ->
  balanced w' (<[h := o']> st).
Proof.
  intros [(_ & _ & _ & Hall & _ & Hlink) _] Hh Hlike (Hq & Hb & Ho & Hok & _ & Hu). unfold balanced.
  split_and!; [done|rewrite Hb; by erewrite rest_insert|rewrite Ho; by erewrite rest_insert|by apply Forall_insert|done|].
  apply Forall_insert.
  - eapply List.Forall_impl; [|exact Hlink]. intros o1. by eapply linked_insert.
  - eapply linked_insert; [done|done|]. eapply like_linked; [done|].
    rewrite list.Forall_lookup in Hlink. by eapply Hlink.
Qed.

Lemma has_keeps w w' st h o o' :
  inv w st -> st !! h = Some o ->
  has w' o' (rest object_blocks st h) (rest object_objs st h) (w_kept w) -> keeps w' o' ->
  Forall (keeps w') (<[h := o']> st).
Proof.
  intros [_ Hkeep] Hh (_ & _ & _ & _ & Hk & _) Ho'. rewrite list.Forall_lookup in Hkeep |- *.
  intros j o1 Hj. apply list_lookup_insert_Some in Hj as [(<- & <- & _)|[Hne Hj]]; [done|].
  eapply keeps_ext; [|by eapply Hkeep]. intros Hz. by apply Hk, (rest_key _ _ j).
Qed.

Lemma has_inv w w' st h o o' :
  inv w st -> st !! h = Some o -> like o o' ->
  has w' o' (rest object_blocks st h) (rest object_objs st h) (w_kept w) -> keeps w' o' ->
  inv w' (<[h := o']> st).
Proof. intros. split; [by eapply has_balanced|by eapply has_keeps]. Qed.

Lemma still_keeps w w' st :
  w_objs w = total object_objs st -> (forall x, x ∈ w_objs w -> w_kept w' !! x = w_kept w !! x) ->
  Forall (keeps w) st -> Forall (keeps w') st.
Proof.
  intros Ho Hk Hkeep. apply list.Forall_forall. intros o Hin. rewrite list.Forall_forall in Hkeep.
  eapply keeps_ext; [|by apply Hkeep]. intros Hz. apply Hk. rewrite Ho. by eapply in_total, own_key.
Qed.

Lemma inv_still w w' st : inv w st -> still w w' -> inv w' st.
Proof.
  intros [(_ & Hb & Ho & Hall & Hu & Hlink) Hkeep] (H1 & H2 & H3 & H4). split; [|by eapply still_keeps].
  unfold balanced. rewrite H1, H2. by split_and!.
Qed.

Lemma inv_same w w' st : inv w st -> same w w' -> inv w' st.
Proof.
  intros Hi (H1 & H2 & H3 & H4). eapply inv_still; [done|]. split_and!; try done. intros. by rewrite H4.
Qed.

Lemma inv_add w w' st o :
  inv w st -> has w' o (w_blocks w) (w_objs w) (w_kept w) -> keeps w' o -> linked st o -> inv w' (st ++ [o]).
Proof.
  intros [(_ & Hb & Ho & Hall & _ & Hlink) Hkeep] (Hq & H1 & H2 & H3 & H4 & H5) H6 H7.
  split; [|apply list.Forall_app; split; [by eapply still_keeps|by apply list.Forall_singleton]].
  unfold balanced. rewrite !total_snoc, <- Hb, <- Ho. split_and!; try done.
  - by apply list.Forall_app; split; [|apply list.Forall_singleton].
  - apply list.Forall_app; split; [|by apply list.Forall_singleton, linked_app].
    eapply List.Forall_impl; [|exact Hlink]. intros o1. apply linked_app.
Qed.

Lemma get_Some st h o : get st h = Some o -> st !! h = Some o /\ object_ptr o <> 0.
Proof.
  unfold get, is_open. destruct (st !! h) as [o'|]; [|done].
  destruct (Z.eqb_spec (object_ptr o') 0); [done|]. by intros [= <-].
Qed.

Lemma get_holds w st h o :
  inv w st -> get st h = Some o -> holds (object_kind o) (object_ptr o) w.
Proof. intros Hi [Hh Hz]%get_Some. eapply has_holds; [by eapply inv_has|done]. Qed.

Lemma keeping_ok {A} w st (p : proc A) :
  inv w st -> (quiet w -> good p w (fun w' _ => same w w')) ->
  good (keeping st p) w (fun w' '(st', panic) => inv w' st' /\ panic = None).
Proof.
  intros Hi Hp. apply safe_bind. eapply safe_mono; [|apply Hp, Hi]. cbn beta.
  intros w' _ Hs. split; [by eapply inv_same|done].
Qed.

Definition panics (c : call) (panic : option error) : Prop :=
  match panic with
  | None => True
  | Some e =>
      out_of_memory e \/
      (e = Errorf "libghostty: invalid wasm memory range" /\ exists h, c = CUTF8 h)
  end.

Definition step_ok (c : call) (w : world) (r : after) : Prop :=
  balanced w (fst r) /\ (snd r = None -> Forall (keeps w) (fst r)) /\ panics c (snd r).

Lemma inv_step c w st : inv w st -> step_ok c w (st, None).
Proof. by intros [? ?]. Qed.

Lemma keeping_step {A} c w st (p : proc A) :
  inv w st -> (quiet w -> good p w (fun w' _ => same w w')) -> good (keeping st p) w (step_ok c).
Proof.
  intros Hi Hp. eapply safe_mono; [|by apply keeping_ok]. intros w' [st' panic] [H ->]. by apply inv_step.
Qed.

Lemma keeping_or_panic_step {A} c w st (p : proc (out A)) :
  inv w st -> (quiet w -> good p w (fun w' r => same w w' /\ out_ok r)) ->
  good (keeping_or_panic st p) w (step_ok c).
Proof.
  intros Hi Hp. apply safe_bind. eapply safe_mono; [|apply Hp, Hi]. cbn beta.
  intros w' r [Hs Hr]. destruct (inv_same _ _ _ Hi Hs) as [H1 H2].
  split; [done|]. split; [done|]. destruct r; [done|by left].
Qed.

Lemma adding_step {A} (G : A -> object) c w st (p : proc (result A)) :
  inv w st -> (forall a, linked st (G a)) -> (quiet w -> uniq (w_objs w) -> good p w (created G w)) ->
  good (adding G st p) w (step_ok c).
Proof.
  intros Hi Hl Hp. apply safe_bind. eapply safe_mono; [|apply Hp; apply Hi]. cbn beta.
  intros w' [a|e] Hr; apply inv_step.
  - destruct Hr as (_ & Hr & Hk). by eapply inv_add.
  - by eapply inv_still.
Qed.

Lemma closing_step {A} (G : A -> object) c w st h a (p : proc A) :
  inv w st -> st !! h = Some (G a) -> (forall a', object_ptr (G a') = 0 -> like (G a) (G a')) ->
  (forall B O K, has w (G a) B O K -> good p w (fun w' a' => has w' (G a') B O K /\ object_ptr (G a') = 0)) ->
  good (updating G h st p) w (step_ok c).
Proof.
  intros Hi Hh Hl Hp. apply safe_bind. eapply safe_mono; [|eapply Hp; by eapply inv_has]. cbn beta.
  intros w' a' [Ha Hz]. apply inv_step. eapply has_inv; [done|done|by apply Hl|done|]. by intros [].
Qed.

Lemma nothing_step c w st : inv w st -> good (Ret (st, None)) w (step_ok c).
Proof. by apply inv_step. Qed.

Lemma run_close_ok c w st h : inv w st -> good (run_close h st) w (step_ok c).
Proof.
  intros Hi. unfold run_close. destruct (st !! h) as [[enc|e|t|f n term|d u]|] eqn:Hh; [..|by apply nothing_step];
    (eapply closing_step; [done|exact Hh|by split; [right|]|]); intros B O K HB.
  - by apply KeyEncoder_Close_ok.
  - by apply KeyEvent_Close_ok.
  - eapply safe_mono; [|by apply (closeLocked_ok _ _ B O K)]. by intros w' t' [-> H].
  - by apply Formatter_Close_ok.
  - eapply safe_mono; [|by apply (SnapshotDecoder_Close_ok _ _ u B O K)]. by intros w' d' [-> H].
Qed.

(** What an open object points to is there: the text of an event, and the terminal of a
    formatter, as long as that is open. *)
Lemma event_kept w st h e :
  inv w st -> get st h = Some (OEvent e) -> kept_ok KEvent (i32 (ev_ptr e)) w.
Proof.
  intros Hi [Hh Hz]%get_Some. pose proof (inv_has _ _ _ _ Hi Hh) as (_ & Hb & _ & (Hp & Hs & _) & _).
  destruct Hi as [_ Hk]. rewrite list.Forall_lookup in Hk. specialize (Hk _ _ Hh Hz). cbn in Hk, Hp, Hs.
  unfold kept_ok. rewrite u32_i32, u32_id by done. destruct (w_kept w !! _) as [[q n|q]|]; [|done|done].
  destruct Hk as [Hn|(-> & -> & Hpz)]; [by left|right]. exists (utf8Ptr e), (utf8Len e). rewrite u32_id by done.
  split; [|lia]. rewrite Hb. unfold object_blocks, owned. cbn. destruct (Z.eqb_spec (utf8Ptr e) 0); [done|]. apply in_last.
Qed.

Lemma formatter_kept w st h f n term t :
  inv w st -> get st h = Some (OFormatter f n term) -> get st n = Some (OTerminal t) ->
  kept_ok KFormatter (i32 (f_ptr f)) w.
Proof.
  intros Hi [Hh Hz]%get_Some Hn. pose proof (get_holds _ _ _ _ Hi Hn) as [Hp Ht]. apply get_Some in Hn as [Hn Htz].
  pose proof (inv_has _ _ _ _ Hi Hh) as (_ & _ & _ & (Hfp & _) & _).
  destruct Hi as [(_ & _ & _ & _ & _ & Hl) Hk]. rewrite list.Forall_lookup in Hl. rewrite list.Forall_lookup in Hk.
  destruct (Hl _ _ Hh) as [_ Hterm]. specialize (Hterm t Hn Htz). specialize (Hk _ _ Hh Hz). cbn in Hk, Hp, Ht, Hfp.
  unfold kept_ok, live. rewrite u32_i32, u32_id, Hk by done. rewrite <- Hterm, u32_id by done. exact Ht.
Qed.

Lemma run_encoder_ok c w st enc :
  inv w st -> call_ok c -> holds KEncoder (enc_ptr enc) w -> good (run_encoder c enc st) w (step_ok c).
Proof.
  intros Hi Hc He. destruct c; try by apply nothing_step; cbn [run_encoder].
  - apply keeping_or_panic_step; [done|]. intros Hq. by apply SetOptBool_ok.
  - apply keeping_or_panic_step; [done|]. intros Hq. by apply SetOptKittyFlags_ok.
  - apply keeping_or_panic_step; [done|]. intros Hq. by apply SetOptOptionAsAlt_ok.
  - cbn [run_encoder]. destruct (get st t) as [[| |o| |]|] eqn:Hg; try by apply nothing_step.
    apply keeping_step; [done|]. intros Hq. apply SetOptFromTerminal_ok; [done|done|].
    by apply (get_holds _ _ _ _ Hi Hg).
  - cbn [run_encoder]. destruct (get st event) as [[|o| | |]|] eqn:Hg; try by apply nothing_step.
    apply keeping_step; [done|]. intros Hq. apply Encode_ok; [done|done| |].
    + by apply (get_holds _ _ _ _ Hi Hg).
    + by eapply event_kept.
Qed.

Lemma run_event_ok c w st h e :
  inv w st -> call_ok c -> get st h = Some (OEvent e) -> good (run_event c h e st) w (step_ok c).
Proof.
  intros Hi Hc Hg. pose proof (get_holds _ _ _ _ Hi Hg) as He. pose proof (event_kept _ _ _ _ Hi Hg) as Hk.
  apply get_Some in Hg as [Hh Hz]. cbn [object_kind object_ptr] in He, Hz.
  destruct c; try by apply nothing_step; cbn [run_event].
  - apply keeping_step; [done|]. intros Hq. destruct f; by apply event_set_ok.
  - cbn [run_event]. destruct f; cbn [run_get]; apply keeping_step; try done; intros Hq; by apply event_get_ok.
  - cbn [run_event]. apply safe_bind. eapply safe_mono; [|by apply (SetUTF8_ok _ _ _ _ _ _ (inv_has _ _ _ _ Hi Hh))].
    cbn beta. intros w' [r e'] (He' & Hhas & Hr & Hkeep). apply safe_ret.
    split; [eapply has_balanced; try done; split; [by left|done]|].
    split; [intros Hp; eapply has_keeps; try done; by apply Hkeep|]. destruct r; [done|by left].
  - cbn [run_event]. apply safe_bind. eapply safe_mono; [|by apply UTF8_ok; [apply Hi|..]]. cbn beta.
    intros w' r [Hs Hr]. apply safe_ret. destruct (inv_same _ _ _ Hi Hs) as [H1 H2].
    split; [done|]. split; [done|]. destruct r; [done|].
    destruct Hr as [Hr|Hr]; [by left|right]. split; [done|]. by eexists.
Qed.

Lemma run_terminal_get_ok c g w st t :
  inv w st -> holds KTerminal (t_ptr t) w -> good (run_terminal_get g t st) w (step_ok c).
Proof.
  intros Hi Ht. destruct g; apply keeping_step; try done; intros Hq;
    first [by apply Pwd_ok | apply get_data_ok; try done; by eexists].
Qed.

Lemma run_terminal_ok c w st h t :
  inv w st -> call_ok c -> st !! h = Some (OTerminal t) -> t_ptr t <> 0 ->
  good (run_terminal c h t st) w (step_ok c).
Proof.
  intros Hi Hc Hh Hz. pose proof (inv_has _ _ _ _ Hi Hh) as Hhas.
  pose proof (has_holds _ _ _ _ _ Hhas Hz) as Ht. cbn [object_kind object_ptr] in Ht.
  destruct c; try (by apply nothing_step); cbn [run_terminal]; try by apply run_terminal_get_ok.
  - apply adding_step; [done| |].
    + intros f. split; [by eapply lookup_lt_Some|]. intros t' Ht' _. congruence.
    + intros Hq Hu. by apply NewFormatter_ok.
  - apply keeping_step; [done|]. intros Hq. unfold Reset. mem_go.
  - apply keeping_step; [done|]. intros Hq. unfold Terminal_Resize. mem_go.
  - apply keeping_or_panic_step; [done|]. intros Hq. destruct Hhas as (_ & Hb & _ & (_ & Hf & _ & Hfz) & _).
    apply feed_ok; [done|done|done| |].
    + rewrite Hb. unfold object_blocks, owned. cbn [fst snd object_block].
      destruct (Z.eqb_spec (feedPtr t) 0) as [E|E]; [|apply in_last]. by apply Hfz in Hz.
    + apply vt_chunks_spec. lia.
  - apply keeping_step; [done|]. intros Hq. by apply set_limit_ok.
  - apply keeping_step; [done|]. intros Hq. by apply setScrollback_ok.
  - apply keeping_step; [done|]. intros Hq. by apply GridRef_ok.
  - apply keeping_step; [done|]. intros Hq. by apply Snapshot_ok.
Qed.

Lemma run_formatter_ok c w st h f n term :
  inv w st -> call_ok c -> get st h = Some (OFormatter f n term) -> good (run_formatter c f n st) w (step_ok c).
Proof.
  intros Hi Hc Hg. pose proof (get_holds _ _ _ _ Hi Hg) as Hf. unfold run_formatter.
  destruct (get st n) as [[| |t| |]|] eqn:Hn; try by apply nothing_step.
  pose proof (formatter_kept _ _ _ _ _ _ _ Hi Hg Hn) as Hk.
  destruct c; try (by apply nothing_step); (apply keeping_step; [done|]); intros Hq.
  - by apply Format_ok.
  - by apply FormatBuf_ok.
Qed.

(** A decoder that has decoded, and the terminal it made. *)
Lemma decoded_inv w w' st h d d' t :
  inv w st -> st !! h = Some (ODecoder d false) -> d_ptr d' = d_ptr d -> object_ok (ODecoder d' true) ->
  has w' (OTerminal t) (rest object_blocks st h ⊎ object_blocks (ODecoder d' true))
    (rest object_objs st h ⊎ object_objs (ODecoder d' true)) (w_kept w) ->
  inv w' (<[h := ODecoder d' true]> st ++ [OTerminal t]).
Proof.
  intros Hi Hh Hd Hok Ht. pose proof (inv_has _ _ _ _ Hi Hh) as (Hq & _ & Ho & _ & Hk & Hu).
  assert (Ho' : object_objs (ODecoder d' true) = object_objs (ODecoder d false))
    by (unfold object_objs; cbn; by rewrite Hd).
  set (w1 := set_blocks (rest object_blocks st h ⊎ object_blocks (ODecoder d' true)) w).
  assert (Hi1 : inv w1 (<[h := ODecoder d' true]> st)).
  { eapply has_inv; [done|done|by split; [left|]| |by intros _]. split_and!; try done. by rewrite Ho'. }
  eapply inv_add; [exact Hi1| |by intros _|done]. rewrite Ho', <- Ho in Ht. exact Ht.
Qed.

Lemma run_decoder_ok c w st h d used :
  inv w st -> call_ok c -> st !! h = Some (ODecoder d used) -> d_ptr d <> 0 ->
  good (run_decoder c h d used st) w (step_ok c).
Proof.
  intros Hi Hc Hh Hz. pose proof (inv_has _ _ _ _ Hi Hh) as Hhas.
  pose proof (has_holds _ _ _ _ _ Hhas Hz) as Hd. cbn [object_kind object_ptr] in Hd.
  destruct c; try (by apply nothing_step); cbn [run_decoder].
  - apply keeping_step; [done|]. intros Hq. by apply SetMaxContinuationBytes_ok.
  - apply keeping_step; [done|]. intros Hq. by apply SetRetainContinuation_ok.
  - destruct used; [by apply nothing_step|]. apply safe_bind.
    assert (Hkeep : keeps w (ODecoder d false))
      by (destruct Hi as [_ Hk]; rewrite list.Forall_lookup in Hk; by eapply Hk).
    eapply safe_mono; [|by apply (Decode_ok _ _ _ _ _ Hhas)]. cbn beta.
    intros w' [[t|e] d'] Hr; apply safe_ret, inv_step.
    + destruct Hr as (_ & Hd' & Ht & Hok). by eapply decoded_inv.
    + destruct Hr as [-> Hs]. rewrite list_insert_id by done. by eapply inv_still.
Qed.

Lemma run_call_ok c w st : inv w st -> call_ok c -> good (run_call c st) w (step_ok c).
Proof.
  intros Hi Hc.
  assert (Hrest : good
    match get st (receiver c) with
    | Some (OEncoder enc) => run_encoder c enc st
    | Some (OEvent e) => run_event c (receiver c) e st
    | Some (OTerminal t) => run_terminal c (receiver c) t st
    | Some (OFormatter f t _) => run_formatter c f t st
    | Some (ODecoder d used) => run_decoder c (receiver c) d used st
    | None => Ret (st, None)
    end w (step_ok c)).
  { destruct (get st (receiver c)) as [o|] eqn:Hg; [|by apply nothing_step].
    pose proof (get_holds _ _ _ _ Hi Hg) as Ho. pose proof Hg as [Hh Hz]%get_Some.
    destruct o; [by apply run_encoder_ok|by apply run_event_ok|by eapply run_terminal_ok|
                 by eapply run_formatter_ok|by apply run_decoder_ok]. }
  destruct c; try exact Hrest; cbn [run_call].
  - apply adding_step; [done|done|]. apply NewKeyEncoder_ok.
  - apply adding_step; [done|done|]. apply NewKeyEvent_ok.
  - apply adding_step; [done|done|]. apply NewTerminal_ok.
  - apply adding_step; [done|done|]. intros Hq Hu. by apply NewDecoder_ok.
  - by apply run_close_ok.
Qed.

Lemma run_calls_ok cs w st :
  inv w st -> Forall call_ok cs ->
  good (run_calls cs st) w (fun w' '(st', panic) =>
    balanced w' st' /\ (exists c, panics c panic /\ (panic <> None -> c ∈ cs))).
Proof.
  intros Hi Hall. revert w st Hi. induction Hall as [|c cs Hc Hall IH]; intros w st Hi.
  - split; [apply Hi|]. by exists CNewKeyEvent.
  - cbn [run_calls]. apply safe_bind. eapply safe_mono; [|by apply (run_call_ok c)]. cbn beta.
    intros w' [st' [e|]] (Hb & Hk & Hp); cbn [fst snd] in *.
    + apply safe_ret. split; [done|]. exists c. split; [done|]. intros _. apply list_elem_of_here.
    + eapply safe_mono; [|apply IH; split; [done|by apply Hk]]. cbn beta. intros w2 [st2 p2] (H1 & c' & H2 & H3).
      split; [done|]. exists c'. split; [done|]. intros Hn. by apply list_elem_of_further, H3.
Qed.

(** ** Properties *)

Definition new_world : world := mkWorld ∅ ∅ ∅ None None None None.

Lemma closed_owns_nothing o :
  object_ok o -> is_open o = false -> object_blocks o = ∅ /\ object_objs o = ∅.
Proof.
  unfold is_open. intros (_ & _ & _ & Hm) Hc. apply negb_false_iff, Z.eqb_eq in Hc.
  split; [|unfold object_objs; by rewrite Hc].
  assert (Hz : fst (object_block o) = 0).
  { destruct o; cbn in *; try done; auto. destruct (Z.eq_dec (feedPtr t) 0); [done|]. by apply Hm in n. }
  unfold object_blocks, owned. by rewrite Hz.
Qed.

Lemma all_closed_own_nothing st :
  Forall object_ok st -> Forall (fun o => is_open o = false) st ->
  total object_blocks st = ∅ /\ total object_objs st = ∅.
Proof.
  intros Hok Hc. induction st as [|o st IH]; [done|].
  apply list.Forall_cons in Hok as [Ho Hok]. apply list.Forall_cons in Hc as [Hc1 Hc].
  destruct (closed_owns_nothing o Ho Hc1) as [H1 H2]. destruct (IH Hok Hc) as [H3 H4].
  split; [change (object_blocks o ⊎ total object_blocks st = ∅)|
          change (object_objs o ⊎ total object_objs st = ∅)]; rewrite ?H1, ?H2, ?H3, ?H4; multiset_solver.
Qed.

(** The world after the steps of a trace. *)
Fixpoint play (tr : list (step op)) (w : world) : world :=
  match tr with
  | [] => w
  | Step o b :: tr => play tr (next _ o b w)
  end.

Lemma memory_ok (X : gmultiset (Z * Z)) l :
  forallb (fun x => fst x + snd x <=? l) (elements X) = true -> forall b s, (b, s) ∈ X -> b + s <= l.
Proof.
  intros H b s Hin%gmultiset_elem_of_elements. rewrite forallb_forall in H.
  apply list_elem_of_In in Hin. apply H in Hin. cbn in Hin. lia.
Qed.

Lemma not_in_block p n w :
  n <> 0 -> forallb (fun x => negb ((fst x <=? u32 p) && (u32 p + n <=? fst x + snd x))) (elements (w_blocks w)) = true ->
  ~ in_block p n w.
Proof.
  intros Hn H [?|(b & s & Hin & H1 & H2)]; [done|]. rewrite forallb_forall in H.
  apply gmultiset_elem_of_elements, list_elem_of_In, H in Hin. cbn in Hin. lia.
Qed.

Ltac answer_go :=
  repeat (apply answered_cons;
    [first [exact I
           |split; [vm_compute; done|exact I]
           |split; [split; vm_compute; discriminate|apply memory_ok; vm_compute; reflexivity]
           |split; [vm_compute; discriminate|apply (bool_decide_eq_false_1 _); vm_compute; reflexivity]
           |vm_compute; done]|]);
  apply answered_nil.


(** An event is made, given a text that is read back, and closed; a terminal and a
    formatter of it are made, and closed in that order: [CFormat] makes no call. *)
Definition ex_event : list (step op) :=
  [Step AllocOpaque 8; Step (Call (key_event_new 0 8)) 0; Step (TakeOpaque 8) 16; Step (FreeOpaque 8) tt;
   Step (WasmAlloc 1) 32; Step MemLen 65536; Step (MemWrite 32 [Byte.x61]) tt;
   Step (Call (key_event_set_utf8 16 32 1)) 0].
Definition ex_terminal : list (step op) :=
  [Step AllocOpaque 8; Step (Call (terminal_new 0 8 0 0)) 0; Step (TakeOpaque 8) 24; Step (FreeOpaque 8) tt;
   Step (WasmAlloc 65536) 65536; Step (WasmAlloc formatterOptionsSize) 256; Step MemLen 131072;
   Step (MemWrite 256 (formatter_options no_options 0)) tt;
   Step AllocOpaque 8; Step (Call (formatter_terminal_new 0 8 24 256)) 0; Step (TakeOpaque 8) 40;
   Step (FreeOpaque 8) tt; Step (WasmFree 256 formatterOptionsSize) tt;
   Step (Call (terminal_free 24)) 0; Step (WasmFree 65536 65536) tt].
Definition ex_calls : list call :=
  [CNewKeyEvent; CSetUTF8 0 [Byte.x61]; CUTF8 0; CClose 0;
   CNewTerminal []; CNewFormatter 1 no_options; CClose 1; CFormat 2; CClose 2].
Definition ex_trace : list (step op) :=
  ex_event ++
  [Step (WasmAlloc 4) 48; Step (Call (key_event_get_utf8 16 48)) 32; Step MemLen 65536;
   Step (MemRead 48 4) [Byte.x01; Byte.x00; Byte.x00; Byte.x00]; Step MemLen 65536;
   Step (MemRead 32 1) [Byte.x61]; Step (WasmFree 48 4) tt;
   Step (Call (key_event_free 16)) 0; Step (WasmFree 32 1) tt] ++
  ex_terminal ++ [Step (Call (formatter_free 40)) 0].


(** What the program must see to itself. Once the terminal is closed the module's
    formatter points to a freed one; [Format] would still call the module. *)
Example closed_terminal_is_kept : ~ kept_ok KFormatter 40 (play ex_terminal new_world).
Proof.
  unfold kept_ok. replace (w_kept _ !! _) with (Some (KTerm 24)) by (vm_compute; reflexivity).
  unfold live. apply (bool_decide_eq_false_1 _). vm_compute. reflexivity.
Qed.

(** A second [SetUTF8] that finds no memory panics after the first text is freed and
    before the module is told: it keeps the pointer to the freed text. *)
Definition ex_dangling : list (step op) := ex_event ++ [Step (WasmFree 32 1) tt; Step (WasmAlloc 1) 0].

Example freed_text_is_kept :
  runs (run_calls [CNewKeyEvent; CSetUTF8 0 [Byte.x61]; CSetUTF8 0 [Byte.x62]] []) ex_dangling
    ([OEvent (mkKeyEvent 16 0 0)], Some (ghostty_error ResultOutOfMemory)) /\
  answered allowed next ex_dangling new_world (play ex_dangling new_world) /\
  ~ kept_ok KEvent 16 (play ex_dangling new_world).
Proof.
  split_and!.
  - unfold ex_dangling, ex_event. run_go.
  - unfold ex_dangling, ex_event. cbn [app]. answer_go.
  - unfold kept_ok. replace (w_kept _ !! _) with (Some (KBytes 32 1)) by (vm_compute; reflexivity).
    apply not_in_block; [done|]. vm_compute. reflexivity.
Qed.

(** [Decode] gives up the source that the decoder points to: no second [Decode]. *)
Definition ex_decoded : list (step op) :=
  [Step (WasmAlloc 1) 32; Step MemLen 65536; Step (MemWrite 32 [Byte.x61]) tt;
   Step AllocOpaque 8; Step (Call (snapshot_decoder_new_buf 0 8 32 1)) 0; Step (TakeOpaque 8) 16;
   Step (FreeOpaque 8) tt;
   Step AllocOpaque 8; Step (Call (snapshot_decoder_decode 16 8)) 0; Step (TakeOpaque 8) 24;
   Step (FreeOpaque 8) tt; Step (WasmAlloc 65536) 65536; Step (WasmFree 32 1) tt].

Example freed_source_is_kept :
  runs (run_calls [CNewDecoder [Byte.x61]; CDecode 0] []) ex_decoded
    ([ODecoder (mkDecoder 16 0 0) true; OTerminal (mkTerminal 24 65536)], None) /\
  answered allowed next ex_decoded new_world (play ex_decoded new_world) /\
  ~ kept_ok KDecoder 16 (play ex_decoded new_world).
Proof.
  split_and!.
  - unfold ex_decoded. run_go.
  - unfold ex_decoded. answer_go.
  - unfold kept_ok. replace (w_kept _ !! _) with (Some (KBytes 32 1)) by (vm_compute; reflexivity).
    apply not_in_block; [done|]. vm_compute. reflexivity.
Qed.

(** C40. The range check of [bytes] is exact for every 32-bit pointer and length: the
    sum is taken in 64 bits and does not wrap, so a slice is accepted just when it
    lies in the memory; [put] writes its data there then, and nothing otherwise. *)
Theorem bytes_in_memory ptr data tr r :
  is_u32 ptr -> is_u32 (blen data) ->
  (runs (rt_bytes ptr (blen data)) tr r ->
     exists memory, tr = [Step MemLen memory] /\ (r = None <-> ptr + blen data <= memory)) /\
  (runs (rt_put ptr data) tr r ->
     exists memory,
       if decide (ptr + blen data <= memory)
       then tr = [Step MemLen memory; Step (MemWrite ptr data) tt] /\ r = None
       else tr = [Step MemLen memory] /\ r <> None).
Proof.
  intros Hp Hn. assert (He : u64 (u64 ptr + u64 (blen data)) = ptr + blen data) by (clear - Hp Hn; width_lia).
  split; refine (wp_runs _ (fun tr r => _) tr r _).
  - unfold rt_bytes. cbn [wp]. rewrite He. intros memory. destruct (Z.ltb_spec memory (ptr + blen data));
      cbn [wp]; exists memory; (split; [done|]); split; done || lia.
  - unfold rt_put, rt_bytes. cbn [bind wp]. rewrite (u32_id _ Hn), He. intros memory.
    destruct (Z.ltb_spec memory (ptr + blen data)); cbn [bind wp]; [exists memory|intros []; exists memory];
      destruct (decide _); done || lia.
Qed.

Lemma bytes_in_memory_witness :
  exists tr r, runs (rt_put 4294967295 [Byte.x41]) tr r /\
    exists memory, if decide (4294967295 + 1 <= memory)
                   then tr = [Step MemLen memory; Step (MemWrite 4294967295 [Byte.x41]) tt] /\ r = None
                   else tr = [Step MemLen memory] /\ r <> None.
Proof.
  exists [Step MemLen 65536], (Some (Errorf "libghostty: invalid wasm memory range")).
  assert (Hr : runs (rt_put 4294967295 [Byte.x41]) [Step MemLen 65536]
    (Some (Errorf "libghostty: invalid wasm memory range")))
    by (apply (runs_do _ _ _ _ 65536); apply runs_ret).
  split; [exact Hr|]. refine (proj2 (bytes_in_memory 4294967295 [Byte.x41] _ _ _ _) Hr); by split.
Defined.
