(* ===== verification/GoUrl.v ===== *)
(** * GoUrl: [url.Parse], as the working directory of a terminal uses it

    Models the parts of [net/url] that decide the scheme and the path of a
    reference, and whether it parses. The working directory of
    [internal/daemon/terminal_state.go] drops the error, so only its presence is
    kept true to the library. What [parseHost] accepts of a host with a port or
    an address in brackets differs between versions of Go and is a parameter. *)
From Stdlib Require Import ZArith Lia Ascii.
From Stdlib Require Import Strings.Byte.
From stdpp Require Import base sets list strings numbers option.
From S2P Require Import Prelude.
#[local] Open Scope Z_scope.

(** ** Bytes *)

Definition in_range (lo hi : Z) (b : byte) : bool := (lo <=? Z_of_byte b) && (Z_of_byte b <=? hi).
Definition one_of (s : string) (b : byte) : bool := existsb (Byte.eqb b) (bytes_of_string s).

Definition is_letter (b : byte) : bool := in_range 97 122 b || in_range 65 90 b.
Definition is_digit (b : byte) : bool := in_range 48 57 b.
Definition ishex (b : byte) : bool := is_digit b || in_range 97 102 b || in_range 65 70 b.

Definition unhex (b : byte) : Z :=
  if is_digit b then Z_of_byte b - 48
  else if in_range 97 102 b then Z_of_byte b - 97 + 10
  else if in_range 65 70 b then Z_of_byte b - 65 + 10
  else 0.

(** [strings.Cut] and [strings.LastIndex] with a separator of one byte. *)
Fixpoint cut (sep : byte) (s : bytes) : bytes * bytes * bool :=
  match s with
  | [] => ([], [], false)
  | c :: s' =>
      if Byte.eqb c sep then ([], s', true)
      else let '(before, after, found) := cut sep s' in (c :: before, after, found)
  end.

Definition has (sep : byte) (s : bytes) : bool := existsb (fun b => Byte.eqb b sep) s.

(** What is before and after the last separator. *)
Fixpoint cut_last (sep : byte) (s : bytes) : option (bytes * bytes) :=
  match s with
  | [] => None
  | c :: s' =>
      match cut_last sep s' with
      | Some (before, after) => Some (c :: before, after)
      | None => if Byte.eqb c sep then Some ([], s') else None
      end
  end.

Fixpoint starts (pre s : bytes) : bool :=
  match pre, s with
  | [], _ => true
  | p :: pre', b :: s' => Byte.eqb b p && starts pre' s'
  | _ :: _, [] => false
  end.

(** ** [net/url] *)

Definition stringContainsCTLByte (s : bytes) : bool :=
  existsb (fun b => (Z_of_byte b <? 32) || (Z_of_byte b =? 127)) s.

(** [getScheme]: [first] before the first byte, [pre] what is read, reversed. *)
Fixpoint getScheme_from (raw : bytes) (first : bool) (pre s : bytes) : result (bytes * bytes) :=
  match s with
  | [] => Ok ([], raw)
  | c :: s' =>
      if is_letter c then getScheme_from raw false (c :: pre) s'
      else if is_digit c || one_of "+-." c then
        if first then Ok ([], raw) else getScheme_from raw false (c :: pre) s'
      else if Byte.eqb c Byte.x3a then
        if first then Err (Errorf "missing protocol scheme") else Ok (rev pre, s')
      else Ok ([], raw)
  end.

Definition getScheme (raw : bytes) : result (bytes * bytes) := getScheme_from raw true [] raw.

(** [shouldEscape(c, encodeHost)]. *)
Definition shouldEscape_host (c : byte) : bool :=
  negb (is_letter c || is_digit c || one_of "!$&'()*+,;=:[]<>" c || Byte.eqb c Byte.x22 ||
        one_of "-_.~" c).

(** [unescape] of a host, and of any other component but a query or a zone. *)
Fixpoint unescape (host : bool) (s : bytes) : result bytes :=
  match s with
  | [] => Ok []
  | c :: s1 =>
      if Byte.eqb c Byte.x25 then
        match s1 with
        | h :: l :: s' =>
            if negb (ishex h && ishex l) ||
               (host && (unhex h <? 8) && negb (Byte.eqb h Byte.x32 && Byte.eqb l Byte.x35))
            then Err (Errorf "invalid URL escape")
            else match unescape host s' with
                 | Err e => Err e
                 | Ok r => Ok (byte_of_Z (Z.lor (Z.shiftl (unhex h) 4) (unhex l)) :: r)
                 end
        | _ => Err (Errorf "invalid URL escape")
        end
      else if host && (Z_of_byte c <? 128) && shouldEscape_host c then
        Err (Errorf "invalid character in host name")
      else match unescape host s1 with Err e => Err e | Ok r => Ok (c :: r) end
  end.

Definition validUserinfo (s : bytes) : bool :=
  forallb (fun b => is_letter b || is_digit b || one_of "-._:~!$&'()*+,;=%@" b) s.

Record URL := mkURL { url_Scheme : bytes; url_Path : bytes }.

Section Parse.
(** Whether [parseHost] accepts a host with a colon or a bracket. *)
Context (parseHostPort : bytes -> option error).

Definition parseHost (host : bytes) : option error :=
  if has Byte.x3a host || has Byte.x5b host then parseHostPort host
  else match unescape true host with Err e => Some e | Ok _ => None end.

Definition check_unescape (s : bytes) : option error :=
  match unescape false s with Err e => Some e | Ok _ => None end.

Definition parseAuthority (authority : bytes) : option error :=
  match cut_last Byte.x40 authority with
  | None => parseHost authority
  | Some (userinfo, host) =>
      match parseHost host with
      | Some e => Some e
      | None =>
          if negb (validUserinfo userinfo) then Some (Errorf "net/url: invalid userinfo")
          else let '(username, password, _) := cut Byte.x3a userinfo in
               match check_unescape username with
               | Some e => Some e
               | None => check_unescape password
               end
      end
  end.

(** [setPath]. *)
Definition set_path (scheme rest : bytes) : result URL :=
  match unescape false rest with Err e => Err e | Ok path => Ok (mkURL scheme path) end.

(** [parse(rawURL, false)], the scheme not yet in lower case. *)
Definition parse (raw : bytes) : result URL :=
  if stringContainsCTLByte raw then Err (Errorf "net/url: invalid control character in URL")
  else if bool_decide (raw = [Byte.x2a]) then Ok (mkURL [] raw)
  else
    match getScheme raw with
    | Err e => Err e
    | Ok (scheme, rest) =>
        let '(rest, _, _) := cut Byte.x3f rest in
        if negb (starts [Byte.x2f] rest) && negb (bool_decide (scheme = [])) then
          Ok (mkURL scheme [])
        else if negb (starts [Byte.x2f] rest) && has Byte.x3a (fst (fst (cut Byte.x2f rest))) then
          Err (Errorf "first path segment in URL cannot contain colon")
        else if (negb (bool_decide (scheme = [])) || negb (starts [Byte.x2f; Byte.x2f; Byte.x2f] rest)) &&
                starts [Byte.x2f; Byte.x2f] rest then
          let '(authority, path, found) := cut Byte.x2f (drop 2 rest) in
          match parseAuthority authority with
          | Some e => Err e
          | None => set_path scheme (if found then Byte.x2f :: path else [])
          end
        else set_path scheme rest
    end.

(** [url.Parse]; [strings.ToLower] of a scheme keeps it empty or not, and the
    callers look at no more. *)
Definition Parse (rawURL : bytes) : result URL :=
  let '(u, frag, _) := cut Byte.x23 rawURL in
  match parse u with
  | Err e => Err e
  | Ok url =>
      match check_unescape frag with
      | Some e => Err e
      | None => Ok url
      end
  end.
End Parse.

(** ** Printing a path *)

Definition hex_upper (z : Z) : byte := byte_of_Z (if z <? 10 then 48 + z else 55 + z).

(** Percent encoding of the bytes that are not kept. *)
Fixpoint escape (keep : byte -> bool) (s : bytes) : bytes :=
  match s with
  | [] => []
  | b :: s' =>
      (if keep b then [b]
       else [Byte.x25; hex_upper (Z_of_byte b / 16); hex_upper (Z_of_byte b mod 16)]) ++ escape keep s'
  end.

(** A byte that stands for itself in a path. *)
Definition plain (b : byte) : bool :=
  negb ((Z_of_byte b <? 32) || (Z_of_byte b =? 127) || one_of "%?#" b).

(** Names of schemes and of hosts. *)
Definition scheme_ok (s : bytes) : bool :=
  match s with
  | c :: s' => is_letter c && forallb (fun b => is_letter b || is_digit b || one_of "+-." b) s'
  | [] => false
  end.

Definition host_name (s : bytes) : bool :=
  forallb (fun b => is_letter b || is_digit b || one_of "-._~" b) s.

(** A bool property of all bytes, by evaluation. *)
Definition all_bytes (p : byte -> bool) : bool :=
  forallb (fun n => p (byte_of_Z (Z.of_nat n))) (seq 0 256).

Lemma all_bytes_spec p : all_bytes p = true -> forall b, p b = true.
Proof.
  unfold all_bytes. rewrite List.forallb_forall. intros H b.
  specialize (H (Z.to_nat (Z_of_byte b))). pose proof (Z_of_byte_range b).
  rewrite Z2Nat.id, byte_of_Z_of_byte in H by lia. apply H, in_seq. lia.
Qed.

Lemma all_bytes_imp (p q : byte -> bool) :
  all_bytes (fun b => implb (p b) (q b)) = true -> forall b, p b = true -> q b = true.
Proof. intros H b Hp. pose proof (all_bytes_spec _ H b) as Hb. cbn in Hb. by rewrite Hp in Hb. Qed.

Lemma escaped_byte b :
  let h := hex_upper (Z_of_byte b / 16) in let l := hex_upper (Z_of_byte b mod 16) in
  ishex h = true /\ ishex l = true /\ plain h = true /\ plain l = true /\
  byte_of_Z (Z.lor (Z.shiftl (unhex h) 4) (unhex l)) = b.
Proof.
  set (p := fun b => let h := hex_upper (Z_of_byte b / 16) in let l := hex_upper (Z_of_byte b mod 16) in
    ishex h && (ishex l && (plain h && (plain l &&
    Byte.eqb (byte_of_Z (Z.lor (Z.shiftl (unhex h) 4) (unhex l))) b)))).
  assert (p b = true) as Hp by (apply all_bytes_spec; by vm_compute).
  unfold p in Hp. cbv zeta. rewrite !andb_true_iff in Hp.
  destruct Hp as (? & ? & ? & ? & ?%Byte.byte_dec_bl). done.
Qed.

Lemma plain_not_percent b : plain b = true -> Byte.eqb b Byte.x25 = false.
Proof.
  intros H. apply not_true_iff_false. intros ->%Byte.byte_dec_bl. by vm_compute in H.
Qed.

Lemma unescape_escape keep s :
  (forall b, keep b = true -> plain b = true) -> unescape false (escape keep s) = Ok s.
Proof.
  intros Hk. induction s as [|b s IH]; [done|]. cbn [escape].
  destruct (keep b) eqn:Hb; cbn [app unescape].
  - rewrite (plain_not_percent b) by auto. cbn [andb]. by rewrite IH.
  - rewrite (eq_refl : Byte.eqb Byte.x25 Byte.x25 = true).
    destruct (escaped_byte b) as (-> & -> & _ & _ & Hb'). cbn [andb negb orb]. by rewrite IH, Hb'.
Qed.

(** Nothing in an escaped path ends the path or is a control character. *)
Lemma escape_plain keep s :
  (forall b, keep b = true -> plain b = true) ->
  Forall (fun b => plain b = true \/ b = Byte.x25) (escape keep s).
Proof.
  intros Hk. induction s as [|b s IH]; [constructor|]. cbn [escape].
  apply Forall_app. split; [|exact IH].
  destruct (keep b) eqn:Hb; [apply Forall_singleton; auto|].
  destruct (escaped_byte b) as (_ & _ & H1 & H2 & _).
  apply List.Forall_cons; [by right|]. apply List.Forall_cons; [by left|].
  apply Forall_singleton. by left.
Qed.

Lemma cut_none sep s : Forall (fun b => b <> sep) s -> cut sep s = (s, [], false).
Proof.
  induction 1 as [|b s Hb _ IH]; [done|]. cbn [cut].
  destruct (Byte.eqb b sep) eqn:E; [by apply Byte.byte_dec_bl in E|]. by rewrite IH.
Qed.

Lemma cut_app sep s1 s2 : Forall (fun b => b <> sep) s1 -> cut sep (s1 ++ sep :: s2) = (s1, s2, true).
Proof.
  induction 1 as [|b s Hb _ IH]; cbn [app cut].
  - by rewrite (Byte.byte_dec_lb eq_refl).
  - destruct (Byte.eqb b sep) eqn:E; [by apply Byte.byte_dec_bl in E|]. by rewrite IH.
Qed.

Lemma cut_last_none sep s : Forall (fun b => b <> sep) s -> cut_last sep s = None.
Proof.
  induction 1 as [|b s Hb _ IH]; [done|]. cbn [cut_last]. rewrite IH.
  destruct (Byte.eqb b sep) eqn:E; [by apply Byte.byte_dec_bl in E|]. done.
Qed.

Lemma has_none sep s : Forall (fun b => b <> sep) s -> has sep s = false.
Proof.
  induction 1 as [|b s Hb _ IH]; [done|]. unfold has in *. cbn [existsb]. rewrite IH.
  destruct (Byte.eqb b sep) eqn:E; [by apply Byte.byte_dec_bl in E|]. done.
Qed.

Lemma getScheme_from_ok raw pre s rest :
  forallb (fun b => is_letter b || is_digit b || one_of "+-." b) s = true ->
  getScheme_from raw false pre (s ++ Byte.x3a :: rest) = Ok (rev pre ++ s, rest).
Proof.
  revert pre. induction s as [|b s IH]; intros pre; cbn [app getScheme_from forallb].
  - intros _. by rewrite app_nil_r.
  - intros [Hb Hs]%andb_true_iff. destruct (is_letter b) eqn:Hl; cbn [orb] in Hb.
    + rewrite IH by done. cbn [rev]. by rewrite <- app_assoc.
    + rewrite Hb. rewrite IH by done. cbn [rev]. by rewrite <- app_assoc.
Qed.

Lemma getScheme_ok scheme rest :
  scheme_ok scheme = true -> getScheme (scheme ++ Byte.x3a :: rest) = Ok (scheme, rest).
Proof.
  destruct scheme as [|c s]; [done|]. cbn [scheme_ok]. intros [Hc Hs]%andb_true_iff.
  unfold getScheme. cbn [app getScheme_from]. rewrite Hc. by apply (getScheme_from_ok _ [c]).
Qed.

(** What schemes and host names are made of. *)
Definition simple (b : byte) : bool :=
  is_letter b || is_digit b || one_of "+-._~" b.

Lemma simple_spec b :
  simple b = true -> plain b = true /\ b <> Byte.x23 /\ b <> Byte.x2f /\ b <> Byte.x3a /\ b <> Byte.x3f /\
    b <> Byte.x40 /\ b <> Byte.x5b /\ b <> Byte.x25 /\ b <> Byte.x2a /\ shouldEscape_host b = false.
Proof.
  set (p := fun b => implb (simple b) (plain b && negb (one_of "#/:?@[%*" b) && negb (shouldEscape_host b))).
  assert (p b = true) as Hp by (apply all_bytes_spec; by vm_compute).
  unfold p in Hp. intros Hs. rewrite Hs in Hp. cbn [implb] in Hp.
  apply andb_true_iff in Hp as [[H1 H2]%andb_true_iff H3%negb_true_iff].
  split; [done|]. repeat (split; [by intros ->|]). done.
Qed.

Lemma forallb_weaken (p q : byte -> bool) s :
  (forall b, p b = true -> q b = true) -> forallb p s = true -> Forall (fun b => q b = true) s.
Proof. intros Hpq. rewrite List.forallb_forall. intros H. apply List.Forall_forall. auto. Qed.

Lemma host_simple host : host_name host = true -> Forall (fun b => simple b = true) host.
Proof.
  apply forallb_weaken. intros b. unfold simple.
  destruct (is_letter b), (is_digit b); [done..|]. cbn [orb].
  apply (all_bytes_imp (one_of "-._~") (one_of "+-._~")). by vm_compute.
Qed.

Lemma unescape_simple s : Forall (fun b => simple b = true) s -> unescape true s = Ok s.
Proof.
  induction 1 as [|b s Hb _ IH]; [done|]. cbn [unescape].
  destruct (simple_spec b Hb) as (Hp & _ & _ & _ & _ & _ & _ & _ & _ & He).
  rewrite (plain_not_percent b Hp), He, andb_false_r. cbn. by rewrite IH.
Qed.

Lemma parseHost_simple php host : host_name host = true -> parseHost php host = None.
Proof.
  intros Hh%host_simple. unfold parseHost. rewrite !has_none.
  - by rewrite (unescape_simple _ Hh).
  - eapply List.Forall_impl; [|exact Hh]. intros b Hb. by apply simple_spec in Hb as (_ & _ & _ & _ & _ & _ & H & _).
  - eapply List.Forall_impl; [|exact Hh]. intros b Hb. by apply simple_spec in Hb as (_ & _ & _ & H & _).
Qed.

Lemma scheme_simple scheme : scheme_ok scheme = true -> Forall (fun b => simple b = true) scheme.
Proof.
  destruct scheme as [|c s]; [done|]. cbn [scheme_ok]. intros [Hc Hs]%andb_true_iff.
  constructor; [unfold simple; by rewrite Hc|]. revert Hs. apply forallb_weaken.
  intros b. unfold simple. destruct (is_letter b), (is_digit b); [done..|]. cbn [orb].
  apply (all_bytes_imp (one_of "+-.") (one_of "+-._~")). by vm_compute.
Qed.

(** Bytes none of which is in a list. *)
Definition avoids (cs : bytes) (s : bytes) : Prop := Forall (fun b => Forall (fun c => b <> c) cs) s.

Lemma avoids_app cs s1 s2 : avoids cs s1 -> avoids cs s2 -> avoids cs (s1 ++ s2).
Proof. intros H1 H2. by apply list.Forall_app. Qed.

Lemma avoids_in cs s c : avoids cs s -> c ∈ cs -> Forall (fun b => b <> c) s.
Proof.
  intros H Hc. eapply List.Forall_impl; [|exact H]. intros b Hb.
  rewrite list.Forall_forall in Hb. by apply Hb.
Qed.

Lemma no_ctl s : Forall (fun b => plain b = true \/ b = Byte.x25) s -> stringContainsCTLByte s = false.
Proof.
  induction 1 as [|b s Hb _ IH]; [done|]. unfold stringContainsCTLByte in *. cbn [existsb].
  rewrite IH, orb_false_r. destruct Hb as [Hb| ->]; [|done]. unfold plain in Hb.
  by destruct ((_ <? _) || _).
Qed.

Lemma plain_avoids s :
  Forall (fun b => plain b = true \/ b = Byte.x25) s -> avoids [Byte.x23; Byte.x3f] s.
Proof.
  intros H. eapply List.Forall_impl; [|exact H].
  intros b [Hb| ->]; repeat constructor; try done; intros ->; by vm_compute in Hb.
Qed.

Lemma simple_plain s :
  Forall (fun b => simple b = true) s -> Forall (fun b => plain b = true \/ b = Byte.x25) s.
Proof. intros H. eapply List.Forall_impl; [|exact H]. intros b Hb. left. by apply simple_spec. Qed.

(** A report of a path with a scheme and a host parses to the path. *)
Lemma Parse_report php scheme host keep path :
  scheme_ok scheme = true -> host_name host = true ->
  (forall b, keep b = true -> plain b = true) -> keep Byte.x2f = true -> starts [Byte.x2f] path = true ->
  Parse php (scheme ++ bytes_of_string "://" ++ host ++ escape keep path) = Ok (mkURL scheme path).
Proof.
  intros Hs Hh Hk Hk2 Hp. destruct path as [|c path]; [done|]. cbn [starts] in Hp.
  rewrite andb_true_r in Hp. apply Byte.byte_dec_bl in Hp. subst c.
  pose proof (escape_plain keep (Byte.x2f :: path) Hk) as He.
  assert (Forall (fun b => plain b = true \/ b = Byte.x25)
    (scheme ++ bytes_of_string "://" ++ host ++ escape keep (Byte.x2f :: path))) as Hall.
  { apply list.Forall_app. split; [by apply simple_plain, scheme_simple|].
    apply list.Forall_app. split; [repeat (apply List.Forall_cons; [by left|]); constructor|].
    apply list.Forall_app. split; [by apply simple_plain, host_simple|done]. }
  unfold Parse. rewrite cut_none by (eapply avoids_in; [by apply plain_avoids|set_solver]).
  unfold parse. rewrite no_ctl by done.
  rewrite bool_decide_false by (destruct scheme as [|? [|]]; [done|..]; by intros [=]).
  change (bytes_of_string "://" ++ host ++ ?x) with (Byte.x3a :: Byte.x2f :: Byte.x2f :: host ++ x) in *.
  rewrite getScheme_ok by done.
  apply list.Forall_app in Hall as [_ Hall].
  rewrite cut_none.
  2: { eapply avoids_in; [apply plain_avoids|set_solver]. by apply List.Forall_cons_iff in Hall as [_ ?]. }
  change (starts [Byte.x2f] (Byte.x2f :: Byte.x2f :: ?x)) with true.
  change (starts [Byte.x2f; Byte.x2f] (Byte.x2f :: Byte.x2f :: ?x)) with true.
  change (drop 2 (Byte.x2f :: Byte.x2f :: ?x)) with x.
  rewrite (bool_decide_false (scheme = [])) by (by destruct scheme).
  cbn [negb orb andb escape]. rewrite Hk2. cbn [app].
  change (host ++ [Byte.x2f] ++ ?x) with (host ++ Byte.x2f :: x).
  rewrite cut_app.
  2: { eapply List.Forall_impl; [|by apply host_simple]. intros b Hb. by apply simple_spec in Hb as (_ & _ & H & _). }
  unfold parseAuthority. rewrite cut_last_none.
  2: { eapply List.Forall_impl; [|by apply host_simple]. intros b Hb. by apply simple_spec in Hb as (_ & _ & _ & _ & _ & H & _). }
  rewrite parseHost_simple by done. unfold set_path.
  pose proof (unescape_escape keep (Byte.x2f :: path) Hk) as Hu. cbn [escape] in Hu. rewrite Hk2 in Hu.
  cbn [app] in Hu. by rewrite Hu.
Qed.

(** A path without a scheme has none after parsing, if it parses. *)
Lemma Parse_path php raw url :
  starts [Byte.x2f] raw = true -> Parse php raw = Ok url -> url_Scheme url = [].
Proof.
  destruct raw as [|c raw]; [done|]. cbn [starts]. rewrite andb_true_r.
  intros ->%Byte.byte_dec_bl. unfold Parse.
  cbn [cut]. rewrite (eq_refl : Byte.eqb Byte.x2f Byte.x23 = false).
  destruct (cut Byte.x23 raw) as [[u frag] found]. unfold parse, getScheme. cbn [getScheme_from].
  destruct (stringContainsCTLByte _); [done|]. destruct (bool_decide _); [by destruct (check_unescape frag); intros [= <-]|].
  rewrite (eq_refl : is_letter Byte.x2f = false), (eq_refl : is_digit Byte.x2f = false),
    (eq_refl : one_of "+-." Byte.x2f = false), (eq_refl : Byte.eqb Byte.x2f Byte.x3a = false).
  cbn [orb]. destruct (cut Byte.x3f _) as [[rest q] fq]. unfold set_path.
  repeat (case_match; try discriminate); intros; simplify_eq/=; done.
Qed.
