(* ===== verification/TermState.v ===== *)
(** * TermState: the daemon's side of the terminal

    Models [internal/daemon/terminal_state.go]: dump formats, the formatter options
    of a screen dump, restoring a saved terminal, and the key events sent to the
    key encoder. The libghostty terminal itself is a type class. Bytes and
    code points are integers. *)
From Stdlib Require Import ZArith Lia.
From stdpp Require Import base list strings numbers option pretty.
From S2P Require Import Prelude GoStrings Resize SessionLoop Persist Ghostty.
From S2P Require GoUrl.
#[local] Open Scope Z_scope.

(** ** Keys *)

(** A [switch] over values: the cases in order. *)
Fixpoint switch {A} (x : Z) (cases : list (list Z * A)) : option A :=
  match cases with
  | [] => None
  | (vs, a) :: rest => if existsb (Z.eqb x) vs then Some a else switch x rest
  end.

Definition asciiPhysicalKey_cases : list (list Z * Z) :=
  [
   ([96; 126], KeyBackquote);
   ([92; 124], KeyBackslash);
   ([91; 123], KeyBracketLeft);
   ([93; 125], KeyBracketRight);
   ([44; 60], KeyComma);
   ([48; 41], KeyDigit0);
   ([49; 33], KeyDigit1);
   ([50; 64], KeyDigit2);
   ([51; 35], KeyDigit3);
   ([52; 36], KeyDigit4);
   ([53; 37], KeyDigit5);
   ([54; 94], KeyDigit6);
   ([55; 38], KeyDigit7);
   ([56; 42], KeyDigit8);
   ([57; 40], KeyDigit9);
   ([61; 43], KeyEqual);
   ([97; 65], KeyA);
   ([98; 66], KeyB);
   ([99; 67], KeyC);
   ([100; 68], KeyD);
   ([101; 69], KeyE);
   ([102; 70], KeyF);
   ([103; 71], KeyG);
   ([104; 72], KeyH);
   ([105; 73], KeyI);
   ([106; 74], KeyJ);
   ([107; 75], KeyK);
   ([108; 76], KeyL);
   ([109; 77], KeyM);
   ([110; 78], KeyN);
   ([111; 79], KeyO);
   ([112; 80], KeyP);
   ([113; 81], KeyQ);
   ([114; 82], KeyR);
   ([115; 83], KeyS);
   ([116; 84], KeyT);
   ([117; 85], KeyU);
   ([118; 86], KeyV);
   ([119; 87], KeyW);
   ([120; 88], KeyX);
   ([121; 89], KeyY);
   ([122; 90], KeyZ);
   ([45; 95], KeyMinus);
   ([46; 62], KeyPeriod);
   ([39; 34], KeyQuote);
   ([59; 58], KeySemicolon);
   ([47; 63], KeySlash);
   ([32], KeySpace)
  ].

Definition asciiPhysicalKey (ch : Z) : option Z := switch ch asciiPhysicalKey_cases.

(** The two constant strings, as bytes. *)
Definition unshifted_chars : list Z :=
  map Z_of_byte (bytes_of_string "`1234567890-=[]\;',./").
Definition shifted_chars : list Z :=
  map Z_of_byte (bytes_of_string "~!@#$%^&*()_+{}|:") ++ [34] ++
  map Z_of_byte (bytes_of_string "<>?").

(** [strings.IndexByte]. *)
Fixpoint IndexByte (s : list Z) (c : Z) : option nat :=
  match s with
  | [] => None
  | x :: s' => if x =? c then Some 0%nat else S <$> IndexByte s' c
  end.

Definition shiftedASCII (ch : Z) : option Z :=
  if (97 <=? ch) && (ch <=? 122) then Some (ch - 32)
  else match IndexByte unshifted_chars ch with
       | Some i => shifted_chars !! i
       | None => None
       end.

Definition functionKey_cases : list (Z * (Z * Z)) :=
  [
   (256, (KeyEnter, 13));
   (257, (KeyEscape, 27));
   (258, (KeyTab, 9));
   (259, (KeyBackspace, 127));
   (272, (KeyArrowUp, 0));
   (273, (KeyArrowDown, 0));
   (274, (KeyArrowLeft, 0));
   (275, (KeyArrowRight, 0));
   (288, (KeyHome, 0));
   (289, (KeyEnd, 0));
   (290, (KeyPageUp, 0));
   (291, (KeyPageDown, 0));
   (292, (KeyInsert, 0));
   (293, (KeyDelete, 0))
  ].

(** The key, its code point and its text. *)
Definition terminalKeyEvent (keyCode mods : Z) : option (Z * Z * list Z) :=
  if (32 <=? keyCode) && (keyCode <=? 126) then
    match asciiPhysicalKey (u8 keyCode) with
    | None => None
    | Some key =>
        let ch := u8 keyCode in
        let plain := if Z.land mods ModCtrl =? 0 then [ch] else [] in
        match (if negb (Z.land mods ModShift =? 0) then shiftedASCII ch else None) with
        | Some shifted => Some (key, keyCode, [shifted])
        | None => Some (key, keyCode, plain)
        end
    end
  else
    match list_find (fun '(c, _) => c = keyCode) functionKey_cases with
    | Some (_, (_, (key, cp))) => Some (key, cp, [])
    | None =>
        if (304 <=? keyCode) && (keyCode <=? 315) then Some (KeyF1 + (keyCode - 304), 0, [])
        else None
    end.

(** What [encodeClientKey] sets on the key event. *)
Record keyEvent := mkKeyEvent {
  ke_action : Z;
  ke_key : Z;
  ke_mods : Z;
  ke_consumed : Z;
  ke_composing : bool;
  ke_codepoint : Z;
  ke_text : list Z }.

Definition consumedMods (keyCode mods : Z) : Z :=
  if negb (Z.land mods ModShift =? 0) then
    match shiftedASCII (u8 keyCode) with Some _ => ModShift | None => 0 end
  else 0.

(** The event, or the error of an unsupported key; the encoder does the rest. *)
Definition encodeClientKey (encode : keyEvent -> result bytes) (keyCode mods : Z) : result bytes :=
  match terminalKeyEvent keyCode mods with
  | None => Err (Errorf ("unsupported key code " +:+ pretty keyCode))
  | Some (key, codepoint, text) =>
      encode (mkKeyEvent KeyActionPress key (u16 mods) (consumedMods keyCode mods) false
                (i32 codepoint) text)
  end.

(** ** Dump formats *)

Definition DumpPlain : Z := 0.
Definition DumpVT : Z := 1.
Definition DumpHTML : Z := 2.
Definition DumpFlagUnwrap : Z := 16.
Definition DumpFlagScrollback : Z := 32.
Definition DumpFormatMask : Z := 15.

Record terminalFormat := mkTermFormat {
  emit : Z;
  unwrap : bool;
  scrollback : bool;
  full : bool;
  safe : bool }.

Definition terminalFormatVTFull : terminalFormat :=
  mkTermFormat FormatterFormatVT false true true false.

Definition terminalDumpFormat (format : Z) : terminalFormat :=
  let unw := negb (Z.land format DumpFlagUnwrap =? 0) in
  let scr := negb (Z.land format DumpFlagScrollback =? 0) in
  let f := Z.land format DumpFormatMask in
  if f =? DumpVT then mkTermFormat FormatterFormatVT unw scr false true
  else if f =? DumpHTML then mkTermFormat FormatterFormatHTML unw scr false false
  else mkTermFormat FormatterFormatPlain unw scr false false.

(** ** The libghostty terminal *)

Definition PointTagActive : Z := 0.
Definition ScreenAlternate : Z := 1.

(** The terminal's methods. [t_Format] is [NewFormatter] and [Format] with the
    given options; [snap_Decode] is the snapshot decoder with its two options. *)
Class GhosttyTerminal (G : Type) := {
  t_New : Z -> Z -> Z -> Z -> result G;
  t_VTWrite : G -> bytes -> G;
  t_Resize : G -> Z -> Z -> G * option error;
  t_Cols : G -> result Z;
  t_Rows : G -> result Z;
  t_GridRef : G -> Z -> Z -> Z -> result bytes;
  t_Format : G -> list FormatterOption -> result bytes;
  t_CursorX : G -> result Z;
  t_CursorY : G -> result Z;
  t_ActiveScreen : G -> result Z;
  t_VTGround : G -> result bool;
  t_Pwd : G -> result string;
  t_Snapshot : G -> result bytes;
  t_SetScrollbackMaxLines : G -> Z -> G * option error;
  snap_Decode : bytes -> Z -> bool -> result G }.
#[export] Hint Mode GhosttyTerminal ! : typeclass_instances.

Definition continuationMaxBytes : Z := Z.shiftl 65 20.

(** [if err != nil { return nil, err }]. *)
Definition try {A B} (x : result A) (k : A -> result B) : result B :=
  match x with Ok a => k a | Err e => Err e end.

Section Term.
Context {G : Type} `{!GhosttyTerminal G}.

(** The options of [dumpScreen], with its selection. *)
Definition dump_options (format : terminalFormat) (sel : option Selection) : list FormatterOption :=
  [WithFormatterFormat (emit format); WithFormatterUnwrap (unwrap format); WithFormatterTrim true] ++
  (match sel with Some s => [WithFormatterSelection (Some s)] | None => [] end) ++
  (if emit format =? FormatterFormatHTML then [WithFormatterExtraPalette true] else []) ++
  (if full format then
     [WithFormatterExtraModes true; WithFormatterExtraScrollingRegion true; WithFormatterExtraPwd true;
      WithFormatterExtraKeyboard true; WithFormatterExtraCursor true; WithFormatterExtraStyle true;
      WithFormatterExtraHyperlink true; WithFormatterExtraProtection true;
      WithFormatterExtraKittyKeyboard true; WithFormatterExtraCharsets true]
   else []).

(** The selection of the active area, when the dump is limited to it. *)
Definition dump_selection (format : terminalFormat) (t : G) : result (option Selection) :=
  if negb (full format) && negb (scrollback format) then
    try (t_Cols t) (fun cols =>
    try (t_Rows t) (fun rows =>
    try (t_GridRef t PointTagActive 0 0) (fun start =>
    try (t_GridRef t PointTagActive (u16 (cols - 1)) (u32 (u16 (rows - 1)))) (fun end_ =>
    Ok (Some (mkSelection start end_ false))))))
  else Ok None.

Definition dumpScreen (format : terminalFormat) (t : G) : result screenDump :=
  try (dump_selection format t) (fun sel =>
  try (t_Format t (dump_options format sel)) (fun data =>
  let data := if safe format then data ++ [Byte.x1b] ++ bytes_of_string "[0m" else data in
  try (t_CursorX t) (fun cursorCol =>
  try (t_CursorY t) (fun cursorRow =>
  try (t_ActiveScreen t) (fun activeScreen =>
  Ok (mkScreenDump data cursorRow cursorCol (activeScreen =? ScreenAlternate))))))).

Definition term_feed_bytes (t : G) (data : bytes) : G := t_VTWrite t data.

(** The session's terminal is this one. *)
#[export] Instance ghostty_session_terminal : Terminal G := {
  term_feed := t_VTWrite;
  term_resize t c r := fst (t_Resize t (u16 c) (u16 r));
  term_dumpVTFull := dumpScreen terminalFormatVTFull }.

(** CSI and DEC sequences of [restoreTerminalState]. *)
Definition seq_can : bytes := [Byte.x18].
Definition seq_leave_alt : bytes := Byte.x1b :: bytes_of_string "[?1049l".
Definition seq_soft_reset : bytes := Byte.x1b :: bytes_of_string "[!p".

(** [restoreTerminalState]; making the key encoder and event is left out. *)
Definition restoreTerminalState (state : sessionState) (size : termSize) (scrollback : Z) : result G :=
  try (snap_Decode (Snapshot state) continuationMaxBytes true) (fun t =>
  match t_SetScrollbackMaxLines t scrollback with
  | (_, Some e) => Err e
  | (t, None) =>
      try (t_VTGround t) (fun ground =>
      let t := if ground then t else t_VTWrite t seq_can in
      try (dumpScreen (mkTermFormat FormatterFormatPlain false false false false) t) (fun dump =>
      let t := if sd_IsAltScreen dump then t_VTWrite t seq_leave_alt else t in
      let t := t_VTWrite t seq_soft_reset in
      match t_Resize t (u16 (cols size)) (u16 (rows size)) with
      | (_, Some e) => Err (Wrapf "resize restored terminal state" e)
      | (t, None) => Ok t
      end))
  end).

Definition restore_error : string := "dump dead terminal state: restore terminal".

Definition dumpDeadTerminalState (state : sessionState) (scrollback format : Z) : result bytes :=
  match snap_Decode (Snapshot state) continuationMaxBytes false with
  | Err e => Err (Wrapf restore_error e)
  | Ok t =>
      match t_SetScrollbackMaxLines t scrollback with
      | (_, Some e) => Err (Wrapf restore_error e)
      | (t, None) =>
          match dumpScreen (terminalDumpFormat format) t with
          | Err e => Err (Wrapf "dump dead terminal state: dump screen" e)
          | Ok dump => Ok (sd_Data dump)
          end
      end
  end.

Definition newTerminalState (cols rows scrollback : Z) : result G :=
  t_New (u16 cols) (u16 rows) scrollback continuationMaxBytes.

Definition snapshot (t : G) : result bytes := t_Snapshot t.
Definition vtGround (t : G) : result bool := t_VTGround t.

(** [cwd]; [None] is its false. [parseHostPort] is the check of [net/url] of a
    host with a port or in brackets. *)
Definition cwd (parseHostPort : bytes -> option error) (t : G) : result (option string) :=
  try (t_Pwd t) (fun raw =>
  if String.eqb raw "" then Ok None
  else
    Ok (Some (match GoUrl.Parse parseHostPort (bytes_of_string raw) with
              | Ok u =>
                  if negb (bool_decide (GoUrl.url_Scheme u = [])) && negb (bool_decide (GoUrl.url_Path u = []))
                  then string_of_bytes (GoUrl.url_Path u)
                  else raw
              | Err _ => raw
              end))).
End Term.

(** ** Properties *)

(** C32. The working directory shown for a session is the one its shell reported:
    nothing for no report, a report that is an absolute path as it is, and for a
    report that is a URL the path the shell put into it, whatever bytes of the
    path it encoded beyond those that must be. *)
Theorem cwd_understood {G} `{!GhosttyTerminal G} (parseHostPort : bytes -> option error) (t : G) raw :
  t_Pwd t = Ok raw ->
  (raw = "" -> cwd parseHostPort t = Ok None) /\
  (HasPrefix raw "/" = true -> cwd parseHostPort t = Ok (Some raw)) /\
  forall scheme host keep path,
    GoUrl.scheme_ok scheme = true -> GoUrl.host_name host = true ->
    (forall b, keep b = true -> GoUrl.plain b = true) -> keep Byte.x2f = true ->
    GoUrl.starts [Byte.x2f] path = true ->
    raw = string_of_bytes (scheme ++ bytes_of_string "://" ++ host ++ GoUrl.escape keep path) ->
    cwd parseHostPort t = Ok (Some (string_of_bytes path)).
Proof.
  intros Hp. unfold cwd. rewrite Hp. cbn [try]. split_and!.
  - by intros ->.
  - destruct raw as [|c raw]; [done|]. intros Hpre. cbn [String.eqb].
    destruct (GoUrl.Parse _ _) as [u|e] eqn:Hu; [|done].
    assert (GoUrl.starts [Byte.x2f] (bytes_of_string (String c raw)) = true) as Hs.
    { unfold HasPrefix in Hpre. cbn [String.prefix] in Hpre.
      destruct (Ascii.ascii_dec _ c) as [<-|]; [by vm_compute|done]. }
    by rewrite (GoUrl.Parse_path _ _ _ Hs Hu).
  - intros scheme host keep path Hs Hh Hk Hk2 Hpath ->.
    assert (String.eqb (string_of_bytes (scheme ++ bytes_of_string "://" ++ host ++ GoUrl.escape keep path)) ""
      = false) as -> by by destruct scheme.
    rewrite bytes_of_string_of_bytes,  GoUrl.Parse_report by done. cbn [GoUrl.url_Scheme GoUrl.url_Path].
    rewrite !bool_decide_false; [|by destruct path|by destruct scheme]. done.
Qed.

(** A terminal that has nothing but the report. *)
#[local] Instance ex_reporting : GhosttyTerminal string := {
  t_New _ _ _ _ := Ok "";
  t_VTWrite t _ := t;
  t_Resize t _ _ := (t, None);
  t_Cols _ := Ok 80;
  t_Rows _ := Ok 24;
  t_GridRef _ _ _ _ := Ok [];
  t_Format _ _ := Ok [];
  t_CursorX _ := Ok 0;
  t_CursorY _ := Ok 0;
  t_ActiveScreen _ := Ok 0;
  t_VTGround _ := Ok true;
  t_Pwd t := Ok t;
  t_Snapshot _ := Ok [];
  t_SetScrollbackMaxLines t _ := (t, None);
  snap_Decode _ _ _ := Ok "" }.

Lemma cwd_understood_witness :
  cwd (fun _ => None) "file://host.local/tmp/a%20b%3F" = Ok (Some "/tmp/a b?").
Proof.
  destruct (@cwd_understood string ex_reporting (fun _ => None) "file://host.local/tmp/a%20b%3F" "file://host.local/tmp/a%20b%3F"
    eq_refl) as (_ & _ & H).
  apply (H (bytes_of_string "file") (bytes_of_string "host.local")
    (fun b => GoUrl.is_letter b || Byte.eqb b Byte.x2f) (bytes_of_string "/tmp/a b?")); try reflexivity.
  apply (GoUrl.all_bytes_imp (fun b => GoUrl.is_letter b || Byte.eqb b Byte.x2f) GoUrl.plain). by vm_compute.
Defined.
