(* ===== verification/TermTest.v ===== *)
(** * TermTest: the terminal the end-to-end tests drive

    Models [internal/termtest/termtest.go]: a process on a pty whose output is fed to a
    libghostty terminal, keys typed to it, snapshots of its screen, and the waits
    for what a screen shows. Methods are programs of operations ([Proc.v]), since
    the read loop feeds the terminal while a test looks at it. [t.Fatalf] ends the
    test: it is the result [Failed]. *)
From Stdlib Require Import ZArith Lia Ascii.
From stdpp Require Import base list strings numbers option.
From S2P Require Import Prelude GoStrings SessionLoop Ghostty Proc.
From S2P Require TermState.
#[local] Open Scope Z_scope.

(** ** Data *)

(** [DumpFormat]; [ScreenDump] has the fields of the daemon's [screenDump]. *)
Definition DumpPlain : Z := 0.
Definition DumpVTFull : Z := 1.

Record options := mkOptions {
  o_cols : Z;
  o_rows : Z;
  o_scrollback : Z;
  o_env : list string;
  o_dir : string;
  o_timeout : Z }.

Definition Option : Type := options -> options.

Definition WithSize (cols rows : Z) : Option := fun o =>
  mkOptions cols rows (o_scrollback o) (o_env o) (o_dir o) (o_timeout o).
Definition WithScrollback (n : Z) : Option := fun o =>
  mkOptions (o_cols o) (o_rows o) n (o_env o) (o_dir o) (o_timeout o).
Definition WithEnv (env : list string) : Option := fun o =>
  mkOptions (o_cols o) (o_rows o) (o_scrollback o) (o_env o ++ env) (o_dir o) (o_timeout o).
Definition WithDir (dir : string) : Option := fun o =>
  mkOptions (o_cols o) (o_rows o) (o_scrollback o) (o_env o) dir (o_timeout o).
Definition WithTimeout (d : Z) : Option := fun o =>
  mkOptions (o_cols o) (o_rows o) (o_scrollback o) (o_env o) (o_dir o) d.

(** Nanoseconds. *)
Definition time_Millisecond : Z := 1000000.
Definition time_Second : Z := 1000000000.

Definition default_options : options := mkOptions 80 24 1000 [] "" (5 * time_Second).

(** The handles a [Term] closes. *)
Inductive handle := HTerm (p : nat) | HEncoder (p : nat) | HEvent (p : nat) | HPty (p : nat).

Record Term := mkTerm {
  tm_ptmx : nat;
  tm_term : nat;
  tm_keyEncoder : nat;
  tm_keyEvent : nat;
  tm_opts : options }.

(** Why a test ended: an error of a call, or a wait that timed out, with the last
    screen. *)
Inductive failure :=
| FatalErr (what : string) (e : error)
| TimedOut (wait : string) (timeout : Z) (last : string).

Inductive verdict (A : Type) : Type :=
| Passed (a : A)
| Failed (f : failure).
Arguments Passed {A} _.
Arguments Failed {A} _.

(** ** Operations

    One call of the system, of libghostty (each holds its runtime's mutex), or one
    [select]. *)
Inductive top : Type -> Type :=
| Stat (path : string) : top (result bool)
| NewTerminal (cols rows lines : Z) : top (result nat)
| NewKeyEncoder : top (result nat)
| NewKeyEvent : top (result nat)
| StartWithSize (path : string) (args env : list string) (dir : string) (cols rows : Z) : top (result nat)
| Close (h : handle) : top unit
| GoReadLoop : top unit
| OnCleanup : top unit
| SignalKill : top unit
| WaitProcess : top unit
| AwaitDone : top unit
| CloseDone : top unit
| PtyRead : top (bytes * option error)
| PtyWrite (data : bytes) : top (option error)
| VTWrite (data : bytes) : top unit
| Encode (event : TermState.keyEvent) : top (result bytes)
| Cols : top (result Z)
| Rows : top (result Z)
| GridRef (tag x y : Z) : top (result bytes)
| NewFormatter (options : list FormatterOption) : top (result nat)
| Format (formatter : nat) : top (result bytes)
| CloseFormatter (formatter : nat) : top unit
| CursorX : top (result Z)
| CursorY : top (result Z)
| ActiveScreen : top (result Z)
| Setsize (cols rows : Z) : top (option error)
| ResizeTerm (cols rows : Z) : top (option error)
| StartTimers (timeout interval : Z) : top unit
| Tick : top bool                                   (* whether it is the deadline *)
| Now : top Z.

Abbreviation tproc := (Proc.proc top).
Abbreviation tstep := (Proc.step top).

(** [if err != nil { tm.t.Fatalf("termtest: ...: %v", err) }]. *)
Definition check {A B} (what : string) (r : result A) (k : A -> tproc (verdict B)) : tproc (verdict B) :=
  match r with Ok a => k a | Err e => Ret (Failed (FatalErr what e)) end.

Definition check_none {B} (what : string) (r : option error) (k : tproc (verdict B)) : tproc (verdict B) :=
  match r with None => k | Some e => Ret (Failed (FatalErr what e)) end.

(** ** Starting *)

(** The first [PATH] of the environment. *)
Fixpoint env_path (env : list string) : string :=
  match env with
  | [] => ""
  | e :: env => if HasPrefix e "PATH=" then str_drop 5 e else env_path env
  end.

Fixpoint look_in (name : string) (dirs : list string) : tproc (result string) :=
  match dirs with
  | [] => Ret (Err (Errorf (Quote name +:+ " not found in PATH")))
  | dir :: dirs =>
      let p := dir +:+ "/" +:+ name in
      do! fi := Stat p in
      match fi with
      | Ok false => Ret (Ok p)
      | _ => look_in name dirs
      end
  end.

Definition lookPathIn (name : string) (env : list string) : tproc (result string) :=
  if Contains name "/" then Ret (Ok name)
  else
    let path := env_path env in
    if String.eqb path "" then Ret (Err (Errorf "PATH not set in environment"))
    else look_in name (Split path ":"%char).

(** Close what was opened, then fail. *)
Fixpoint close_fail {A} (hs : list handle) (what : string) (e : error) : tproc (verdict A) :=
  match hs with
  | [] => Ret (Failed (FatalErr what e))
  | h :: hs => do! _ := Close h in close_fail hs what e
  end.

(** [command[0]] of an empty command panics; a test always gives one. *)
Definition New (cmd : string) (args : list string) (opts : list Option) : tproc (verdict Term) :=
  let o := fold_left (fun o fn => fn o) opts default_options in
  do! term := NewTerminal (u16 (o_cols o)) (u16 (o_rows o)) (o_scrollback o) in
  match term with
  | Err e => close_fail [] "new terminal" e
  | Ok term =>
      do! keyEncoder := NewKeyEncoder in
      match keyEncoder with
      | Err e => close_fail [HTerm term] "new key encoder" e
      | Ok keyEncoder =>
          do! keyEvent := NewKeyEvent in
          match keyEvent with
          | Err e => close_fail [HEncoder keyEncoder; HTerm term] "new key event" e
          | Ok keyEvent =>
              call! binPath := lookPathIn cmd (o_env o) in
              match binPath with
              | Err e => close_fail [HEvent keyEvent; HEncoder keyEncoder; HTerm term] "lookup" e
              | Ok binPath =>
                  do! ptmx := StartWithSize binPath (cmd :: args) (o_env o) (o_dir o)
                                (u16 (o_cols o)) (u16 (o_rows o)) in
                  match ptmx with
                  | Err e => close_fail [HEvent keyEvent; HEncoder keyEncoder; HTerm term] "start pty" e
                  | Ok ptmx =>
                      do! _ := GoReadLoop in
                      do! _ := OnCleanup in
                      Ret (Passed (mkTerm ptmx term keyEncoder keyEvent o))
                  end
              end
          end
      end
  end.

(** What [t.Cleanup] runs when the test ends. *)
Definition cleanup (tm : Term) : tproc unit :=
  do! _ := SignalKill in
  do! _ := WaitProcess in
  do! _ := AwaitDone in
  do! _ := Close (HPty (tm_ptmx tm)) in
  do! _ := Close (HEvent (tm_keyEvent tm)) in
  do! _ := Close (HEncoder (tm_keyEncoder tm)) in
  do! _ := Close (HTerm (tm_term tm)) in
  Ret tt.

(** The read loop, for at most [fuel] reads. *)
Fixpoint readLoop (fuel : nat) : tproc (option unit) :=
  match fuel with
  | O => Ret None
  | S fuel =>
      do! (data, err) := PtyRead in
      call! _ := (if 0 <? blen data then do! _ := VTWrite data in Ret tt else Ret tt) in
      match err with
      | Some _ => do! _ := CloseDone in Ret (Some tt)
      | None => readLoop fuel
      end
  end.

(** ** Input *)

Definition Type_ (s : string) : tproc (verdict unit) :=
  do! err := PtyWrite (bytes_of_string s) in check_none "type" err (Ret (Passed tt)).

(** The code point that goes with a key. *)
Definition key_codepoint (key : Z) : Z :=
  if key =? KeyBracketRight then 93
  else if key =? KeyBackslash then 92
  else if key =? KeyEnter then 13
  else 0.

Definition Key (key mods : Z) : tproc (verdict unit) :=
  do! data := Encode (TermState.mkKeyEvent KeyActionPress key mods 0 false (key_codepoint key) []) in
  check "encode key" data (fun data =>
    if 0 <? blen data then
      do! err := PtyWrite data in check_none "write key" err (Ret (Passed tt))
    else Ret (Passed tt)).

Definition Resize (cols rows : Z) : tproc (verdict unit) :=
  do! err := Setsize (u16 cols) (u16 rows) in
  check_none "setsize" err
    (do! err := ResizeTerm (u16 cols) (u16 rows) in
     check_none "wasm resize" err (Ret (Passed tt))).

(** ** Screens *)

(** The active area, for a plain dump. *)
Definition plain_selection : tproc (verdict (option Selection)) :=
  do! cols := Cols in
  check "terminal columns" cols (fun cols =>
  do! rows := Rows in
  check "terminal rows" rows (fun rows =>
  do! start := GridRef TermState.PointTagActive 0 0 in
  check "selection start" start (fun start =>
  do! end_ := GridRef TermState.PointTagActive (u16 (cols - 1)) (u32 (u16 (rows - 1))) in
  check "selection end" end_ (fun end_ =>
  Ret (Passed (Some (mkSelection start end_ false))))))).

Definition snapshot_options (format : Z) (sel : option Selection) : list FormatterOption :=
  [WithFormatterTrim true] ++
  (match sel with Some s => [WithFormatterSelection (Some s)] | None => [] end) ++
  (if format =? DumpVTFull then
     [WithFormatterFormat FormatterFormatVT; WithFormatterExtraModes true;
      WithFormatterExtraScrollingRegion true; WithFormatterExtraPwd true; WithFormatterExtraKeyboard true;
      WithFormatterExtraCursor true; WithFormatterExtraStyle true; WithFormatterExtraHyperlink true;
      WithFormatterExtraProtection true; WithFormatterExtraKittyKeyboard true; WithFormatterExtraCharsets true]
   else []).

(** From [Format] on; the formatter is closed when the function returns. *)
Definition read_screen (formatter : nat) : tproc (verdict screenDump) :=
  do! data := Format formatter in
  check "snapshot" data (fun data =>
  do! cursorCol := CursorX in
  check "cursor column" cursorCol (fun cursorCol =>
  do! cursorRow := CursorY in
  check "cursor row" cursorRow (fun cursorRow =>
  do! activeScreen := ActiveScreen in
  check "active screen" activeScreen (fun activeScreen =>
  Ret (Passed (mkScreenDump data cursorRow cursorCol (activeScreen =? TermState.ScreenAlternate))))))).

Definition Snapshot (format : Z) : tproc (verdict screenDump) :=
  call! sel := (if format =? DumpPlain then plain_selection else Ret (Passed None)) in
  match sel with
  | Failed f => Ret (Failed f)
  | Passed sel =>
      do! formatter := NewFormatter (snapshot_options format sel) in
      check "snapshot formatter" formatter (fun formatter =>
        deferred (do! _ := CloseFormatter formatter in Ret tt) (read_screen formatter))
  end.

Definition on_screen {A} (f : screenDump -> A) (format : Z) : tproc (verdict A) :=
  call! dump := Snapshot format in
  Ret (match dump with Failed x => Failed x | Passed dump => Passed (f dump) end).

Definition Screen : tproc (verdict string) := on_screen (fun dump => string_of_bytes (sd_Data dump)) DumpPlain.
Definition ScreenVT : tproc (verdict bytes) := on_screen sd_Data DumpVTFull.

(** *** Rows *)

Definition rowLine (dump : screenDump) (row : Z) : option string :=
  let lines := Split (string_of_bytes (sd_Data dump)) "010"%char in
  if (row <? 0) || (blen lines <=? row) then None else lines !! Z.to_nat row.

(** [strings.Contains]. *)
Definition contains (s sub : string) : bool := String.eqb sub "" || Contains s sub.

Definition rowContainsDump (dump : screenDump) (row : Z) (substr : string) : bool :=
  match rowLine dump row with None => false | Some line => contains line substr end.

(** [strings.TrimRight(line, "\r")]. *)
Fixpoint trim_cr (s : string) : string :=
  match s with
  | EmptyString => EmptyString
  | String c s =>
      match trim_cr s with
      | EmptyString => if Ascii.eqb c "013"%char then EmptyString else String c EmptyString
      | s => String c s
      end
  end.

Definition promptOnRowMatch (dump : screenDump) (row : Z) (match_ : string -> bool) : bool :=
  match rowLine dump row with None => false | Some line => match_ (trim_cr line) end.

(** The regular expression of [PromptVisible]: one of [#], [$], [>] at the end, or
    before one space at the end. *)
Definition is_prompt_char (c : ascii) : bool :=
  Ascii.eqb c "#"%char || Ascii.eqb c "$"%char || Ascii.eqb c ">"%char.

Fixpoint promptRE (s : string) : bool :=
  match s with
  | EmptyString => false
  | String c EmptyString => is_prompt_char c
  | String c ((String d EmptyString) as s') => is_prompt_char c && Ascii.eqb d " "%char || promptRE s'
  | String _ s' => promptRE s'
  end.

Definition promptOnScreen (match_ : string -> bool) (dump : screenDump) : bool :=
  promptOnRowMatch dump (sd_CursorRow dump) match_ || promptOnRowMatch dump (sd_CursorRow dump - 1) match_.

Definition RowContains (row : Z) (substr : string) : tproc (verdict bool) :=
  on_screen (fun dump => rowContainsDump dump row substr) DumpPlain.
Definition CursorRowContains (substr : string) : tproc (verdict bool) :=
  on_screen (fun dump => rowContainsDump dump (sd_CursorRow dump) substr) DumpPlain.
Definition PromptVisibleMatch (match_ : string -> bool) : tproc (verdict bool) :=
  on_screen (promptOnScreen match_) DumpPlain.
Definition PromptVisible : tproc (verdict bool) := PromptVisibleMatch promptRE.

(** ** Waiting *)

Record waitOptions := mkWaitOptions { w_timeout : Z; w_interval : Z }.

Definition WaitTimeout (d : Z) (o : waitOptions) : waitOptions := mkWaitOptions d (w_interval o).
Definition WaitInterval (d : Z) (o : waitOptions) : waitOptions := mkWaitOptions (w_timeout o) d.

Definition wait_options (tm : Term) (opts : list (waitOptions -> waitOptions)) : waitOptions :=
  fold_left (fun o fn => fn o) opts (mkWaitOptions (o_timeout (tm_opts tm)) (50 * time_Millisecond)).

(** The loop of the waits for a condition on the screen, for at most [fuel] ticks. *)
Fixpoint wait_loop (fuel : nat) (wait : string) (timeout : Z) (ok : screenDump -> bool) (last : string) :
    tproc (option (verdict unit)) :=
  match fuel with
  | O => Ret None
  | S fuel =>
      do! late := Tick in
      if late then Ret (Some (Failed (TimedOut wait timeout last)))
      else
        call! dump := Snapshot DumpPlain in
        match dump with
        | Failed f => Ret (Some (Failed f))
        | Passed dump =>
            if ok dump then Ret (Some (Passed tt))
            else wait_loop fuel wait timeout ok (string_of_bytes (sd_Data dump))
        end
  end.

Definition wait_until (fuel : nat) (wait : string) (tm : Term) (opts : list (waitOptions -> waitOptions))
    (ok : screenDump -> bool) : tproc (option (verdict unit)) :=
  let wo := wait_options tm opts in
  do! _ := StartTimers (w_timeout wo) (w_interval wo) in
  wait_loop fuel wait (w_timeout wo) ok "".

Definition WaitFor fuel tm substr opts :=
  wait_until fuel ("WaitFor " +:+ Quote substr) tm opts
    (fun dump => contains (string_of_bytes (sd_Data dump)) substr).
Definition WaitRowContains fuel tm row substr opts :=
  wait_until fuel ("WaitRowContains " +:+ Quote substr) tm opts (fun dump => rowContainsDump dump row substr).
Definition WaitCursorRowContains fuel tm substr opts :=
  wait_until fuel ("WaitCursorRowContains " +:+ Quote substr) tm opts
    (fun dump => rowContainsDump dump (sd_CursorRow dump) substr).
Definition WaitPromptMatch fuel tm match_ opts :=
  wait_until fuel "WaitPromptMatch" tm opts (promptOnScreen match_).
Definition WaitPrompt fuel tm opts := WaitPromptMatch fuel tm promptRE opts.

(** [sameSince] is the zero time until the screen first changes. *)
Fixpoint stable_loop (fuel : nat) (timeout stableFor : Z) (last : string) (sameSince : option Z) :
    tproc (option (verdict unit)) :=
  match fuel with
  | O => Ret None
  | S fuel =>
      do! late := Tick in
      if late then Ret (Some (Failed (TimedOut "WaitStable" timeout last)))
      else
        call! dump := Snapshot DumpPlain in
        match dump with
        | Failed f => Ret (Some (Failed f))
        | Passed dump =>
            let cur := string_of_bytes (sd_Data dump) in
            if negb (String.eqb cur last) then
              do! now := Now in stable_loop fuel timeout stableFor cur (Some now)
            else
              match sameSince with
              | None => stable_loop fuel timeout stableFor last sameSince
              | Some t =>
                  do! now := Now in
                  if stableFor <=? now - t then Ret (Some (Passed tt))
                  else stable_loop fuel timeout stableFor last sameSince
              end
        end
  end.

Definition WaitStable (fuel : nat) (tm : Term) (stableFor : Z) (opts : list (waitOptions -> waitOptions)) :
    tproc (option (verdict unit)) :=
  let wo := wait_options tm opts in
  do! _ := StartTimers (w_timeout wo) (w_interval wo) in
  stable_loop fuel (w_timeout wo) stableFor "" None.

(** ** What a test sees

    The looks of a run: the screens its snapshots took, the times it read, and the
    deadline. A snapshot is made of four answers. *)
Inductive look := Saw (d : screenDump) | Clock (t : Z) | Deadline.

Record peek := mkPeek { pk_data : bytes; pk_col : Z; pk_row : Z }.
Definition no_peek : peek := mkPeek [] 0 0.

Definition answer {A} (p : A) (r : result Z) (f : Z -> A) : A := match r with Ok z => f z | Err _ => p end.

Definition look_step (p : peek) (s : tstep) : peek * list look :=
  match s with
  | Step o b =>
      match o in top B return B -> peek * list look with
      | Format _ => fun r => (match r with Ok d => mkPeek d (pk_col p) (pk_row p) | Err _ => p end, [])
      | CursorX => fun r => (answer p r (fun c => mkPeek (pk_data p) c (pk_row p)), [])
      | CursorY => fun r => (answer p r (fun w => mkPeek (pk_data p) (pk_col p) w), [])
      | ActiveScreen => fun r =>
          (p, answer [] r (fun a => [Saw (mkScreenDump (pk_data p) (pk_row p) (pk_col p)
                                            (a =? TermState.ScreenAlternate))]))
      | Now => fun t => (p, [Clock t])
      | Tick => fun late => (p, if late then [Deadline] else [])
      | _ => fun _ => (p, [])
      end b
  end.

Fixpoint looks_from (p : peek) (tr : list tstep) : peek * list look :=
  match tr with
  | [] => (p, [])
  | s :: tr =>
      let '(p, l) := look_step p s in
      let '(p, l') := looks_from p tr in (p, l ++ l')
  end.

Definition looks (tr : list tstep) : list look := snd (looks_from no_peek tr).

Lemma looks_from_app p tr tr' :
  looks_from p (tr ++ tr') =
  (fst (looks_from (fst (looks_from p tr)) tr'),
   snd (looks_from p tr) ++ snd (looks_from (fst (looks_from p tr)) tr')).
Proof.
  revert p. induction tr as [|s tr IH]; intros p; cbn [app looks_from].
  - cbn [fst snd app]. apply surjective_pairing.
  - destruct (look_step p s) as [q l] eqn:E. rewrite IH.
    destruct (looks_from q tr) as [q' l'] eqn:E'. cbn [fst snd]. by rewrite app_assoc.
Qed.

(** What [tr] lets a test see, whatever it saw before. *)
Definition sees (tr : list tstep) (l : list look) : Prop := forall p, snd (looks_from p tr) = l.

Lemma sees_then tr tr' l l' : sees tr l -> sees tr' l' -> sees (tr ++ tr') (l ++ l').
Proof. intros H H' p. by rewrite looks_from_app, H, H'. Qed.

Lemma sees_looks tr l : sees tr l -> looks tr = l.
Proof. intros H. apply H. Qed.

(** One look of a snapshot that does not fail; one that does met an error. *)
Definition saw (r : verdict screenDump) (l : list look) : Prop :=
  match r with
  | Passed d => l = [Saw d]
  | Failed (FatalErr _ _) => l = []
  | Failed (TimedOut _ _ _) => False
  end.

Lemma Snapshot_sees format : wp (Snapshot format) (fun tr r => exists l, sees tr l /\ saw r l).
Proof.
  unfold Snapshot, plain_selection, read_screen, check, deferred.
  wp_go; (eexists; split; [|reflexivity]); intros p; reflexivity.
Qed.

(** Programs that take a snapshot first. *)
Lemma wp_Snapshot {A} format (k : verdict screenDump -> tproc A) (Q : list tstep -> A -> Prop) :
  (forall d, wp (k (Passed d)) (fun tr a => forall tr0, sees tr0 [Saw d] -> Q (tr0 ++ tr) a)) ->
  (forall what e, wp (k (Failed (FatalErr what e))) (fun tr a => forall tr0, sees tr0 [] -> Q (tr0 ++ tr) a)) ->
  wp (Proc.bind (Snapshot format) k) Q.
Proof.
  intros Hd He. apply wp_bind. eapply wp_mono; [|apply Snapshot_sees].
  intros tr r (l & Hs & Hr). destruct r as [d|[what e|]]; cbn [saw] in Hr; try done; subst l.
  - eapply wp_mono; [|apply Hd]. intros tr' a H. by apply H.
  - eapply wp_mono; [|apply He]. intros tr' a H. by apply H.
Qed.

(** One more look before. *)
Lemma sees_cons s tr l l' : (forall p, snd (look_step p s) = l) -> sees tr l' -> sees (s :: tr) (l ++ l').
Proof.
  intros Hl H p. cbn [looks_from]. specialize (Hl p). destruct (look_step p s) as [q l0].
  cbn [snd] in Hl. subst l0. specialize (H q). destruct (looks_from q tr). cbn [snd] in *. by subst.
Qed.

(** *** Waiting for a condition *)

Definition text (d : screenDump) : string := string_of_bytes (sd_Data d).
Definition misses (ok : screenDump -> bool) (ds : list screenDump) : Prop := Forall (fun d => ok d = false) ds.

(** The end of a wait that missed the screens [ds]. *)
Definition wait_ends (fuel : nat) (wait : string) (timeout : Z) (ok : screenDump -> bool) (last : string)
    (tr : list tstep) (r : option (verdict unit)) : Prop :=
  exists ds, misses ok ds /\
  match r with
  | Some (Passed _) => exists d, sees tr (map Saw (ds ++ [d])) /\ ok d = true
  | Some (Failed (TimedOut wait' timeout' last')) =>
      sees tr (map Saw ds ++ [Deadline]) /\ wait' = wait /\ timeout' = timeout /\
      last' = List.last (map text ds) last
  | Some (Failed (FatalErr _ _)) => sees tr (map Saw ds)
  | None => sees tr (map Saw ds) /\ length ds = fuel
  end.

Lemma last_default {A} (l : list A) x y : List.last (x :: l) y = List.last l x.
Proof.
  revert x y. induction l as [|z l IH]; intros x y; [done|].
  change (List.last (x :: z :: l) y) with (List.last (z :: l) y).
  by rewrite (IH z y), (IH z x).
Qed.

Lemma tick_sees tr l late : sees tr l -> sees (Step Tick late :: tr) ((if late then [Deadline] else []) ++ l).
Proof. apply sees_cons. done. Qed.

Lemma sees_nil : sees [] [].
Proof. done. Qed.
#[local] Hint Resolve sees_nil : core.

Lemma timers_see a b tr l : sees (Step (StartTimers a b) tt :: tr) l <-> sees tr l.
Proof.
  unfold sees. split; intros H p; specialize (H p); cbn [looks_from look_step] in *;
    by destruct (looks_from p tr).
Qed.

(** One tick and the screen after it. *)
Lemma look_sees tr0 tr d l : sees tr0 [Saw d] -> sees tr l -> sees (Step Tick false :: tr0 ++ tr) (Saw d :: l).
Proof. intros H0 H. apply (tick_sees _ (Saw d :: l) false). by apply (sees_then tr0 tr [Saw d]). Qed.

Lemma wait_loop_ends fuel wait timeout ok last :
  wp (wait_loop fuel wait timeout ok last) (wait_ends fuel wait timeout ok last).
Proof.
  revert last. induction fuel as [|fuel IH]; intros last; cbn [wait_loop wp].
  { exists []. repeat split; auto; constructor. }
  intros [|]; cbn [wp].
  { exists []. split; [constructor|]. split; [|done]. apply (tick_sees [] [] true), sees_nil. }
  apply wp_Snapshot; [intros d|intros what e]; cbn [wp].
  2:{ intros tr0 H0. exists []. split; [constructor|]. apply (tick_sees _ [] false).
      by rewrite app_nil_r. }
  destruct (ok d) eqn:Hd; cbn [wp].
  { intros tr0 H0. exists []. split; [constructor|]. exists d. split; [|done]. by apply look_sees. }
  eapply wp_mono; [|apply IH]. intros tr r (ds & Hds & Hr) tr0 H0.
  exists (d :: ds). split; [by constructor|].
  destruct r as [[[]|[what e|w t l]]|].
  - destruct Hr as (d' & Hs & Hok). exists d'. split; [by apply look_sees|done].
  - by apply look_sees.
  - destruct Hr as (Hs & -> & -> & ->). split; [by apply look_sees|]. cbn [map].
    by rewrite last_default.
  - destruct Hr as (Hs & Hl). split; [by apply look_sees|]. cbn. by f_equal.
Qed.

(** The conditions of the waits, and what they are. *)
Inductive condition :=
| Shows (substr : string)
| RowShows (row : Z) (substr : string)
| CursorRowShows (substr : string)
| PromptMatch (match_ : string -> bool)
| Prompt.

Definition wait_for (fuel : nat) (c : condition) (tm : Term) (opts : list (waitOptions -> waitOptions)) :
    tproc (option (verdict unit)) :=
  match c with
  | Shows substr => WaitFor fuel tm substr opts
  | RowShows row substr => WaitRowContains fuel tm row substr opts
  | CursorRowShows substr => WaitCursorRowContains fuel tm substr opts
  | PromptMatch match_ => WaitPromptMatch fuel tm match_ opts
  | Prompt => WaitPrompt fuel tm opts
  end.

Definition inside (s sub : string) : Prop := exists a b, s = a +:+ sub +:+ b.

(** [line] is row [row] of the screen: the rows are ended by line feeds. *)
Definition has_row (d : screenDump) (row : Z) (line : string) : Prop :=
  0 <= row /\ Split (text d) "010"%char !! Z.to_nat row = Some line.

Definition a_prompt (line : string) : Prop :=
  exists p c, is_prompt_char c = true /\ (line = p +:+ String c "" \/ line = p +:+ String c " ").

Definition prompt_here (P : string -> Prop) (d : screenDump) : Prop :=
  exists row line, (row = sd_CursorRow d \/ row = sd_CursorRow d - 1) /\ has_row d row line /\ P (trim_cr line).

Definition holds (c : condition) (d : screenDump) : Prop :=
  match c with
  | Shows substr => inside (text d) substr
  | RowShows row substr => exists line, has_row d row line /\ inside line substr
  | CursorRowShows substr => exists line, has_row d (sd_CursorRow d) line /\ inside line substr
  | PromptMatch match_ => prompt_here (fun line => match_ line = true) d
  | Prompt => prompt_here a_prompt d
  end.

(** The checks of the code decide them. *)
Definition holdsb (c : condition) : screenDump -> bool :=
  match c with
  | Shows substr => fun d => contains (text d) substr
  | RowShows row substr => fun d => rowContainsDump d row substr
  | CursorRowShows substr => fun d => rowContainsDump d (sd_CursorRow d) substr
  | PromptMatch match_ => promptOnScreen match_
  | Prompt => promptOnScreen promptRE
  end.

Lemma contains_spec s sub : contains s sub = true <-> inside s sub.
Proof.
  unfold contains. rewrite orb_true_iff, String.eqb_eq. split.
  - intros [->|H]; [exists "", s; done|].
    induction s as [|c s IH]; cbn [Contains] in H; [done|].
    apply orb_true_iff in H as [H|H].
    + apply HasPrefix_spec in H as [rest ->]. by exists "", rest.
    + destruct (IH H) as (a & b & ->). by exists (String c a), b.
  - intros (a & b & ->). destruct sub as [|c sub]; [by left|]. right.
    induction a as [|x a IH]; cbn [String.append Contains].
    + apply orb_true_iff. left. apply (HasPrefix_app (String c sub) b).
    + apply orb_true_iff. by right.
Qed.

Lemma rowLine_spec d row line : rowLine d row = Some line <-> has_row d row line.
Proof.
  unfold rowLine, has_row, text, blen. set (lines := Split _ _).
  destruct (Z.ltb_spec row 0); cbn [orb]; [split; [done|lia]|].
  destruct (Z.leb_spec (Z.of_nat (length lines)) row).
  - split; [done|]. intros [_ H1]. apply lookup_lt_Some in H1. lia.
  - split; [done|by intros []].
Qed.

Lemma rowContainsDump_spec d row sub :
  rowContainsDump d row sub = true <-> exists line, has_row d row line /\ inside line sub.
Proof.
  unfold rowContainsDump. destruct (rowLine d row) as [line|] eqn:E.
  - rewrite contains_spec. apply rowLine_spec in E. split; [by exists line|].
    intros (l & Hl & Hi). destruct E as [_ E], Hl as [_ Hl]. by rewrite E in Hl; injection Hl as ->.
  - split; [done|]. intros (l & Hl & _). apply rowLine_spec in Hl. congruence.
Qed.

Lemma promptOnRowMatch_spec d row f :
  promptOnRowMatch d row f = true <-> exists line, has_row d row line /\ f (trim_cr line) = true.
Proof.
  unfold promptOnRowMatch. destruct (rowLine d row) as [line|] eqn:E.
  - apply rowLine_spec in E. split; [by exists line|].
    intros (l & Hl & Hi). destruct E as [_ E], Hl as [_ Hl]. by rewrite E in Hl; injection Hl as ->.
  - split; [done|]. intros (l & Hl & _). apply rowLine_spec in Hl. congruence.
Qed.

Lemma promptOnScreen_spec f d : promptOnScreen f d = true <-> prompt_here (fun line => f line = true) d.
Proof.
  unfold promptOnScreen, prompt_here. rewrite orb_true_iff, !promptOnRowMatch_spec. naive_solver.
Qed.

Lemma promptRE_spec s : promptRE s = true <-> a_prompt s.
Proof.
  unfold a_prompt. split.
  - induction s as [|c s IH]; [done|]. intros H. cbn [promptRE] in H. destruct s as [|d s].
    { exists "", c. by split; [|left]. }
    assert (Hc : (is_prompt_char c = true /\ String d s = " ") \/ promptRE (String d s) = true).
    { destruct s; [|by right]. apply orb_true_iff in H as [H|H]; [left|by right].
      apply andb_true_iff in H as [? H%Ascii.eqb_eq]. by subst. }
    destruct Hc as [[Hc Hs]|Hc].
    + exists "", c. split; [done|]. right. by rewrite Hs.
    + destruct (IH Hc) as (p & e & He & [E|E]); rewrite E; exists (String c p), e; split; auto.
  - intros (p & c & Hc & H).
    assert (Hp : promptRE (String c "") = true /\ promptRE (String c " ") = true).
    { cbn [promptRE]. by rewrite Hc. }
    assert (Hcons : forall x t, promptRE t = true -> promptRE (String x t) = true).
    { intros x [|y [|z t]] Ht; [done| |done]. cbn [promptRE] in *. by rewrite Ht, orb_true_r. }
    destruct Hp, H as [->| ->]; (induction p as [|x p IH]; [done|]; by apply Hcons).
Qed.

Lemma holdsb_spec c d : holdsb c d = true <-> holds c d.
Proof.
  destruct c; cbn [holdsb holds].
  - apply contains_spec.
  - apply rowContainsDump_spec.
  - apply rowContainsDump_spec.
  - apply promptOnScreen_spec.
  - rewrite promptOnScreen_spec. unfold prompt_here. setoid_rewrite promptRE_spec. done.
Qed.

(** C30. A wait looks at the screen once a tick: it passes at the first screen of which its
    condition holds (the text is on the screen, on the row, on the cursor's row; a prompt
    ends the cursor's row or the one above), fails at its deadline with the last screen
    it saw, or at the first error of a snapshot; it goes on only while there are ticks. *)
Theorem waits_see_the_screen fuel c tm opts tr r :
  Proc.runs (wait_for fuel c tm opts) tr r ->
  exists ds, Forall (fun d => ~ holds c d) ds /\
  match r with
  | Some (Passed _) => exists d, looks tr = map Saw (ds ++ [d]) /\ holds c d
  | Some (Failed (TimedOut _ timeout last)) =>
      looks tr = map Saw ds ++ [Deadline] /\ timeout = w_timeout (wait_options tm opts) /\
      last = List.last (map text ds) ""
  | Some (Failed (FatalErr _ _)) => looks tr = map Saw ds
  | None => looks tr = map Saw ds /\ length ds = fuel
  end.
Proof.
  intros Hr.
  assert (Hw : exists wait, wait_for fuel c tm opts = wait_until fuel wait tm opts (holdsb c))
    by (destruct c; eexists; reflexivity).
  destruct Hw as [wait Hw]. rewrite Hw in Hr. unfold wait_until in Hr.
  assert (Hwp : wp (wait_until fuel wait tm opts (holdsb c))
    (wait_ends fuel wait (w_timeout (wait_options tm opts)) (holdsb c) "")).
  { intros []. eapply wp_mono; [|apply wait_loop_ends].
    intros tr' r' (ds & Hds & H). exists ds. split; [done|].
    destruct r' as [[[]|[]]|]; rewrite ?timers_see.
    - destruct H as (d & Hs & Hd). exists d. by rewrite timers_see.
    - exact H.
    - exact H.
    - exact H. }
  destruct (wp_runs _ _ _ _ Hwp Hr) as (ds & Hds & H). exists ds. split.
  { eapply List.Forall_impl; [|exact Hds]. intros d Hd Hh. apply holdsb_spec in Hh. congruence. }
  destruct r as [[[]|[]]|]; rewrite <- ?holdsb_spec.
  - destruct H as (d & Hs & Hd). exists d. rewrite <- holdsb_spec. auto using sees_looks.
  - auto using sees_looks.
  - destruct H as (Hs & _ & Ht & Hl). auto using sees_looks.
  - destruct H as (Hs & Hl). auto using sees_looks.
Qed.

(** The answers of an outside where the prompt shows at the third tick. *)
Definition ex_answers (B : Type) (o : top B) (w : nat) : B :=
  match o in top B return B with
  | Stat _ => Ok false
  | NewTerminal _ _ _ | NewKeyEncoder | NewKeyEvent | StartWithSize _ _ _ _ _ _ | NewFormatter _ => Ok 0%nat
  | Close _ | GoReadLoop | OnCleanup | SignalKill | WaitProcess | AwaitDone | CloseDone | VTWrite _
  | CloseFormatter _ | StartTimers _ _ => tt
  | PtyRead => ([], None)
  | PtyWrite _ | Setsize _ _ | ResizeTerm _ _ => None
  | Encode _ | GridRef _ _ _ => Ok []
  | Cols => Ok 80
  | Rows => Ok 24
  | Format _ => Ok (bytes_of_string (if (w <? 3)%nat then "starting" else "~ $ "))
  | CursorX | CursorY | ActiveScreen => Ok 0
  | Tick => (9 <? w)%nat
  | Now => 100 * Z.of_nat w
  end.

Definition ex_next (B : Type) (o : top B) (_ : B) (w : nat) : nat :=
  match o with Tick => S w | _ => w end.

Definition ex_term : Term := mkTerm 0 0 0 0 default_options.

Lemma waits_see_the_screen_witness :
  let '(tr, r, _) := Proc.drive ex_next ex_answers (wait_for 9 Prompt ex_term []) 0%nat in
  r = Some (Passed tt) /\ exists ds d, length ds = 2%nat /\ looks tr = map Saw (ds ++ [d]) /\ holds Prompt d.
Proof.
  destruct (Proc.drive ex_next ex_answers (wait_for 9 Prompt ex_term []) 0%nat) as [[tr r] w] eqn:E.
  assert (Hr : runs (wait_for 9 Prompt ex_term []) tr r).
  { by apply (Proc.drive_runs (fun _ _ _ _ => True) ex_next ex_answers _ 0%nat tr r w). }
  destruct (waits_see_the_screen 9 Prompt ex_term [] tr r Hr) as (ds & _ & H).
  vm_compute in E. injection E as <- <- _. split; [reflexivity|].
  destruct H as (d & Hl & Hh). exists ds, d. split; [|by split].
  apply (f_equal length) in Hl. rewrite length_map, length_app in Hl. cbn in Hl. lia.
Defined.

(** *** Waiting for a screen that does not change *)

Definition seen_text (l : look) : option string := match l with Saw d => Some (text d) | _ => None end.

(** A look while the screen shows [s], unchanged since [t] for less than [stableFor]. *)
Definition quiet_look (s : string) (t stableFor : Z) (l : look) : Prop :=
  match l with Saw d => text d = s | Clock t' => t' - t < stableFor | Deadline => False end.

(** The rest of the looks of a wait that passes, of a screen [last] that is the same
    since [since]. *)
Definition settles (stableFor : Z) (last : string) (since : option Z) (ls : list look) : Prop :=
  (exists t run t', since = Some t /\ ls = run ++ [Clock t'] /\ run <> [] /\
    Forall (quiet_look last t stableFor) run /\ stableFor <= t' - t) \/
  (exists pre d t run t', ls = pre ++ Saw d :: Clock t :: run ++ [Clock t'] /\ run <> [] /\
    text d <> List.last (omap seen_text pre) last /\
    Forall (quiet_look (text d) t stableFor) run /\ stableFor <= t' - t).

(** One more look of the same screen. *)
Lemma settles_same stableFor last since d clocks ls :
  text d = last ->
  match since with Some t => Forall (quiet_look last t stableFor) clocks | None => True end ->
  omap seen_text clocks = [] ->
  settles stableFor last since ls -> settles stableFor last since (Saw d :: clocks ++ ls).
Proof.
  intros Hd Hc He [(t & run & t' & -> & -> & Hne & Hq & Ht)|(pre & e & t & run & t' & -> & Hne & Hx & Hq & Ht)].
  - left. exists t, (Saw d :: clocks ++ run), t'. split; [done|].
    split; [by cbn [app]; rewrite <- app_assoc|]. split; [done|]. split; [|done]. constructor; [exact Hd|]. by apply list.Forall_app.
  - right. exists (Saw d :: clocks ++ pre), e, t, run, t'. split; [by cbn [app]; rewrite <- app_assoc|].
    split; [done|]. split; [|done]. cbn [omap list_omap seen_text]. rewrite omap_app, He.
    cbn [app]. by rewrite last_default, Hd.
Qed.

(** The screen changes. *)
Lemma settles_changed stableFor last since d t ls :
  text d <> last ->
  settles stableFor (text d) (Some t) ls -> settles stableFor last since (Saw d :: Clock t :: ls).
Proof.
  intros Hd [(t0 & run & t' & [= <-] & -> & Hne & Hq & Ht)|(pre & e & t0 & run & t' & -> & Hne & Hx & Hq & Ht)].
  - right. by exists [], d, t, run, t'.
  - right. exists (Saw d :: Clock t :: pre), e, t0, run, t'. split; [done|]. split; [done|]. split; [|done].
    cbn [omap list_omap seen_text]. by rewrite last_default.
Qed.

Lemma now_sees t tr l : sees tr l -> sees (Step Now t :: tr) (Clock t :: l).
Proof. intros H. by apply (sees_cons _ _ [Clock t]). Qed.

Lemma stable_loop_settles fuel timeout stableFor last since :
  wp (stable_loop fuel timeout stableFor last since) (fun tr r =>
    r = Some (Passed tt) -> exists ls, sees tr ls /\ settles stableFor last since ls).
Proof.
  revert last since. induction fuel as [|fuel IH]; intros last since; cbn [stable_loop wp]; [done|].
  intros [|]; cbn [wp]; [done|].
  apply wp_Snapshot; [intros d|intros what e]; cbn [wp]; [|done].
  change (string_of_bytes (sd_Data d)) with (text d).
  destruct (String.eqb_spec (text d) last) as [Hd|Hd]; cbn [negb wp].
  - destruct since as [t|]; cbn [wp].
    + intros now. destruct (Z.leb_spec stableFor (now - t)); cbn [wp].
      * intros tr0 H0 _. exists (Saw d :: [Clock now]). split; [by apply look_sees, now_sees|].
        left. exists t, [Saw d], now. split_and!; auto; by constructor.
      * eapply wp_mono; [|apply IH]. intros tr r Hr tr0 H0 ->. destruct (Hr eq_refl) as (ls & Hs & Hl).
        exists (Saw d :: [Clock now] ++ ls). split; [by apply look_sees, now_sees|].
        apply settles_same; auto.
    + eapply wp_mono; [|apply IH]. intros tr r Hr tr0 H0 ->. destruct (Hr eq_refl) as (ls & Hs & Hl).
      exists (Saw d :: [] ++ ls). split; [by apply look_sees|]. by apply settles_same.
  - intros now. eapply wp_mono; [|apply IH]. intros tr r Hr tr0 H0 ->. destruct (Hr eq_refl) as (ls & Hs & Hl).
    exists (Saw d :: Clock now :: ls). split; [by apply look_sees, now_sees|]. by apply settles_changed.
Qed.

(** A wait for a stable screen passes only when the screen changed, to one that every
    later look showed again, for at least the time asked for and at the first reading of the
    clock that says so. A screen that never shows anything is not stable. *)
Lemma stable_screen_stays fuel tm stableFor opts tr :
  Proc.runs (WaitStable fuel tm stableFor opts) tr (Some (Passed tt)) ->
  exists pre d t run t', looks tr = pre ++ Saw d :: Clock t :: run ++ [Clock t'] /\
    text d <> List.last (omap seen_text pre) "" /\ run <> [] /\
    Forall (quiet_look (text d) t stableFor) run /\ stableFor <= t' - t.
Proof.
  intros Hr.
  assert (Hw : wp (WaitStable fuel tm stableFor opts) (fun tr r =>
    r = Some (Passed tt) -> exists ls, sees tr ls /\ settles stableFor "" None ls)).
  { intros []. eapply wp_mono; [|apply stable_loop_settles]. intros tr' r H E.
    destruct (H E) as (ls & Hs & Hl). exists ls. by rewrite timers_see. }
  destruct (wp_runs _ _ _ _ Hw Hr eq_refl) as (ls & Hs & [H|H]); [naive_solver|].
  rewrite (sees_looks _ _ Hs). naive_solver.
Qed.

Lemma stable_screen_stays_witness :
  let '(tr, r, _) := Proc.drive ex_next ex_answers (WaitStable 9 ex_term 250 []) 0%nat in
  r = Some (Passed tt) /\ exists pre d t run t',
    looks tr = pre ++ Saw d :: Clock t :: run ++ [Clock t'] /\ Forall (quiet_look (text d) t 250) run /\ 250 <= t' - t.
Proof.
  destruct (Proc.drive ex_next ex_answers (WaitStable 9 ex_term 250 []) 0%nat) as [[tr r] w] eqn:E.
  assert (Hr : runs (WaitStable 9 ex_term 250 []) tr r).
  { by apply (Proc.drive_runs (fun _ _ _ _ => True) ex_next ex_answers _ 0%nat tr r w). }
  vm_compute in E. injection E as <- <- _. split; [reflexivity|].
  destruct (stable_screen_stays 9 ex_term 250 [] _ Hr) as (pre & d & t & run & t' & Hl & _ & _ & Hq & Ht).
  exists pre, d, t, run, t'. split; [exact Hl|]. by split.
Defined.

(** ** Snapshots are the daemon's dumps

    The operations of a snapshot, answered by a terminal [t] that no output reaches
    meanwhile. The outside is the formatter that is open, with its options. *)
Section Dumps.
Context {G : Type} `{!TermState.GhosttyTerminal G} (t : G).

(** [NewFormatter] keeps the record its options make, and nothing else of them. *)
Context (Format_ext : forall o o', apply_options o = apply_options o' ->
  TermState.t_Format t o = TermState.t_Format t o').

Definition outside : Type := option (nat * list FormatterOption).

Definition dump_legal (B : Type) (o : top B) (w : outside) : Prop :=
  match o with
  | Cols | Rows | GridRef _ _ _ | CursorX | CursorY | ActiveScreen => True
  | NewFormatter _ => w = None
  | Format f | CloseFormatter f => exists opts, w = Some (f, opts)
  | _ => False
  end.

(** Making a formatter fails as the whole formatting does. *)
Definition dump_answer (B : Type) (o : top B) (b : B) (w : outside) : Prop :=
  match o in top B return B -> Prop with
  | Cols => fun b => b = TermState.t_Cols t
  | Rows => fun b => b = TermState.t_Rows t
  | GridRef tag x y => fun b => b = TermState.t_GridRef t tag x y
  | CursorX => fun b => b = TermState.t_CursorX t
  | CursorY => fun b => b = TermState.t_CursorY t
  | ActiveScreen => fun b => b = TermState.t_ActiveScreen t
  | NewFormatter opts => fun b => match b with Ok _ => True | Err e => TermState.t_Format t opts = Err e end
  | Format f => fun b => match w with Some (_, opts) => b = TermState.t_Format t opts | None => False end
  | _ => fun _ => True
  end b.

Definition dump_next (B : Type) (o : top B) (b : B) (w : outside) : outside :=
  match o in top B return B -> outside with
  | NewFormatter opts => fun b => match b with Ok f => Some (f, opts) | Err _ => w end
  | CloseFormatter _ => fun _ => None
  | _ => fun _ => w
  end b.

(** The format of the daemon with the same screen. *)
Definition daemon_format (format : Z) : TermState.terminalFormat :=
  if format =? DumpVTFull then TermState.terminalFormatVTFull
  else TermState.mkTermFormat FormatterFormatPlain false false false false.

(** What a dump of the daemon is to a test. *)
Definition as_verdict {A} (r : result A) (v : verdict A) : Prop :=
  match r with Ok d => v = Passed d | Err e => exists what, v = Failed (FatalErr what e) end.

Lemma same_options format sel :
  apply_options (snapshot_options format sel) = apply_options (TermState.dump_options (daemon_format format) sel).
Proof.
  unfold snapshot_options, TermState.dump_options, daemon_format.
  destruct (format =? DumpVTFull), sel; reflexivity.
Qed.

(** The dump of a selection, from the formatter on. *)
Definition dump_of (options : list FormatterOption) : result screenDump :=
  TermState.try (TermState.t_Format t options) (fun data =>
  TermState.try (TermState.t_CursorX t) (fun cursorCol =>
  TermState.try (TermState.t_CursorY t) (fun cursorRow =>
  TermState.try (TermState.t_ActiveScreen t) (fun activeScreen =>
  Ok (mkScreenDump data cursorRow cursorCol (activeScreen =? TermState.ScreenAlternate)))))).

Lemma dumpScreen_dump_of format :
  format = DumpPlain \/ format = DumpVTFull ->
  TermState.dumpScreen (daemon_format format) t =
  TermState.try (TermState.dump_selection (daemon_format format) t) (fun sel =>
    dump_of (snapshot_options format sel)).
Proof.
  intros Hf. unfold TermState.dumpScreen. destruct (TermState.dump_selection _ t) as [sel|e]; [|done].
  cbn [TermState.try]. unfold dump_of. rewrite (Format_ext _ _ (same_options format sel)).
  by destruct Hf as [-> | ->].
Qed.

Abbreviation dumps := (Proc.safe dump_legal dump_answer dump_next).

(** A program that gives what [r] is, and leaves the outside [w]. *)
Definition gives {A} (w : outside) (r : result A) (w' : outside) (v : verdict A) : Prop :=
  w' = w /\ as_verdict r v.

(** A program that asks the terminal for [r], and goes on as the dump does. *)
Lemma dumps_check {A B} (o : top (result A)) r what (k : A -> tproc (verdict B)) (k' : A -> result B) w :
  dump_legal _ o w -> (forall b, dump_answer _ o b w -> b = r) -> (forall b, dump_next _ o b w = w) ->
  (forall a, dumps (k a) w (gives w (k' a))) ->
  dumps (Do o (fun x => check what x k)) w (gives w (TermState.try r k')).
Proof.
  intros Hl Hb Hn Hk. split; [exact Hl|]. intros b ->%Hb. rewrite Hn.
  destruct r as [a|e]; cbn [check TermState.try]; [apply Hk|]. split; [done|by exists what].
Qed.

Ltac ask := apply dumps_check; try done; intros ?.

Lemma read_screen_dump f options :
  dumps (read_screen f) (Some (f, options)) (gives (Some (f, options)) (dump_of options)).
Proof. apply dumps_check; [by exists options|done|done|]. intros data. do 3 ask. Qed.

Lemma plain_selection_dump :
  dumps plain_selection None (gives None (TermState.dump_selection (daemon_format DumpPlain) t)).
Proof. do 4 ask. Qed.

Lemma formatted_dump format sel :
  dumps (do! formatter := NewFormatter (snapshot_options format sel) in
         check "snapshot formatter" formatter (fun formatter =>
           deferred (do! _ := CloseFormatter formatter in Ret tt) (read_screen formatter)))
    None (gives None (dump_of (snapshot_options format sel))).
Proof.
  split; [done|]. intros [f|e] Hb; cbn [check dump_next].
  - apply Proc.safe_bind. eapply Proc.safe_mono; [|apply read_screen_dump].
    intros w v [-> Hv]. split; [by eexists|]. done.
  - split; [done|]. cbn [dump_answer] in Hb. unfold dump_of. rewrite Hb. by eexists.
Qed.

(** C29. While no output comes in, a snapshot is the dump the daemon makes of that terminal:
    the plain one that of the active area, the full one that of the whole state; it
    fails where the dump fails, with that error, and has closed its formatter. *)
Theorem snapshot_is_dump format (Hf : format = DumpPlain \/ format = DumpVTFull) :
  Proc.safe dump_legal dump_answer dump_next (Snapshot format) None
    (fun w v => w = None /\ as_verdict (TermState.dumpScreen (daemon_format format) t) v).
Proof.
  rewrite dumpScreen_dump_of by done. unfold Snapshot. apply Proc.safe_bind.
  destruct Hf as [-> | ->]; [|apply formatted_dump].
  eapply Proc.safe_mono; [|apply plain_selection_dump].
  intros w v [-> Hv]. destruct (TermState.dump_selection _ t) as [sel|e]; cbn [as_verdict] in Hv.
  - subst v. apply formatted_dump.
  - destruct Hv as [what ->]. split; [done|by exists what].
Qed.
End Dumps.

(** A terminal that shows its string, in either format. *)
#[local] Instance ex_showing : TermState.GhosttyTerminal string := {
  t_New _ _ _ _ := Ok "";
  t_VTWrite s b := s +:+ string_of_bytes b;
  t_Resize s _ _ := (s, None);
  t_Cols _ := Ok 80;
  t_Rows _ := Ok 24;
  t_GridRef _ tag x y := Ok (bytes_of_string (if x =? 0 then "start" else "end"));
  t_Format s o :=
    let opts := apply_options o in
    if fo_format opts =? FormatterFormatVT then Ok (Byte.x1b :: bytes_of_string s)
    else match fo_selection opts with
         | Some sel => Ok (bytes_of_string s ++ End_ sel)
         | None => Ok (bytes_of_string s)
         end;
  t_CursorX _ := Ok 2;
  t_CursorY _ := Ok 1;
  t_ActiveScreen _ := Ok TermState.ScreenAlternate;
  t_VTGround _ := Ok true;
  t_Pwd _ := Ok "";
  t_Snapshot _ := Ok [];
  t_SetScrollbackMaxLines s _ := (s, None);
  snap_Decode _ _ _ := Ok "" }.

Lemma snapshot_is_dump_witness :
  Proc.safe dump_legal (dump_answer "ok ") dump_next (Snapshot DumpPlain) None
    (fun w v => w = None /\ v = Passed (mkScreenDump (bytes_of_string "ok end") 1 2 true)).
Proof.
  eapply Proc.safe_mono;
    [|apply (@snapshot_is_dump string ex_showing "ok "); [|by left]].
  - intros w v [Hw Hv]. split; [exact Hw|]. vm_compute in Hv. exact Hv.
  - intros o o' Ho. cbn [TermState.t_Format ex_showing]. by rewrite Ho.
Defined.

(** ** What a test opens *)

Definition opened_by (s : tstep) : list handle :=
  match s with
  | Step o b =>
      match o in top B return B -> list handle with
      | NewTerminal _ _ _ => fun r => match r with Ok p => [HTerm p] | Err _ => [] end
      | NewKeyEncoder => fun r => match r with Ok p => [HEncoder p] | Err _ => [] end
      | NewKeyEvent => fun r => match r with Ok p => [HEvent p] | Err _ => [] end
      | StartWithSize _ _ _ _ _ _ => fun r => match r with Ok p => [HPty p] | Err _ => [] end
      | _ => fun _ => []
      end b
  end.

Definition closed_by (s : tstep) : list handle :=
  match s with Step o _ => match o with Close h => [h] | _ => [] end end.

Definition opened (tr : list tstep) : list handle := mjoin (map opened_by tr).
Definition closed (tr : list tstep) : list handle := mjoin (map closed_by tr).

Definition handles (tm : Term) : list handle :=
  [HTerm (tm_term tm); HEncoder (tm_keyEncoder tm); HEvent (tm_keyEvent tm); HPty (tm_ptmx tm)].

(** The search of a command only looks at files. *)
Lemma lookPathIn_opens_nothing name env :
  wp (lookPathIn name env) (fun tr r => opened tr = [] /\ closed tr = []).
Proof.
  unfold lookPathIn. destruct (Contains _ _); [done|]. destruct (String.eqb _ _); [done|].
  induction (Split _ _) as [|dir dirs IH]; cbn [look_in wp]; [done|].
  intros [[]|e]; cbn [wp]; [apply IH|done|apply IH].
Qed.

Lemma opened_app tr tr' : opened (tr ++ tr') = opened tr ++ opened tr'.
Proof. unfold opened. by rewrite map_app, join_app. Qed.
Lemma closed_app tr tr' : closed (tr ++ tr') = closed tr ++ closed tr'.
Proof. unfold closed. by rewrite map_app, join_app. Qed.

Lemma close_fail_closes {A} hs what e :
  wp (A := verdict A) (close_fail hs what e)
    (fun tr r => opened tr = [] /\ closed tr = hs /\ r = Failed (FatalErr what e)).
Proof.
  induction hs as [|h hs IH]; cbn [close_fail wp]; [done|]. intros [].
  eapply wp_mono; [|exact IH]. intros tr r (Ho & Hc & Hr). split_and!; [done| |done].
  change (h :: closed tr = h :: hs). by rewrite Hc.
Qed.

(** What is open after [tr]: [held], and what [New] returns. *)
Definition balanced (held : list handle) (tr : list tstep) (r : verdict Term) : Prop :=
  held ++ opened tr ≡ₚ closed tr ++ match r with Passed tm => handles tm | Failed _ => [] end.

(** A failure closes what was opened. *)
Lemma close_fail_balanced hs what e : wp (close_fail hs what e) (balanced hs).
Proof.
  eapply wp_mono; [|apply close_fail_closes]. intros tr r (Ho & Hc & ->).
  unfold balanced. by rewrite Ho, Hc.
Qed.

(** An operation that opens. *)
Lemma open_balanced {B} (o : top B) b tr r held :
  closed_by (Step o b) = [] -> balanced (opened_by (Step o b) ++ held) tr r -> balanced held (Step o b :: tr) r.
Proof.
  unfold balanced. intros Hc H.
  change (opened (Step o b :: tr)) with (opened_by (Step o b) ++ opened tr).
  change (closed (Step o b :: tr)) with (closed_by (Step o b) ++ closed tr). rewrite Hc. cbn [app].
  rewrite <- H, !app_assoc. by rewrite (Permutation_app_comm held).
Qed.

Lemma New_balanced cmd args opts : wp (New cmd args opts) (balanced []).
Proof.
  unfold New. cbn zeta.
  assert (Hnext : forall B (o : top B) b held (p : tproc (verdict Term)),
    closed_by (Step o b) = [] -> wp p (balanced (opened_by (Step o b) ++ held)) ->
    wp p (fun tr r => balanced held (Step o b :: tr) r)).
  { intros B o b held p Hc Hp. eapply wp_mono; [|exact Hp]. intros tr r. by apply open_balanced. }
  intros [t|e]; apply Hnext; try done; [|apply close_fail_balanced].
  intros [enc|e]; apply Hnext; try done; [|apply close_fail_balanced].
  intros [ev|e]; apply Hnext; try done; [|apply close_fail_balanced].
  apply wp_bind. eapply wp_mono; [|apply lookPathIn_opens_nothing].
  intros tr r [Ho Hc].
  assert (Hsame : forall held tr' (r' : verdict Term), balanced held tr' r' -> balanced held (tr ++ tr') r').
  { intros held tr' r'. unfold balanced. by rewrite opened_app, closed_app, Ho, Hc. }
  destruct r as [bin|e]; (eapply wp_mono; [intros tr' r'; apply Hsame|]); [|apply close_fail_balanced].
  intros [pt|e]; apply Hnext; try done; [|apply close_fail_balanced].
  intros []. intros []. unfold balanced, handles. cbn. solve_Permutation.
Qed.

(** However the start of a test's terminal ends, each thing it opened is closed once, or
    held by the terminal it returns, whose cleanup closes each of its things once, after
    the process is gone and the read loop is done. *)
Lemma New_cleanup_balanced cmd args opts tr r tr' :
  Proc.runs (New cmd args opts) tr r ->
  match r with
  | Failed _ => opened tr ≡ₚ closed tr
  | Passed tm =>
      opened tr ≡ₚ closed tr ++ handles tm /\
      (Proc.runs (cleanup tm) tr' tt ->
       opened (tr ++ tr') ≡ₚ closed (tr ++ tr') /\
       exists b b' b'' rest, tr' = Step SignalKill b :: Step WaitProcess b' :: Step AwaitDone b'' :: rest /\
         closed rest = closed tr')
  end.
Proof.
  intros Hr. pose proof (wp_runs _ _ _ _ (New_balanced cmd args opts) Hr) as Hb.
  unfold balanced in Hb. cbn [app] in Hb. destruct r as [tm|f]; [|by rewrite app_nil_r in Hb].
  split; [exact Hb|]. intros Hc.
  assert (Hw : wp (cleanup tm) (fun tr' _ => opened tr' = [] /\ closed tr' ≡ₚ handles tm /\
    exists b b' b'' rest, tr' = Step SignalKill b :: Step WaitProcess b' :: Step AwaitDone b'' :: rest /\
      closed rest = closed tr')).
  { intros b b' b'' [] [] [] []. split_and!; [done| |by repeat eexists].
    unfold handles. cbn. solve_Permutation. }
  destruct (wp_runs _ _ _ _ Hw Hc) as (Ho & Hcl & Hrest). split; [|exact Hrest].
  by rewrite opened_app, closed_app, Ho, app_nil_r, Hcl.
Qed.
