(* ===== verification/ClientKeys.v ===== *)
(** * ClientKeys: key notation and the detach key

    Models [internal/client/keys.go], and relates it to the daemon's key tables
    in [TermState]. *)
From Stdlib Require Import ZArith Lia Ascii.
From stdpp Require Import base list strings numbers option pretty.
From S2P Require Import Prelude GoStrings Ghostty TermState.
#[local] Open Scope Z_scope.

Definition KeyEnter : Z := 256.
Definition KeyEscape : Z := 257.
Definition KeyTab : Z := 258.
Definition KeyBackspace : Z := 259.
Definition KeyUp : Z := 272.
Definition KeyDown : Z := 273.
Definition KeyLeft : Z := 274.
Definition KeyRight : Z := 275.
Definition KeyHome : Z := 288.
Definition KeyEnd : Z := 289.
Definition KeyPageUp : Z := 290.
Definition KeyPageDown : Z := 291.
Definition KeyInsert : Z := 292.
Definition KeyDelete : Z := 293.
Definition KeyF1 : Z := 304.
Definition KeyF2 : Z := 305.
Definition KeyF3 : Z := 306.
Definition KeyF4 : Z := 307.
Definition KeyF5 : Z := 308.
Definition KeyF6 : Z := 309.
Definition KeyF7 : Z := 310.
Definition KeyF8 : Z := 311.
Definition KeyF9 : Z := 312.
Definition KeyF10 : Z := 313.
Definition KeyF11 : Z := 314.
Definition KeyF12 : Z := 315.
Definition ModShift : Z := 1.
Definition ModCtrl : Z := 2.
Definition ModAlt : Z := 4.
Definition ModSuper : Z := 8.

Record KeyInput := mkKeyInput { Code : Z; Mods : Z }.

(** [switch mod] of [ParseKeyNotation]. *)
Definition modifier (mod_ : string) : option Z :=
  if bool_decide (mod_ ∈ ["ctrl"; "control"]%string) then Some ModCtrl
  else if bool_decide (mod_ ∈ ["shift"]%string) then Some ModShift
  else if bool_decide (mod_ ∈ ["alt"; "opt"; "option"]%string) then Some ModAlt
  else if bool_decide (mod_ ∈ ["super"; "cmd"; "command"]%string) then Some ModSuper
  else None.

Definition keyName_cases : list (list string * Z) :=
  [
   (["enter"; "return"], KeyEnter);
   (["escape"; "esc"], KeyEscape);
   (["tab"], KeyTab);
   (["backspace"], KeyBackspace);
   (["space"], 32);
   (["up"], KeyUp);
   (["down"], KeyDown);
   (["left"], KeyLeft);
   (["right"], KeyRight);
   (["home"], KeyHome);
   (["end"], KeyEnd);
   (["pageup"; "pgup"], KeyPageUp);
   (["pagedown"; "pgdn"], KeyPageDown);
   (["insert"], KeyInsert);
   (["delete"; "del"], KeyDelete);
   (["f1"], KeyF1);
   (["f2"], KeyF2);
   (["f3"], KeyF3);
   (["f4"], KeyF4);
   (["f5"], KeyF5);
   (["f6"], KeyF6);
   (["f7"], KeyF7);
   (["f8"], KeyF8);
   (["f9"], KeyF9);
   (["f10"], KeyF10);
   (["f11"], KeyF11);
   (["f12"], KeyF12)
  ]%string.

Fixpoint switch_name (x : string) (cases : list (list string * Z)) : option Z :=
  match cases with
  | [] => None
  | (vs, a) :: rest => if existsb (String.eqb x) vs then Some a else switch_name x rest
  end.

(** [fmt.Errorf("unknown key: %q", name)]. *)
Definition parseKeyName (name : string) : result Z :=
  match switch_name name keyName_cases with
  | Some k => Ok k
  | None =>
      match name with
      | String c EmptyString =>
          let ch := Z.of_N (N_of_ascii c) in
          if (32 <=? ch) && (ch <=? 126) then Ok ch
          else Err (Errorf ("unknown key: " +:+ Quote name))
      | _ => Err (Errorf ("unknown key: " +:+ Quote name))
      end
  end.

(** ASCII white space, as [strings.TrimSpace] removes it. *)
Definition is_space (c : ascii) : bool :=
  let n := N_of_ascii c in ((9 <=? n) && (n <=? 13) || (n =? 32))%N.

Fixpoint trim_left (s : string) : string :=
  match s with
  | String c s' => if is_space c then trim_left s' else s
  | EmptyString => EmptyString
  end.

Definition str_rev (s : string) : string := String.string_of_list_ascii (rev (String.list_ascii_of_string s)).

Definition TrimSpace (s : string) : string := str_rev (trim_left (str_rev (trim_left s))).

(** The loop over the modifiers. *)
Fixpoint parse_mods (parts : list string) (mods : Z) : result Z :=
  match parts with
  | [] => Ok mods
  | m :: rest =>
      match modifier m with
      | Some v => parse_mods rest (Z.lor mods v)
      | None => Err (Errorf ("unknown modifier: " +:+ Quote m))
      end
  end.

Definition ParseKeyNotation (notation : string) : result KeyInput :=
  let notation := TrimSpace (ToLower notation) in
  let parts := Split notation "+" in
  let keyPart := default "" (parts !! (length parts - 1)%nat) in
  match parse_mods (take (length parts - 1) parts) 0 with
  | Err e => Err e
  | Ok mods =>
      match parseKeyName keyPart with
      | Err e => Err e
      | Ok code => Ok (mkKeyInput code mods)
      end
  end.

(** ** The detach key *)

Record DetachKey := mkDetachKey {
  rawByte : Z;
  hasRaw : bool;
  csiSeq : bytes }.

Definition shiftedKeyByte (ch : Z) : option Z :=
  if (97 <=? ch) && (ch <=? 122) then Some (ch - 32)
  else match IndexByte unshifted_chars ch with
       | Some i => shifted_chars !! i
       | None => None
       end.

Definition detachPhysicalKey_cases : list (list Z * Z) :=
  [
   ([41], Ghostty.KeyDigit0);
   ([33], Ghostty.KeyDigit1);
   ([64], Ghostty.KeyDigit2);
   ([35], Ghostty.KeyDigit3);
   ([36], Ghostty.KeyDigit4);
   ([37], Ghostty.KeyDigit5);
   ([94], Ghostty.KeyDigit6);
   ([38], Ghostty.KeyDigit7);
   ([42], Ghostty.KeyDigit8);
   ([40], Ghostty.KeyDigit9);
   ([96; 126], Ghostty.KeyBackquote);
   ([92; 124], Ghostty.KeyBackslash);
   ([91; 123], Ghostty.KeyBracketLeft);
   ([93; 125], Ghostty.KeyBracketRight);
   ([44; 60], Ghostty.KeyComma);
   ([61; 43], Ghostty.KeyEqual);
   ([45; 95], Ghostty.KeyMinus);
   ([46; 62], Ghostty.KeyPeriod);
   ([39; 34], Ghostty.KeyQuote);
   ([59; 58], Ghostty.KeySemicolon);
   ([47; 63], Ghostty.KeySlash);
   ([32], Ghostty.KeySpace)
  ].

Definition detachPhysicalKey (ch : Z) : option Z :=
  if (97 <=? ch) && (ch <=? 122) then Some (Ghostty.KeyA + (ch - 97))
  else if (48 <=? ch) && (ch <=? 57) then Some (Ghostty.KeyDigit0 + (ch - 48))
  else switch ch detachPhysicalKey_cases.

(** The event of [encodeDetachKey]. The code points are ASCII, so the text is one
    byte. *)
Definition encodeDetachKey (encode : keyEvent -> result bytes) (code mods : Z) : result bytes :=
  match detachPhysicalKey (u8 code) with
  | None => Err (Errorf ("unsupported key code " +:+ pretty code))
  | Some key =>
      let plain := if Z.land mods ModCtrl =? 0 then [code] else [] in
      let '(consumed, text) :=
        if negb (Z.land mods ModShift =? 0) then
          match shiftedKeyByte (u8 code) with
          | Some shifted => (Ghostty.ModShift, [shifted])
          | None => (0, plain)
          end
        else (0, plain) in
      encode (mkKeyEvent KeyActionPress key (u16 mods) consumed false (i32 code) text)
  end.

(** [ParseDetachKey], given the encoder with its terminal in the legacy mode and
    after [CSI > 1 u]. *)
Definition ParseDetachKey (legacy kitty : keyEvent -> result bytes) (notation : string) : result DetachKey :=
  match ParseKeyNotation notation with
  | Err e => Err e
  | Ok ki =>
      if Z.land (Mods ki) ModCtrl =? 0 then Err (Errorf "detach keybind must include ctrl modifier")
      else if (Code ki <? 32) || (126 <? Code ki) then
        Err (Errorf "detach keybind must be ctrl+<printable key>")
      else
        match encodeDetachKey legacy (Code ki) (Z.land (Mods ki) ModCtrl) with
        | Err e => Err (Wrapf "encode legacy detach key" e)
        | Ok seq =>
            let '(raw, has) :=
              match seq with
              | [b] => if Z_of_byte b =? 27 then (0, false) else (Z_of_byte b, true)
              | _ => (0, false)
              end in
            match encodeDetachKey kitty (Code ki) (Mods ki) with
            | Err e => Err (Wrapf "encode kitty detach key" e)
            | Ok k => Ok (mkDetachKey raw has k)
            end
        end
  end.

(** ** Properties *)

(** The bytes, to check a table on all of them. *)
Definition all_bytes : list Z := map Z.of_nat (seq 0 256).

Lemma all_bytes_in z : is_u8 z -> z ∈ all_bytes.
Proof.
  intros Hz. unfold all_bytes. apply list_elem_of_fmap. exists (Z.to_nat z).
  split; [unfold is_u8 in Hz; lia|]. apply elem_of_seq. unfold is_u8 in Hz. lia.
Qed.

Lemma forall_bytes (P : Z -> bool) : forallb P all_bytes = true -> forall z, is_u8 z -> P z = true.
Proof.
  intros H z Hz. rewrite forallb_forall in H. apply H. apply list_elem_of_In.
  by apply all_bytes_in.
Qed.

Lemma physical_key_total ch : is_u8 ch -> 32 <= ch <= 126 -> is_Some (asciiPhysicalKey ch).
Proof.
  intros Hch Hr. assert (forallb (fun z => negb ((32 <=? z) && (z <=? 126)) ||
    bool_decide (is_Some (asciiPhysicalKey z))) all_bytes = true) as H2 by by vm_compute.
  apply (forall_bytes _) with (z := ch) in H2; [|done].
  apply orb_true_iff in H2 as [H2|H2]; [lia|]. by apply bool_decide_eq_true in H2.
Qed.

(** The client's table of physical keys is the daemon's, except that it has no
    capital letters, which key notation never yields; and both shift tables are
    the same, a shifted character being on the same physical key. *)
Theorem physical_keys_agree ch :
  is_u8 ch ->
  (~ 65 <= ch <= 90 -> detachPhysicalKey ch = asciiPhysicalKey ch) /\
  shiftedKeyByte ch = shiftedASCII ch /\
  (32 <= ch <= 126 -> is_Some (asciiPhysicalKey ch)) /\
  (forall s, shiftedASCII ch = Some s -> asciiPhysicalKey s = asciiPhysicalKey ch).
Proof.
  intros Hch.
  assert (forallb (fun z => ((65 <=? z) && (z <=? 90)) ||
    bool_decide (detachPhysicalKey z = asciiPhysicalKey z)) all_bytes = true) as H1 by by vm_compute.
  assert (forallb (fun z => match shiftedASCII z with
    | Some s => bool_decide (asciiPhysicalKey s = asciiPhysicalKey z) | None => true end) all_bytes
    = true) as H3 by by vm_compute.
  apply (forall_bytes _) with (z := ch) in H1, H3; try done.
  split; [|split; [done|split]].
  - intros Hn. apply orb_true_iff in H1 as [H1|H1]; [lia|]. by apply bool_decide_eq_true in H1.
  - by apply physical_key_total.
  - intros s Hs. rewrite Hs in H3. by apply bool_decide_eq_true in H3.
Qed.

Lemma modifier_range m v : modifier m = Some v -> 0 <= v < 16 /\ Z.land v 15 = v.
Proof. unfold modifier. repeat case_bool_decide; intros [= <-]; by split. Qed.

Lemma lor_range a b : 0 <= a < 16 -> 0 <= b < 16 -> 0 <= Z.lor a b < 16.
Proof.
  intros Ha Hb. split; [apply Z.lor_nonneg; lia|].
  destruct (decide (Z.lor a b = 0)) as [->|Hne]; [lia|].
  apply Z.log2_lt_cancel. rewrite Z.log2_lor by lia. change (Z.log2 16) with 4.
  apply Z.max_lub_lt.
  - destruct (decide (a = 0)) as [->|]; [done|]. apply Z.log2_lt_pow2; lia.
  - destruct (decide (b = 0)) as [->|]; [done|]. apply Z.log2_lt_pow2; lia.
Qed.

Lemma parse_mods_range parts mods v :
  0 <= mods < 16 -> parse_mods parts mods = Ok v -> 0 <= v < 16.
Proof.
  revert mods. induction parts as [|m rest IH]; intros mods Hm; cbn; [by intros [= <-]|].
  destruct (modifier m) as [w|] eqn:E; [|done]. apply IH, lor_range; [done|].
  apply (proj1 (modifier_range _ _ E)).
Qed.

Lemma switch_name_in x cases k : switch_name x cases = Some k -> k ∈ cases.*2.
Proof.
  induction cases as [|[vs a] rest IH]; [done|]. cbn. destruct (existsb _ _).
  - intros [= ->]. constructor.
  - intros. constructor. auto.
Qed.

(** The codes [parseKeyName] can give. *)
Lemma parseKeyName_codes name code :
  parseKeyName name = Ok code -> code ∈ keyName_cases.*2 \/ 32 <= code <= 126.
Proof.
  unfold parseKeyName. destruct (switch_name name keyName_cases) as [k|] eqn:E.
  - intros [= <-]. left. by eapply switch_name_in.
  - destruct name as [|c [|]]; try done.
    destruct ((32 <=? Z.of_N (N_of_ascii c)) && (Z.of_N (N_of_ascii c) <=? 126)) eqn:Hr; [|done].
    intros [= <-]. right. lia.
Qed.

Lemma terminalKeyEvent_printable code mods :
  32 <= code <= 126 -> exists ev, terminalKeyEvent code mods = Some ev.
Proof.
  intros Hc. unfold terminalKeyEvent.
  destruct (Z.leb_spec 32 code), (Z.leb_spec code 126); try lia. cbn [andb].
  assert (u8 code = code) as Hu by (apply Z.mod_small; lia). rewrite Hu.
  assert (is_Some (asciiPhysicalKey code)) as [key ->].
  { apply physical_key_total; [unfold is_u8; lia | done]. }
  destruct (if negb _ then _ else _); eauto.
Qed.

Lemma terminalKeyEvent_special code mods :
  code ∈ keyName_cases.*2 -> exists ev, terminalKeyEvent code mods = Some ev.
Proof.
  intros Hin. destruct (decide (code = 32)) as [->|]; [by apply terminalKeyEvent_printable|].
  assert (forallb (fun k => (k =? 32) || negb ((32 <=? k) && (k <=? 126)) &&
    (bool_decide (is_Some (list_find (fun '(c, _) => c = k) functionKey_cases)) ||
     ((304 <=? k) && (k <=? 315)))) keyName_cases.*2 = true) as H by by vm_compute.
  rewrite forallb_forall in H. specialize (H code (proj1 (list_elem_of_In _ _) Hin)).
  unfold terminalKeyEvent. apply orb_true_iff in H as [H|H]; [lia|].
  apply andb_true_iff in H as [H1%negb_true_iff H2]. rewrite H1.
  destruct (list_find _ functionKey_cases) as [[? [? [? ?]]]|]; [eauto|].
  cbn in H2. rewrite H2. eauto.
Qed.

(** C39. Every key notation the client accepts is a key the daemon can send: the
    code it parses to always has a key event, and the modifiers are among the
    four of the protocol. *)
Theorem parsed_keys_supported notation ki :
  ParseKeyNotation notation = Ok ki ->
  0 <= Mods ki < 16 /\ exists ev, terminalKeyEvent (Code ki) (Mods ki) = Some ev.
Proof.
  unfold ParseKeyNotation. set (parts := Split _ _).
  destruct (parse_mods _ 0) as [mods|] eqn:Hm; [|done].
  destruct (parseKeyName _) as [code|] eqn:Hk; [|done]. intros [= <-]. cbn.
  split; [by eapply parse_mods_range in Hm|].
  apply parseKeyName_codes in Hk as [?|?];
    [by apply terminalKeyEvent_special | by apply terminalKeyEvent_printable].
Qed.

Lemma Split_no_sep s c w : w ∈ Split s c -> no_char c w = true.
Proof.
  revert w. induction s as [|d s IH]; intros w; cbn.
  - by intros ->%list_elem_of_singleton.
  - destruct (Ascii.eqb d c) eqn:E.
    + intros [->|Hw]%elem_of_cons; [done|auto].
    + destruct (Split s c) as [|x xs] eqn:Es.
      * intros ->%list_elem_of_singleton. cbn. by rewrite E.
      * intros [->|Hw]%elem_of_cons; cbn; [rewrite E; cbn; apply IH; constructor|].
        apply IH. by constructor.
Qed.

(** The plus key has no notation: no text parses to it, although
    [parseKeyName] accepts it, because the notation is split at every [+]. *)
Theorem plus_key_has_no_notation :
  parseKeyName "+" = Ok 43 /\
  (forall notation ki, ParseKeyNotation notation = Ok ki -> Code ki <> 43) /\
  is_ok (ParseKeyNotation "ctrl++") = false.
Proof.
  split; [by vm_compute|]. split; [|by vm_compute].
  intros notation ki. unfold ParseKeyNotation. set (parts := Split _ _).
  destruct (parse_mods _ 0) as [mods|]; [|done].
  destruct (parseKeyName _) as [code|] eqn:Hk; [|done]. intros [= <-]. cbn. intros ->.
  assert (no_char "+" (default "" (parts !! (length parts - 1)%nat)) = true) as Hn.
  { destruct (parts !! _) as [w|] eqn:Hw; [|done]. cbn.
    apply list_elem_of_lookup_2 in Hw. by eapply Split_no_sep. }
  set (name := default _ _) in *. unfold parseKeyName in Hk.
  destruct (switch_name name keyName_cases) as [k|] eqn:E.
  { injection Hk as ->. apply switch_name_in in E.
    assert (43 ∉ keyName_cases.*2) as Hno by (by apply (bool_decide_eq_false _); vm_compute). done. }
  destruct name as [|c [|]]; try done.
  destruct ((32 <=? Z.of_N (N_of_ascii c)) && (Z.of_N (N_of_ascii c) <=? 126)); [|done].
  injection Hk as Hk. assert (c = "+"%char) as ->.
  { rewrite <- (ascii_N_embedding c). replace (N_of_ascii c) with 43%N by lia. done. }
  by vm_compute in Hn.
Qed.

(** Shift with a function key is reported as consumed by the text although the
    event has none: the low byte of the codes of F1 to F10 and F12 is a
    character with a shifted form. *)
Theorem function_key_shift_consumed code :
  code ∈ [304; 305; 306; 307; 308; 309; 310; 311; 312; 313; 315] ->
  consumedMods code Ghostty.ModShift = Ghostty.ModShift /\
  exists key, terminalKeyEvent code Ghostty.ModShift = Some (key, 0, []).
Proof.
  intros Hin. repeat (apply elem_of_cons in Hin as [->|Hin]; [by split; [|eexists]|]).
  by apply not_elem_of_nil in Hin.
Qed.

Lemma physical_keys_agree_witness : detachPhysicalKey 59 = asciiPhysicalKey 59.
Proof.
  destruct (physical_keys_agree 59) as [H _]; [by vm_compute|]. apply H. lia.
Defined.

Lemma parsed_keys_supported_witness :
  exists ev, terminalKeyEvent 304 5 = Some ev.
Proof.
  apply (parsed_keys_supported "Shift+Alt+F1" (mkKeyInput 304 5)). by vm_compute.
Defined.

Lemma function_key_shift_consumed_witness : consumedMods 304 Ghostty.ModShift = Ghostty.ModShift.
Proof. apply (function_key_shift_consumed 304). constructor. Defined.
