(* ===== verification/Namegen.v ===== *)
(** * Namegen: names for unnamed sessions

    Models [internal/daemon/namegen.go]. The random numbers are a stream given to
    the model; the search for a free suffix has no bound in the code, so it runs
    on fuel, and one step more than there are names is enough. *)
From Stdlib Require Import ZArith Lia.
From stdpp Require Import base gmap sets list strings numbers option pretty.
From S2P Require Import Prelude GoStrings.
#[local] Open Scope Z_scope.

Definition adjectives : list string :=
  [
   "phantom"; "hollow"; "silver"; "shadow"; "spectral";
   "ghostly"; "ethereal"; "haunted"; "mystic"; "twilight";
   "silent"; "fading"; "ancient"; "cursed"; "forgotten";
   "pale"; "dark"; "eerie"; "somber"; "shrouded";
   "veiled"; "grim"; "dusk"; "frost"; "ashen";
   "waning"; "void"; "deep"; "lost"; "still"
  ]%string.

Definition nouns : list string :=
  [
   "drift"; "echo"; "mist"; "shade"; "whisper";
   "wraith"; "specter"; "haunt"; "gloom"; "crypt";
   "tomb"; "veil"; "fog"; "dusk"; "ember";
   "ash"; "bone"; "rune"; "ward"; "gate";
   "marsh"; "moor"; "vale"; "rift"; "cairn";
   "peak"; "keep"; "den"; "maze"; "well"
  ]%string.

(** The values of [rand.IntN], one per call; a call with [n] reduces its value
    below [n]. *)
Abbreviation rng := (nat -> nat).

Definition word (ws : list string) (r : nat) : string := default "" (ws !! (r mod length ws)%nat).

(** [generateName]: two calls of [rand.IntN]. *)
Definition generateName (r : rng) (i : nat) : string :=
  word adjectives (r i) +:+ "-" +:+ word nouns (r (S i)).

(** [for range 100]. *)
Fixpoint try_random (n : nat) (r : rng) (i : nat) (existing : gset string) : option string :=
  match n with
  | O => None
  | S n' =>
      let name := generateName r i in
      if decide (name ∈ existing) then try_random n' r (S (S i)) existing else Some name
  end.

(** The two loops over the words. *)
Definition all_names : list string :=
  adjectives ≫= (fun adj => map (fun noun => adj +:+ "-" +:+ noun) nouns).

Definition try_all (existing : gset string) : option string :=
  head (base.filter (fun name => name ∉ existing) all_names).

(** [fmt.Sprintf("%s-%d", name, suffix)]. *)
Definition candidate (name : string) (suffix : nat) : string := name +:+ "-" +:+ pretty suffix.

Fixpoint try_suffix (fuel : nat) (name : string) (suffix : nat) (existing : gset string) : option string :=
  match fuel with
  | O => None
  | S fuel' =>
      if decide (candidate name suffix ∈ existing) then try_suffix fuel' name (S suffix) existing
      else Some (candidate name suffix)
  end.

Definition generateUniqueName (r : rng) (existing : gset string) : option string :=
  match try_random 100 r 0 existing with
  | Some name => Some name
  | None =>
      match try_all existing with
      | Some name => Some name
      | None => try_suffix (S (size existing)) (generateName r 200) 0 existing
      end
  end.

(** ** Lemmas *)

Lemma try_random_fresh n r i existing name :
  try_random n r i existing = Some name -> name ∉ existing.
Proof.
  revert i. induction n as [|n IH]; intros i; cbn; [done|].
  case_decide; [apply IH | by intros [= <-]].
Qed.

Lemma try_all_fresh existing name : try_all existing = Some name -> name ∉ existing.
Proof.
  unfold try_all. intros H%head_Some_elem_of. by apply list_elem_of_filter in H as [? _].
Qed.

Lemma candidate_inj name : Inj (=) (=) (candidate name).
Proof. intros i j H%str_app_inj_l%str_app_inj_l. by apply (inj pretty). Qed.

Lemma try_suffix_fresh fuel name suffix existing c :
  try_suffix fuel name suffix existing = Some c -> c ∉ existing.
Proof.
  revert suffix. induction fuel as [|fuel IH]; intros suffix; cbn; [done|].
  case_decide; [apply IH | by intros [= <-]].
Qed.

Lemma try_suffix_None fuel name suffix existing :
  try_suffix fuel name suffix existing = None ->
  forall i, (suffix <= i < suffix + fuel)%nat -> candidate name i ∈ existing.
Proof.
  revert suffix. induction fuel as [|fuel IH]; intros suffix; cbn; [intros _ i Hi; lia|].
  case_decide as Hin; [|done]. intros H i Hi.
  destruct (decide (i = suffix)) as [->|]; [done|]. apply (IH (S suffix)); [done|lia].
Qed.

(** One candidate more than there are names: one of them is free. *)
Lemma try_suffix_total name existing :
  exists c, try_suffix (S (size existing)) name 0 existing = Some c.
Proof.
  destruct (try_suffix _ name 0 existing) as [c|] eqn:E; [eauto|].
  pose proof (try_suffix_None _ _ _ _ E) as Hall. exfalso.
  assert (NoDup (map (candidate name) (seq 0 (S (size existing))))) as Hnd.
  { apply NoDup_fmap; [apply candidate_inj | apply NoDup_seq]. }
  assert (map (candidate name) (seq 0 (S (size existing))) ⊆ elements existing) as Hsub.
  { intros c (i & -> & Hi)%list_elem_of_fmap. apply elem_of_elements, Hall.
    apply elem_of_seq in Hi. lia. }
  apply (NoDup_submseteq _ _ Hnd), submseteq_length in Hsub.
  rewrite length_map, length_seq in Hsub. change (length (elements existing)) with (size existing) in Hsub.
  lia.
Qed.

(** [generateUniqueName] always returns, whatever the random numbers and the
    names in use, and the name it returns is not in use. *)
Theorem generateUniqueName_fresh r existing :
  exists name, generateUniqueName r existing = Some name /\ name ∉ existing.
Proof.
  unfold generateUniqueName.
  destruct (try_random 100 r 0 existing) as [name|] eqn:H1.
  { exists name. split; [done|]. by eapply try_random_fresh. }
  destruct (try_all existing) as [name|] eqn:H2.
  { exists name. split; [done|]. by apply try_all_fresh. }
  destruct (try_suffix_total (generateName r 200) existing) as [name Hn].
  exists name. split; [done|]. by eapply try_suffix_fresh.
Qed.
