(* ===== verification/Server.v ===== *)
(** * Server: the daemon's request handlers

    Models [internal/daemon/server.go], [server_attach.go], [server_control.go],
    [server_inspect.go] and [dead_state.go]. A handler is a [proc] of the
    operations below; sessions are pointers. Log lines are left out. *)
From Stdlib Require Import ZArith Lia.
From stdpp Require Import base gmap sets list strings numbers option pretty.
From S2P Require Import Prelude GoStrings Wire Messages Codec Resize Proc Namegen Persist.
From S2P Require TermState.
#[local] Open Scope Z_scope.

(** ** Data *)

(** [Server], the fields a handler reads. *)
Record Server := mkServer {
  socketPath : string;
  pidPath : string;
  lockPath : string;
  has_persister : bool;
  defaultScrollback : Z;
  autoExit : bool }.

Record sessionStartSpec := mkStartSpec {
  ss_name : string;
  ss_command : list string;
  ss_env : list string;
  ss_cwd : string;
  ss_size : termSize;
  ss_scrollback : Z }.

(** What [Session.attach] is given, without the connection. *)
Record attachSpec := mkAttach_ {
  at_size : termSize;
  at_version : string;
  at_readOnly : bool;
  at_created : bool }.

(** What the inspection handlers read of a session under the mutex. *)
Record sessionView := mkView {
  sv_ptr : nat;
  sv_name : string;
  sv_running : bool;
  sv_cols : Z;
  sv_rows : Z;
  sv_pid : Z;
  sv_created : Z }.

(** The atomic operations of the daemon. Sections under [s.mu] are one operation,
    as are system calls, requests to a session's loop, and reads and writes on
    the connection. *)
Inductive op : Type -> Type :=
(* sections under s.mu *)
| LiveNames : op (gset string)
| Lookup (name : string) : op (option nat)
| InsertOrExisting (name : string) (sess : nat) : op (option nat)
| RemoveSession (name : string) : op unit
| RemoveReportEmpty (name : string) : op bool
| ViewSessions : op (list sessionView)
| ViewStatus (name : string) : op (list sessionView * option nat)
| LockSessions : op (list nat)
| ResetSessionsUnlock : op unit
(* the state directory *)
| ListDead (running : gset string) : op (result (list string))
| LoadState (name : string) : op (result sessionState)
| CleanState (name : string) : op (result unit)
| WriteState (name : string) (state : sessionState) : op (result unit)
| SaveSession (sess : nat) : op (option error)
| CleanStaleTmp : op unit
| StartPersister : op unit
| StopPersister : op unit
| SaveAll : op (option error)
(* sessions *)
| NewSession (spec : sessionStartSpec) : op (result nat)
| RestoreSession (state : sessionState) (spec : sessionStartSpec) : op (result nat)
| CloseSession (sess : nat) : op unit
| SessionIdent (sess : nat) : op (string * Z)
| IsRunning (sess : nat) : op bool
| SessionSize (sess : nat) : op (Z * Z)
| SessionPwd (sess : nat) : op (result (option string))
| ClientInfo (sess : nat) : op (list SessionClient)
| AttachClient (sess : nat) (spec : attachSpec) : op (result nat)
| DetachClient (sess client : nat) : op unit
| ResizeClient (sess client : nat) (size : termSize) : op unit
| KickClient (sess : nat) (id : string) : op bool
| KillSession (sess : nat) : op unit
| SendInput (sess : nat) (data : bytes) : op (option error)
| EncodeKey (sess : nat) (key mods : Z) : op (result bytes)
| DumpScreen (sess : nat) (format : TermState.terminalFormat) : op (result bytes)
| DumpDead (state : sessionState) (scrollback format : Z) : op (result bytes)
| Watch (sess : nat) : op unit
| WaitDone (sess : nat) : op unit
| WaitClients (sess : nat) : op unit
(* the connection *)
| SyscallConn : op (option error)
| PeerUID : op (result Z)
| AcceptHandshake_ : op (result (Z * string))
| VersionReply (version : Z) (rev : string) : op (option error)
| Receive : op (result Message)
| Send_ (msg : Message) : op (option error)
| CloseConn : op unit
(* the process *)
| Draw : op rng
| Getuid : op Z
| Getpid : op Z
| SinceStart : op Z
| CtxDone : op bool
| Shutdown_ : op unit
| CancelCtx : op unit
| MkSocketDir : op (option error)
| OpenLock : op (option error)
| Flock : op (option error)
| CloseLock (stored : bool) : op unit
| LockFile : op bool
| SetLockFile (held : bool) : op unit
| Unlock : op unit
| RemoveSocket : op (option error)
| RemovePid : op (option error)
| NetListen : op (option error)
| CloseNet : op unit
| Listener : op bool
| SetListener : op unit
| CloseListener : op unit
| WritePID : op (option error)
| WatchSignals : op unit
| Accept : op (result nat)
| GoHandleConn (conn : nat) : op unit.

Abbreviation proc := (Proc.proc op).

Section Server.
Context (s : Server) (Version : string).

(** ** Replies *)

Definition write (msg : Message) : proc unit := do! _ := Send_ msg in Ret tt.
Definition writeOK : proc unit := write (MsgOK mkOK).
Definition writeError (message : string) : proc unit := write (MsgError (mkError message)).

(** ** Dead sessions ([dead_state.go]) *)

(** [errors.Is(err, os.ErrNotExist)]. *)
Fixpoint Is_ErrNotExist (e : error) : bool :=
  match e with
  | ErrNotExist => true
  | Wrapf _ c => Is_ErrNotExist c
  | _ => false
  end.

Definition liveSessionNames : proc (gset string) := do! names := LiveNames in Ret names.

Definition reserveSessionName (name : string) : proc (result string) :=
  if negb (String.eqb name "") then Ret (Ok name)
  else
    call! reserved := liveSessionNames in
    if has_persister s then
      do! dead := ListDead reserved in
      match dead with
      | Err e => Ret (Err e)
      | Ok dead =>
          do! r := Draw in
          Ret (Ok (default "" (generateUniqueName r (reserved ∪ list_to_set dead))))
      end
    else do! r := Draw in Ret (Ok (default "" (generateUniqueName r reserved))).

Definition deadSessionNames : proc (result (list string)) :=
  if negb (has_persister s) then Ret (Ok [])
  else
    call! running := liveSessionNames in
    do! dead := ListDead running in
    Ret dead.

Definition readDeadSession (name : string) : proc (result (option sessionState)) :=
  if negb (has_persister s) then Ret (Ok None)
  else
    do! state := LoadState name in
    match state with
    | Ok state => Ret (Ok (Some state))
    | Err e => if Is_ErrNotExist e then Ret (Ok None) else Ret (Err e)
    end.

Definition removeDeadSession (name : string) : proc (result unit) :=
  if negb (has_persister s) then Ret (Ok tt)
  else do! r := CleanState name in Ret r.

Definition writeDeadSession (name : string) (state : sessionState) : proc (result unit) :=
  if negb (has_persister s) then Ret (Ok tt)
  else do! r := WriteState name state in Ret r.

Fixpoint deadSessionRows_loop (dead : list string) : proc (result (list Messages.Session)) :=
  match dead with
  | [] => Ret (Ok [])
  | name :: rest =>
      call! state := readDeadSession name in
      match state with
      | Err e => Ret (Err (Wrapf ("load dead session state " +:+ Quote name) e))
      | Ok None => deadSessionRows_loop rest
      | Ok (Some state) =>
          call! rows := deadSessionRows_loop rest in
          Ret (match rows with
               | Err e => Err e
               | Ok rows => Ok (Messages.mkSession name SessionStateDead (Cols state) (Rows state)
                                  0 0 (u32 (time_Unix (SavedAt state))) "" [] :: rows)
               end)
      end
  end.

Definition deadSessionRows : proc (result (list Messages.Session)) :=
  call! dead := deadSessionNames in
  match dead with
  | Err e => Ret (Err e)
  | Ok dead => deadSessionRows_loop dead
  end.

Definition dumpDeadSession (name : string) (format : Z) : proc (result (option bytes)) :=
  call! state := readDeadSession name in
  match state with
  | Err e => Ret (Err e)
  | Ok None => Ret (Ok None)
  | Ok (Some state) =>
      do! data := DumpDead state (defaultScrollback s) format in
      Ret (match data with Err e => Err e | Ok data => Ok (Some data) end)
  end.

Fixpoint pruneDeadSessions_loop (dead : list string) (count : Z) : proc (result Z) :=
  match dead with
  | [] => Ret (Ok count)
  | name :: rest =>
      call! r := removeDeadSession name in
      match r with
      | Err e => Ret (Err (Wrapf ("prune dead session " +:+ Quote name) e))
      | Ok _ => pruneDeadSessions_loop rest (u32 (count + 1))
      end
  end.

Definition pruneDeadSessions : proc (result Z) :=
  call! dead := deadSessionNames in
  match dead with
  | Err e => Ret (Err e)
  | Ok dead => pruneDeadSessions_loop dead 0
  end.

Definition backtick : string := String (Ascii.ascii_of_nat 96) EmptyString.

Definition deadSessionStateExistsMessage (name : string) : string :=
  "dead session state exists for " +:+ Quote name +:+ "; restore it with " +:+ backtick +:+
  "ht restore " +:+ name +:+ backtick +:+ ", or discard it with " +:+ backtick +:+ "ht new -f " +:+
  name +:+ " ..." +:+ backtick.

Definition prepareCreateDeadSession (name : string) (force : bool) : proc (option error) :=
  call! state := readDeadSession name in
  match state, force with
  | Err e, false => Ret (Some (Wrapf "load dead session state" e))
  | Ok (Some _), false => Ret (Some (Errorf (deadSessionStateExistsMessage name)))
  | _, false => Ret None
  | _, true =>
      call! r := removeDeadSession name in
      Ret (match r with Err e => Some (Wrapf "clean dead session state" e) | Ok _ => None end)
  end.

Definition prepareRestoreDeadSession (name : string) : proc (result sessionState) :=
  if String.eqb name "" then Ret (Err (Errorf "name required for restore"))
  else if negb (has_persister s) then Ret (Err (Errorf "persistence is disabled"))
  else
    do! sess := Lookup name in
    match sess with
    | Some _ => Ret (Err (Errorf "session is running"))
    | None =>
        call! state := readDeadSession name in
        Ret (match state with
             | Err e => Err (Wrapf "load saved state" e)
             | Ok None => Err (Errorf "no saved state")
             | Ok (Some state) => Ok state
             end)
    end.

Definition commitRestoreDeadSession (name : string) : proc (option error) :=
  call! r := removeDeadSession name in
  Ret (match r with Err e => Some (Wrapf "clean dead session state" e) | Ok _ => None end).

(** [fmt.Errorf("%w; restore dead session state: %v", err, restoreErr)]. *)
Definition rollbackRestoreDeadSession (name : string) (state : sessionState) (err : error) : proc error :=
  call! r := writeDeadSession name state in
  Ret (match r with
       | Err e => Errorf (error_text err +:+ "; restore dead session state: " +:+ error_text e)
       | Ok _ => err
       end).

(** ** Create, attach, restore ([server_attach.go]) *)

Definition scrollback (requested : Z) : Z :=
  if requested =? 0 then defaultScrollback s else requested.

Definition insertSessionOrExisting (name : string) (sess : nat) : proc (option nat) :=
  do! existing := InsertOrExisting name sess in Ret existing.

Definition insertSession (name : string) (sess : nat) : proc bool :=
  call! existing := insertSessionOrExisting name sess in
  Ret (match existing with None => true | Some _ => false end).

Definition addSession (name : string) (sess : nat) : proc bool :=
  call! existing := insertSessionOrExisting name sess in
  match existing with
  | Some _ => Ret false
  | None => do! _ := Watch sess in Ret true
  end.

Definition handleCreate (msg : Create) : proc unit :=
  call! name := reserveSessionName (Create_Name msg) in
  match name with
  | Err e => writeError (error_text (Wrapf "reserve session name" e))
  | Ok name =>
      do! exists_ := Lookup name in
      match exists_ with
      | Some _ => writeError "session already exists"
      | None =>
          call! err := prepareCreateDeadSession name (Create_Force msg) in
          match err with
          | Some e => writeError (error_text e)
          | None =>
              do! sess := NewSession (mkStartSpec name (Create_Command msg) (Create_Env msg)
                            (Create_CWD msg) (mkTermSize 80 24 0 0)
                            (scrollback (Create_Scrollback msg))) in
              match sess with
              | Err e => writeError (error_text e)
              | Ok sess =>
                  call! added := addSession name sess in
                  if negb added then
                    do! _ := CloseSession sess in writeError "session already exists"
                  else
                    do! (_, pid) := SessionIdent sess in
                    write (MsgCreated (mkCreated name pid))
              end
          end
      end
  end.

(** The session, the client, and whether it is read-only. *)
Definition attachResult : Type := result (nat * nat * bool).

Definition attach_fail (e : error) : proc attachResult :=
  call! _ := writeError (error_text e) in Ret (Err e).

Definition attach_size (msg : Attach) : termSize :=
  mkTermSize (Attach_Cols msg) (Attach_Rows msg) (Attach_Xpixel msg) (Attach_Ypixel msg).

Definition attach_start (name : string) (msg : Attach) : sessionStartSpec :=
  mkStartSpec name (Attach_Command msg) (Attach_Env msg) (Attach_CWD msg) (attach_size msg)
    (scrollback (Attach_Scrollback msg)).

(** [sess.attach] and what follows it. *)
Definition attach_session (name : string) (sess : nat) (created : bool) (msg : Attach)
    (clientRev : string) : proc attachResult :=
  do! ac := AttachClient sess (mkAttach_ (attach_size msg) clientRev (Attach_ReadOnly msg) created) in
  match ac with
  | Err e =>
      if created then
        do! _ := RemoveSession name in
        do! _ := CloseSession sess in
        attach_fail e
      else attach_fail e
  | Ok ac =>
      if created then
        do! _ := Watch sess in Ret (Ok (sess, ac, Attach_ReadOnly msg))
      else Ret (Ok (sess, ac, Attach_ReadOnly msg))
  end.

Definition handleAttachRestore (msg : Attach) (clientRev : string) : proc attachResult :=
  let name := Attach_Name msg in
  call! state := prepareRestoreDeadSession name in
  match state with
  | Err e => attach_fail e
  | Ok state =>
      do! sess := RestoreSession state (attach_start name msg) in
      match sess with
      | Err e => attach_fail e
      | Ok sess =>
          call! inserted := insertSession name sess in
          if negb inserted then
            do! _ := CloseSession sess in
            call! _ := writeError "session already exists" in
            Ret (Err (Errorf ("session " +:+ Quote name +:+ " created by another client during restore")))
          else
            call! err := commitRestoreDeadSession name in
            match err with
            | Some e =>
                do! _ := RemoveSession name in
                do! _ := CloseSession sess in
                attach_fail e
            | None =>
                do! ac := AttachClient sess
                  (mkAttach_ (attach_size msg) clientRev (Attach_ReadOnly msg) false) in
                match ac with
                | Err e =>
                    do! _ := RemoveSession name in
                    do! _ := CloseSession sess in
                    call! e := rollbackRestoreDeadSession name state e in
                    attach_fail e
                | Ok ac => do! _ := Watch sess in Ret (Ok (sess, ac, Attach_ReadOnly msg))
                end
            end
      end
  end.

Definition handleAttach (msg : Attach) (clientRev : string) : proc attachResult :=
  if Attach_Restore msg then handleAttachRestore msg clientRev
  else
    call! name := reserveSessionName (Attach_Name msg) in
    match name with
    | Err e => attach_fail (Wrapf "reserve session name" e)
    | Ok name =>
        do! sess := Lookup name in
        match sess with
        | Some sess => attach_session name sess false msg clientRev
        | None =>
            call! state := readDeadSession name in
            match state with
            | Err e => attach_fail (Wrapf "load dead session state" e)
            | Ok (Some _) => attach_fail (Errorf (deadSessionStateExistsMessage name))
            | Ok None =>
                do! sess := NewSession (attach_start name msg) in
                match sess with
                | Err e => attach_fail e
                | Ok sess =>
                    call! existing := insertSessionOrExisting name sess in
                    match existing with
                    | Some existing =>
                        do! _ := CloseSession sess in
                        attach_session name existing false msg clientRev
                    | None => attach_session name sess true msg clientRev
                    end
                end
            end
        end
    end.

(** The goroutine of [watchSession]. *)
Definition watchSession (sess : nat) : proc unit :=
  do! _ := WaitDone sess in
  do! (name, _) := SessionIdent sess in
  do! stopped := CtxDone in
  call! _ := (if has_persister s && negb stopped
              then do! _ := SaveSession sess in Ret tt else Ret tt) in
  do! empty := RemoveReportEmpty name in
  if autoExit s && empty then
    do! _ := WaitClients sess in
    do! _ := Shutdown_ in Ret tt
  else Ret tt.

(** ** Kick, kill, send ([server_control.go]) *)

Definition handleKick (msg : Kick) : proc unit :=
  if String.eqb (Kick_Name msg) "" || String.eqb (Kick_ClientID msg) "" then
    writeError "name and client ID required"
  else
    do! sess := Lookup (Kick_Name msg) in
    match sess with
    | None => writeError "session not found"
    | Some sess =>
        do! found := KickClient sess (Kick_ClientID msg) in
        if found then writeOK else writeError "client not found"
    end.

Definition handleKill (msg : Kill) : proc unit :=
  do! sess := Lookup (Kill_Name msg) in
  match sess with
  | None => writeError "session not found"
  | Some sess => do! _ := KillSession sess in writeOK
  end.

Definition handleSend (msg : Send) : proc unit :=
  do! sess := Lookup (Send_Name msg) in
  match sess with
  | None => writeError "session not found"
  | Some sess =>
      do! err := SendInput sess (Send_Data msg) in
      match err with
      | Some e => writeError (error_text e)
      | None => writeOK
      end
  end.

Definition handleSendKey (msg : SendKey) : proc unit :=
  do! sess := Lookup (SendKey_Name msg) in
  match sess with
  | None => writeError "session not found"
  | Some sess =>
      do! data := EncodeKey sess (SendKey_Key msg) (SendKey_Mods msg) in
      match data with
      | Err e => writeError (error_text e)
      | Ok data =>
          if 0 <? blen data then
            do! err := SendInput sess data in
            match err with
            | Some e => writeError (error_text e)
            | None => writeOK
            end
          else writeOK
      end
  end.

(** ** List, dump, prune, status ([server_inspect.go]) *)

(** [sessionCWD]; its error is only logged, and leaves the string empty. *)
Definition sessionCWD (sess : nat) : proc string :=
  do! cwd := SessionPwd sess in
  Ret (match cwd with
       | Err _ | Ok None => ""
       | Ok (Some cwd) => cwd
       end).

Definition state_of (running : bool) : string :=
  if running then SessionStateRunning else SessionStateDead.

Fixpoint live_rows (IncludeClients : bool) (snapshots : list sessionView)
    : proc (list Messages.Session) :=
  match snapshots with
  | [] => Ret []
  | v :: rest =>
      call! cwd := sessionCWD (sv_ptr v) in
      call! clients := (if IncludeClients then do! c := ClientInfo (sv_ptr v) in Ret c else Ret []) in
      call! rows := live_rows IncludeClients rest in
      Ret (Messages.mkSession (sv_name v) (state_of (sv_running v)) (sv_cols v) (sv_rows v)
             (sv_pid v) (u32 (sv_created v)) 0 cwd clients :: rows)
  end.

Definition handleList (msg : List) : proc unit :=
  do! snapshots := ViewSessions in
  call! sessions := live_rows (List_IncludeClients msg) snapshots in
  call! dead := deadSessionRows in
  match dead with
  | Err e => writeError (error_text (Wrapf "list dead sessions" e))
  | Ok dead => write (MsgSessions (mkSessions (sessions ++ dead)))
  end.

Definition handleDump (msg : Dump) : proc unit :=
  do! sess := Lookup (Dump_Name msg) in
  match sess with
  | Some sess =>
      do! dump := DumpScreen sess (TermState.terminalDumpFormat (Dump_Format msg)) in
      match dump with
      | Err e => writeError (error_text e)
      | Ok data => write (MsgDumpResponse (mkDumpResponse data))
      end
  | None =>
      call! data := dumpDeadSession (Dump_Name msg) (Dump_Format msg) in
      match data with
      | Err e => writeError (error_text (Wrapf "load dead session state" e))
      | Ok (Some data) => write (MsgDumpResponse (mkDumpResponse data))
      | Ok None => writeError "session not found"
      end
  end.

Definition handlePrune : proc unit :=
  call! count := pruneDeadSessions in
  match count with
  | Err e => writeError (error_text e)
  | Ok count => write (MsgPruneResponse (mkPruneResponse count))
  end.

Definition count_running (views : list sessionView) : Z :=
  fold_left (fun n v => if sv_running v then u32 (n + 1) else n) views 0.

Definition count_dead (views : list sessionView) : Z :=
  fold_left (fun n v => if sv_running v then n else u32 (n + 1)) views 0.

Definition statusSnapshot (sessionName : string) : proc (Z * Z * option SessionStatus) :=
  do! (views, sess) := ViewStatus sessionName in
  let runningCount := count_running views in
  let deadCount := count_dead views in
  match sess with
  | None => Ret (runningCount, deadCount, None)
  | Some sess =>
      do! running := IsRunning sess in
      do! (cols, rows) := SessionSize sess in
      call! cwd := sessionCWD sess in
      do! (name, pid) := SessionIdent sess in
      do! clients := ClientInfo sess in
      Ret (runningCount, deadCount,
           Some (mkSessionStatus name (state_of running) cols rows pid cwd clients))
  end.

Definition time_Second : Z := 1000000000.

(** The uptime in whole seconds, from nanoseconds that a clock step can make negative. *)
Definition uptimeSec (since : Z) : Z := Z.min (Z.max since 0 ÷ time_Second) (2 ^ 32 - 1).

Definition handleStatus (msg : Status) : proc unit :=
  call! (runningCount, deadCount, ss) := statusSnapshot (Status_Name msg) in
  call! dead := deadSessionNames in
  match dead with
  | Err e => writeError (error_text (Wrapf "list dead sessions" e))
  | Ok dead =>
      do! since := SinceStart in
      do! pid := Getpid in
      write (MsgStatusResponse (mkStatusResponse
        (mkDaemonStatus (u32 pid) (u32 (uptimeSec since)) (socketPath s) runningCount
           (u32 (deadCount + u32 (Z.of_nat (length dead)))) Version) ss))
  end.

(** ** A connection ([handleConn]) *)

(** What the streaming mode remembers: session, client, read-only. *)
Definition attachment : Type := nat * nat * bool.

(** One message in streaming mode; [false] ends the loop without a detach after it. *)
Definition stream_message (a : attachment) (msg : Message) : proc bool :=
  let '(attached, ac, readOnly) := a in
  match msg with
  | MsgInput m =>
      if readOnly then Ret true
      else do! _ := SendInput attached (Input_Data m) in Ret true
  | MsgResize m =>
      if readOnly then Ret true
      else do! _ := ResizeClient attached ac
             (mkTermSize (Resize_Cols m) (Resize_Rows m) (Resize_Xpixel m) (Resize_Ypixel m)) in
           Ret true
  | _ => do! _ := DetachClient attached ac in Ret false
  end.

(** One message in control mode: whether the loop goes on, and in which mode. *)
Definition control_message (msg : Message) (clientRev : string) : proc (bool * option attachment) :=
  let stay (p : proc unit) := call! _ := p in Ret (true, None) in
  match msg with
  | MsgCreate m => stay (handleCreate m)
  | MsgAttach m =>
      call! r := handleAttach m clientRev in
      Ret (true, match r with Err _ => None | Ok a => Some a end)
  | MsgList m => stay (handleList m)
  | MsgKill m => stay (handleKill m)
  | MsgSend m => stay (handleSend m)
  | MsgSendKey m => stay (handleSendKey m)
  | MsgDump m => stay (handleDump m)
  | MsgPrune _ => stay handlePrune
  | MsgStatus m => stay (handleStatus m)
  | MsgKick m => stay (handleKick m)
  | _ => Ret (false, None)
  end.

(** The message loop, for at most [fuel] messages; [None] when there were more. *)
Fixpoint conn_loop (fuel : nat) (clientRev : string) (attached : option attachment)
    : proc (option unit) :=
  match fuel with
  | O => Ret None
  | S fuel =>
      do! msg := Receive in
      match msg with
      | Err _ =>
          match attached with
          | Some (sess, ac, _) => do! _ := DetachClient sess ac in Ret (Some tt)
          | None => Ret (Some tt)
          end
      | Ok msg =>
          match attached with
          | Some a =>
              call! more := stream_message a msg in
              if more then conn_loop fuel clientRev attached else Ret (Some tt)
          | None =>
              call! (more, attached) := control_message msg clientRev in
              if more then conn_loop fuel clientRev attached else Ret (Some tt)
          end
      end
  end.

(** [handleConn] up to its deferred [Close]. *)
Definition conn_body (fuel : nat) : proc (option unit) :=
  do! err := SyscallConn in
  match err with
  | Some _ => Ret (Some tt)
  | None =>
      do! peer := PeerUID in
      match peer with
      | Err _ => Ret (Some tt)
      | Ok peerUID =>
          do! uid := Getuid in
          if negb (peerUID =? uid) then Ret (Some tt)
          else
            do! hs := AcceptHandshake_ in
            match hs with
            | Err _ => Ret (Some tt)
            | Ok (clientVer, clientRev) =>
                if negb (clientVer =? ProtocolVersion) then
                  do! _ := VersionReply 0 "" in Ret (Some tt)
                else
                  do! err := VersionReply ProtocolVersion Version in
                  match err with
                  | Some _ => Ret (Some tt)
                  | None => conn_loop fuel clientRev None
                  end
            end
      end
  end.

Definition handleConn (fuel : nat) : proc (option unit) :=
  call! r := conn_body fuel in
  match r with
  | None => Ret None
  | Some _ => do! _ := CloseConn in Ret (Some tt)
  end.

(** ** Starting and stopping ([server.go]) *)

Definition daemon_already_running : error := Errorf "daemon already running".

(** [acquireLock]; [would_block] says which errors of [flock] mean a running daemon. *)
Definition acquireLock (would_block : error -> bool) : proc (option error) :=
  do! err := OpenLock in
  match err with
  | Some e => Ret (Some (Wrapf "daemon: open lock file" e))
  | None =>
      do! err := Flock in
      match err with
      | Some e =>
          do! _ := CloseLock false in
          Ret (Some (if would_block e then daemon_already_running
                     else Wrapf "daemon: acquire lock" e))
      | None => do! _ := SetLockFile true in Ret None
      end
  end.

Definition releaseLock : proc unit :=
  do! held := LockFile in
  if negb held then Ret tt
  else
    do! _ := Unlock in
    do! _ := CloseLock true in
    do! _ := SetLockFile false in
    Ret tt.

Fixpoint close_sessions (sessions : list nat) : proc unit :=
  match sessions with
  | [] => Ret tt
  | sess :: rest => do! _ := CloseSession sess in close_sessions rest
  end.

Definition shutdown : proc unit :=
  call! _ := (if has_persister s
              then do! _ := StopPersister in do! _ := SaveAll in Ret tt else Ret tt) in
  do! _ := CancelCtx in
  do! listening := Listener in
  call! _ := (if listening then do! _ := CloseListener in Ret tt else Ret tt) in
  call! _ := releaseLock in
  do! sessions := LockSessions in
  call! _ := close_sessions sessions in
  do! _ := ResetSessionsUnlock in
  do! listening := Listener in
  if listening then
    do! _ := RemoveSocket in
    do! _ := RemovePid in Ret tt
  else Ret tt.

(** The accept loop, for at most [fuel] calls of [Accept]. *)
Fixpoint accept_loop (fuel : nat) : proc (option (option error)) :=
  match fuel with
  | O => Ret None
  | S fuel =>
      do! conn := Accept in
      match conn with
      | Err _ =>
          do! stopped := CtxDone in
          if stopped then Ret (Some None) else accept_loop fuel
      | Ok conn => do! _ := GoHandleConn conn in accept_loop fuel
      end
  end.

(** [Listen] after [acquireLock], up to the deferred [releaseLock]. *)
Definition listen_locked (fuel : nat) : proc (option (option error)) :=
  do! _ := RemoveSocket in
  do! err := NetListen in
  match err with
  | Some e => Ret (Some (Some (Wrapf "daemon: listen" e)))
  | None =>
      do! _ := SetListener in
      do! err := WritePID in
      match err with
      | Some e => do! _ := CloseNet in Ret (Some (Some e))
      | None =>
          do! _ := WatchSignals in
          call! _ := (if has_persister s then do! _ := StartPersister in Ret tt else Ret tt) in
          accept_loop fuel
      end
  end.

Definition Listen (would_block : error -> bool) (fuel : nat) : proc (option (option error)) :=
  do! _ := CleanStaleTmp in
  do! err := MkSocketDir in
  match err with
  | Some e => Ret (Some (Some (Wrapf "daemon: create socket dir" e)))
  | None =>
      call! err := acquireLock would_block in
      match err with
      | Some e => Ret (Some (Some e))
      | None =>
          call! r := listen_locked fuel in
          match r with
          | None => Ret None
          | Some r => call! _ := releaseLock in Ret (Some r)
          end
      end
  end.
End Server.

(** [New]. [start] is [config.SocketPath()]. *)
Definition New (SocketPath_ : string) (cfg_SocketPath : string) (StatePersistence : bool)
    (StatePersistenceInterval cfg_DefaultScrollback : Z) (AutoExit : bool) : result Server :=
  if StatePersistence && (StatePersistenceInterval <=? 0) then
    Err (Errorf ("daemon: state_persistence_interval must be > 0 when state persistence " +:+
                 "is enabled"))
  else
    let sock := if String.eqb cfg_SocketPath "" then SocketPath_ else cfg_SocketPath in
    Ok (mkServer sock (filepath_Join [filepath_Dir sock; "hauntty.pid"])
          (filepath_Join [filepath_Dir sock; "hauntty.lock"]) StatePersistence
          cfg_DefaultScrollback AutoExit).
