(* ===== verification/ServerProps.v ===== *)
(** * ServerProps: what the request handlers and connections guarantee

    All statements are about every run of a handler's [proc], so about every
    interleaving with the rest of the daemon. [effects] keeps the operations that
    change something; the observers below read them. *)
From Stdlib Require Import ZArith Lia.
From stdpp Require Import base gmap sets list strings numbers option pretty.
From S2P Require Import Prelude GoStrings Wire Messages Codec Resize Proc Namegen Persist Server.
#[local] Open Scope Z_scope.

Abbreviation step := (Proc.step op).
Abbreviation trace := (list step).

(** ** Effects of a run *)

(** The operations that only read. *)
Definition reads (st : step) : bool :=
  match st with
  | Step o _ =>
      match o with
      | LiveNames | Lookup _ | ViewSessions | ViewStatus _ | ListDead _ | LoadState _
      | SessionIdent _ | IsRunning _ | SessionSize _ | SessionPwd _ | ClientInfo _
      | EncodeKey _ _ _ | DumpScreen _ _ | DumpDead _ _ _ | Draw | Getuid | Getpid
      | SinceStart | CtxDone | LockFile | Listener => true
      | _ => false
      end
  end.

Fixpoint effects (tr : trace) : trace :=
  match tr with
  | [] => []
  | st :: tr => if reads st then effects tr else st :: effects tr
  end.

Lemma effects_app tr tr' : effects (tr ++ tr') = effects tr ++ effects tr'.
Proof. induction tr as [|st tr IH]; simpl; [done|]. rewrite IH. by destruct (reads st). Qed.

(** What holds of the effects and the result of every run. *)
Definition wpe {A} (p : proc A) (Q : trace -> A -> Prop) : Prop :=
  wp p (fun tr a => Q (effects tr) a).

Lemma wpe_runs {A} (p : proc A) (Q : trace -> A -> Prop) tr a : wpe p Q -> runs p tr a -> Q (effects tr) a.
Proof. intros Hw Hr. exact (wp_runs p _ tr a Hw Hr). Qed.

Lemma wpe_mono {A} (p : proc A) (Q Q' : trace -> A -> Prop) :
  (forall tr a, Q tr a -> Q' tr a) -> wpe p Q -> wpe p Q'.
Proof. intros HQ. apply wp_mono. auto. Qed.

Lemma wpe_do {A B} (o : op B) (k : B -> proc A) (Q : trace -> A -> Prop) :
  (forall b, wpe (k b) (fun tr a => Q (if reads (Step o b) then tr else Step o b :: tr) a)) ->
  wpe (Do o k) Q.
Proof.
  intros H b. specialize (H b). revert H. apply wp_mono. intros tr a. simpl.
  by destruct (reads (Step o b)).
Qed.

Lemma wpe_ret {A} (a : A) (Q : trace -> A -> Prop) : Q [] a -> wpe (Ret a) Q.
Proof. done. Qed.

Lemma wpe_bind {A A'} (p : proc A) (f : A -> proc A') (Q : trace -> A' -> Prop) :
  wpe p (fun tr a => wpe (f a) (fun tr' b => Q (tr ++ tr') b)) -> wpe (bind p f) Q.
Proof.
  intros H. apply wp_bind. revert H. apply wp_mono. intros tr a. apply wp_mono.
  intros tr' b. by rewrite effects_app.
Qed.

Lemma wpe_true {A} (p : proc A) (Q : trace -> A -> Prop) : (forall tr a, Q tr a) -> wpe p Q.
Proof. intros HQ. apply wp_true. auto. Qed.

Lemma wpe_and {A} (p : proc A) (Q Q' : trace -> A -> Prop) :
  wpe p Q -> wpe p Q' -> wpe p (fun tr a => Q tr a /\ Q' tr a).
Proof. apply wp_and. Qed.

(** A [proc] that changes nothing. *)
Definition silent {A} (p : proc A) : Prop := wpe p (fun tr _ => tr = []).

Lemma wpe_bind_silent {A A'} (p : proc A) (f : A -> proc A') (Q : trace -> A' -> Prop) :
  silent p -> (forall a, wpe (f a) Q) -> wpe (bind p f) Q.
Proof.
  intros Hp Hf. apply wpe_bind. revert Hp. apply wpe_mono. intros tr a ->. apply Hf.
Qed.

Lemma wpe_silent {A} (p : proc A) (Q : trace -> A -> Prop) :
  silent p -> (forall a, Q [] a) -> wpe p Q.
Proof. intros Hp HQ. revert Hp. apply wpe_mono. intros tr a ->. apply HQ. Qed.

Create HintDb proc_db.

(** One step of symbolic execution: the next operation and its answers, a call of
    a silent [proc], a call to be unfolded, or a case distinction. *)
Ltac wpe_split :=
  match goal with
  | |- wpe (match ?x with _ => _ end) _ => destruct_inner x
  | |- wpe (let '_ := ?x in _) _ => destruct x eqn:?
  end.
Ltac wpe_step :=
  match goal with
  | |- silent _ => unfold silent
  | |- wpe (Ret _) _ => apply wpe_ret; cbn [app]
  | |- wpe (Do _ _) _ => apply wpe_do; intros ?; cbn [reads]
  | |- wpe (bind (Ret _) _) _ => cbn [bind]
  | |- wpe (bind (Do _ _) _) _ => cbn [bind]
  | |- wpe (bind (bind _ _) _) _ => apply wpe_bind
  | |- wpe (bind ?p _) _ =>
      apply wpe_bind_silent; [solve [auto with proc_db nocore] | intros ?]
  | |- wpe (bind (match ?x with _ => _ end) _) _ => destruct_inner x
  | |- wpe (bind _ _) _ => apply wpe_bind
  | |- wpe _ _ => apply wpe_silent; [solve [auto with proc_db nocore] | intros ?]
  | |- _ => wpe_split
  end.
Ltac wpe_go := repeat (wpe_step; cbn beta in *).

(** ** Observers *)

Definition sent (st : step) : option Message :=
  match st with
  | Step o _ => match o with Send_ m => Some m | _ => None end
  end.

(** The message a list of effects sends, when it sends exactly one and as the last. *)
Fixpoint reply_last (tr : trace) : option Message :=
  match tr with
  | [] => None
  | st :: tr' =>
      match sent st with
      | None => reply_last tr'
      | Some m => match tr' with [] => Some m | _ => None end
      end
  end.

Definition is_error (m : Message) : bool := match m with MsgError _ => true | _ => false end.

(** The replies the protocol has for a control request. *)
Definition answers (req resp : Message) : bool :=
  is_error resp ||
  match req, resp with
  | MsgCreate r, MsgCreated c =>
      String.eqb (Create_Name r) "" || String.eqb (Created_Name c) (Create_Name r)
  | MsgList _, MsgSessions _ => true
  | MsgKill _, MsgOK _ | MsgSend _, MsgOK _ | MsgSendKey _, MsgOK _ | MsgKick _, MsgOK _ => true
  | MsgDump _, MsgDumpResponse _ => true
  | MsgPrune _, MsgPruneResponse _ => true
  | MsgStatus _, MsgStatusResponse _ => true
  | _, _ => false
  end.

Definition is_request (m : Message) : bool :=
  match m with
  | MsgCreate _ | MsgList _ | MsgKill _ | MsgSend _ | MsgSendKey _ | MsgKick _ | MsgDump _
  | MsgPrune _ | MsgStatus _ => true
  | _ => false
  end.

(** Deletions of saved states. *)
Definition cleaned (st : step) : option string :=
  match st with
  | Step o _ => match o with CleanState n => Some n | _ => None end
  end.

(** Who is responsible for a session that a request started: the handler before
    and after the session is in [s.sessions], or nobody any more because it is
    watched or closed. *)
Inductive owner : Type :=
| Idle
| Fresh (name : string) (sess : nat)
| Inserted (name : string) (sess : nat)
| Removed (sess : nat).

(** One operation under the ownership discipline; [None] breaks it. *)
Definition own_op {B} (w : owner) (o : op B) : B -> option owner :=
  match o in op B return B -> option owner with
  | NewSession spec | RestoreSession _ spec => fun r =>
      match w, r with
      | Idle, Ok p => Some (Fresh (ss_name spec) p)
      | Idle, Err _ => Some Idle
      | _, _ => None
      end
  | InsertOrExisting name p => fun r =>
      match w with
      | Fresh name' p' =>
          if String.eqb name name' && Nat.eqb p p' then
            Some (match r with None => Inserted name p | Some _ => w end)
          else None
      | _ => None
      end
  | RemoveSession name => fun _ =>
      match w with
      | Inserted name' p => if String.eqb name name' then Some (Removed p) else None
      | _ => None
      end
  | CloseSession p => fun _ =>
      match w with
      | Fresh _ p' | Removed p' => if Nat.eqb p p' then Some Idle else None
      | _ => None
      end
  | AttachClient p _ => fun _ =>
      match w with
      | Idle => Some w
      | Inserted _ p' => if Nat.eqb p p' then Some w else None
      | _ => None
      end
  | Watch p => fun _ =>
      match w with
      | Inserted _ p' => if Nat.eqb p p' then Some Idle else None
      | _ => None
      end
  | Send_ _ | CleanState _ | WriteState _ _ | KickClient _ _ | KillSession _
  | SendInput _ _ => fun _ => Some w
  | _ => fun _ => None
  end.

Fixpoint own_run (w : owner) (tr : trace) : option owner :=
  match tr with
  | [] => Some w
  | Step o b :: tr => match own_op w o b with Some w => own_run w tr | None => None end
  end.

(** Sessions a connection is attached to, and left. *)
Definition attach_of (st : step) : option (nat * nat) :=
  match st with
  | Step o b =>
      match o in op B return B -> option (nat * nat) with
      | AttachClient sess _ => fun r => match r with Ok ac => Some (sess, ac) | Err _ => None end
      | _ => fun _ => None
      end b
  end.

Definition detach_of (st : step) : option (nat * nat) :=
  match st with
  | Step o _ => match o with DetachClient sess ac => Some (sess, ac) | _ => None end
  end.

(** Messages received. *)
Definition received (st : step) : option Message :=
  match st with
  | Step o b =>
      match o in op B return B -> option Message with
      | Receive => fun r => match r with Ok m => Some m | Err _ => None end
      | _ => fun _ => None
      end b
  end.

(** What an attached client may do: to its own session only, and nothing but
    leave when it is read-only. *)
Definition stream_op (a : attachment) (st : step) : bool :=
  let '(sess, ac, ro) := a in
  match st with
  | Step o _ =>
      match o with
      | Receive => true
      | DetachClient sess' ac' => Nat.eqb sess sess' && Nat.eqb ac ac'
      | SendInput sess' _ => Nat.eqb sess sess' && negb ro
      | ResizeClient sess' ac' _ => Nat.eqb sess sess' && Nat.eqb ac ac' && negb ro
      | _ => false
      end
  end.

(** Saved states read, removed and written. *)
Definition loaded (st : step) : option (string * sessionState) :=
  match st with
  | Step o b =>
      match o in op B return B -> option (string * sessionState) with
      | LoadState n => fun r => match r with Ok x => Some (n, x) | Err _ => None end
      | _ => fun _ => None
      end b
  end.

Definition removed (st : step) : option string :=
  match st with
  | Step o b =>
      match o in op B return B -> option string with
      | CleanState n => fun r => match r with Ok _ => Some n | Err _ => None end
      | _ => fun _ => None
      end b
  end.

Definition written (st : step) : option (string * sessionState) :=
  match st with
  | Step o _ => match o with WriteState n x => Some (n, x) | _ => None end
  end.

Lemma omap_effects {B} (f : step -> option B) tr :
  (forall st, reads st = true -> f st = None) -> omap f (effects tr) = omap f tr.
Proof.
  intros Hf. induction tr as [|st tr IH]; [done|]. csimpl. destruct (reads st) eqn:Hr.
  - by rewrite (Hf st Hr).
  - csimpl. by rewrite IH.
Qed.

Section Server.
Context (s : Server) (Version : string).

Lemma liveSessionNames_silent : silent liveSessionNames.
Proof. unfold liveSessionNames. by wpe_go. Qed.
#[local] Hint Resolve liveSessionNames_silent : proc_db.

Lemma reserveSessionName_silent name : silent (reserveSessionName s name).
Proof. unfold reserveSessionName. by wpe_go. Qed.

Lemma deadSessionNames_silent : silent (deadSessionNames s).
Proof. unfold deadSessionNames. by wpe_go. Qed.

Lemma readDeadSession_silent name : silent (readDeadSession s name).
Proof. unfold readDeadSession. by wpe_go. Qed.
#[local] Hint Resolve reserveSessionName_silent deadSessionNames_silent
  readDeadSession_silent : proc_db.

Lemma deadSessionRows_loop_silent dead : silent (deadSessionRows_loop s dead).
Proof.
  induction dead as [|name dead IH]; [by unfold silent, wpe|].
  cbn [deadSessionRows_loop]. by wpe_go.
Qed.
#[local] Hint Resolve deadSessionRows_loop_silent : proc_db.

Lemma deadSessionRows_silent : silent (deadSessionRows s).
Proof. unfold deadSessionRows. by wpe_go. Qed.

Lemma dumpDeadSession_silent name format : silent (dumpDeadSession s name format).
Proof. unfold dumpDeadSession. by wpe_go. Qed.

Lemma prepareRestoreDeadSession_silent name : silent (prepareRestoreDeadSession s name).
Proof. unfold prepareRestoreDeadSession. by wpe_go. Qed.

Lemma sessionCWD_silent sess : silent (sessionCWD sess).
Proof. unfold sessionCWD. by wpe_go. Qed.
#[local] Hint Resolve deadSessionRows_silent dumpDeadSession_silent
  prepareRestoreDeadSession_silent sessionCWD_silent : proc_db.

Lemma live_rows_silent inc views : silent (live_rows inc views).
Proof.
  induction views as [|v views IH]; [by unfold silent, wpe|]. cbn [live_rows]. by wpe_go.
Qed.

Lemma statusSnapshot_silent name : silent (statusSnapshot name).
Proof. unfold statusSnapshot. by wpe_go. Qed.
#[local] Hint Resolve live_rows_silent statusSnapshot_silent : proc_db.

(** *** Loops with effects *)

Definition is_clean (st : step) : bool := bool_decide (is_Some (cleaned st)).

Lemma pruneDeadSessions_effects :
  wpe (pruneDeadSessions s) (fun tr _ => Forall (fun st => is_clean st = true) tr).
Proof.
  unfold pruneDeadSessions, removeDeadSession. wpe_go; [|constructor].
  generalize 0. clear. induction a0 as [|name dead IH]; intros n;
    cbn [pruneDeadSessions_loop]; unfold removeDeadSession; wpe_go; try by repeat constructor.
  all: try (eapply wpe_mono; [|apply IH]; simpl; intros; by repeat constructor).
Qed.

Lemma reply_last_cleans tr tr' :
  Forall (fun st => is_clean st = true) tr -> reply_last (tr ++ tr') = reply_last tr'.
Proof.
  induction 1 as [|[B o b] tr Ho _ IH]; [done|]. simpl. by destruct o.
Qed.

Lemma own_run_cleans w tr tr' :
  Forall (fun st => is_clean st = true) tr -> own_run w (tr ++ tr') = own_run w tr'.
Proof.
  induction 1 as [|[B o b] tr Ho _ IH]; [done|]. simpl. by destruct o.
Qed.

(** ** Requests *)

Ltac wpe_handler :=
  unfold control_message, handleCreate, handleAttach, handleAttachRestore, handleList,
    handleKill, handleSend, handleSendKey, handleDump, handlePrune, handleStatus, handleKick,
    attach_session, attach_fail, addSession, insertSession, insertSessionOrExisting,
    prepareCreateDeadSession, commitRestoreDeadSession, rollbackRestoreDeadSession,
    removeDeadSession, writeDeadSession, writeOK, writeError, write.

Lemma handlePrune_ok req :
  wpe (handlePrune s) (fun tr _ => exists m,
    reply_last tr = Some m /\ answers (MsgPrune req) m = true).
Proof.
  unfold handlePrune. apply wpe_bind. eapply wpe_mono; [|apply pruneDeadSessions_effects].
  intros tr [n|e] Htr; wpe_handler; wpe_go; rewrite reply_last_cleans by done; simpl; eauto.
Qed.

Lemma control_message_ok req clientRev :
  is_request req = true ->
  wpe (control_message s Version req clientRev) (fun tr r =>
    r = (true, None) /\ exists m, reply_last tr = Some m /\ answers req m = true).
Proof.
  destruct req; try done; intros _; unfold control_message; cbn beta iota zeta.
  7: { apply wpe_bind. eapply wpe_mono; [|apply (handlePrune_ok m)].
    intros tr ? Htr. apply wpe_ret. rewrite app_nil_r. by split. }
  all: wpe_handler.
  1: destruct (String.eqb (Create_Name m) "") eqn:Hn;
       [|unfold reserveSessionName; rewrite Hn; cbn [negb bind]].
  all: wpe_go; try discriminate; (split; [done|]); eexists; split; try reflexivity.
  all: cbn [answers is_error orb Created_Name]; rewrite ?Hn, ?String.eqb_refl; done.
Qed.

Lemma handleAttach_replies msg clientRev :
  wpe (handleAttach s msg clientRev) (fun tr r =>
    match r with
    | Ok _ => Forall (fun st => sent st = None) tr
    | Err _ => exists e, reply_last tr = Some (MsgError e)
    end).
Proof.
  wpe_handler. wpe_go; try discriminate;
    try (eexists; reflexivity); repeat (constructor; [reflexivity|]); constructor.
Qed.

Ltac own_go :=
  repeat (cbn [own_run own_op ss_name attach_start andb];
          rewrite ?String.eqb_refl, ?Nat.eqb_refl); reflexivity.

Lemma own_run_control req clientRev :
  wpe (control_message s Version req clientRev) (fun tr _ => own_run Idle tr = Some Idle).
Proof.
  destruct req; unfold control_message; cbn beta iota zeta.
  11: { unfold handlePrune. do 2 apply wpe_bind. eapply wpe_mono; [|apply pruneDeadSessions_effects].
    intros tr r Htr. wpe_handler. wpe_go; rewrite <- !app_assoc, own_run_cleans by done; done. }
  all: wpe_handler; wpe_go; try discriminate; own_go.
Qed.

(** Which saved states a request may remove. *)
Definition may_remove (req : Message) (name : string) : Prop :=
  match req with
  | MsgCreate m => Create_Force m = true /\ (Create_Name m = "" \/ name = Create_Name m)
  | MsgAttach m => Attach_Restore m = true /\ name = Attach_Name m
  | MsgPrune _ => True
  | _ => False
  end.

Lemma control_message_removes req clientRev :
  wpe (control_message s Version req clientRev) (fun tr _ =>
    Forall (may_remove req) (omap cleaned tr)).
Proof.
  destruct req; unfold control_message; cbn beta iota zeta.
  11: { apply wpe_true. intros tr _. apply Forall_true. done. }
  1: destruct (String.eqb (Create_Name m) "") eqn:Hn;
       [apply String.eqb_eq in Hn|unfold handleCreate, reserveSessionName; rewrite Hn; cbn [negb bind]].
  all: wpe_handler; wpe_go; try discriminate; cbn [omap list_omap cleaned];
    repeat (constructor; [cbn [may_remove]; auto|]); constructor.
Qed.

(** ** Attach and restore *)

Lemma handleAttach_attaches msg clientRev :
  wpe (handleAttach s msg clientRev) (fun tr r =>
    omap detach_of tr = [] /\
    match r with
    | Ok (sess, ac, ro) => omap attach_of tr = [(sess, ac)] /\ ro = Attach_ReadOnly msg
    | Err _ => omap attach_of tr = []
    end).
Proof. wpe_handler. wpe_go; try discriminate; done. Qed.

Lemma handleAttachRestore_state msg clientRev :
  wp (handleAttachRestore s msg clientRev) (fun tr r =>
    match r with
    | Ok _ => has_persister s = true /\ omap removed tr = [Attach_Name msg] /\ omap written tr = []
    | Err _ =>
        omap removed tr = [] /\ omap written tr = [] \/
        exists st, omap loaded tr = [(Attach_Name msg, st)] /\
          omap removed tr = [Attach_Name msg] /\ omap written tr = [(Attach_Name msg, st)]
    end).
Proof.
  wpe_handler. unfold prepareRestoreDeadSession, readDeadSession. wp_go; try discriminate.
  all: csimpl.
  all: try (left; split; reflexivity).
  all: try (right; eexists; repeat split; reflexivity).
  all: try (repeat split; by try destruct (has_persister s)).
Qed.

(** ** Connections *)

(** A handler other than the attach neither attaches nor leaves. *)
Definition plain (st : step) : bool :=
  match attach_of st, detach_of st, received st with None, None, None => true | _, _, _ => false end.

Definition plains (tr : trace) : Prop := Forall (fun st => plain st = true) tr.

Lemma plains_omap tr : plains tr ->
  omap attach_of tr = [] /\ omap detach_of tr = [] /\ omap received tr = [].
Proof.
  induction 1 as [|st tr Hst _ (IH1 & IH2 & IH3)]; [done|]. csimpl. unfold plain in Hst.
  destruct (attach_of st), (detach_of st), (received st); done.
Qed.

Lemma plains_cleans tr tr' :
  Forall (fun st => is_clean st = true) tr -> plains tr' -> plains (tr ++ tr').
Proof.
  intros Htr Htr'. apply Forall_app. split; [|done].
  eapply Forall_impl; [exact Htr|]. intros [B o b]. by destruct o.
Qed.

Lemma control_message_plain req clientRev :
  (forall m, req <> MsgAttach m) ->
  wpe (control_message s Version req clientRev) (fun tr r => plains tr /\ snd r = None).
Proof.
  intros Hreq. destruct req; unfold control_message; cbn beta iota zeta.
  2: { by destruct (Hreq m). }
  10: { unfold handlePrune. do 2 apply wpe_bind. eapply wpe_mono; [|apply pruneDeadSessions_effects].
    intros tr r Htr. wpe_handler.
    wpe_go; (split; [|done]); rewrite app_nil_r; apply plains_cleans; try done; by repeat constructor. }
  all: wpe_handler; wpe_go; try discriminate; (split; [|done]); repeat constructor.
Qed.

Lemma handleAttach_no_receive msg clientRev :
  wpe (handleAttach s msg clientRev) (fun tr _ => omap received tr = []).
Proof. wpe_handler. wpe_go; try discriminate; done. Qed.

Ltac stream_go :=
  repeat (apply Forall_cons; split; [simpl; rewrite ?Nat.eqb_refl; reflexivity|]);
  first [assumption | apply Forall_nil; exact I].

Lemma conn_loop_stream fuel clientRev a :
  wpe (conn_loop s Version fuel clientRev (Some a)) (fun tr r =>
    Forall (fun st => stream_op a st = true) tr /\
    omap attach_of tr = [] /\
    omap detach_of tr = match r with Some _ => [fst a] | None => [] end /\
    (r = None -> length (omap received tr) = fuel)).
Proof.
  destruct a as [[sess ac] ro]. revert clientRev.
  induction fuel as [|fuel IH]; intros clientRev; [done|]. cbn [conn_loop].
  apply wpe_do. intros [msg|e]; cbn [reads].
  2: { wpe_go. csimpl. split_and!; [stream_go|done..]. }
  apply wpe_bind. unfold stream_message.
  destruct msg; wpe_go; try destruct ro; wpe_go; csimpl;
    try (split_and!; [stream_go|done..]).
  all: eapply wpe_mono; [|apply IH]; intros tr r (H1 & H2 & H3 & H4); csimpl;
    split_and!; try done; try stream_go.
  all: intros Hr; simpl; f_equal; auto.
Qed.

Definition conn_balance (fuel : nat) (tr : trace) (r : option unit) : Prop :=
  match r with
  | Some _ => omap attach_of tr = omap detach_of tr /\ (length (omap attach_of tr) <= 1)%nat
  | None => length (omap received tr) = fuel
  end.

Lemma conn_loop_control fuel clientRev :
  wpe (conn_loop s Version fuel clientRev None) (conn_balance fuel).
Proof.
  revert clientRev. induction fuel as [|fuel IH]; intros clientRev; [done|]. cbn [conn_loop].
  apply wpe_do. intros [msg|e]; cbn [reads]; [|by wpe_go; csimpl; split; [done|lia]].
  apply wpe_bind.
  assert ((exists m, msg = MsgAttach m) \/ forall m, msg <> MsgAttach m) as [[m ->]|Hm]
    by (destruct msg; eauto; right; done).
  - cbn [control_message]. apply wpe_bind.
    eapply wpe_mono; [|apply (wpe_and _ _ _ (handleAttach_attaches m clientRev) (handleAttach_no_receive m clientRev))].
    intros tr r [[Hd Ha] Hr]. apply wpe_ret. destruct r as [[[sess ac] ro]|e]; cbn beta iota.
    + destruct Ha as [Ha ->]. eapply wpe_mono; [|apply conn_loop_stream].
      intros tr' r (H1 & H2 & H3 & H4). unfold conn_balance. rewrite app_nil_r. csimpl.
      rewrite !omap_app, Ha, Hd, Hr, H2. destruct r; csimpl.
      * rewrite H3. split; [done|simpl; lia].
      * simpl. f_equal. auto.
    + eapply wpe_mono; [|apply IH]. intros tr' r H. unfold conn_balance in *. rewrite app_nil_r. csimpl.
      rewrite !omap_app, Ha, Hd, Hr. destruct r; simpl; [done|]. f_equal. auto.
  - eapply wpe_mono; [|by apply control_message_plain]. intros tr [more att] [Htr Hatt].
    simpl in Hatt. subst att. destruct (plains_omap tr Htr) as (Ha & Hd & Hr). destruct more.
    + eapply wpe_mono; [|apply IH]. intros tr' r H. unfold conn_balance in *. csimpl.
      rewrite !omap_app, Ha, Hd, Hr. destruct r; simpl; [done|]. f_equal. auto.
    + apply wpe_ret. rewrite app_nil_r. unfold conn_balance. csimpl. rewrite Ha, Hd. split; [done|simpl; lia].
Qed.

Lemma conn_body_balance fuel :
  wpe (conn_body s Version fuel) (conn_balance fuel).
Proof.
  unfold conn_body. wpe_go; try (by split; [done|simpl; lia]).
  eapply wpe_mono; [|apply conn_loop_control]. intros tr r H. unfold conn_balance in *. csimpl.
  destruct r; done.
Qed.

(** The operations before the version is agreed on. *)
Definition setup_op (st : step) : bool :=
  match st with
  | Step o _ =>
      match o with
      | SyscallConn | PeerUID | Getuid | AcceptHandshake_ | VersionReply _ _ | CloseConn => true
      | _ => false
      end
  end.

Lemma handleConn_setup fuel :
  wp (handleConn s Version fuel) (fun tr _ =>
    Forall (fun st => setup_op st = true) tr \/
    exists uid rev tr', tr = [Step SyscallConn None; Step PeerUID (Ok uid); Step Getuid uid;
      Step AcceptHandshake_ (Ok (ProtocolVersion, rev));
      Step (VersionReply ProtocolVersion Version) None] ++ tr').
Proof.
  unfold handleConn, conn_body. wp_go; try (left; by repeat constructor).
  all: apply wp_true.
  all: intros tr r; right; do 3 eexists; simpl; repeat f_equal.
  all: repeat match goal with H : negb (_ =? _) = false |- _ =>
    apply negb_false_iff, Z.eqb_eq in H end; subst; done.
Qed.

Lemma handleConn_balance fuel :
  wp (handleConn s Version fuel) (fun tr r =>
    conn_balance fuel (effects tr) r /\
    (r <> None -> exists tr', tr = tr' ++ [Step CloseConn tt])).
Proof.
  unfold handleConn. apply wp_bind. eapply wp_mono; [|apply conn_body_balance].
  intros tr [[]|] H; cbn beta iota.
  - intros []. cbn [wp]. rewrite effects_app. cbn [effects reads]. split.
    + unfold conn_balance in *. by rewrite !omap_app, !app_nil_r.
    + intros _. by exists tr.
  - cbn [wp]. rewrite app_nil_r. done.
Qed.

(** ** The end of a session and of the daemon *)

Definition closes (st : step) : option nat :=
  match st with
  | Step o _ => match o with CloseSession p => Some p | _ => None end
  end.

Definition watch_effects (sess : nat) (tr : trace) : Prop :=
  exists stopped err name empty,
    tr = Step (WaitDone sess) tt ::
         (if has_persister s && negb stopped then [Step (SaveSession sess) err] else []) ++
         Step (RemoveReportEmpty name) empty ::
         (if autoExit s && empty then [Step (WaitClients sess) tt; Step Shutdown_ tt] else []).

Lemma watchSession_effects sess : wpe (watchSession s sess) (fun tr _ => watch_effects sess tr).
Proof.
  unfold watchSession. wpe_go.
  all: unfold watch_effects;
    repeat match goal with u : () |- _ => destruct u end.
  all: repeat match goal with H : _ && _ = _ |- _ => revert H end.
  all: intros; do 4 eexists.
  all: repeat match goal with
    | H : has_persister s && _ = _ |- _ => rewrite H; clear H
    | H : autoExit s && _ = _ |- _ => rewrite H; clear H
    end; reflexivity.
  Unshelve. all: exact None.
Qed.

(** Releasing the listener and the lock file; removing what is left on disk. *)
Definition release_op (st : step) : bool :=
  match st with
  | Step o _ =>
      match o with CloseListener | Unlock | CloseLock _ | SetLockFile _ => true | _ => false end
  end.

Definition unlink_op (st : step) : bool :=
  match st with
  | Step o _ => match o with RemoveSocket | RemovePid => true | _ => false end
  end.

Definition shutdown_effects (tr : trace) : Prop :=
  exists err sessions rel unl,
    tr = (if has_persister s then [Step StopPersister tt; Step SaveAll err] else []) ++
         Step CancelCtx tt :: rel ++
         Step LockSessions sessions :: map (fun p => Step (CloseSession p) tt) sessions ++
         Step ResetSessionsUnlock tt :: unl /\
    Forall (fun st => release_op st = true) rel /\ Forall (fun st => unlink_op st = true) unl.

Lemma close_sessions_effects sessions :
  wpe (close_sessions sessions) (fun tr _ => tr = map (fun p => Step (CloseSession p) tt) sessions).
Proof.
  induction sessions as [|p sessions IH]; [done|]. cbn [close_sessions]. apply wpe_do. intros [].
  eapply wpe_mono; [|apply IH]. intros tr ? ->. done.
Qed.

Lemma releaseLock_effects :
  wpe releaseLock (fun tr _ => Forall (fun st => release_op st = true) tr).
Proof. unfold releaseLock. wpe_go; by repeat constructor. Qed.

(** The part of [shutdown] after the saved states, from the cancellation on. *)
Lemma shutdown_effects_ok : wpe (shutdown s) (fun tr _ => shutdown_effects tr).
Proof.
  unfold shutdown, shutdown_effects.
  apply wpe_bind. eapply wpe_mono with (Q := fun tr _ => exists err,
    tr = if has_persister s then [Step StopPersister tt; Step SaveAll err] else []).
  2: { destruct (has_persister s); wpe_go; [destruct b; by eexists|by exists None]. }
  intros tr0 ? [err ->]. apply wpe_do. intros []. apply wpe_do. intros listening. cbn [reads].
  apply wpe_bind. eapply wpe_mono with (Q := fun tr _ => Forall (fun st => release_op st = true) tr).
  2: { destruct listening; wpe_go; by repeat constructor. }
  intros tr1 ? H1. apply wpe_bind. eapply wpe_mono; [|apply releaseLock_effects].
  intros tr2 ? H2. apply wpe_do. intros sessions. apply wpe_bind.
  eapply wpe_mono; [|apply close_sessions_effects]. intros tr3 ? ->. apply wpe_do. intros [].
  apply wpe_do. intros l. cbn [reads].
  assert (Hfin : wpe (if l then do! _ := RemoveSocket in do! _ := RemovePid in Ret tt else Ret tt)
    (fun tr _ => Forall (fun st => unlink_op st = true) tr))
    by (destruct l; wpe_go; by repeat constructor).
  revert Hfin. apply wpe_mono. intros tr4 ? H4.
  exists err, sessions, (tr1 ++ tr2), tr4. rewrite <- !app_assoc. simpl. split_and!; [done| |done].
  by apply Forall_app.
Qed.
End Server.

(** ** Properties *)

Definition ex_server : Server :=
  mkServer "/run/hauntty.sock" "/run/hauntty.pid" "/run/hauntty.lock" true 10000 false.

Definition ex_attach (name : string) (readOnly restore : bool) : Attach :=
  mkAttach name [] [] "" 80 24 0 0 readOnly restore 0.

Definition request_reply (req : Message) (r : bool * option attachment) (tr : trace) : Prop :=
  match req with
  | MsgAttach _ =>
      fst r = true /\
      match snd r with
      | Some _ => Forall (fun st => sent st = None) tr
      | None => exists e, reply_last tr = Some (MsgError e)
      end
  | _ =>
      if is_request req then
        r = (true, None) /\ exists m, reply_last tr = Some m /\ answers req m = true
      else r = (false, None) /\ tr = []
  end.

(** C8. Every request of the control mode is answered exactly once, with a reply of
    its kind or an error, and nothing is changed after the reply; an attach is
    answered by the handler only when it fails, and any other message ends the
    connection without an effect. *)
Theorem request_answered_once s Version req clientRev tr r :
  runs (control_message s Version req clientRev) tr r ->
  request_reply req r (effects tr).
Proof.
  intros Hr. destruct (is_request req) eqn:Hreq.
  - pose proof (wpe_runs _ _ _ _ (control_message_ok s Version req clientRev Hreq) Hr) as H.
    unfold request_reply. rewrite Hreq. by destruct req.
  - destruct req; try discriminate Hreq; simpl in Hr; try (inversion Hr; done).
    apply (wpe_runs _ (fun tr r => request_reply (MsgAttach m) r tr) _ _) in Hr; [done|].
    apply wpe_bind. eapply wpe_mono; [|apply handleAttach_replies]. intros tr' [a|e] H;
      apply wpe_ret; rewrite app_nil_r; by split.
Qed.
Lemma request_answered_once_witness :
  exists tr r, runs (control_message ex_server "v1" (MsgKill (mkKill "a")) "v1") tr r /\
    request_reply (MsgKill (mkKill "a")) r (effects tr) /\ length tr = 3%nat.
Proof.
  set (tr := [Step (Lookup "a") (Some 1%nat); Step (KillSession 1%nat) tt;
              Step (Send_ (MsgOK mkOK)) None]).
  assert (Hr : runs (control_message ex_server "v1" (MsgKill (mkKill "a")) "v1") tr (true, None))
    by run_go.
  exists tr, (true, None). split; [exact Hr|]. split; [|reflexivity].
  exact (request_answered_once ex_server "v1" _ "v1" tr _ Hr).
Defined.

(** Whatever a request's outcome, the session it starts is handed on exactly
    once: it enters the map under its own name and is watched, or it is taken out
    of the map if it was in and then closed. A handler closes, removes or watches
    no other session, and attaches no client to one outside the map. *)
Theorem session_ownership s Version req clientRev tr r :
  runs (control_message s Version req clientRev) tr r ->
  own_run Idle (effects tr) = Some Idle.
Proof. apply (wpe_runs _ (fun tr _ => own_run Idle tr = Some Idle)), own_run_control. Qed.
Lemma session_ownership_witness :
  exists tr r, runs (control_message ex_server "v1" (MsgAttach (ex_attach "a" false false)) "v1") tr r /\
    own_run Idle (effects tr) = Some Idle /\ length (effects tr) = 6%nat.
Proof.
  set (spec := attach_start ex_server "a" (ex_attach "a" false false)).
  set (tr := [Step (Lookup "a") None; Step (LoadState "a") (Err ErrNotExist);
              Step (NewSession spec) (Ok 1%nat); Step (InsertOrExisting "a" 1%nat) None;
              Step (AttachClient 1%nat (mkAttach_ (mkTermSize 80 24 0 0) "v1" false true)) (Err EOF);
              Step (RemoveSession "a") tt; Step (CloseSession 1%nat) tt;
              Step (Send_ (MsgError (mkError "EOF"))) None]).
  assert (Hr : runs (control_message ex_server "v1" (MsgAttach (ex_attach "a" false false)) "v1")
                 tr (true, None)) by run_go.
  exists tr, (true, None). split; [exact Hr|]. split; [|reflexivity].
  exact (session_ownership ex_server "v1" _ "v1" tr _ Hr).
Defined.

(** C16. A saved state disappears only at the client's demand: by a forced create of
    that name, a restore of it, or a prune. *)
Theorem saved_state_removed_on_demand s Version req clientRev tr r name :
  runs (control_message s Version req clientRev) tr r ->
  name ∈ omap cleaned tr -> may_remove req name.
Proof.
  intros Hr Hin.
  pose proof (wpe_runs _ _ _ _ (control_message_removes s Version req clientRev) Hr) as H.
  cbv beta in H. rewrite omap_effects in H by (intros [B o b]; by destruct o).
  rewrite list.Forall_forall in H. by apply H.
Qed.
Lemma saved_state_removed_on_demand_witness :
  let req := MsgCreate (mkCreate "a" [] [] "" 0 true) in
  (exists tr r, runs (control_message ex_server "v1" req "v1") tr r /\ "a" ∈ omap cleaned tr) /\
  may_remove req "a".
Proof.
  intros req.
  set (tr := [Step (Lookup "a") None; Step (LoadState "a") (Err (Errorf "persist: bad magic"));
              Step (CleanState "a") (Ok tt);
              Step (NewSession (mkStartSpec "a" [] [] "" (mkTermSize 80 24 0 0) 10000)) (Err EOF);
              Step (Send_ (MsgError (mkError "EOF"))) None]).
  assert (Hr : runs (control_message ex_server "v1" req "v1") tr (true, None)) by run_go.
  assert (Hin : "a" ∈ omap cleaned tr) by (apply list_elem_of_singleton; reflexivity).
  split; [exists tr, (true, None); split; [exact Hr|exact Hin]|].
  exact (saved_state_removed_on_demand ex_server "v1" req "v1" tr _ "a" Hr Hin).
Defined.

(** C12. A restore never loses the saved state: when it fails, the state is still in
    the state directory or the handler has asked to write back exactly what it had
    read; when it succeeds the state is removed once and not written. *)
Theorem restore_keeps_state s msg clientRev tr r :
  runs (handleAttachRestore s msg clientRev) tr r ->
  match r with
  | Ok _ => omap removed tr = [Attach_Name msg] /\ omap written tr = []
  | Err _ =>
      omap removed tr = [] /\ omap written tr = [] \/
      exists st, omap loaded tr = [(Attach_Name msg, st)] /\
        omap removed tr = [Attach_Name msg] /\ omap written tr = [(Attach_Name msg, st)]
  end.
Proof.
  intros Hr. pose proof (wp_runs _ _ _ _ (handleAttachRestore_state s msg clientRev) Hr) as H.
  cbv beta in H. destruct r; [tauto|exact H].
Qed.
Lemma restore_keeps_state_witness :
  exists tr e, runs (handleAttachRestore ex_server (ex_attach "a" false true) "v1") tr (Err e) /\
    omap written tr <> [].
Proof.
  set (msg := ex_attach "a" false true). set (st := mkState 80 24 0 [Byte.x41]).
  set (tr := [Step (Lookup "a") None; Step (LoadState "a") (Ok st);
              Step (RestoreSession st (attach_start ex_server "a" msg)) (Ok 1%nat);
              Step (InsertOrExisting "a" 1%nat) None; Step (CleanState "a") (Ok tt);
              Step (AttachClient 1%nat (mkAttach_ (mkTermSize 80 24 0 0) "v1" false false)) (Err EOF);
              Step (RemoveSession "a") tt; Step (CloseSession 1%nat) tt;
              Step (WriteState "a" st) (Ok tt); Step (Send_ (MsgError (mkError "EOF"))) None]).
  assert (Hr : runs (handleAttachRestore ex_server msg "v1") tr (Err EOF)) by run_go.
  exists tr, EOF. split; [exact Hr|].
  destruct (restore_keeps_state ex_server msg "v1" tr (Err EOF) Hr) as [[H _]|(st' & _ & _ & ->)];
    discriminate.
Defined.

(** C13. A connection that ends leaves the session it is attached to exactly once,
    was attached to at most one, and is closed by its last operation; it goes on
    only as long as messages arrive. *)
Theorem connection_ends s Version fuel tr r :
  runs (handleConn s Version fuel) tr r ->
  match r with
  | Some _ =>
      omap attach_of tr = omap detach_of tr /\ (length (omap attach_of tr) <= 1)%nat /\
      exists tr', tr = tr' ++ [Step CloseConn tt]
  | None => length (omap received tr) = fuel
  end.
Proof.
  intros Hr. pose proof (wp_runs _ _ _ _ (handleConn_balance s Version fuel) Hr) as [H1 H2].
  unfold conn_balance in H1.
  destruct r; rewrite !omap_effects in H1 by (intros [B o b]; by destruct o); [|done].
  destruct H1. split_and!; [done..|]. by apply H2.
Qed.
Definition ex_setup : trace :=
  [Step SyscallConn None; Step PeerUID (Ok 1000); Step Getuid 1000;
   Step AcceptHandshake_ (Ok (ProtocolVersion, "v1")); Step (VersionReply ProtocolVersion "v1") None].
Lemma connection_ends_witness :
  exists tr, runs (handleConn ex_server "v1" 3) tr (Some tt) /\ omap detach_of tr = [(1%nat, 7%nat)].
Proof.
  set (tr := ex_setup ++
    [Step Receive (Ok (MsgAttach (ex_attach "a" true false))); Step (Lookup "a") (Some 1%nat);
     Step (AttachClient 1%nat (mkAttach_ (mkTermSize 80 24 0 0) "v1" true false)) (Ok 7%nat);
     Step Receive (Ok (MsgInput (mkInput [Byte.x41]))); Step Receive (Err EOF);
     Step (DetachClient 1%nat 7%nat) tt; Step CloseConn tt]).
  assert (Hr : runs (handleConn ex_server "v1" 3) tr (Some tt)) by run_go.
  exists tr. split; [exact Hr|].
  destruct (connection_ends ex_server "v1" 3 tr _ Hr) as (<- & _). reflexivity.
Defined.

(** C14. An attached client can act on its own session only, and a read-only one
    can do nothing but leave it. *)
Theorem attached_client_confined s Version fuel clientRev sess ac ro tr r :
  runs (conn_loop s Version fuel clientRev (Some (sess, ac, ro))) tr r ->
  Forall (fun st => stream_op (sess, ac, ro) st = true) (effects tr).
Proof.
  intros Hr. exact (proj1 (wpe_runs _ _ _ _ (conn_loop_stream s Version fuel clientRev _) Hr)).
Qed.
Lemma attached_client_confined_witness :
  exists tr r, runs (conn_loop ex_server "v1" 2 "v1" (Some (1%nat, 7%nat, true))) tr r /\
    Forall (fun st => stream_op (1%nat, 7%nat, true) st = true) (effects tr) /\
    length (omap received tr) = 1%nat.
Proof.
  set (tr := [Step Receive (Ok (MsgInput (mkInput [Byte.x41]))); Step Receive (Err EOF);
              Step (DetachClient 1%nat 7%nat) tt] : trace).
  assert (Hr : runs (conn_loop ex_server "v1" 2 "v1" (Some (1%nat, 7%nat, true))) tr (Some tt))
    by run_go.
  exists tr, (Some tt). split; [exact Hr|]. split; [|reflexivity].
  exact (attached_client_confined ex_server "v1" 2 "v1" _ _ _ tr _ Hr).
Defined.

(** C15. No message is read, and nothing is done to a session or a saved state,
    before the peer is known to be the daemon's own user, its version is the
    daemon's, and it has been told so. *)
Theorem requests_need_handshake s Version fuel tr r :
  runs (handleConn s Version fuel) tr r ->
  Forall (fun st => setup_op st = true) tr \/
  exists uid rev tr', tr = [Step SyscallConn None; Step PeerUID (Ok uid); Step Getuid uid;
    Step AcceptHandshake_ (Ok (ProtocolVersion, rev));
    Step (VersionReply ProtocolVersion Version) None] ++ tr'.
Proof. apply (wp_runs _ _ _ _ (handleConn_setup s Version fuel)). Qed.
Lemma requests_need_handshake_witness :
  exists tr r, runs (handleConn ex_server "v1" 3) tr r /\
    Forall (fun st => setup_op st = true) tr.
Proof.
  set (tr := [Step SyscallConn None; Step PeerUID (Ok 0); Step Getuid 1000; Step CloseConn tt]).
  assert (Hr : runs (handleConn ex_server "v1" 3) tr (Some tt)) by run_go.
  exists tr, (Some tt). split; [exact Hr|].
  destruct (requests_need_handshake ex_server "v1" 3 tr _ Hr) as [H|(u & rev & tr' & H)];
    [exact H|discriminate H].
Defined.

(** The watcher of a session saves it once unless the daemon is stopping, takes
    it out of the map, and stops the daemon if it was the last one of an
    auto-exiting daemon; it never closes the session, so the pty, the terminal and
    the temporary directory of a session that ends by itself are not released. *)
Theorem watcher_never_closes s sess tr r :
  runs (watchSession s sess) tr r ->
  watch_effects s sess (effects tr) /\ omap closes tr = [].
Proof.
  intros Hr. pose proof (wpe_runs _ _ _ _ (watchSession_effects s sess) Hr) as H.
  split; [exact H|]. rewrite <- (omap_effects closes) by (intros [B o b]; by destruct o).
  destruct H as (stopped & err & name & empty & ->).
  by destruct (has_persister s && negb stopped), (autoExit s && empty).
Qed.
Lemma watcher_never_closes_witness :
  exists tr, runs (watchSession ex_server 1) tr tt /\ omap closes tr = [] /\ length tr = 5%nat.
Proof.
  set (tr := [Step (WaitDone 1%nat) tt; Step (SessionIdent 1%nat) ("a", 42); Step CtxDone false;
              Step (SaveSession 1%nat) None; Step (RemoveReportEmpty "a") true]).
  assert (Hr : runs (watchSession ex_server 1) tr tt) by run_go.
  exists tr. split; [exact Hr|]. split; [|reflexivity].
  exact (proj2 (watcher_never_closes ex_server 1 tr tt Hr)).
Defined.

(** C37. A shutdown saves the sessions before it cancels anything, closes each
    session that was in the map exactly once, and empties the map. *)
Theorem shutdown_saves_then_closes s tr r :
  runs (shutdown s) tr r -> shutdown_effects s (effects tr).
Proof. apply (wpe_runs _ (fun tr _ => shutdown_effects s tr)), shutdown_effects_ok. Qed.
Lemma shutdown_saves_then_closes_witness :
  exists tr, runs (shutdown ex_server) tr tt /\ shutdown_effects ex_server (effects tr).
Proof.
  set (tr := [Step StopPersister tt; Step SaveAll None; Step CancelCtx tt; Step Listener true;
              Step CloseListener tt; Step LockFile false; Step LockSessions [1%nat; 2%nat];
              Step (CloseSession 1%nat) tt; Step (CloseSession 2%nat) tt;
              Step ResetSessionsUnlock tt; Step Listener true; Step RemoveSocket None;
              Step RemovePid None]).
  assert (Hr : runs (shutdown ex_server) tr tt) by run_go.
  exists tr. split; [exact Hr|]. exact (shutdown_saves_then_closes ex_server tr tt Hr).
Defined.
