(* ===== verification/Interleave.v ===== *)
(** * Interleave: connections, watchers and the shutdown running together

    [Server.v] gives the code of one connection, of one watcher and of the shutdown as
    trees of atomic operations. Here any number of them run on one table of sessions
    ([s.sessions]) under one mutex ([s.mu]): a step lets one of them do its next
    operation, answered from the table as it is then. The ownership discipline of
    [ServerProps.v] becomes an invariant of the whole daemon. *)
From Stdlib Require Import ZArith Lia.
From stdpp Require Import base gmap sets list strings numbers option.
From S2P Require Import Prelude GoStrings Wire Messages Codec Resize Proc Namegen Persist Server ServerProps.
#[local] Open Scope Z_scope.

(** ** The table and the tasks *)

(** What the tasks share. *)
Record table := mkTable {
  t_live : gmap string nat;      (* s.sessions *)
  t_names : gmap nat string;     (* Session.Name of every session started *)
  t_locked : bool;               (* the shutdown holds s.mu while it closes sessions *)
  t_called : bool;               (* s.shutdownOnce is done or being done *)
  t_emptied : bool }.            (* the shutdown has emptied s.sessions *)

Definition set_live (live : gmap string nat) (t : table) : table :=
  mkTable live (t_names t) (t_locked t) (t_called t) (t_emptied t).
Definition set_names (names : gmap nat string) (t : table) : table :=
  mkTable (t_live t) names (t_locked t) (t_called t) (t_emptied t).
Definition set_locked (t : table) : table :=
  mkTable (t_live t) (t_names t) true (t_called t) (t_emptied t).
Definition set_emptied (t : table) : table := mkTable ∅ (t_names t) false (t_called t) true.
Definition set_called (t : table) : table :=
  mkTable (t_live t) (t_names t) (t_locked t) true (t_emptied t).

(** What a goroutine answers for: at most one session, as in [ServerProps.v], or,
    while it holds the mutex over several operations, the sessions it locked: those
    it has closed and those it has still to close. *)
Inductive role : Type :=
| Own (w : owner)
| Closing (closed todo : list nat).

(** A goroutine: its role at its start, what it did, and what is left. *)
Record task := mkTask { k_start : role; k_done : trace; k_proc : proc unit }.

Record system := mkSystem { y_table : table; y_tasks : list task }.

Definition sessions_of (t : table) : list nat := (map_to_list (t_live t)).*2.

(** *** Sections under the mutex, of one operation each *)
Definition under_mu {B} (o : op B) : bool :=
  match o with
  | LiveNames | Lookup _ | InsertOrExisting _ _ | RemoveSession _ | RemoveReportEmpty _
  | ViewSessions | ViewStatus _ | LockSessions => true
  | _ => false
  end.

Section System.
Context (s : Server) (Version : string).

(** The goroutine of an accepted connection, that of [watchSession], and the
    shutdown. *)
Definition connection (fuel : nat) : task :=
  mkTask (Own Idle) [] (bind (handleConn s Version fuel) (fun _ => Ret tt)).

Definition watcher (name : string) (sess : nat) : task :=
  mkTask (Own (Inserted name sess)) [] (watchSession s sess).

Definition stopper : task := mkTask (Own Idle) [] (shutdown s).

(** What an operation answers and does to the table; the answers of the operations
    that do not concern it are arbitrary. *)
Definition answered_by {B} (o : op B) (b : B) (t t' : table) : Prop :=
  (under_mu o = true -> t_locked t = false) /\
  match o in op B return B -> Prop with
  | NewSession spec | RestoreSession _ spec => fun r =>
      match r with
      | Ok p => t_names t !! p = None /\ t' = set_names (<[p:=ss_name spec]> (t_names t)) t
      | Err _ => t' = t
      end
  | InsertOrExisting name p => fun r =>
      match t_live t !! name with
      | Some q => r = Some q /\ t' = t
      | None => r = None /\ t' = set_live (<[name:=p]> (t_live t)) t
      end
  | RemoveSession name => fun _ => t' = set_live (delete name (t_live t)) t
  | RemoveReportEmpty name => fun r =>
      r = bool_decide (delete name (t_live t) = ∅) /\ t' = set_live (delete name (t_live t)) t
  | LockSessions => fun ps => ps ≡ₚ sessions_of t /\ t' = set_locked t
  | ResetSessionsUnlock => fun _ => t_locked t = true /\ t' = set_emptied t
  | LiveNames => fun r => r = dom (t_live t) /\ t' = t
  | Lookup name => fun r => r = t_live t !! name /\ t' = t
  | SessionIdent p => fun r => fst r = default "" (t_names t !! p) /\ t' = t
  | Shutdown_ => fun _ => t' = set_called t
  | _ => fun _ => t' = t
  end b.

(** The shutdown, the first time it is asked for ([sync.Once]). A second caller
    would wait for it to end; here it goes on at once, which it may. *)
Definition shut_down (t : table) : list task := if t_called t then [] else [stopper].

(** The goroutines an operation starts. *)
Definition spawned {B} (o : op B) (t : table) : list task :=
  match o with
  | Watch p => [watcher (default "" (t_names t !! p)) p]
  | Shutdown_ => shut_down t
  | _ => []
  end.

(** A connection is accepted, a signal asks for the shutdown, or a task goes on. *)
Inductive ystep : system -> system -> Prop :=
| ystep_arrive t tasks fuel :
    ystep (mkSystem t tasks) (mkSystem t (tasks ++ [connection fuel]))
| ystep_signal t tasks :
    ystep (mkSystem t tasks) (mkSystem (set_called t) (tasks ++ shut_down t))
| ystep_run t t' l1 r tr B (o : op B) k b l2 :
    answered_by o b t t' ->
    ystep (mkSystem t (l1 ++ mkTask r tr (Do o k) :: l2))
          (mkSystem t' (l1 ++ mkTask r (tr ++ [Step o b]) (k b) :: l2 ++ spawned o t)).

(** The daemon at its start: nothing runs. *)
Definition empty_system : system := mkSystem (mkTable ∅ ∅ false false false) [].

Definition interleaved (y : system) : Prop := rtc ystep empty_system y.

(** ** Responsibility *)

(** One operation of one that answers for [w]; [None] breaks the discipline. *)
Definition owner_op {B} (w : owner) (o : op B) : B -> option owner :=
  match o in op B return B -> option owner with
  | NewSession spec | RestoreSession _ spec => fun r =>
      match w, r with
      | Idle, Ok p => Some (Fresh (ss_name spec) p)
      | Idle, Err _ => Some Idle
      | _, _ => None
      end
  | InsertOrExisting name p => fun r =>
      match w with
      | Fresh name' p' =>
          if String.eqb name name' && Nat.eqb p p' then
            Some (match r with None => Inserted name p | Some _ => w end)
          else None
      | _ => None
      end
  | RemoveSession name => fun _ =>
      match w with
      | Inserted name' p => if String.eqb name name' then Some (Removed p) else None
      | _ => None
      end
  | RemoveReportEmpty name => fun _ =>
      match w with
      | Inserted name' p => if String.eqb name name' then Some Idle else None
      | _ => None
      end
  | CloseSession p => fun _ =>
      match w with
      | Fresh _ p' | Removed p' => if Nat.eqb p p' then Some Idle else None
      | _ => None
      end
  | Watch p => fun _ =>
      match w with
      | Inserted _ p' => if Nat.eqb p p' then Some Idle else None
      | _ => None
      end
  | ResetSessionsUnlock => fun _ => None
  | _ => fun _ => Some w
  end.

(** One operation of a task. Under the lock it only closes sessions, in the order it
    was given them, and unlocks when none is left. *)
Definition duty_op {B} (r : role) (o : op B) : B -> option role :=
  match r with
  | Closing closed todo =>
      match o in op B return B -> option role with
      | CloseSession p => fun _ =>
          match todo with
          | q :: todo => if Nat.eqb p q then Some (Closing (closed ++ [p]) todo) else None
          | [] => None
          end
      | ResetSessionsUnlock => fun _ => match todo with [] => Some (Own Idle) | _ => None end
      | _ => fun _ => None
      end
  | Own w =>
      match o in op B return B -> option role with
      | LockSessions => fun ps => match w with Idle => Some (Closing [] ps) | _ => None end
      | o => fun b => Own <$> owner_op w o b
      end
  end.

Fixpoint duty (r : role) (tr : trace) : option role :=
  match tr with
  | [] => Some r
  | Step o b :: tr => match duty_op r o b with Some r => duty r tr | None => None end
  end.

(** What a task answers for now. *)
Definition holds (t : task) : option role := duty (k_start t) (k_done t).

Lemma duty_app r tr tr' : duty r (tr ++ tr') = match duty r tr with Some r => duty r tr' | None => None end.
Proof.
  revert r. induction tr as [|[B o b] tr IH]; intros r; cbn [app duty]; [done|].
  destruct (duty_op r o b); [apply IH|done].
Qed.

(** The discipline of the requests, on all operations. *)
Lemma own_op_duty {B} w w' (o : op B) b : own_op w o b = Some w' -> duty_op (Own w) o b = Some (Own w').
Proof.
  destruct o; cbn; try done; destruct w; try done; repeat case_match; try done; by intros [= <-].
Qed.

Lemma own_run_duty w w' tr : own_run w (effects tr) = Some w' -> duty (Own w) tr = Some (Own w').
Proof.
  revert w. induction tr as [|[B o b] tr IH]; intros w; cbn [effects duty].
  - by intros [= <-].
  - destruct (reads (Step o b)) eqn:Hr.
    + intros H. assert (duty_op (Own w) o b = Some (Own w)) as ->; [by destruct o|by apply IH].
    + cbn [own_run]. destruct (own_op w o b) as [w1|] eqn:Ho; [|done]. rewrite (own_op_duty _ _ _ _ Ho). apply IH.
Qed.

(** *** Every task keeps to it *)

(** The name [SessionIdent] gives for the session one answers for. *)
Definition named B (o : op B) (b : B) (r : role) : Prop :=
  match o in op B return B -> Prop with
  | SessionIdent p => fun x => match r with Own (Inserted n p') => p = p' -> fst x = n | _ => True end
  | _ => fun _ => True
  end b.

Definition allowed_op B (o : op B) (r : role) : Prop :=
  forall b, named B o b r -> is_Some (duty_op r o b).

Definition next_role B (o : op B) (b : B) (r : role) : role := default (Own Idle) (duty_op r o b).

(** From [r] on, every operation is allowed, and in the end nothing is left to do. *)
Definition obeys (p : proc unit) (r : role) : Prop :=
  safe allowed_op named next_role p r (fun r _ => r = Own Idle).

(** An answer for every operation. *)
Definition some_answer B (o : op B) : B :=
  match o in op B return B with
  | LiveNames => ∅
  | Lookup _ | InsertOrExisting _ _ => None
  | RemoveSession _ | ResetSessionsUnlock | CleanStaleTmp | StartPersister | StopPersister
  | CloseSession _ | DetachClient _ _ | ResizeClient _ _ _ | KillSession _ | Watch _ | WaitDone _
  | WaitClients _ | CloseConn | Shutdown_ | CancelCtx | CloseLock _ | SetLockFile _ | Unlock | CloseNet
  | SetListener | CloseListener | WatchSignals | GoHandleConn _ => tt
  | RemoveReportEmpty _ | IsRunning _ | KickClient _ _ | CtxDone | LockFile | Listener => false
  | ViewSessions => []
  | ViewStatus _ => ([], None)
  | LockSessions => []
  | ListDead _ => Ok []
  | LoadState _ => Err EOF
  | CleanState _ | WriteState _ _ => Ok tt
  | SaveSession _ | SaveAll | SendInput _ _ | SyscallConn | VersionReply _ _ | Send_ _ | MkSocketDir
  | OpenLock | Flock | RemoveSocket | RemovePid | NetListen | WritePID => None
  | NewSession _ | RestoreSession _ _ | AttachClient _ _ | Accept => Err EOF
  | SessionIdent _ => ("", 0)
  | SessionSize _ => (0, 0)
  | SessionPwd _ => Ok None
  | ClientInfo _ => []
  | EncodeKey _ _ _ | DumpScreen _ _ | DumpDead _ _ _ => Ok []
  | PeerUID => Ok 0
  | AcceptHandshake_ => Err EOF
  | Receive => Err EOF
  | Draw => fun _ => 0%nat
  | Getuid | Getpid | SinceStart => 0
  end.

(** A statement about all runs is about something. *)
Lemma wp_false {A} (p : proc A) : ~ wp p (fun _ _ => False).
Proof.
  intros H. destruct (runs_total p some_answer) as (tr & a & Hr). exact (wp_runs _ _ _ _ H Hr).
Qed.

Lemma obeys_wp p w : wp p (fun tr _ => duty w tr = Some (Own Idle)) -> obeys p w.
Proof.
  revert w. induction p as [a|B o k IH]; intros w Hp; [by injection Hp|].
  assert (forall b, is_Some (duty_op w o b)) as Hs.
  { intros b. destruct (duty_op w o b) eqn:E; [done|]. exfalso. apply (wp_false (k b)).
    eapply wp_mono; [|exact (Hp b)]. intros tr a. cbn [duty]. by rewrite E. }
  split; [by intros b _|]. intros b _. apply IH. destruct (Hs b) as [w1 Hw1].
  unfold next_role. rewrite Hw1. eapply wp_mono; [|exact (Hp b)]. intros tr a. cbn [duty]. by rewrite Hw1.
Qed.

Lemma stream_message_duty a msg : wp (stream_message a msg) (fun tr _ => duty (Own Idle) tr = Some (Own Idle)).
Proof. destruct a as [[sess ac] ro]. unfold stream_message. destruct msg, ro; wp_go; done. Qed.

Lemma duty_then tr tr' : duty (Own Idle) tr = Some (Own Idle) -> duty (Own Idle) tr' = Some (Own Idle) -> duty (Own Idle) (tr ++ tr') = Some (Own Idle).
Proof. intros H H'. by rewrite duty_app, H. Qed.

Lemma conn_loop_duty fuel clientRev : forall a,
  wp (conn_loop s Version fuel clientRev a) (fun tr _ => duty (Own Idle) tr = Some (Own Idle)).
Proof.
  induction fuel as [|fuel IH]; intros a; [done|]. cbn [conn_loop]. intros [msg|e].
  - destruct a as [a|]; apply wp_bind.
    + eapply wp_mono; [|apply stream_message_duty]. intros tr [] Htr; [|cbn [wp]; by rewrite app_nil_r].
      eapply wp_mono; [|apply IH]. intros tr' r Htr'. by apply (duty_then (Step Receive _ :: tr)).
    + eapply wp_mono; [|exact (own_run_control s Version msg clientRev)].
      intros tr [[] a'] Htr%own_run_duty; [|cbn [wp]; by rewrite app_nil_r].
      eapply wp_mono; [|apply IH]. intros tr' r Htr'. by apply (duty_then (Step Receive _ :: tr)).
  - destruct a as [[[sess ac] ro]|]; wp_go; done.
Qed.

Lemma connection_duty fuel : wp (k_proc (connection fuel)) (fun tr _ => duty (Own Idle) tr = Some (Own Idle)).
Proof.
  cbn [connection k_proc]. apply wp_bind. unfold handleConn. apply wp_bind.
  eapply wp_mono with (Q := fun tr _ => duty (Own Idle) tr = Some (Own Idle)).
  - intros tr [r|] Htr; [intros []|]; cbn; rewrite ?app_nil_r; [|done]. by apply duty_then.
  - unfold conn_body. intros [e|]; [done|]. intros [peer|e]; [|done]. intros uid.
    destruct (negb _); [done|]. intros [[ver rev]|e]; [|done]. destruct (negb _); [by intros b|].
    intros [e|]; [done|]. eapply wp_mono; [|apply conn_loop_duty]. intros tr r Htr. exact Htr.
Qed.

Lemma watcher_obeys name sess : obeys (watchSession s sess) (Own (Inserted name sess)).
Proof.
  unfold obeys, watchSession. split; [by intros b _|]. intros [] _. split; [by intros b _|].
  intros [n z] Hn. specialize (Hn eq_refl). cbn in Hn. subst n. cbn [next_role duty_op default].
  split; [by intros b _|]. intros stopped _. apply safe_bind.
  eapply safe_mono with (Q := fun w _ => w = Own (Inserted name sess)).
  - intros w [] ->. split; [intros b _; cbn; by rewrite String.eqb_refl|]. intros empty _.
    unfold next_role. cbn. rewrite String.eqb_refl. cbn. destruct (_ && _); [|done].
    do 2 (split; [by intros b _|]; intros [] _). done.
  - destruct (_ && _); [|done]. split; [by intros b _|]. by intros b _.
Qed.

Lemma connection_obeys fuel : obeys (k_proc (connection fuel)) (Own Idle).
Proof. apply obeys_wp, connection_duty. Qed.


Lemma close_sessions_duty todo : forall closed,
  wp (close_sessions todo) (fun tr _ => duty (Closing closed todo) tr = Some (Closing (closed ++ todo) [])).
Proof.
  induction todo as [|p todo IH]; intros closed; cbn [close_sessions]; [by cbn; rewrite app_nil_r|].
  intros []. eapply wp_mono; [|exact (IH (closed ++ [p]))]. intros tr a Htr. cbn [duty duty_op].
  by rewrite Nat.eqb_refl, Htr, <- app_assoc.
Qed.

Lemma stopper_obeys : obeys (k_proc stopper) (Own Idle).
Proof.
  apply obeys_wp. cbn [stopper k_proc]. unfold shutdown. apply wp_bind.
  eapply wp_mono with (Q := fun tr _ => duty (Own Idle) tr = Some (Own Idle)); [|by destruct (has_persister s)].
  intros tr1 [] H1 [] listening. apply wp_bind.
  eapply wp_mono with (Q := fun tr _ => duty (Own Idle) tr = Some (Own Idle)); [|by destruct listening].
  intros tr2 [] H2. apply wp_bind.
  eapply wp_mono with (Q := fun tr _ => duty (Own Idle) tr = Some (Own Idle)); [|unfold releaseLock; by wp_go].
  intros tr3 [] H3 ps. apply wp_bind. eapply wp_mono; [|apply (close_sessions_duty ps [])].
  intros tr4 [] H4 [] listening'.
  assert (forall tr, duty (Own Idle) tr = Some (Own Idle) ->
    duty (Own Idle) (tr1 ++ Step CancelCtx () :: Step Listener listening ::
      tr2 ++ tr3 ++ Step LockSessions ps :: tr4 ++ Step ResetSessionsUnlock () :: Step Listener listening' :: tr) = Some (Own Idle)) as Hall.
  { intros tr H. rewrite duty_app, H1. cbn [duty duty_op owner_op fmap option_fmap option_map].
    rewrite duty_app, H2, duty_app, H3. cbn [duty duty_op]. rewrite duty_app, H4. exact H. }
  destruct listening'; [intros rs rp|]; by apply Hall.
Qed.

(** ** The table is what the tasks answer for *)

(** What one has for itself: a session, or the mutex ([None]). *)
Definition charge (r : role) : option (option nat) :=
  match r with
  | Own Idle => None
  | Own (Fresh _ p) | Own (Inserted _ p) | Own (Removed p) => Some (Some p)
  | Closing _ _ => Some None
  end.

(** A session's name does not change once it is started; who locked the table
    holds the sessions in it. *)
Definition goes_by (t : table) (r : role) : Prop :=
  match r with
  | Own Idle => True
  | Own (Fresh n p) | Own (Inserted n p) => t_names t !! p = Some n
  | Own (Removed p) => is_Some (t_names t !! p)
  | Closing closed todo => t_locked t = true /\ closed ++ todo ≡ₚ sessions_of t
  end.

(** Sessions and those who answer for them: each session has one of them, one at most
    holds the mutex, and the table holds the inserted ones; all of them, until the
    shutdown empties it. *)
Definition accounted (t : table) (rs : list role) : Prop :=
  NoDup (omap charge rs) /\ Forall (goes_by t) rs /\
  (forall n p, t_live t !! n = Some p -> Own (Inserted n p) ∈ rs) /\
  (t_emptied t = false -> forall n p, Own (Inserted n p) ∈ rs -> t_live t !! n = Some p).

#[global] Instance omap_Permutation {A B} (f : A -> option B) :
  Proper (Permutation ==> Permutation) (omap f).
Proof. intros l l' H. induction H; csimpl; repeat case_match; try done; try by constructor. by etrans. Qed.

#[global] Instance accounted_Permutation t : Proper (Permutation ==> iff) (accounted t).
Proof. intros rs rs' H. unfold accounted. rewrite H. setoid_rewrite H. done. Qed.

(** *** Changes of the table leave the others alone *)

Lemma goes_by_insert t p n r :
  t_names t !! p = None -> goes_by t r -> goes_by (set_names (<[p:=n]> (t_names t)) t) r.
Proof.
  intros Hp. destruct r as [w|]; [|done].
  destruct w; cbn; try done; intros H; rewrite lookup_insert_ne; try done; intros ->;
    rewrite Hp in H; [done..|by destruct H].
Qed.

Lemma goes_by_live t l r : t_locked t = false -> goes_by t r -> goes_by (set_live l t) r.
Proof. intros Hl. destruct r as [[]|]; cbn; try done. intros [H _]. by rewrite Hl in H. Qed.

Lemma goes_by_unlocked t r : t_locked t = false -> goes_by t r -> charge r <> Some None.
Proof. intros Hl. destruct r as [[]|]; cbn; try done. intros [H _]. by rewrite Hl in H. Qed.

Lemma charge_named t r p : goes_by t r -> charge r = Some (Some p) -> is_Some (t_names t !! p).
Proof. destruct r as [[]|]; cbn; try done; intros H [= <-]; [by rewrite H..|done]. Qed.

(** Nobody else has what the first one has. *)
Lemma charge_alone r rs r' : NoDup (omap charge (r :: rs)) -> r' ∈ rs -> charge r = None \/ charge r' <> charge r.
Proof.
  csimpl. intros Hnd Hin. destruct (charge r) as [c|] eqn:Hc; [right|by left].
  apply list.NoDup_cons in Hnd as [Hn _]. intros H. apply Hn, list_elem_of_omap. by exists r'.
Qed.

Lemma charge_add r rs :
  (forall r', r' ∈ rs -> charge r' = charge r -> charge r = None) -> NoDup (omap charge rs) ->
  NoDup (omap charge (r :: rs)).
Proof.
  csimpl. intros Hn Hnd. destruct (charge r) as [c|] eqn:Hc; [|done]. constructor; [|done].
  intros (r' & Hr & Hc')%list_elem_of_omap. by specialize (Hn r' Hr Hc').
Qed.

Lemma charge_rest r rs : NoDup (omap charge (r :: rs)) -> NoDup (omap charge rs).
Proof. csimpl. destruct (charge r); [by intros [_ ?]%list.NoDup_cons|done]. Qed.

(** *** The operations on it *)

Ltac accounted_open :=
  intros (Hnd & Hn & Ht & He); apply list.Forall_cons in Hn as [Hnr Hn];
  pose proof Hn as Hall; rewrite list.Forall_forall in Hall;
  pose proof (charge_rest _ _ Hnd) as Hnd'.

Lemma accounted_new t rs n p :
  accounted t (Own Idle :: rs) -> t_names t !! p = None ->
  accounted (set_names (<[p:=n]> (t_names t)) t) (Own (Fresh n p) :: rs).
Proof.
  accounted_open. intros Hp. split_and!.
  - apply charge_add; [|done]. intros r Hr Hc. destruct (charge_named _ _ _ (Hall r Hr) Hc) as [? H].
    by rewrite Hp in H.
  - constructor; [cbn; apply lookup_insert_eq|].
    eapply List.Forall_impl; [|exact Hn]. intros r. by apply goes_by_insert.
  - intros m q Hm%Ht. apply elem_of_cons in Hm as [|]; [done|by right].
  - intros Hem m q Hin. apply He; [done|]. apply elem_of_cons in Hin as [|]; [done|by right].
Qed.

Lemma accounted_insert t rs n p :
  accounted t (Own (Fresh n p) :: rs) -> t_locked t = false -> t_live t !! n = None ->
  accounted (set_live (<[n:=p]> (t_live t)) t) (Own (Inserted n p) :: rs).
Proof.
  accounted_open. intros Hk Hl. split_and!; [done| | |].
  - constructor; [done|]. eapply List.Forall_impl; [|exact Hn]. intros r. by apply goes_by_live.
  - intros m q. cbn. rewrite lookup_insert_Some, elem_of_cons. intros [[-> ->]|[Hne Hm%Ht]]; [by left|right].
    by apply elem_of_cons in Hm as [|].
  - intros Hem m q. cbn. rewrite lookup_insert_Some, elem_of_cons. intros [[= -> ->]|Hin]; [by left|right].
    assert (t_live t !! m = Some q) as Hm by (apply He; [done|by right]). split; [|done].
    intros ->. by rewrite Hm in Hl.
Qed.

Lemma accounted_remove t rs n p :
  accounted t (Own (Inserted n p) :: rs) -> t_locked t = false ->
  accounted (set_live (delete n (t_live t)) t) (Own (Removed p) :: rs).
Proof.
  accounted_open. intros Hk. split_and!; [done| | |].
  - constructor; [cbn in *; by rewrite Hnr|]. eapply List.Forall_impl; [|exact Hn]. intros r. by apply goes_by_live.
  - intros m q. cbn. rewrite lookup_delete_Some, elem_of_cons. intros [Hne Hm%Ht].
    apply elem_of_cons in Hm as [[= -> ->]|]; [done|by right].
  - intros Hem m q. cbn. rewrite lookup_delete_Some, elem_of_cons. intros [|Hin]; [done|].
    assert (t_live t !! m = Some q) as Hm by (apply He; [done|by right]). split; [|done]. intros ->.
    assert (t_live t !! m = Some p) as Hp by (apply He; [done|by left]). rewrite Hm in Hp. injection Hp as ->.
    by destruct (charge_alone _ _ _ Hnd Hin) as [|[]].
Qed.

Lemma accounted_drop t rs r :
  accounted t (r :: rs) -> (forall n p, r <> Own (Inserted n p)) -> accounted t (Own Idle :: rs).
Proof.
  accounted_open. intros Hr. split_and!; [done|by constructor| |].
  - intros m q Hm%Ht. apply elem_of_cons in Hm as [|]; [naive_solver|by right].
  - intros Hem m q Hin. apply He; [done|]. apply elem_of_cons in Hin as [|]; [done|by right].
Qed.

Lemma accounted_idle t rs : accounted t rs -> accounted t (Own Idle :: rs).
Proof.
  intros (Hnd & Hn & Ht & He). split_and!; [done|by constructor| |].
  - intros m q Hm. right. by apply Ht.
  - intros Hem m q Hin. apply He; [done|]. by apply elem_of_cons in Hin as [|].
Qed.

Lemma accounted_called t rs : accounted t rs -> accounted (set_called t) rs.
Proof. done. Qed.

Lemma accounted_lock t rs ps :
  accounted t (Own Idle :: rs) -> t_locked t = false -> ps ≡ₚ sessions_of t ->
  accounted (set_locked t) (Closing [] ps :: rs).
Proof.
  accounted_open. intros Hk Hps. split_and!.
  - apply charge_add; [|done]. intros r Hr Hc. by destruct (goes_by_unlocked _ _ Hk (Hall r Hr)).
  - constructor; [done|]. eapply List.Forall_impl; [|exact Hn]. intros [[]|]; try done. cbn. by intros [? ?].
  - intros m q Hm%Ht. apply elem_of_cons in Hm as [|]; [done|by right].
  - intros Hem m q Hin. apply He; [done|]. apply elem_of_cons in Hin as [|]; [done|by right].
Qed.

Lemma accounted_close t rs closed p todo :
  accounted t (Closing closed (p :: todo) :: rs) -> accounted t (Closing (closed ++ [p]) todo :: rs).
Proof.
  accounted_open. split_and!; [done| | |].
  - constructor; [|done]. cbn in *. by rewrite <- app_assoc.
  - intros m q Hm%Ht. apply elem_of_cons in Hm as [|]; [done|by right].
  - intros Hem m q Hin. apply He; [done|]. apply elem_of_cons in Hin as [|]; [done|by right].
Qed.

Lemma accounted_reset t rs closed :
  accounted t (Closing closed [] :: rs) -> accounted (set_emptied t) (Own Idle :: rs).
Proof.
  accounted_open. split_and!; [done| |by intros m q; cbn; rewrite lookup_empty|done].
  constructor; [done|]. rewrite list.Forall_forall. intros r Hr. specialize (Hall r Hr).
  destruct r as [[]|]; try done. by destruct (charge_alone _ _ _ Hnd Hr) as [|[]].
Qed.

(** What an operation changes in the table is what its task answers for. *)
Lemma accounted_step {B} t t' r r' rs (o : op B) b :
  accounted t (r :: rs) -> answered_by o b t t' -> duty_op r o b = Some r' ->
  accounted t' (r' :: map k_start (spawned o t) ++ rs).
Proof.
  intros Ha [Hk Hb] Hd. destruct o, r as [w|closed todo]; cbn in Hb, Hd, Hk; try discriminate Hd;
    cbn [spawned map app k_start watcher];
    repeat (case_match; try discriminate Hd); cbn in Hd; destruct_and?; simplify_eq; try done;
    rewrite ?andb_true_iff, ?String.eqb_eq, ?Nat.eqb_eq in *; destruct_and?; subst.
  all: try (by apply accounted_new); try (by apply accounted_insert; auto); try (by apply accounted_remove; auto).
  all: try (by eapply accounted_drop); try (by apply accounted_lock; auto); try (by eapply accounted_close);
    try (by eapply accounted_reset).
  - eapply accounted_drop; [by apply accounted_remove; auto|done].
  - assert (t_names t !! sess0 = Some name) as -> by (by destruct Ha as (_ & [H _]%list.Forall_cons & _)).
    by apply accounted_idle.
  - apply accounted_called. unfold shut_down. destruct (t_called t); [done|]. cbn.
    rewrite Permutation_swap. by apply accounted_idle.
Qed.

(** *** The invariant of the daemon *)

Definition well_run (y : system) : Prop :=
  exists rs, Forall2 (fun k r => holds k = Some r /\ obeys (k_proc k) r) (y_tasks y) rs /\
    accounted (y_table y) rs.

(** Goroutines that are just started. *)
Lemma started_shut_down t :
  Forall2 (fun k r => holds k = Some r /\ obeys (k_proc k) r) (shut_down t) (map k_start (shut_down t)).
Proof.
  unfold shut_down. destruct (t_called t); cbn; constructor; [|constructor]. split; [done|apply stopper_obeys].
Qed.

Lemma started {B} (o : op B) t :
  Forall2 (fun k r => holds k = Some r /\ obeys (k_proc k) r) (spawned o t) (map k_start (spawned o t)).
Proof.
  destruct o; try constructor; [|constructor|apply started_shut_down]. split; [done|apply watcher_obeys].
Qed.

Lemma well_run_step y y' : ystep y y' -> well_run y -> well_run y'.
Proof.
  intros Hs. destruct Hs as [t tasks fuel|t tasks|t t' l1 r tr B o k b l2 Hb];
    intros (rs & Hrs & Ha); unfold well_run; cbn [y_tasks y_table] in *.
  - exists (rs ++ [Own Idle]). split.
    + apply Forall2_app; [done|]. constructor; [|done]. split; [done|apply connection_obeys].
    + rewrite (Permutation_app_comm rs). by apply accounted_idle.
  - exists (rs ++ map k_start (shut_down t)). split; [apply Forall2_app; [done|apply started_shut_down]|].
    apply accounted_called. rewrite (Permutation_app_comm rs). unfold shut_down.
    destruct (t_called t); [done|by apply accounted_idle].
  - apply Forall2_app_inv_l in Hrs as (rs1 & rs2 & H1 & H2 & ->).
    apply Forall2_cons_inv_l in H2 as (v & rs3 & [Hh Hob] & H2 & ->).
    rewrite <- Permutation_middle in Ha. destruct Hob as [Hl Hk].
    assert (named B o b v) as Hn.
    { destruct o; cbn; try done. destruct v as [[]|]; try done. intros ->. destruct Hb as [_ [-> _]].
      destruct Ha as (_ & [Hv _]%list.Forall_cons & _). cbn in Hv. by rewrite Hv. }
    destruct (Hl b Hn) as [v' Hd]. pose proof (accounted_step _ _ _ _ _ _ _ Ha Hb Hd) as Ha'.
    exists (rs1 ++ v' :: rs3 ++ map k_start (spawned o t)). split.
    + apply Forall2_app; [done|]. constructor; [|by apply Forall2_app; [|apply started]].
      split; [unfold holds in *; cbn in *; rewrite duty_app, Hh; cbn; by rewrite Hd|].
      specialize (Hk b Hn). unfold next_role in Hk. by rewrite Hd in Hk.
    + rewrite <- Permutation_middle. revert Ha'. apply accounted_Permutation. constructor.
      rewrite app_assoc, Permutation_app_comm. done.
Qed.

Lemma interleaved_well_run y : interleaved y -> well_run y.
Proof.
  intros H. refine (rtc_ind_r (R:=ystep) well_run empty_system _ _ y H); [|intros z z' _ Hz; by apply well_run_step].
  exists []. split; [done|]. split_and!; [constructor|done| |].
  - intros n p. cbn. by rewrite lookup_empty.
  - by intros _ n p []%not_elem_of_nil.
Qed.

Lemma omap_NoDup_lookup {A B} (f : A -> option B) l i j x y b :
  NoDup (omap f l) -> l !! i = Some x -> l !! j = Some y -> f x = Some b -> f y = Some b -> i = j.
Proof.
  revert i j. induction l as [|z l IH]; intros i j Hnd Hi Hj Hx Hy; [by destruct i|].
  assert (forall k u, l !! k = Some u -> f u = Some b -> f z <> Some b) as Hz.
  { intros k u Hk Hu Hb. csimpl in Hnd. rewrite Hb in Hnd. apply list.NoDup_cons in Hnd as [Hn _].
    apply Hn, list_elem_of_omap. exists u. split; [by eapply list_elem_of_lookup_2|done]. }
  destruct i as [|i], j as [|j]; cbn in Hi, Hj; simplify_eq; try done; [by destruct (Hz j y)..| |].
  - by destruct (Hz i x).
  - f_equal. apply IH; try done. csimpl in Hnd. destruct (f z); [by apply list.NoDup_cons in Hnd as [_ ?]|done].
Qed.

(** *** What it says of the tasks of a state *)

Lemma task_held y k : interleaved y -> k ∈ y_tasks y ->
  exists r, holds k = Some r /\ obeys (k_proc k) r /\ goes_by (y_table y) r.
Proof.
  intros (rs & Hrs & _ & Hn & _)%interleaved_well_run [i Hi]%list_elem_of_lookup_1.
  destruct (Forall2_lookup_l _ _ _ _ _ Hrs Hi) as (r & Hr & Hh & Ho). exists r. split_and!; [done..|].
  rewrite list.Forall_forall in Hn. by eapply Hn, list_elem_of_lookup_2.
Qed.

Lemma in_table y n p : interleaved y -> t_live (y_table y) !! n = Some p ->
  exists k, k ∈ y_tasks y /\ holds k = Some (Own (Inserted n p)).
Proof.
  intros (rs & Hrs & _ & _ & Ht & _)%interleaved_well_run [i Hi]%Ht%list_elem_of_lookup_1.
  destruct (Forall2_lookup_r _ _ _ _ _ Hrs Hi) as (k & Hk & Hh & _).
  exists k. split; [by eapply list_elem_of_lookup_2|done].
Qed.

Lemma still_in_table y n p k : interleaved y -> t_emptied (y_table y) = false ->
  k ∈ y_tasks y -> holds k = Some (Own (Inserted n p)) -> t_live (y_table y) !! n = Some p.
Proof.
  intros (rs & Hrs & _ & _ & _ & He)%interleaved_well_run Hem [i Hi]%list_elem_of_lookup_1 Hh.
  destruct (Forall2_lookup_l _ _ _ _ _ Hrs Hi) as (r & Hr & Hh' & _). simplify_eq.
  apply He; [done|]. by eapply list_elem_of_lookup_2.
Qed.

Lemma one_in_charge y i j k k' r r' c :
  interleaved y -> y_tasks y !! i = Some k -> y_tasks y !! j = Some k' ->
  holds k = Some r -> holds k' = Some r' -> charge r = Some c -> charge r' = Some c -> i = j.
Proof.
  intros (rs & Hrs & Hnd & _)%interleaved_well_run Hi Hj Hr Hr' Hc Hc'.
  destruct (Forall2_lookup_l _ _ _ _ _ Hrs Hi) as (v & Hv & Hh & _).
  destruct (Forall2_lookup_l _ _ _ _ _ Hrs Hj) as (v' & Hv' & Hh' & _).
  simplify_eq. by eapply (omap_NoDup_lookup charge).
Qed.

(** The operation a task is about to do is one of its role. *)
Lemma next_op_held y k B (o : op B) f b : interleaved y -> k ∈ y_tasks y -> k_proc k = Do o f ->
  (forall r, named B o b r) -> exists r r', holds k = Some r /\ goes_by (y_table y) r /\ duty_op r o b = Some r'.
Proof.
  intros Hy Hk Hp Hn. destruct (task_held _ _ Hy Hk) as (r & Hr & Hob & Hg). rewrite Hp in Hob.
  destruct Hob as [Hl _]. destruct (Hl b (Hn r)) as [r' Hr']. by exists r, r'.
Qed.
End System.

(** *** What a task is about to do *)

(** Remove this name from the table. *)
Definition removes (k : task) : option string :=
  match k_proc k with
  | Do o _ => match o with RemoveSession n | RemoveReportEmpty n => Some n | _ => None end
  | _ => None
  end.

(** Close this session. *)
Definition closes (k : task) : option nat :=
  match k_proc k with
  | Do o _ => match o with CloseSession p => Some p | _ => None end
  | _ => None
  end.

(** Empty the table and unlock it. *)
Definition empties (k : task) : bool :=
  match k_proc k with
  | Do o _ => match o with ResetSessionsUnlock => true | _ => false end
  | _ => false
  end.

Section Next.
Context (s : Server) (Version : string) (y : system) (k : task).
Hypothesis (Hy : interleaved s Version y) (Hk : k ∈ y_tasks y).

Lemma removes_own n : removes k = Some n -> exists p, holds k = Some (Own (Inserted n p)).
Proof.
  unfold removes. destruct (k_proc k) as [|B o f] eqn:Hp; [done|].
  destruct o; try done; intros [= ->];
    [destruct (next_op_held _ _ _ _ _ _ _ tt Hy Hk Hp) as ([[]|] & r' & Hh & _ & Hd)
    |destruct (next_op_held _ _ _ _ _ _ _ true Hy Hk Hp) as ([[]|] & r' & Hh & _ & Hd)]; try done;
    cbn in Hd; destruct (String.eqb_spec n name) as [->|]; try done; by exists sess.
Qed.

Lemma closes_held p : closes k = Some p -> exists r, holds k = Some r /\ goes_by (y_table y) r /\
  match r with
  | Closing closed todo => exists todo', todo = p :: todo'
  | Own w => charge r = Some (Some p) /\ forall n q, w <> Inserted n q
  end.
Proof.
  unfold closes. destruct (k_proc k) as [|B o f] eqn:Hp; [done|]. destruct o; try done. intros [= ->].
  destruct (next_op_held _ _ _ _ _ _ _ tt Hy Hk Hp) as (r & r' & Hh & Hg & Hd); [done|].
  exists r. split_and!; [done..|].
  destruct r as [[]|closed [|q todo]]; try done; cbn in Hd;
    [destruct (Nat.eqb_spec p sess) as [->|]..|destruct (Nat.eqb_spec p q) as [->|]]; try done. by exists todo.
Qed.

Lemma empties_all : empties k = true -> exists closed,
  holds k = Some (Closing closed []) /\ closed ≡ₚ sessions_of (y_table y).
Proof.
  unfold empties. destruct (k_proc k) as [|B o f] eqn:Hp; [done|]. destruct o; try done. intros _.
  destruct (next_op_held _ _ _ _ _ _ _ tt Hy Hk Hp) as (r & r' & Hh & Hg & Hd); [done|].
  destruct r as [[]|closed [|]]; try done. exists closed. destruct Hg as [_ Hg]. by rewrite app_nil_r in Hg.
Qed.
End Next.

(** *** Schedules: runs one can execute *)

(** One answer that the table allows; [msg] is the message of a [Receive]. *)
Definition table_reply (Version : string) (msg : result Message) (t : table) {B} (o : op B) : B :=
  match o in op B return B with
  | NewSession _ | RestoreSession _ _ => Ok (fresh (dom (t_names t)))
  | InsertOrExisting name _ | Lookup name => t_live t !! name
  | RemoveReportEmpty name => bool_decide (delete name (t_live t) = ∅)
  | LiveNames => dom (t_live t)
  | LockSessions => sessions_of t
  | SessionIdent p => (default "" (t_names t !! p), 0)
  | LoadState _ => Err ErrNotExist
  | AttachClient _ _ => Ok 0%nat
  | AcceptHandshake_ => Ok (ProtocolVersion, Version)
  | Receive => msg
  | o => some_answer _ o
  end.

Definition table_after {B} (o : op B) (t : table) : table :=
  match o with
  | NewSession spec | RestoreSession _ spec => set_names (<[fresh (dom (t_names t)) := ss_name spec]> (t_names t)) t
  | InsertOrExisting name p =>
      match t_live t !! name with Some _ => t | None => set_live (<[name:=p]> (t_live t)) t end
  | RemoveSession name | RemoveReportEmpty name => set_live (delete name (t_live t)) t
  | LockSessions => set_locked t
  | ResetSessionsUnlock => set_emptied t
  | Shutdown_ => set_called t
  | _ => t
  end.

(** An operation that waits for the mutex. *)
Definition waits {B} (o : op B) (t : table) : bool :=
  match o with ResetSessionsUnlock => negb (t_locked t) | _ => under_mu o && t_locked t end.

Section Schedule.
Context (s : Server) (Version : string).

(** Task [i] does its next operation, if it can. *)
Definition advance (y : system) (i : nat) (msg : result Message) : system :=
  let '(mkSystem t tasks) := y in
  match tasks !! i with
  | Some (mkTask r tr (Do o f)) =>
      if waits o t then y
      else
        let b := table_reply Version msg t o in
        mkSystem (table_after o t)
          (take i tasks ++ mkTask r (tr ++ [Step o b]) (f b) :: drop (S i) tasks ++ spawned s o t)
  | _ => y
  end.

Lemma table_reply_answers msg t {B} (o : op B) :
  waits o t = false -> answered_by o (table_reply Version msg t o) t (table_after o t).
Proof.
  assert (t_names t !! fresh (dom (t_names t)) = None) as Hf by (apply not_elem_of_dom, is_fresh).
  destruct o; cbn; intros Hw; (split; [try done|]); cbn; try done.
  - by destruct (t_live t !! name).
  - by destruct (t_locked t).
Qed.

Lemma advance_step y i msg : rtc (ystep s Version) y (advance y i msg).
Proof.
  destruct y as [t tasks]. unfold advance.
  destruct (tasks !! i) as [[r tr [a|B o f]]|] eqn:Hi; try done. destruct (waits o t) eqn:Hs; [done|].
  apply rtc_once. rewrite <- (take_drop_middle _ _ _ Hi) at 1. constructor. by apply table_reply_answers.
Qed.

(** A turn: a connection arrives, a signal asks for the shutdown, or a task goes on. *)
Inductive turn : Type :=
| Arrives (fuel : nat)
| Signal
| Goes (i n : nat) (msg : result Message).

Definition take_turn (y : system) (u : turn) : system :=
  match u with
  | Arrives fuel => mkSystem (y_table y) (y_tasks y ++ [connection s Version fuel])
  | Signal => mkSystem (set_called (y_table y)) (y_tasks y ++ shut_down s (y_table y))
  | Goes i n msg => Nat.iter n (fun y => advance y i msg) y
  end.

Lemma take_turn_steps y u : rtc (ystep s Version) y (take_turn y u).
Proof.
  destruct u as [fuel| |i n msg]; cbn [take_turn]; [destruct y; apply rtc_once; constructor..|].
  induction n as [|n IH]; [done|]. cbn [Nat.iter]. by etrans; [|apply advance_step].
Qed.

Lemma turns_interleaved turns : interleaved s Version (fold_left take_turn turns empty_system).
Proof.
  assert (interleaved s Version empty_system) as Hy by apply rtc_refl.
  revert Hy. generalize empty_system. induction turns as [|u turns IH]; intros y Hy; [done|].
  cbn [fold_left]. apply IH. unfold interleaved. by etrans; [|apply take_turn_steps].
Qed.
End Schedule.

(** ** Property *)

(** C10. Connections, watchers and the shutdown run concurrently, their operations on
    the table of sessions interleaved in any order. Always: each session in the table
    has a running goroutine that answers for it, and until the shutdown empties the
    table it has all the sessions that one inserted and answers for; no two goroutines
    answer for the same session or hold the mutex; until then a name is removed from
    the table only by the goroutine that answers for the session now under that name,
    never from a session another client created under it since; a session that is
    being closed is not in the table, unless it is the shutdown that closes it, which
    holds the mutex and closes each session of the table once before it empties it;
    and when all goroutines have ended, the table is empty. *)
Theorem table_is_owned s Version y :
  interleaved s Version y ->
  let t := y_table y in
  (forall n p, t_live t !! n = Some p -> exists k, k ∈ y_tasks y /\ holds k = Some (Own (Inserted n p))) /\
  (forall k n p, t_emptied t = false -> k ∈ y_tasks y -> holds k = Some (Own (Inserted n p)) ->
     t_live t !! n = Some p) /\
  (forall i j k k' r r' c, y_tasks y !! i = Some k -> y_tasks y !! j = Some k' ->
     holds k = Some r -> holds k' = Some r' -> charge r = Some c -> charge r' = Some c -> i = j) /\
  (forall k n, k ∈ y_tasks y -> removes k = Some n -> t_emptied t = false ->
     exists p, holds k = Some (Own (Inserted n p)) /\ t_live t !! n = Some p) /\
  (forall k p, k ∈ y_tasks y -> closes k = Some p ->
     (exists closed todo, holds k = Some (Closing closed (p :: todo)) /\ t_locked t = true /\
        closed ++ p :: todo ≡ₚ sessions_of t) \/
     (forall n, t_live t !! n <> Some p)) /\
  (forall k, k ∈ y_tasks y -> empties k = true ->
     exists closed, holds k = Some (Closing closed []) /\ closed ≡ₚ sessions_of t) /\
  ((forall k, k ∈ y_tasks y -> k_proc k = Ret tt) -> t_live t = ∅).
Proof.
  intros Hy. split_and!.
  - intros n p. by apply (in_table s Version).
  - intros k n p Hem Hk Hh. by apply (still_in_table s Version y n p k).
  - intros i j k k' r r' c. by apply (one_in_charge s Version).
  - intros k n Hk Hr Hem. destruct (removes_own _ _ _ _ Hy Hk _ Hr) as [p Hh]. exists p. split; [done|].
    by apply (still_in_table s Version y n p k).
  - intros k p Hk Hc. destruct (closes_held _ _ _ _ Hy Hk _ Hc) as ([w|closed todo] & Hh & Hg & H).
    + right. destruct H as [Hch Hne]. intros n (k' & [j Hj]%list_elem_of_lookup_1 & Hh')%(in_table s Version y n p Hy).
      apply list_elem_of_lookup_1 in Hk as [i Hi].
      pose proof (one_in_charge _ _ _ _ _ _ _ _ _ _ Hy Hi Hj Hh Hh' Hch eq_refl). simplify_eq. by destruct (Hne n p).
    + left. destruct H as [todo' ->], Hg. by exists closed, todo'.
  - intros k Hk. by apply (empties_all s Version).
  - intros Hd. apply map_empty. intros n. apply eq_None_not_Some. intros [p (k & Hk & Hh)%(in_table s Version y n _ Hy)].
    destruct (task_held _ _ _ _ Hy Hk) as (r & Hr & Hob & _). rewrite (Hd k Hk) in Hob. cbn in Hob. simplify_eq.
Qed.

(** Two clients attach to the name "a" at once and both start a session: one is
    inserted, the other's is about to be closed. Then the shutdown is asked for, and
    has closed the inserted one. *)
Definition ex_race : system :=
  let m := Ok (MsgAttach (ex_attach "a" false false)) in
  fold_left (take_turn ex_server "v1")
    [Arrives 1; Arrives 1; Goes 0 9 m; Goes 1 9 m; Goes 0 3 m; Goes 1 1 m; Signal; Goes 3 7 m]
    empty_system.

Definition ex_task (i : nat) : task := nth i (y_tasks ex_race) (stopper ex_server).

Lemma ex_task_in i : (i < 4)%nat -> ex_task i ∈ y_tasks ex_race.
Proof.
  intros Hi. assert (length (y_tasks ex_race) = 4%nat) as Hl by (vm_compute; reflexivity).
  unfold ex_task. apply list_elem_of_In, nth_In. rewrite Hl. exact Hi.
Qed.

Lemma table_is_owned_witness :
  exists y k k', interleaved ex_server "v1" y /\
    map holds (y_tasks y) =
      [Some (Own Idle); Some (Own (Fresh "a" 1%nat)); Some (Own (Inserted "a" 0%nat)); Some (Closing [0%nat] [])] /\
    t_live (y_table y) !! "a" = Some 0%nat /\
    closes k = Some 1%nat /\ (forall n, t_live (y_table y) !! n <> Some 1%nat) /\
    empties k' = true /\ [0%nat] ≡ₚ sessions_of (y_table y).
Proof.
  pose proof (turns_interleaved ex_server "v1" _ : interleaved _ _ ex_race) as Hy.
  destruct (table_is_owned ex_server "v1" ex_race Hy) as (_ & _ & _ & _ & Hc & He & _).
  exists ex_race, (ex_task 1), (ex_task 3).
  assert (ex_task 1 ∈ y_tasks ex_race) as H1 by (apply ex_task_in; lia).
  assert (ex_task 3 ∈ y_tasks ex_race) as H3 by (apply ex_task_in; lia).
  assert (holds (ex_task 1) = Some (Own (Fresh "a" 1%nat))) as Hh1 by (vm_compute; reflexivity).
  assert (holds (ex_task 3) = Some (Closing [0%nat] [])) as Hh3 by (vm_compute; reflexivity).
  assert (closes (ex_task 1) = Some 1%nat) as Hc1 by (vm_compute; reflexivity).
  assert (empties (ex_task 3) = true) as He3 by (vm_compute; reflexivity).
  destruct (He _ H3 He3) as (closed & Hh & Hp). rewrite Hh3 in Hh. injection Hh as <-.
  destruct (Hc _ _ H1 Hc1) as [(closed & todo & Hh & _)|Hn]; [rewrite Hh1 in Hh; discriminate Hh|].
  split; [exact Hy|]. split; [vm_compute; reflexivity|]. split; [vm_compute; reflexivity|].
  split; [exact Hc1|]. split; [exact Hn|]. split; [exact He3|exact Hp].
Defined.
