(* ===== verification/DaemonWorld.v ===== *)
(** * DaemonWorld: the handlers against an abstract daemon

    Answers the operations of [Server.v] from a concrete world: the map of live
    sessions, and the state directory of [Persist.v] with its files. The abstract
    daemon knows names only: which are live, and what is saved under each. The
    refinement relates a request handled by the code to one step of it. *)
From Stdlib Require Import ZArith Lia.
From stdpp Require Import base gmap sets list strings numbers option pretty sorting.
From S2P Require Import Prelude GoStrings Wire Messages Codec Resize Proc Namegen Persist Server.
#[local] Open Scope Z_scope.

(** ** The world *)

Record world := mkWorld {
  w_live : gmap string nat;      (* s.sessions *)
  w_ident : gmap nat string;     (* the name of every session started *)
  w_next : nat;                  (* the next session pointer *)
  w_fs : fsys;
  w_sent : list Message }.

Definition set_live (l : gmap string nat) (w : world) : world :=
  mkWorld l (w_ident w) (w_next w) (w_fs w) (w_sent w).
Definition set_fs (fs : fsys) (w : world) : world :=
  mkWorld (w_live w) (w_ident w) (w_next w) fs (w_sent w).
Definition send (m : Message) (w : world) : world :=
  mkWorld (w_live w) (w_ident w) (w_next w) (w_fs w) (w_sent w ++ [m]).

(** What the rest of the system answers during one action. *)
Record env := mkEnv {
  e_start : sessionStartSpec -> option error;
  e_attach : option error;
  e_client : nat;
  e_pid : Z;
  e_kick : bool;
  e_input : option error;
  e_key : result bytes;
  e_dump : result bytes;
  e_snapshot : liveState;
  e_draw : rng;
  e_uid : Z;
  e_stopped : bool;
  e_receive : result Message;
  e_listening : bool }.

Section World.
Context (dir : string).

(** A new session: its pointer and name, if it starts. *)
Definition start (e : env) (spec : sessionStartSpec) (w : world) : result nat * world :=
  match e_start e spec with
  | Some err => (Err err, w)
  | None =>
      (Ok (w_next w),
       mkWorld (w_live w) (<[w_next w := ss_name spec]> (w_ident w)) (S (w_next w)) (w_fs w) (w_sent w))
  end.

Definition view (e : env) (w : world) (name : string) (p : nat) : sessionView :=
  mkView p name true 80 24 (e_pid e) 0.

(** The sections under the mutex and the file operations on the concrete state;
    every other operation answers from [e] and changes nothing here. *)
Definition interp (e : env) {B} (o : op B) : world -> B * world :=
  match o in op B return world -> B * world with
  | LiveNames => fun w => (dom (w_live w), w)
  | Lookup n => fun w => (w_live w !! n, w)
  | InsertOrExisting n p => fun w =>
      match w_live w !! n with
      | Some q => (Some q, w)
      | None => (None, set_live (<[n := p]> (w_live w)) w)
      end
  | RemoveSession n => fun w => (tt, set_live (delete n (w_live w)) w)
  | RemoveReportEmpty n => fun w =>
      let l := delete n (w_live w) in (bool_decide (l = ∅), set_live l w)
  | ViewSessions => fun w => (map (fun '(n, p) => view e w n p) (map_to_list (w_live w)), w)
  | ViewStatus n => fun w =>
      ((map (fun '(n, p) => view e w n p) (map_to_list (w_live w)),
        if String.eqb n "" then None else w_live w !! n), w)
  | LockSessions => fun w => ((map_to_list (w_live w)).*2, w)
  | ResetSessionsUnlock => fun w => (tt, set_live ∅ w)
  | ListDead running => fun w =>
      (listDeadSessions dir (fun n => bool_decide (n ∈ running)) (w_fs w), w)
  | LoadState n => fun w => (loadState dir n (w_fs w), w)
  | CleanState n => fun w =>
      let '(fs, r) := cleanState no_faults dir n (w_fs w) in (r, set_fs fs w)
  | WriteState n st => fun w =>
      let '(_, fs, r) := writeStateInDir no_faults dir n st (w_fs w) in (r, set_fs fs w)
  | SaveSession p => fun w =>
      let '(fs, err) := saveSession no_faults dir (default "" (w_ident w !! p)) (e_snapshot e) (w_fs w) in
      (err, set_fs fs w)
  | CleanStaleTmp => fun w => (tt, set_fs (cleanStaleTmp no_faults dir (w_fs w)) w)
  | StartPersister => fun w => (tt, w)
  | StopPersister => fun w => (tt, w)
  | SaveAll => fun w =>
      let '(fs, errs) := saveAll no_faults dir ((fun _ => e_snapshot e) <$> w_live w) (w_fs w) in
      (head errs, set_fs fs w)
  | NewSession spec => start e spec
  | RestoreSession _ spec => start e spec
  | CloseSession _ => fun w => (tt, w)
  | SessionIdent p => fun w => ((default "" (w_ident w !! p), e_pid e), w)
  | IsRunning _ => fun w => (true, w)
  | SessionSize _ => fun w => ((80, 24), w)
  | SessionPwd _ => fun w => (Ok None, w)
  | ClientInfo _ => fun w => ([], w)
  | AttachClient _ _ => fun w =>
      (match e_attach e with Some err => Err err | None => Ok (e_client e) end, w)
  | DetachClient _ _ => fun w => (tt, w)
  | ResizeClient _ _ _ => fun w => (tt, w)
  | KickClient _ _ => fun w => (e_kick e, w)
  | KillSession _ => fun w => (tt, w)
  | SendInput _ _ => fun w => (e_input e, w)
  | EncodeKey _ _ _ => fun w => (e_key e, w)
  | DumpScreen _ _ => fun w => (e_dump e, w)
  | DumpDead _ _ _ => fun w => (e_dump e, w)
  | Watch _ => fun w => (tt, w)
  | WaitDone _ => fun w => (tt, w)
  | WaitClients _ => fun w => (tt, w)
  | SyscallConn => fun w => (None, w)
  | PeerUID => fun w => (Ok (e_uid e), w)
  | AcceptHandshake_ => fun w => (Ok (ProtocolVersion, ""), w)
  | VersionReply _ _ => fun w => (None, w)
  | Receive => fun w => (e_receive e, w)
  | Send_ m => fun w => (None, send m w)
  | CloseConn => fun w => (tt, w)
  | Draw => fun w => (e_draw e, w)
  | Getuid => fun w => (e_uid e, w)
  | Getpid => fun w => (1, w)
  | SinceStart => fun w => (0, w)
  | CtxDone => fun w => (e_stopped e, w)
  | Shutdown_ => fun w => (tt, w)
  | CancelCtx => fun w => (tt, w)
  | MkSocketDir => fun w => (None, w)
  | OpenLock => fun w => (None, w)
  | Flock => fun w => (None, w)
  | CloseLock _ => fun w => (tt, w)
  | LockFile => fun w => (true, w)
  | SetLockFile _ => fun w => (tt, w)
  | Unlock => fun w => (tt, w)
  | RemoveSocket => fun w => (None, w)
  | RemovePid => fun w => (None, w)
  | NetListen => fun w => (None, w)
  | CloseNet => fun w => (tt, w)
  | Listener => fun w => (e_listening e, w)
  | SetListener => fun w => (tt, w)
  | CloseListener => fun w => (tt, w)
  | WritePID => fun w => (None, w)
  | WatchSignals => fun w => (tt, w)
  | Accept => fun w => (Err ErrClosed, w)
  | GoHandleConn _ => fun w => (tt, w)
  end.

(** Running a handler alone. *)
Fixpoint exec (e : env) {A} (p : proc A) (w : world) : A * world :=
  match p with
  | Ret a => (a, w)
  | Do o k => let '(b, w') := interp e o w in exec e (k b) w'
  end.

Lemma exec_bind e {A A'} (p : proc A) (f : A -> proc A') w :
  exec e (bind p f) w = (let '(a, w') := exec e p w in exec e (f a) w').
Proof.
  revert w. induction p as [a|B o k IH]; intros w; [done|]. cbn [bind exec].
  destruct (interp e o w) as [b w']. apply IH.
Qed.

(** Running alone is one of the runs. *)
Lemma exec_runs e {A} (p : proc A) w : exists tr, runs p tr (fst (exec e p w)).
Proof.
  revert w. induction p as [a|B o k IH]; intros w; [exists []; constructor|]. cbn [exec].
  destruct (interp e o w) as [b w']. destruct (IH b w') as [tr Htr]. exists (Step o b :: tr).
  by constructor.
Qed.
End World.

(** Running a handler step by step. *)
Ltac exec_go := cbn [negb]; repeat (rewrite exec_bind; cbn [exec interp bind fst snd negb]); cbn [exec interp fst snd negb].

(** ** The abstract daemon *)

(** The names of the live sessions, and what is saved: a state, or the error of a
    state file that does not decode. *)
Record daemon := mkDaemon { d_live : gset string; d_saved : gmap string (result sessionState) }.

(** One action: a request, or the end of a session's process. *)
Inductive action : Type :=
| Request (req : Message)
| Exit (name : string).

Section Spec.
Context (s : Server) (e : env).

Definition fail (msg : string) (d : daemon) : option Message * daemon :=
  (Some (MsgError (mkError msg)), d).

Definition go_live (name : string) (d : daemon) : daemon :=
  mkDaemon ({[name]} ∪ d_live d) (d_saved d).
Definition forget (name : string) (d : daemon) : daemon :=
  mkDaemon (d_live d) (delete name (d_saved d)).
Definition keep (name : string) (st : sessionState) (d : daemon) : daemon :=
  mkDaemon (d_live d) (<[name := Ok (saved_form st)]> (d_saved d)).

Definition spec_create (m : Create) (d : daemon) : option Message * daemon :=
  let name := Create_Name m in
  if bool_decide (name ∈ d_live d) then fail "session already exists" d
  else
    match d_saved d !! name, Create_Force m with
    | Some (Ok _), false => fail (deadSessionStateExistsMessage name) d
    | Some (Err err), false => fail (error_text (Wrapf "load dead session state" err)) d
    | _, force =>
        let d := if force then forget name d else d in
        match e_start e (mkStartSpec name (Create_Command m) (Create_Env m) (Create_CWD m)
                           (mkTermSize 80 24 0 0) (scrollback s (Create_Scrollback m))) with
        | Some err => fail (error_text err) d
        | None => (Some (MsgCreated (mkCreated name (e_pid e))), go_live name d)
        end
    end.

Definition spec_attach (m : Attach) (d : daemon) : option Message * daemon :=
  let name := Attach_Name m in
  if bool_decide (name ∈ d_live d) then
    match e_attach e with
    | Some err => fail (error_text err) d
    | None => (None, d)
    end
  else
    match d_saved d !! name with
    | Some (Ok _) => fail (deadSessionStateExistsMessage name) d
    | Some (Err err) => fail (error_text (Wrapf "load dead session state" err)) d
    | None =>
        match e_start e (attach_start s name m), e_attach e with
        | Some err, _ => fail (error_text err) d
        | None, Some err => fail (error_text err) d
        | None, None => (None, go_live name d)
        end
    end.

(** A failed restore leaves the daemon as it was. *)
Definition spec_restore (m : Attach) (d : daemon) : option Message * daemon :=
  let name := Attach_Name m in
  if bool_decide (name ∈ d_live d) then fail "session is running" d
  else
    match d_saved d !! name with
    | None => fail "no saved state" d
    | Some (Err err) => fail (error_text (Wrapf "load saved state" err)) d
    | Some (Ok _) =>
        match e_start e (attach_start s name m), e_attach e with
        | Some err, _ => fail (error_text err) d
        | None, Some err => fail (error_text err) d
        | None, None => (None, go_live name (forget name d))
        end
    end.

Definition spec_prune (d : daemon) : option Message * daemon :=
  let dead := filter (fun x => x.1 ∉ d_live d) (d_saved d) in
  (Some (MsgPruneResponse (mkPruneResponse (u32 (Z.of_nat (size dead))))),
   mkDaemon (d_live d) (filter (fun x => x.1 ∈ d_live d) (d_saved d))).

Definition spec_kill (name : string) (d : daemon) : option Message * daemon :=
  if bool_decide (name ∈ d_live d) then (Some (MsgOK mkOK), d) else fail "session not found" d.

(** The end of a session saves it, when its terminal can be saved. *)
Definition spec_exit (name : string) (d : daemon) : daemon :=
  if bool_decide (name ∈ d_live d) then
    let d' := mkDaemon (d_live d ∖ {[name]}) (d_saved d) in
    match lv_snapshot (e_snapshot e) with
    | Ok snap =>
        let st := live_form (e_snapshot e) snap in
        if negb (e_stopped e) && is_ok (encodeState st) then keep name st d' else d'
    | Err _ => d'
    end
  else d.

Definition spec (act : action) (d : daemon) : option Message * daemon :=
  match act with
  | Request (MsgCreate m) => spec_create m d
  | Request (MsgAttach m) => if Attach_Restore m then spec_restore m d else spec_attach m d
  | Request (MsgPrune _) => spec_prune d
  | Request (MsgKill m) => spec_kill (Kill_Name m) d
  | Request _ => (None, d)
  | Exit name => (None, spec_exit name d)
  end.
End Spec.

(** ** The state directory as a map of names *)

(** What [readDeadSession] finds under a name. *)
Definition saved_of (dir name : string) (fs : fsys) : option (result sessionState) :=
  match loadState dir name fs with
  | Ok st => Some (Ok st)
  | Err err => if Is_ErrNotExist err then None else Some (Err err)
  end.

(** A directory that is there, or has no files yet; and no other directory. *)
Definition fs_ok (dir : string) (fs : fsys) : Prop :=
  only_dir dir fs /\
  (fs !! dir = None -> forall name, name_ok name -> fs !! state_path dir name = None).

(** [g] never reports a missing file when the reader does not. *)
Definition no_enoent {A} (g : dec A) : Prop :=
  forall r r' x, rd_err r = EOF -> g r = (r', x) ->
    rd_err r' = EOF /\ match x with Err e => Is_ErrNotExist e = false | Ok _ => True end.

Lemma no_enoent_ret {A} (a : A) : no_enoent (dec_ret a).
Proof. intros r r' x Hr [= <- <-]. done. Qed.

Lemma no_enoent_fail {A} e : Is_ErrNotExist e = false -> no_enoent (A := A) (dec_fail e).
Proof. intros He r r' x Hr [= <- <-]. done. Qed.

Lemma no_enoent_bind {A B} (g : dec A) (k : A -> dec B) :
  no_enoent g -> (forall a, no_enoent (k a)) -> no_enoent (dec_bind g k).
Proof.
  intros Hg Hk r r' x Hr. unfold dec_bind. destruct (g r) as [r1 [a|e]] eqn:E; intros H.
  - apply (Hk a r1); [|done]. exact (proj1 (Hg _ _ _ Hr E)).
  - injection H as <- <-. exact (Hg _ _ _ Hr E).
Qed.

Lemma no_enoent_ReadFull n : no_enoent (ReadFull n).
Proof.
  intros r r' x Hr. unfold ReadFull. destruct (n <=? length (rd_data r))%nat.
  - by intros [= <- <-].
  - rewrite Hr. intros [= <- <-]. split; [done|]. by destruct (rd_data r).
Qed.

Lemma no_enoent_wrap {A} p (g : dec A) : no_enoent g -> no_enoent (dec_wrap p g).
Proof.
  intros Hg r r' x Hr. unfold dec_wrap. destruct (g r) as [r1 [a|e]] eqn:E; intros [= <- <-];
    exact (Hg _ _ _ Hr E).
Qed.

Lemma decodeState_no_enoent data e : decodeState data = Err e -> Is_ErrNotExist e = false.
Proof.
  unfold decodeState. destruct (blen data <? 4); [by intros [= <-]|].
  destruct (negb _); [by intros [= <-]|].
  assert (no_enoent decodeState_body) as Hb.
  { assert (Hrd : forall n, no_enoent (b <~ ReadFull n; dec_ret (be_decode b)))
      by (intros n; apply no_enoent_bind; [apply no_enoent_ReadFull|intros; apply no_enoent_ret]).
    unfold decodeState_body.
    repeat first [apply no_enoent_bind; [apply no_enoent_wrap; apply Hrd || apply no_enoent_ReadFull|intros ?]
      | apply no_enoent_ret | apply no_enoent_fail; reflexivity | case_match]. }
  destruct (decodeState_body _) as [r x] eqn:E. cbn [snd]. intros ->.
  exact (proj2 (Hb _ _ _ (eq_refl : rd_err (NewReader (drop 4 data)) = EOF) E)).
Qed.

Lemma saved_of_ext dir name fs fs' :
  fs !! state_path dir name = fs' !! state_path dir name -> saved_of dir name fs = saved_of dir name fs'.
Proof. intros H. unfold saved_of. by rewrite (loadState_ext _ _ _ _ H). Qed.

Lemma saved_of_file dir name fs :
  fs_ok dir fs -> dir_ok dir -> name_ok name ->
  is_Some (saved_of dir name fs) <-> exists data, fs !! state_path dir name = Some (File data).
Proof.
  intros [[_ Honly] _] Hd Hn. unfold saved_of, loadState, os_ReadFile.
  destruct (fs !! state_path dir name) as [[data|]|] eqn:E.
  - split; [by eexists|]. intros _. destruct (decodeState data) as [st|err] eqn:Ed; [by eexists|].
    rewrite (decodeState_no_enoent _ _ Ed). by eexists.
  - apply Honly in E. destruct (dir_ne_state dir name Hd Hn) as [H _]. by destruct H.
  - cbn. split; [by intros []|by intros [? [=]]].
Qed.

(** A state that was read is the form a save keeps. *)
Lemma saved_of_saved_form dir name fs st :
  saved_of dir name fs = Some (Ok st) -> state_ok st /\ saved_form st = st.
Proof.
  unfold saved_of, loadState, os_ReadFile. destruct (fs !! _) as [[data|]|]; [|done..].
  unfold decodeState. destruct (blen data <? 4); [done|]. destruct (negb _); [done|].
  destruct (decodeState_body _) as [r [s'|e]] eqn:Hb; cbn [snd].
  - intros [= ->]. by apply decodeState_body_inv in Hb as (? & ? & _).
  - by case_match.
Qed.

(** *** The three changes *)

Lemma cleanState_ok dir name fs :
  dir_ok dir -> name_ok name -> fs_ok dir fs ->
  exists fs', cleanState no_faults dir name fs = (fs', Ok tt) /\ fs_ok dir fs' /\
    forall m, name_ok m -> saved_of dir m fs' = if bool_decide (m = name) then None else saved_of dir m fs.
Proof.
  intros Hd Hn [[Hfile Honly] Hnone]. destruct (dir_ne_state dir name Hd Hn) as [Hp _].
  unfold cleanState, os_Remove. cbn [f_remove no_faults].
  destruct (fs !! state_path dir name) as [nd|] eqn:E.
  - eexists. split; [done|]. split; [split; [split|]|].
    + intros data. rewrite lookup_delete_ne by done. apply Hfile.
    + intros p. rewrite lookup_delete_Some. intros [_ H]. by apply Honly.
    + rewrite lookup_delete_ne by done. intros H m Hm. apply lookup_delete_None. right. by apply Hnone.
    + intros m Hm. case_bool_decide as Hmn.
      * subst m. unfold saved_of, loadState, os_ReadFile. by rewrite lookup_delete_eq.
      * apply saved_of_ext, lookup_delete_ne. intros Heq. by apply (state_path_inj dir) in Heq.
  - cbn [IsNotExist]. eexists. split; [done|]. split; [done|].
    intros m Hm. case_bool_decide as Hmn; [|done]. subst m.
    unfold saved_of, loadState, os_ReadFile. by rewrite E.
Qed.

Lemma writeState_ok dir name st fs :
  dir_ok dir -> name_ok name -> fs_ok dir fs -> state_ok st ->
  exists seen fs', writeStateInDir no_faults dir name st fs = (seen, fs', Ok tt) /\ fs_ok dir fs' /\
    forall m, name_ok m ->
      saved_of dir m fs' = if bool_decide (m = name) then Some (Ok (saved_form st)) else saved_of dir m fs.
Proof.
  intros Hd Hn [Ho Hnone] Hok. destruct Hok as (Hc & Hr & Ht & Hl).
  destruct (writeState_no_faults dir name st fs _ Hd Hn Ho (encodeState_eq st Hl))
    as (seen & fs' & Hw & Ho').
  exists seen, fs'. destruct (dir_ne_state dir name Hd Hn) as [Hd1 Hd2].
  destruct (writeStateInDir_spec _ _ _ _ _ _ _ _ Hd1 Hd2 Hw) as (_ & Hother & _ & _ & _ & _ & Hdir).
  split; [done|]. split; [split; [done|by rewrite Hdir]|].
  intros m Hm. case_bool_decide as Hmn.
  - subst m. unfold saved_of.
    by rewrite (save_crash_safe_load _ _ _ _ _ _ _ Hd Hn (conj Hc (conj Hr (conj Ht Hl))) Hw).
  - apply saved_of_ext, Hother. unfold touched. destruct (dir_ne_state dir m Hd Hm) as [Hd3 _].
    intros [H|[H|H]]; [by destruct Hd3| |].
    + by apply (state_path_inj dir) in H.
    + by apply (state_path_not_tmp dir) in H.
Qed.

(** *** Listing *)

Lemma NoDup_omap_inj {A B} (f : A -> option B) (l : list A) :
  (forall x y z, x ∈ l -> y ∈ l -> f x = Some z -> f y = Some z -> x = y) ->
  NoDup l -> NoDup (omap f l).
Proof.
  intros Hf. induction 1 as [|x l Hx Hl IH]; [constructor|]. csimpl.
  assert (NoDup (omap f l)) as IH' by (apply IH; intros; eapply Hf; try (by right); done).
  destruct (f x) as [z|] eqn:E; [|done]. constructor; [|done].
  intros (y & Hy & Hz)%list_elem_of_omap. apply Hx.
  rewrite (Hf x y z); [done|by left|by right|done..].
Qed.

Lemma ReadDir_NoDup dir fs entries : os_ReadDir dir fs = Ok entries -> NoDup entries.
Proof.
  unfold os_ReadDir. destruct (fs !! dir) as [[?|]|]; [done| |done]. intros [= <-].
  rewrite merge_sort_Permutation. apply NoDup_omap_inj; [|apply NoDup_map_to_list].
  intros [p n] [p' n'] z H1%elem_of_map_to_list H2%elem_of_map_to_list.
  intros (x & Hx & ->)%fmap_Some (x' & Hx' & Heq)%fmap_Some. injection Heq as <- _.
  apply child_name_Some in Hx as [-> _], Hx' as [-> _].
  rewrite H1 in H2. by injection H2 as ->.
Qed.

Lemma listDead_ok dir running fs :
  dir_ok dir -> fs_ok dir fs ->
  exists names, listDeadSessions dir running fs = Ok names /\ NoDup names /\
    forall n, n ∈ names <-> name_ok n /\ running n = false /\ is_Some (saved_of dir n fs).
Proof.
  intros Hd Hfs. pose proof Hfs as [[Hfile Honly] Hnone].
  destruct (fs !! dir) as [[data|]|] eqn:Edir; [by destruct (Hfile data)| |].
  - destruct (os_ReadDir dir fs) as [entries|e] eqn:Hr;
      [|unfold os_ReadDir in Hr; by rewrite Edir in Hr].
    assert (exists names, listDeadSessions dir running fs = Ok names /\ NoDup names) as (names & Hl & Hnd).
    { unfold listDeadSessions. rewrite Hr. eexists. split; [done|].
      apply NoDup_omap_inj; [|by eapply ReadDir_NoDup].
      intros [n [|]] [n' [|]] z _ _; cbn [orb]; try done.
      destruct (HasSuffix n ".state") eqn:H1, (HasSuffix n' ".state") eqn:H2; try done. cbn [negb].
      destruct (running (TrimSuffix n _)), (running (TrimSuffix n' _)); try done.
      intros [= <-] [= Heq]. apply HasSuffix_spec in H1, H2. rewrite H1, H2. by rewrite Heq. }
    exists names. split; [done|]. split; [done|]. intros n.
    rewrite (elem_of_listDead _ _ _ _ n Hl Edir).
    split; intros (Hn & Hrun & H); (split; [done|]; split; [done|]).
    + rewrite (saved_of_file dir n fs Hfs Hd Hn). by rewrite state_path_eq.
    + rewrite (saved_of_file dir n fs Hfs Hd Hn) in H. by rewrite state_path_eq in H.
  - exists []. unfold listDeadSessions, os_ReadDir. rewrite Edir. split; [done|].
    split; [constructor|]. intros n. split; [by intros ?%not_elem_of_nil|].
    intros (Hn & _ & Hs). exfalso. apply (saved_of_file dir n fs Hfs Hd Hn) in Hs as [data H].
    by rewrite (Hnone eq_refl n Hn) in H.
Qed.

(** ** The refinement *)

Record refines (dir : string) (w : world) (d : daemon) : Prop := {
  r_live : dom (w_live w) = d_live d;
  r_names : forall n, n ∈ d_live d -> name_ok n;
  r_ident : forall n p, w_live w !! n = Some p -> w_ident w !! p = Some n;
  r_fresh : forall p, is_Some (w_ident w !! p) -> (p < w_next w)%nat;
  r_fs : fs_ok dir (w_fs w);
  r_saved : forall n, name_ok n -> d_saved d !! n = saved_of dir n (w_fs w);
  r_saved_names : forall n, is_Some (d_saved d !! n) -> name_ok n }.

Definition env_ok (e : env) : Prop :=
  is_u16 (lv_cols (e_snapshot e)) /\ is_u16 (lv_rows (e_snapshot e)) /\
  is_i64 (time_Unix (lv_now (e_snapshot e))).

(** The actions of the abstract daemon: requests that name their session. *)
Definition action_ok (act : action) : Prop :=
  match act with
  | Request (MsgCreate m) => Create_Name m <> "" /\ name_ok (Create_Name m)
  | Request (MsgAttach m) => Attach_Name m <> "" /\ name_ok (Attach_Name m)
  | Request (MsgPrune _) | Request (MsgKill _) | Exit _ => True
  | Request _ => False
  end.

Section Refinement.
Context (dir : string) (Hdir : dir_ok dir) (s : Server) (Version : string)
  (Hpersist : has_persister s = true).

(** The code doing an action: the handler of the request, or the watcher. *)
Definition act_code (e : env) (act : action) (w : world) : world :=
  match act with
  | Request req => snd (exec dir e (control_message s Version req Version) w)
  | Exit name =>
      match w_live w !! name with
      | Some p => snd (exec dir e (watchSession s p) w)
      | None => w
      end
  end.

(** *** Files *)

Lemma exec_readDead e name w :
  exec dir e (readDeadSession s name) w =
    (match saved_of dir name (w_fs w) with
     | None => Ok None
     | Some (Ok st) => Ok (Some st)
     | Some (Err err) => Err err
     end, w).
Proof.
  unfold readDeadSession, saved_of. rewrite Hpersist. cbn [negb exec interp].
  destruct (loadState dir name (w_fs w)) as [st|err]; [done|]. by destruct (Is_ErrNotExist err).
Qed.

Lemma refines_set_saved w d fs saved' :
  refines dir w d -> fs_ok dir fs ->
  (forall n, name_ok n -> saved' !! n = saved_of dir n fs) ->
  (forall n, is_Some (saved' !! n) -> name_ok n) ->
  refines dir (set_fs fs w) (mkDaemon (d_live d) saved').
Proof. intros [H1 H2 H3 H4 _ _ _] Hfs Hs Hn. by constructor. Qed.

Lemma exec_removeDead e name w d :
  refines dir w d -> name_ok name ->
  exists fs', exec dir e (removeDeadSession s name) w = (Ok tt, set_fs fs' w) /\
    refines dir (set_fs fs' w) (forget name d).
Proof.
  intros HR Hn. destruct (cleanState_ok dir name (w_fs w) Hdir Hn (r_fs _ _ _ HR)) as (fs' & Hc & Hfs & Hs).
  exists fs'. unfold removeDeadSession. rewrite Hpersist. cbn [negb exec interp]. rewrite Hc.
  split; [done|]. unfold forget. apply refines_set_saved; [done..| |].
  - intros m Hm. rewrite Hs by done. case_bool_decide as Hmn.
    + subst m. apply lookup_delete_eq.
    + rewrite lookup_delete_ne by done. by apply (r_saved _ _ _ HR).
  - intros m [x Hx]. apply lookup_delete_Some in Hx as [_ Hx]. apply (r_saved_names _ _ _ HR). by eexists.
Qed.

Lemma exec_writeDead e name st w d :
  refines dir w d -> name_ok name -> state_ok st ->
  exists fs', exec dir e (writeDeadSession s name st) w = (Ok tt, set_fs fs' w) /\
    refines dir (set_fs fs' w) (keep name st d).
Proof.
  intros HR Hn Hst.
  destruct (writeState_ok dir name st (w_fs w) Hdir Hn (r_fs _ _ _ HR) Hst) as (seen & fs' & Hw & Hfs & Hs).
  exists fs'. unfold writeDeadSession. rewrite Hpersist. cbn [negb exec interp]. rewrite Hw.
  split; [done|]. unfold keep. apply refines_set_saved; [done..| |].
  - intros m Hm. rewrite Hs by done. case_bool_decide as Hmn.
    + subst m. apply lookup_insert_eq.
    + rewrite lookup_insert_ne by done. by apply (r_saved _ _ _ HR).
  - intros m [x Hx]. apply lookup_insert_Some in Hx as [[<- _]|[_ Hx]]; [done|].
    apply (r_saved_names _ _ _ HR). by eexists.
Qed.

(** *** Sessions *)

(** A session that was started, before it is in the map. *)
Definition started (name : string) (w : world) : world :=
  mkWorld (w_live w) (<[w_next w := name]> (w_ident w)) (S (w_next w)) (w_fs w) (w_sent w).

Lemma refines_started name w d : refines dir w d -> refines dir (started name w) d.
Proof.
  intros [H1 H2 H3 H4 H5 H6 H7]. constructor; cbn; try done.
  - intros n p Hp. rewrite lookup_insert_ne; [by apply H3|].
    intros <-. specialize (H4 (w_next w)). rewrite (H3 _ _ Hp) in H4. ospecialize (H4 _); [by eexists|lia].
  - intros p [x Hx]. apply lookup_insert_Some in Hx as [[<- _]|[_ Hx]]; [lia|].
    ospecialize (H4 p _); [by eexists|lia].
Qed.

(** It enters the map. *)
Lemma refines_live name w d :
  refines dir w d -> name_ok name ->
  refines dir (set_live (<[name := w_next w]> (w_live w)) (started name w)) (go_live name d).
Proof.
  intros HR Hn. destruct (refines_started name w d HR) as [H1 H2 H3 H4 H5 H6 H7].
  constructor; cbn in *; try done.
  - by rewrite dom_insert_L, H1.
  - intros n. rewrite elem_of_union, elem_of_singleton. intros [->|?]; auto.
  - intros n p. rewrite lookup_insert_Some. intros [[<- <-]|[_ Hp]]; [apply lookup_insert_eq|by apply H3].
Qed.

Lemma refines_send m w d : refines dir w d -> refines dir (send m w) d.
Proof. by intros []. Qed.

Lemma live_lookup w d n :
  refines dir w d -> (bool_decide (n ∈ d_live d) = true <-> exists p, w_live w !! n = Some p).
Proof. intros HR. rewrite bool_decide_eq_true, <- (r_live _ _ _ HR), elem_of_dom. done. Qed.

Lemma live_true w d n p : refines dir w d -> w_live w !! n = Some p -> bool_decide (n ∈ d_live d) = true.
Proof. intros HR Hp. apply (live_lookup w d n HR). eauto. Qed.

Lemma live_false w d n : refines dir w d -> w_live w !! n = None -> bool_decide (n ∈ d_live d) = false.
Proof.
  intros HR Hp. destruct (bool_decide _) eqn:E; [|done].
  apply (live_lookup w d n HR) in E as [p E]. congruence.
Qed.

(** What an action must do. *)
Definition step_ok (w w' : world) (res : option Message * daemon) : Prop :=
  refines dir w' (snd res) /\ w_sent w' = w_sent w ++ option_list (fst res).

Lemma fail_ok msg w w' d :
  refines dir w' d -> w_sent w' = w_sent w ->
  step_ok w (send (MsgError (mkError msg)) w') (fail msg d).
Proof. intros HR Hs. split; [by apply refines_send|]. cbn. by rewrite Hs. Qed.

(** *** Actions *)

Lemma exec_reserve e name w :
  name <> "" -> exec dir e (reserveSessionName s name) w = (Ok name, w).
Proof.
  intros Hn. unfold reserveSessionName. by rewrite (proj2 (String.eqb_neq _ _) Hn).
Qed.

Lemma exec_prepareCreate e name force w d :
  refines dir w d -> name_ok name ->
  match d_saved d !! name, force with
  | Some (Ok _), false =>
      exec dir e (prepareCreateDeadSession s name force) w =
        (Some (Errorf (deadSessionStateExistsMessage name)), w)
  | Some (Err err), false =>
      exec dir e (prepareCreateDeadSession s name force) w =
        (Some (Wrapf "load dead session state" err), w)
  | None, false => exec dir e (prepareCreateDeadSession s name force) w = (None, w)
  | _, true =>
      exists fs', exec dir e (prepareCreateDeadSession s name force) w = (None, set_fs fs' w) /\
        refines dir (set_fs fs' w) (forget name d)
  end.
Proof.
  intros HR Hn. rewrite (r_saved _ _ _ HR) by done.
  destruct (exec_removeDead e name w d HR Hn) as (fs' & Hrm & HR').
  unfold prepareCreateDeadSession.
  destruct (saved_of dir name (w_fs w)) as [[st|err]|] eqn:Es, force; exec_go;
    rewrite ?exec_readDead, ?Es; exec_go; rewrite ?Hrm; cbn [exec]; eauto.
Qed.

(** Starting, inserting and watching a session that is not in the map. *)
Lemma create_ok e m w d :
  refines dir w d -> Create_Name m <> "" -> name_ok (Create_Name m) ->
  step_ok w (snd (exec dir e (handleCreate s m) w)) (spec_create s e m d).
Proof.
  intros HR Hne Hn. unfold handleCreate, spec_create. exec_go. rewrite exec_reserve by done. exec_go.
  destruct (w_live w !! Create_Name m) as [p|] eqn:El.
  { rewrite (live_true w d _ _ HR El). exec_go. by apply fail_ok. }
  rewrite (live_false w d _ HR El). exec_go.
  pose proof (exec_prepareCreate e (Create_Name m) (Create_Force m) w d HR Hn) as Hprep.
  set (spec0 := mkStartSpec _ _ _ _ _ _).
  assert (Hgo : forall w1 d1, refines dir w1 d1 -> w_live w1 = w_live w -> w_sent w1 = w_sent w ->
    step_ok w
      (snd (exec dir e
         (do! sess := NewSession spec0 in
          match sess with
          | Err err => writeError (error_text err)
          | Ok sess =>
              call! added := addSession (Create_Name m) sess in
              if negb added then do! _ := CloseSession sess in writeError "session already exists"
              else do! (_, pid) := SessionIdent sess in write (MsgCreated (mkCreated (Create_Name m) pid))
          end) w1))
      (match e_start e spec0 with
       | Some err => fail (error_text err) d1
       | None => (Some (MsgCreated (mkCreated (Create_Name m) (e_pid e))), go_live (Create_Name m) d1)
       end)).
  { intros w1 d1 HR1 Hl Hs. exec_go. unfold start. destruct (e_start e spec0) as [err|].
    - exec_go. by apply fail_ok.
    - unfold addSession, insertSessionOrExisting. exec_go. cbn [w_live]. rewrite Hl, El. exec_go.
      split; [|cbn; by rewrite Hs]. apply refines_send. rewrite <- Hl. by apply refines_live. }
  destruct (d_saved d !! Create_Name m) as [[st|err]|], (Create_Force m);
    try (rewrite Hprep; exec_go; by apply fail_ok).
  all: try (rewrite Hprep; by apply Hgo).
  all: destruct Hprep as (fs' & -> & HR'); by apply Hgo.
Qed.

(** The session of a failed attach leaves the map again. *)
Lemma refines_undo name w d :
  refines dir w d -> w_live w !! name = None ->
  refines dir (set_live (delete name (<[name := w_next w]> (w_live w)))
                 (set_live (<[name := w_next w]> (w_live w)) (started name w))) d.
Proof.
  intros HR El. rewrite delete_insert_id by done.
  replace (set_live (w_live w) _) with (started name w) by reflexivity. by apply refines_started.
Qed.

Lemma attach_ok e m w d :
  refines dir w d -> Attach_Restore m = false -> Attach_Name m <> "" -> name_ok (Attach_Name m) ->
  step_ok w (snd (exec dir e (handleAttach s m Version) w)) (spec_attach s e m d).
Proof.
  intros HR Hre Hne Hn. unfold handleAttach, spec_attach, attach_session, attach_fail. rewrite Hre.
  exec_go. rewrite exec_reserve by done. exec_go.
  destruct (w_live w !! Attach_Name m) as [p|] eqn:El.
  { rewrite (live_true w d _ _ HR El). exec_go. destruct (e_attach e) as [err|].
    - exec_go. by apply fail_ok.
    - exec_go. split; [done|]. cbn. by rewrite app_nil_r. }
  rewrite (live_false w d _ HR El). exec_go. rewrite exec_readDead. rewrite (r_saved _ _ _ HR) by done.
  destruct (saved_of dir (Attach_Name m) (w_fs w)) as [[st|err]|]; exec_go; try by apply fail_ok.
  unfold start. cbn [ss_name attach_start].
  destruct (e_start e (attach_start s (Attach_Name m) m)) as [err|]; exec_go; [by apply fail_ok|].
  unfold insertSessionOrExisting. exec_go. cbn [w_live]. rewrite El. exec_go.
  destruct (e_attach e) as [err|]; exec_go.
  - apply fail_ok; [|done]. by apply refines_undo.
  - split; [by apply refines_live|]. cbn. by rewrite app_nil_r.
Qed.

(** A restore that removed the state and fails writes it back. *)
Lemma forget_keep name st d :
  d_saved d !! name = Some (Ok st) -> saved_form st = st -> keep name st (forget name d) = d.
Proof.
  intros Hs Hf. unfold keep, forget. cbn. rewrite Hf, insert_delete_eq, insert_id by done. by destruct d.
Qed.

Lemma restore_ok e m w d :
  refines dir w d -> Attach_Restore m = true -> Attach_Name m <> "" -> name_ok (Attach_Name m) ->
  step_ok w (snd (exec dir e (handleAttach s m Version) w)) (spec_restore s e m d).
Proof.
  intros HR Hre Hne Hn. unfold handleAttach, spec_restore. rewrite Hre.
  unfold handleAttachRestore, prepareRestoreDeadSession, attach_fail.
  rewrite (proj2 (String.eqb_neq _ _) Hne), Hpersist. exec_go.
  destruct (w_live w !! Attach_Name m) as [p|] eqn:El.
  { rewrite (live_true w d _ _ HR El). exec_go. by apply fail_ok. }
  rewrite (live_false w d _ HR El). exec_go. rewrite exec_readDead. rewrite (r_saved _ _ _ HR) by done.
  destruct (saved_of dir (Attach_Name m) (w_fs w)) as [[st|err]|] eqn:Es; exec_go; try by apply fail_ok.
  unfold start. cbn [ss_name attach_start].
  destruct (e_start e (attach_start s (Attach_Name m) m)) as [err|]; exec_go; [by apply fail_ok|].
  unfold insertSession, insertSessionOrExisting. exec_go. cbn [w_live]. rewrite El. exec_go.
  unfold commitRestoreDeadSession. exec_go.
  pose proof (refines_live (Attach_Name m) w d HR Hn) as HR1.
  destruct (exec_removeDead e (Attach_Name m) _ _ HR1 Hn) as (fs1 & Hrm & HR2).
  change (mkWorld (w_live w) (<[w_next w := Attach_Name m]> (w_ident w)) (S (w_next w)) (w_fs w) (w_sent w))
    with (started (Attach_Name m) w).
  rewrite Hrm. exec_go. destruct (e_attach e) as [err|]; exec_go.
  2: { split; [exact HR2|]. cbn. by rewrite app_nil_r. }
  destruct (saved_of_saved_form _ _ _ _ Es) as [Hst Hform].
  unfold rollbackRestoreDeadSession. exec_go.
  assert (HR3 : refines dir (set_fs fs1 (started (Attach_Name m) w)) (forget (Attach_Name m) d)).
  { destruct (exec_removeDead e (Attach_Name m) _ _ (refines_started (Attach_Name m) w d HR) Hn)
      as (fs2 & Hrm2 & HR3).
    assert (fs2 = fs1) as ->; [|done].
    unfold removeDeadSession in Hrm, Hrm2. rewrite Hpersist in Hrm, Hrm2.
    cbn [negb exec interp] in Hrm, Hrm2. cbn [w_fs set_live started] in Hrm, Hrm2.
    destruct (cleanState _ _ _ _) as [fs r].
    apply (f_equal (fun x => w_fs (snd x))) in Hrm, Hrm2. cbn in Hrm, Hrm2. congruence. }
  assert (Hw : set_live (delete (Attach_Name m) (w_live
      (set_fs fs1 (set_live (<[Attach_Name m := w_next w]> (w_live w)) (started (Attach_Name m) w)))))
      (set_fs fs1 (set_live (<[Attach_Name m := w_next w]> (w_live w)) (started (Attach_Name m) w)))
    = set_fs fs1 (started (Attach_Name m) w)).
  { unfold set_live, set_fs, started. cbn. by rewrite delete_insert_id. }
  rewrite Hw.
  destruct (exec_writeDead e (Attach_Name m) st _ _ HR3 Hn Hst) as (fs3 & -> & HR4). exec_go.
  rewrite forget_keep in HR4; [by apply fail_ok|by rewrite (r_saved _ _ _ HR)|done].
Qed.

Lemma prune_loop e names : forall c w d,
  refines dir w d -> Forall name_ok names ->
  exists fs', exec dir e (pruneDeadSessions_loop s names (u32 c)) w =
      (Ok (u32 (c + Z.of_nat (length names))), set_fs fs' w) /\
    refines dir (set_fs fs' w) (mkDaemon (d_live d) (filter (fun x => x.1 ∉ names) (d_saved d))).
Proof.
  induction names as [|n names IH]; intros c w d HR Hok; cbn [pruneDeadSessions_loop].
  - exists (w_fs w). split; [cbn; rewrite Z.add_0_r; by destruct w|].
    replace (filter _ (d_saved d)) with (d_saved d); [by destruct w, d|].
    symmetry. apply map_filter_id. intros. apply not_elem_of_nil.
  - apply list.Forall_cons in Hok as [Hn Hok]. exec_go.
    destruct (exec_removeDead e n w d HR Hn) as (fs1 & -> & HR1). cbn beta iota.
    replace (u32 (u32 c + 1)) with (u32 (c + 1)) by (unfold u32; by rewrite Zplus_mod_idemp_l).
    destruct (IH (c + 1) _ _ HR1 Hok) as (fs2 & -> & HR2). exists fs2. split.
    + do 3 f_equal. cbn [length]. lia.
    + replace (filter _ (d_saved d)) with (filter (fun x => x.1 ∉ names) (d_saved (forget n d))); [done|].
      apply map_eq. intros k. apply option_eq. intros x. cbn [forget d_saved].
      rewrite !map_lookup_filter_Some, lookup_delete_Some. cbn [fst]. rewrite not_elem_of_cons. naive_solver.
Qed.

Lemma pruned_ok e w d : refines dir w d ->
  step_ok w (snd (exec dir e (handlePrune s) w)) (spec_prune d).
Proof.
  intros HR. unfold handlePrune, pruneDeadSessions, deadSessionNames, liveSessionNames.
  rewrite Hpersist. exec_go.
  destruct (listDead_ok dir (fun n => bool_decide (n ∈ dom (w_live w))) (w_fs w) Hdir (r_fs _ _ _ HR))
    as (names & -> & Hnd & Hin). exec_go.
  assert (Hnames : forall n, n ∈ names <-> n ∉ d_live d /\ is_Some (d_saved d !! n)).
  { intros n. rewrite Hin, bool_decide_eq_false, (r_live _ _ _ HR). split.
    - intros (Hn & Hl & Hs). by rewrite (r_saved _ _ _ HR).
    - intros [Hl Hs]. pose proof (r_saved_names _ _ _ HR n Hs) as Hn.
      by rewrite <- (r_saved _ _ _ HR). }
  destruct (prune_loop e names 0 w d HR) as (fs' & Hloop & HR').
  { apply list.Forall_forall. intros n Hn. by apply Hin in Hn as [? _]. }
  change (exec dir e (pruneDeadSessions_loop s names 0) w) with
    (exec dir e (pruneDeadSessions_loop s names (u32 0)) w).
  rewrite Hloop. exec_go. unfold spec_prune.
  assert (Hlive : filter (fun x => x.1 ∉ names) (d_saved d) =
                  filter (fun x : string * result sessionState => x.1 ∈ d_live d) (d_saved d)).
  { apply map_filter_ext. intros n x Hx. cbn. rewrite Hnames. split.
    - intros H. destruct (decide (n ∈ d_live d)); [done|]. exfalso. apply H. split; [done|by eexists].
    - by intros Hl [? _]. }
  assert (Hsize : length names =
    size (filter (fun x : string * result sessionState => x.1 ∉ d_live d) (d_saved d))).
  { rewrite <- size_dom, <- (size_list_to_set (C := gset string) names Hnd). f_equal.
    apply set_eq. intros n. rewrite elem_of_list_to_set, Hnames, elem_of_dom. split.
    - intros [Hl [x Hx]]. exists x. by apply map_lookup_filter_Some.
    - intros [x [Hx Hl]%map_lookup_filter_Some]. split; [done|by eexists]. }
  rewrite Z.add_0_l, Hsize. split; [rewrite <- Hlive; by apply refines_send|done].
Qed.

Lemma kill_ok e m w d : refines dir w d ->
  step_ok w (snd (exec dir e (handleKill m) w)) (spec_kill (Kill_Name m) d).
Proof.
  intros HR. unfold handleKill, spec_kill. exec_go.
  destruct (w_live w !! Kill_Name m) as [p|] eqn:El.
  - rewrite (live_true w d _ _ HR El). exec_go. split; [by apply refines_send|done].
  - rewrite (live_false w d _ HR El). exec_go. by apply fail_ok.
Qed.

(** *** The end of a session *)

Lemma refines_gone name w d :
  refines dir w d ->
  refines dir (set_live (delete name (w_live w)) w) (mkDaemon (d_live d ∖ {[name]}) (d_saved d)).
Proof.
  intros [H1 H2 H3 H4 H5 H6 H7]. constructor; cbn; try done.
  - by rewrite dom_delete_L, H1.
  - intros n [? _]%elem_of_difference. auto.
  - intros n p [_ Hp]%lookup_delete_Some. by apply H3.
Qed.

Lemma save_ok e name w d :
  refines dir w d -> name_ok name -> env_ok e ->
  exists fs' err, saveSession no_faults dir name (e_snapshot e) (w_fs w) = (fs', err) /\
    refines dir (set_fs fs' w)
      (match lv_snapshot (e_snapshot e) with
       | Ok snap =>
           let st := live_form (e_snapshot e) snap in
           if is_ok (encodeState st) then keep name st d else d
       | Err _ => d
       end).
Proof.
  intros HR Hn (Hc & Hr & Ht). unfold saveSession.
  destruct (lv_snapshot (e_snapshot e)) as [snap|err]; [|do 2 eexists; split; [done|by destruct w]].
  fold (live_form (e_snapshot e) snap). cbv zeta.
  destruct (encodeState (live_form (e_snapshot e) snap)) as [data|err] eqn:He; cbn [is_ok].
  - apply encodeState_Ok_inv in He as [Hl _].
    destruct (exec_writeDead e name (live_form (e_snapshot e) snap) w d HR Hn
      (conj Hc (conj Hr (conj Ht Hl)))) as (fs1 & Hw & HR1).
    unfold writeDeadSession in Hw. rewrite Hpersist in Hw. cbn [negb exec interp] in Hw.
    destruct (writeStateInDir _ _ _ _ _) as [[seen fs2] r]. cbn in Hw. injection Hw as -> Hw.
    exists fs2, None. split; [done|]. by rewrite Hw.
  - unfold writeStateInDir. rewrite He. do 2 eexists. split; [done|]. by destruct w.
Qed.

Lemma exit_ok e name w d :
  refines dir w d -> env_ok e ->
  step_ok w (act_code e (Exit name) w) (None, spec_exit e name d).
Proof.
  intros HR He. unfold act_code, spec_exit.
  destruct (w_live w !! name) as [p|] eqn:El.
  2: { rewrite (live_false w d _ HR El). split; [done|]. by rewrite app_nil_r. }
  rewrite (live_true w d _ _ HR El). pose proof (r_ident _ _ _ HR _ _ El) as Hp.
  assert (Hn : name_ok name).
  { apply (r_names _ _ _ HR). rewrite <- (r_live _ _ _ HR). apply elem_of_dom. by eexists. }
  unfold watchSession. rewrite Hpersist. exec_go. rewrite Hp. cbn [default id andb].
  destruct (save_ok e name w d HR Hn He) as (fs' & err & Hsave & HR').
  destruct (e_stopped e); cbn [negb andb]; exec_go.
  - assert (Hs : step_ok w (set_live (delete name (w_live w)) w)
      (None, mkDaemon (d_live d ∖ {[name]}) (d_saved d)))
      by (split; [by apply refines_gone|by rewrite app_nil_r]).
    destruct (autoExit s && _); exec_go; destruct (lv_snapshot (e_snapshot e)); exact Hs.
  - rewrite Hp. cbn [default id from_option]. rewrite Hsave. exec_go.
    assert (Hs : step_ok w (set_live (delete name (w_live (set_fs fs' w))) (set_fs fs' w))
      (None, match lv_snapshot (e_snapshot e) with
             | Ok snap =>
                 let st := live_form (e_snapshot e) snap in
                 if is_ok (encodeState st)
                 then keep name st (mkDaemon (d_live d ∖ {[name]}) (d_saved d))
                 else mkDaemon (d_live d ∖ {[name]}) (d_saved d)
             | Err _ => mkDaemon (d_live d ∖ {[name]}) (d_saved d)
             end)).
    { split; [|by rewrite app_nil_r]. apply (refines_gone name) in HR'. cbn [snd].
      destruct (lv_snapshot (e_snapshot e)) as [snap|]; [|exact HR'].
      cbv zeta in HR' |- *. destruct (is_ok _); exact HR'. }
    destruct (autoExit s && _); exec_go; exact Hs.
Qed.

(** Every action of the code is a step of the abstract daemon. *)
Lemma action_refines e act w d :
  refines dir w d -> action_ok act -> env_ok e ->
  step_ok w (act_code e act w) (spec s e act d).
Proof.
  intros HR Hact He. destruct act as [req|name]; [|by apply exit_ok].
  destruct req; try done; cbn [act_code spec control_message action_ok] in *.
  - destruct Hact as [Hne Hn]. rewrite exec_bind. pose proof (create_ok e m w d HR) as H.
    destruct (exec dir e (handleCreate s m) w) as [a w1]. by apply H.
  - destruct Hact as [Hne Hn]. rewrite exec_bind. destruct (Attach_Restore m) eqn:Hre.
    + pose proof (restore_ok e m w d HR Hre Hne Hn) as H.
      by destruct (exec dir e (handleAttach s m Version) w) as [a w1].
    + pose proof (attach_ok e m w d HR Hre Hne Hn) as H.
      by destruct (exec dir e (handleAttach s m Version) w) as [a w1].
  - rewrite exec_bind. pose proof (kill_ok e m w d HR) as H.
    by destruct (exec dir e (handleKill m) w) as [a w1].
  - rewrite exec_bind. pose proof (pruned_ok e w d HR) as H.
    by destruct (exec dir e (handlePrune s) w) as [a w1].
Qed.
End Refinement.

(** ** Properties *)

Fixpoint run_code (dir : string) (s : Server) (Version : string) (acts : list (env * action))
    (w : world) : world :=
  match acts with
  | [] => w
  | (e, act) :: acts => run_code dir s Version acts (act_code dir s Version e act w)
  end.

(** The replies of the abstract daemon, and where it ends. *)
Fixpoint run_spec (s : Server) (acts : list (env * action)) (d : daemon) : list Message * daemon :=
  match acts with
  | [] => ([], d)
  | (e, act) :: acts =>
      let '(m, d) := spec s e act d in
      let '(ms, d) := run_spec s acts d in
      (option_list m ++ ms, d)
  end.

(** C9. The daemon implements the abstract daemon of names: any sequence of creates,
    attaches, restores, prunes, kills and session ends, whatever the rest of the
    system answers, leaves exactly the live names and saved states, and sends
    exactly the replies, that the abstract daemon gives for that sequence. *)
Theorem daemon_refines dir s Version acts w d :
  dir_ok dir -> has_persister s = true ->
  Forall (fun x => env_ok (fst x) /\ action_ok (snd x)) acts -> refines dir w d ->
  refines dir (run_code dir s Version acts w) (snd (run_spec s acts d)) /\
  w_sent (run_code dir s Version acts w) = w_sent w ++ fst (run_spec s acts d).
Proof.
  intros Hdir Hp Hall. revert w d. induction Hall as [|[e act] acts [He Hact] _ IH]; intros w d HR.
  - split; [done|]. cbn. by rewrite app_nil_r.
  - cbn [run_code run_spec].
    destruct (action_refines dir Hdir s Version Hp e act w d HR Hact He) as [HR' Hs].
    destruct (spec s e act d) as [m d'] eqn:E. cbn [fst snd] in *.
    destruct (IH _ _ HR') as [IH1 IH2]. destruct (run_spec s acts d') as [ms d''].
    cbn [fst snd] in *. split; [done|]. by rewrite IH2, Hs, app_assoc.
Qed.

Definition ex_env : env :=
  mkEnv (fun _ => None) None 7 42 true None (Ok []) (Ok [])
    (mkLive (Ok [Byte.x41]) 80 24 0) (fun _ => O) 1000 false (Err EOF) true.

Definition ex_daemon : Server :=
  mkServer "/run/hauntty.sock" "/run/hauntty.pid" "/run/hauntty.lock" true 10000 false.

(** Create, end of the session, attach refused, restore, prune. *)
Definition ex_acts : list (env * action) :=
  [(ex_env, Request (MsgCreate (mkCreate "a" [] [] "" 0 false)));
   (ex_env, Exit "a");
   (ex_env, Request (MsgCreate (mkCreate "a" [] [] "" 0 false)));
   (ex_env, Request (MsgAttach (mkAttach "a" [] [] "" 80 24 0 0 false true 0)));
   (ex_env, Exit "a");
   (ex_env, Request (MsgPrune mkPrune))].

Definition ex_world : world := mkWorld ∅ ∅ 0 {[wit_dir := Dir]} [].

Lemma ex_world_refines : refines wit_dir ex_world (mkDaemon ∅ ∅).
Proof.
  constructor; cbn [w_live w_ident w_next w_fs ex_world d_live d_saved].
  - apply dom_empty_L.
  - intros n Hn. by apply not_elem_of_empty in Hn.
  - intros n p Hp. by rewrite lookup_empty in Hp.
  - intros p [x Hx]. by rewrite lookup_empty in Hx.
  - split; [split|].
    + intros data. by rewrite lookup_singleton_eq.
    + intros p [Hp _]%lookup_singleton_Some. done.
    + by rewrite lookup_singleton_eq.
  - intros n Hn. rewrite lookup_empty. unfold saved_of, loadState, os_ReadFile.
    rewrite lookup_singleton_ne; [done|]. by apply (dir_ne_state wit_dir n wit_dir_ok).
  - intros n [x Hx]. by rewrite lookup_empty in Hx.
Qed.

Lemma daemon_refines_witness :
  exists d, refines wit_dir (run_code wit_dir ex_daemon "v1" ex_acts ex_world) d /\
    d_live d = ∅ /\ d_saved d = ∅ /\
    w_sent (run_code wit_dir ex_daemon "v1" ex_acts ex_world) =
      [MsgCreated (mkCreated "a" 42);
       MsgError (mkError (deadSessionStateExistsMessage "a"));
       MsgPruneResponse (mkPruneResponse 1)].
Proof.
  assert (Hall : Forall (fun x => env_ok (fst x) /\ action_ok (snd x)) ex_acts)
    by (unfold ex_acts; repeat (constructor; [split; vm_compute; repeat split; discriminate|]); constructor).
  destruct (daemon_refines wit_dir ex_daemon "v1" ex_acts ex_world (mkDaemon ∅ ∅)
    wit_dir_ok eq_refl Hall ex_world_refines) as [HR Hs].
  exists (snd (run_spec ex_daemon ex_acts (mkDaemon ∅ ∅))). split; [exact HR|].
  rewrite Hs. split; [|split]; vm_compute; reflexivity.
Defined.
