(* ===== verification/ShellEnv.v ===== *)
(** * ShellEnv: the command and environment of a session's process

    Models [internal/daemon/shell.go], [resolveShellCommand] of [session.go] and
    [launchSessionProcess] of [session_lifecycle.go]. An environment is the list
    of its [KEY=value] entries, in order and with duplicates. *)
From Stdlib Require Import ZArith Lia Ascii.
From stdpp Require Import base list strings numbers option.
From S2P Require Import Prelude GoStrings Resize Proc Server.
#[local] Open Scope Z_scope.

(** ** Environments *)

Fixpoint getEnv (env : list string) (key : string) : string :=
  match env with
  | [] => ""
  | e :: env' =>
      if HasPrefix e (key +:+ "=") then str_drop (String.length (key +:+ "=")) e
      else getEnv env' key
  end.

Fixpoint setEnv (env : list string) (key value : string) : list string :=
  match env with
  | [] => [(key +:+ "=") +:+ value]
  | e :: env' =>
      if HasPrefix e (key +:+ "=") then ((key +:+ "=") +:+ value) :: env'
      else e :: setEnv env' key value
  end.

(** The inner loop of [mergeEnv] and the append after it. *)
Fixpoint merge_one (merged : list string) (pre ov : string) : list string :=
  match merged with
  | [] => [ov]
  | e :: merged' =>
      if HasPrefix e pre then ov :: merged' else e :: merge_one merged' pre ov
  end.

Definition mergeEnv (base overrides : list string) : list string :=
  fold_left (fun merged ov =>
    let '(k, _, _) := Cut ov "=" in merge_one merged (k +:+ "=") ov) overrides base.

(** [os.Getenv("SHELL")] is [osShell]. *)
Definition resolveShellCommand (osShell : string) (command env : list string) : list string :=
  match command with
  | _ :: _ => command
  | [] =>
      let fix loop (l : list string) : list string :=
        match l with
        | [] => if String.eqb osShell "" then ["/bin/sh"] else [osShell]
        | e :: l' =>
            if (6 <? String.length e)%nat && String.eqb (str_take 6 e) "SHELL="
            then [str_drop 6 e] else loop l'
        end in
      loop env
  end.

(** ** Shell integration *)

(** What the launch of a process asks of the system. *)
Inductive lop : Type -> Type :=
| Environ : lop (list string)
| Getenv (key : string) : lop string
| MkdirTemp (dir pattern : string) : lop (result string)
| WriteFile (path data : string) : lop (option error)
| RemoveAll (path : string) : lop unit
| StartWithSize (args env : list string) (dir : string) (size : Winsize) : lop (result Z).

Abbreviation lproc := (Proc.proc lop).

Definition detectShell (executable : string) : string :=
  let base := TrimPrefix (filepath_Base executable) "-" in
  if String.eqb base "zsh" then "zsh"
  else if String.eqb base "bash" then "bash"
  else if String.eqb base "fish" then "fish"
  else "".

Definition nl : string := String (Ascii.ascii_of_nat 10) EmptyString.

(** The text of the generated [.zshenv]. *)
Definition zshenv (origZdotdir realZdotdir resourcesDir : string) : string :=
  let integrationScript :=
    filepath_Join [resourcesDir; "shell-integration"; "zsh"; "ghostty-integration"] in
  let userZshenv := filepath_Join [realZdotdir; ".zshenv"] in
  (if negb (String.eqb origZdotdir "") then "export ZDOTDIR=" +:+ Quote origZdotdir +:+ nl
   else "unset ZDOTDIR" +:+ nl) +:+
  "source " +:+ Quote integrationScript +:+ nl +:+
  "[[ -f " +:+ Quote userZshenv +:+ " ]] && source " +:+ Quote userZshenv +:+ nl.

(** Command, environment, temporary directory and error. *)
Definition launchEnv : Type := list string * list string * string * option error.

Definition setupZsh (command env : list string) (resourcesDir : string) : lproc launchEnv :=
  let origZdotdir := getEnv env "ZDOTDIR" in
  do! tmpDir := MkdirTemp "" "hauntty-zsh-*" in
  match tmpDir with
  | Err e => Ret (command, env, "", Some (Wrapf "create zsh temp dir" e))
  | Ok tmpDir =>
      call! realZdotdir := (if String.eqb origZdotdir ""
                            then do! home := Getenv "HOME" in Ret home
                            else Ret origZdotdir) in
      do! err := WriteFile (filepath_Join [tmpDir; ".zshenv"])
                   (zshenv origZdotdir realZdotdir resourcesDir) in
      match err with
      | Some e =>
          do! _ := RemoveAll tmpDir in
          Ret (command, env, "", Some (Wrapf "write .zshenv" e))
      | None => Ret (command, setEnv env "ZDOTDIR" tmpDir, tmpDir, None)
      end
  end.

Definition setupBash (env : list string) (resourcesDir : string) : list string :=
  let integrationScript :=
    filepath_Join [resourcesDir; "shell-integration"; "bash"; "ghostty.bash"] in
  setEnv (setEnv (setEnv env "GHOSTTY_BASH_INJECT" "1") "ENV" integrationScript)
    "BASH_ENV" integrationScript.

Definition setupFish (env : list string) (resourcesDir : string) : list string :=
  let fishDir := filepath_Join [resourcesDir; "shell-integration"; "fish"] in
  let existing := getEnv env "XDG_DATA_DIRS" in
  let existing := if String.eqb existing "" then "/usr/local/share:/usr/share" else existing in
  setEnv env "XDG_DATA_DIRS" (fishDir +:+ ":" +:+ existing).

(** [command] is not empty: it comes from [resolveShellCommand]. *)
Definition prepareShellLaunch (command env : list string) (sessionName : string) : lproc launchEnv :=
  let modifiedEnv := setEnv env "HAUNTTY_SESSION" sessionName in
  let resourcesDir := getEnv modifiedEnv "GHOSTTY_RESOURCES_DIR" in
  if String.eqb resourcesDir "" then Ret (command, modifiedEnv, "", None)
  else
    let shell := detectShell (hd "" command) in
    if String.eqb shell "zsh" then setupZsh command modifiedEnv resourcesDir
    else if String.eqb shell "bash" then Ret (command, setupBash modifiedEnv resourcesDir, "", None)
    else if String.eqb shell "fish" then Ret (command, setupFish modifiedEnv resourcesDir, "", None)
    else Ret (command, modifiedEnv, "", None).

Record sessionLaunch := mkLaunch { l_pid : Z; l_tempDir : string }.

Definition launchSessionProcess (spec : sessionStartSpec) : lproc (result sessionLaunch) :=
  do! environ := Environ in
  let env := mergeEnv environ (ss_env spec) in
  do! osShell := Getenv "SHELL" in
  let command := resolveShellCommand osShell (ss_command spec) env in
  call! (shellArgs, shellEnv, tempDir, err) := prepareShellLaunch command env (ss_name spec) in
  let shellArgs := match err with Some _ => command | None => shellArgs end in
  let shellEnv := match err with Some _ => env | None => shellEnv end in
  do! ptmx := StartWithSize shellArgs shellEnv (ss_cwd spec) (winsize (ss_size spec)) in
  match ptmx with
  | Err e =>
      if negb (String.eqb tempDir "") then do! _ := RemoveAll tempDir in Ret (Err e)
      else Ret (Err e)
  | Ok pid => Ret (Ok (mkLaunch pid tempDir))
  end.

(** ** Lookup *)

Definition eq_ch : ascii := "="%char.

Lemma HasPrefix_key a b v :
  no_char eq_ch a = true -> no_char eq_ch b = true ->
  HasPrefix ((a +:+ "=") +:+ v) (b +:+ "=") = String.eqb a b.
Proof.
  unfold HasPrefix. revert b. induction a as [|x a IH]; intros [|y b] Ha Hb.
  - rewrite !str_app_nil. apply HasPrefix_app.
  - rewrite !str_app_nil, str_app_cons. cbn in Hb. rewrite str_app_cons, prefix_cons.
    apply andb_true_iff in Hb as [Hy _]. destruct (ascii_dec y "=") as [->|]; [done|done].
  - rewrite str_app_nil, !str_app_cons. rewrite prefix_cons. cbn in Ha.
    apply andb_true_iff in Ha as [Hx _]. destruct (ascii_dec "=" x) as [<-|]; done.
  - rewrite !str_app_cons, prefix_cons. cbn in Ha, Hb.
    apply andb_true_iff in Ha as [Hx Ha], Hb as [Hy Hb].
    cbn. destruct (ascii_dec y x) as [->|Hn].
    + rewrite Ascii.eqb_refl. by apply IH.
    + destruct (Ascii.eqb x y) eqn:E; [|done]. apply Ascii.eqb_eq in E. by subst.
Qed.

Lemma getEnv_hit env k v e :
  e = (k +:+ "=") +:+ v -> getEnv (e :: env) k = v.
Proof. intros ->. cbn [getEnv]. by rewrite HasPrefix_app, str_drop_app. Qed.

(** Replacing the first entry of [k], as [setEnv] and [mergeEnv] do. *)
Lemma getEnv_merge_one env k v k' :
  no_char eq_ch k = true -> no_char eq_ch k' = true ->
  getEnv (merge_one env (k +:+ "=") ((k +:+ "=") +:+ v)) k' =
    if String.eqb k k' then v else getEnv env k'.
Proof.
  intros Hk Hk'.
  assert (Hhd : forall l, getEnv (((k +:+ "=") +:+ v) :: l) k' =
    if String.eqb k k' then v else getEnv l k').
  { intros l. destruct (String.eqb k k') eqn:E.
    - apply String.eqb_eq in E. subst k'. by apply getEnv_hit.
    - cbn [getEnv]. by rewrite HasPrefix_key, E. }
  induction env as [|e env IH]; [apply Hhd|]. cbn [merge_one].
  destruct (HasPrefix e (k +:+ "=")) eqn:He.
  - rewrite Hhd. destruct (String.eqb k k') eqn:E; [done|].
    apply HasPrefix_spec in He as [rest ->]. cbn [getEnv]. by rewrite HasPrefix_key, E.
  - cbn [getEnv]. destruct (HasPrefix e (k' +:+ "=")) eqn:He'; [|apply IH].
    destruct (String.eqb k k') eqn:E; [|done].
    apply String.eqb_eq in E. subst k'. congruence.
Qed.

Lemma setEnv_merge_one env k v : setEnv env k v = merge_one env (k +:+ "=") ((k +:+ "=") +:+ v).
Proof. induction env as [|e env IH]; [done|]. cbn [setEnv merge_one]. by rewrite IH. Qed.

Lemma getEnv_setEnv env k v k' :
  no_char eq_ch k = true -> no_char eq_ch k' = true ->
  getEnv (setEnv env k v) k' = if String.eqb k k' then v else getEnv env k'.
Proof. rewrite setEnv_merge_one. apply getEnv_merge_one. Qed.

Lemma Cut_key k v : no_char eq_ch k = true -> Cut ((k +:+ "=") +:+ v) "=" = (k, v, true).
Proof.
  induction k as [|x k IH]; intros Hk.
  - rewrite !str_app_nil. cbn [Cut]. destruct v; done.
  - cbn in Hk. apply andb_true_iff in Hk as [Hx Hk]. rewrite !str_app_cons. cbn [Cut].
    rewrite prefix_cons. destruct (ascii_dec "=" x) as [<-|]; [done|]. by rewrite IH.
Qed.

(** A well-formed entry. *)
Definition entry (ov : string) : Prop :=
  exists k v, ov = (k +:+ "=") +:+ v /\ no_char eq_ch k = true.

(** The value of the last entry of [key]. *)
Definition last_value (entries : list string) (key : string) : option string :=
  fold_left (fun acc e =>
    if HasPrefix e (key +:+ "=") then Some (str_drop (String.length (key +:+ "=")) e) else acc)
    entries None.

Lemma mergeEnv_acc overrides : forall base key acc d,
  Forall entry overrides -> no_char eq_ch key = true ->
  getEnv base key = default d acc ->
  getEnv (mergeEnv base overrides) key =
    default d (fold_left (fun acc e =>
      if HasPrefix e (key +:+ "=") then Some (str_drop (String.length (key +:+ "=")) e) else acc)
      overrides acc).
Proof.
  induction overrides as [|ov overrides IH]; intros base key acc d Hov Hkey Hacc; [done|].
  apply list.Forall_cons in Hov as [(k & v & -> & Hk) Hov].
  change (mergeEnv base (((k +:+ "=") +:+ v) :: overrides)) with
    (mergeEnv (let '(k0, _, _) := Cut ((k +:+ "=") +:+ v) "=" in
               merge_one base (k0 +:+ "=") ((k +:+ "=") +:+ v)) overrides).
  rewrite Cut_key by done. cbn [fold_left]. apply IH; [done..|].
  rewrite getEnv_merge_one, HasPrefix_key by done.
  destruct (String.eqb k key) eqn:E; [|done].
  apply String.eqb_eq in E. subst key. by rewrite str_drop_app.
Qed.

(** ** Launches *)

Abbreviation lstep := (Proc.step lop).

(** Temporary directories made and removed; processes started. *)
Definition made (st : lstep) : option string :=
  match st with
  | Step o b =>
      match o in lop B return B -> option string with
      | MkdirTemp _ _ => fun r => match r with Ok d => Some d | Err _ => None end
      | _ => fun _ => None
      end b
  end.

Definition dir_removed (st : lstep) : option string :=
  match st with
  | Step o _ => match o with RemoveAll d => Some d | _ => None end
  end.

Definition started (st : lstep) : option (list string * list string) :=
  match st with
  | Step o _ => match o with StartWithSize args env _ _ => Some (args, env) | _ => None end
  end.

Definition environ_of (st : lstep) : option (list string) :=
  match st with
  | Step o b =>
      match o in lop B return B -> option (list string) with
      | Environ => fun env => Some env
      | _ => fun _ => None
      end b
  end.

(** Failures of the shell integration. *)
Definition integration_failed (st : lstep) : bool :=
  match st with
  | Step o b =>
      match o in lop B return B -> bool with
      | MkdirTemp _ _ => fun r => negb (is_ok r)
      | WriteFile _ _ => fun r => match r with Some _ => true | None => false end
      | _ => fun _ => false
      end b
  end.

Definition kept (r : result sessionLaunch) : list string :=
  match r with
  | Ok l => if String.eqb (l_tempDir l) "" then [] else [l_tempDir l]
  | Err _ => []
  end.

(** What the shell integration may set. *)
Definition integration_vars : list string :=
  ["HAUNTTY_SESSION"; "ZDOTDIR"; "GHOSTTY_BASH_INJECT"; "ENV"; "BASH_ENV"; "XDG_DATA_DIRS"].

(** The environment with the session's name and, apart from the integration, what was
    merged. *)
Definition named_env (merged : list string) (name : string) (env : list string) : Prop :=
  getEnv env "HAUNTTY_SESSION" = name /\
  forall key, no_char eq_ch key = true -> key ∉ integration_vars -> getEnv env key = getEnv merged key.

(** The fallback is only taken when files for zsh could not be made. *)
Definition launch_ok (spec : sessionStartSpec) (tr : list lstep) (r : result sessionLaunch) : Prop :=
  (Forall (fun d => d <> "") (omap made tr) -> omap made tr = omap dir_removed tr ++ kept r) /\
  exists environ args env,
    omap environ_of tr = [environ] /\ omap started tr = [(args, env)] /\ args <> [] /\
    (ss_command spec <> [] -> args = ss_command spec) /\
    let merged := mergeEnv environ (ss_env spec) in
    if existsb integration_failed tr
    then env = merged /\ detectShell (hd "" args) = "zsh"
    else named_env merged (ss_name spec) env.

Lemma resolveShellCommand_nonempty osShell command env : resolveShellCommand osShell command env <> [].
Proof.
  unfold resolveShellCommand. destruct command; [|done].
  induction env as [|e env IH]; [cbn; by destruct (String.eqb osShell "")|].
  cbn -[Nat.ltb String.eqb str_take str_drop]. destruct (_ && _); [done|exact IH].
Qed.

Lemma resolveShellCommand_given osShell command env :
  command <> [] -> resolveShellCommand osShell command env = command.
Proof. by destruct command. Qed.

Lemma named_start env name : named_env env name (setEnv env "HAUNTTY_SESSION" name).
Proof.
  split; [by rewrite getEnv_setEnv|]. intros key Hk Hn. rewrite getEnv_setEnv by done.
  destruct (String.eqb_spec "HAUNTTY_SESSION" key) as [<-|]; [|done]. destruct Hn. by left.
Qed.

(** Setting a variable of the integration other than the name. *)
Lemma named_set env name env' k v :
  k ∈ integration_vars -> k <> "HAUNTTY_SESSION" -> no_char eq_ch k = true ->
  named_env env name env' -> named_env env name (setEnv env' k v).
Proof.
  intros Hin Hne Hk [Hs Ho]. split.
  - rewrite getEnv_setEnv by done. by destruct (String.eqb_spec k "HAUNTTY_SESSION").
  - intros key Hkey Hn. rewrite getEnv_setEnv by done.
    destruct (String.eqb_spec k key) as [<-|]; [done|by apply Ho].
Qed.

Ltac named_go :=
  repeat (apply named_set; [by apply (bool_decide_eq_true_1 _)|done|done|]); apply named_start.

Lemma setupBash_named env name dir :
  named_env env name (setupBash (setEnv env "HAUNTTY_SESSION" name) dir).
Proof. unfold setupBash. named_go. Qed.

Lemma setupFish_named env name dir :
  named_env env name (setupFish (setEnv env "HAUNTTY_SESSION" name) dir).
Proof. unfold setupFish. named_go. Qed.

Ltac tempdir_go :=
  try reflexivity;
  match goal with
  | H : negb (String.eqb "" "") = true |- _ => exfalso; by vm_compute in H
  | H : Forall _ [?d] |- _ =>
      assert (d <> "") by (by inversion H); destruct (String.eqb_spec d "");
      (done || discriminate)
  end.

Lemma launchSessionProcess_ok spec : wp (launchSessionProcess spec) (launch_ok spec).
Proof.
  unfold launchSessionProcess. intros environ osShell.
  set (env := mergeEnv environ (ss_env spec)).
  pose proof (resolveShellCommand_nonempty osShell (ss_command spec) env) as Hne.
  pose proof (resolveShellCommand_given osShell (ss_command spec) env) as Hgiven.
  set (command := resolveShellCommand osShell (ss_command spec) env) in *. clearbody command.
  unfold prepareShellLaunch, setupZsh.
  wp_go; (split; [csimpl; intros Hd; tempdir_go|exists environ]).
  all: subst; do 2 eexists; csimpl; split_and!; try reflexivity; try done.
  all: try (by apply String.eqb_eq).
  all: first [apply setupBash_named | apply setupFish_named | named_go].
Qed.

(** ** Properties *)

(** In the merged environment every variable has the value of its last override,
    and the value it has in the base when it is not overridden. *)
Theorem mergeEnv_overlays base overrides key :
  Forall entry overrides -> no_char eq_ch key = true ->
  getEnv (mergeEnv base overrides) key = default (getEnv base key) (last_value overrides key).
Proof. intros Hov Hkey. by apply mergeEnv_acc. Qed.
Lemma mergeEnv_overlays_witness :
  let overrides := ["LANG=C"; "TERM=xterm"; "LANG=de"] in
  Forall entry overrides /\
  getEnv (mergeEnv ["PATH=/bin"; "LANG=en"] overrides) "LANG" = "de" /\
  getEnv (mergeEnv ["PATH=/bin"; "LANG=en"] overrides) "PATH" = "/bin".
Proof.
  intros overrides.
  assert (Hov : Forall entry overrides).
  { apply list.Forall_cons; split; [by exists "LANG", "C"|].
    apply list.Forall_cons; split; [by exists "TERM", "xterm"|].
    apply list.Forall_cons; split; [by exists "LANG", "de"|]. constructor. }
  split; [exact Hov|].
  pose proof (fun key H => mergeEnv_overlays ["PATH=/bin"; "LANG=en"] overrides key Hov H) as Hget.
  split; [exact (Hget "LANG" eq_refl)|exact (Hget "PATH" eq_refl)].
Defined.

(** C19. A launch starts one process, with the command asked for if there is one. Its
    environment is the daemon's with the session's overrides, and names the session
    whenever the set-up of the shell integration did not fail; the integration changes
    nothing but its own variables. When it failed, which only happens for zsh, the
    environment is the merged one, without the name. Every temporary directory the
    launch makes is removed by it or kept in its result. *)
Theorem launch_environment spec tr r :
  runs (launchSessionProcess spec) tr r -> launch_ok spec tr r.
Proof. apply (wp_runs _ _ _ _ (launchSessionProcess_ok spec)). Qed.

(** A zsh with the integration, and one whose directory cannot be made. *)
Definition ex_launch_spec : sessionStartSpec :=
  mkStartSpec "a" [] ["GHOSTTY_RESOURCES_DIR=/r"] "" (mkTermSize 80 24 0 0) 0.
Definition ex_named_env : list string :=
  ["SHELL=/bin/zsh"; "GHOSTTY_RESOURCES_DIR=/r"; "HAUNTTY_SESSION=a"; "ZDOTDIR=/tmp/z"].
Definition ex_launch : list lstep :=
  [Step Environ ["SHELL=/bin/zsh"]; Step (Getenv "SHELL") "";
   Step (MkdirTemp "" "hauntty-zsh-*") (Ok "/tmp/z"); Step (Getenv "HOME") "/home/a";
   Step (WriteFile "/tmp/z/.zshenv" (zshenv "" "/home/a" "/r")) None;
   Step (StartWithSize ["/bin/zsh"] ex_named_env "" (mkWinsize 24 80 0 0)) (Ok 42)].
Definition ex_plain_env : list string := ["SHELL=/bin/zsh"; "GHOSTTY_RESOURCES_DIR=/r"].
Definition ex_launch_fallback : list lstep :=
  [Step Environ ["SHELL=/bin/zsh"]; Step (Getenv "SHELL") "";
   Step (MkdirTemp "" "hauntty-zsh-*") (Err (Errorf "no space left on device"));
   Step (StartWithSize ["/bin/zsh"] ex_plain_env "" (mkWinsize 24 80 0 0)) (Ok 42)].

Lemma launch_environment_witness :
  launch_ok ex_launch_spec ex_launch (Ok (mkLaunch 42 "/tmp/z")) /\
  omap started ex_launch = [(["/bin/zsh"], ex_named_env)] /\ getEnv ex_named_env "HAUNTTY_SESSION" = "a" /\
  launch_ok ex_launch_spec ex_launch_fallback (Ok (mkLaunch 42 "")).
Proof.
  split; [apply launch_environment; unfold ex_launch; run_go|].
  split; [reflexivity|]. split; [reflexivity|].
  apply launch_environment. unfold ex_launch_fallback. run_go.
Defined.
