(* ===== verification/SessionLife.v ===== *)
(** * SessionLife: how a session starts, is asked, and is closed

    Models [newSession], [restoreSession], [startSession] and [Session.close] of
    [session_lifecycle.go], the terminal with its key encoder and key event of
    [terminal_state.go], and the methods of [session_clients.go] that other
    goroutines call. Libghostty objects, the pty and temporary directories are
    handles here: what the terminal does is in [TermState.v], what a launch does in
    [ShellEnv.v], and what the run loop answers in [SessionLoop.v]. *)
From Stdlib Require Import ZArith Lia.
From stdpp Require Import base sets list strings numbers option.
From S2P Require Import Prelude Messages Resize SessionLoop Persist Ghostty Proc Server ShellEnv.
From S2P Require TermState.
#[local] Open Scope Z_scope.

(** ** Handles and operations *)

(** A libghostty object, a pty with its process, a temporary directory. *)
Inductive handle :=
| HTerm (p : nat) | HEncoder (p : nat) | HEvent (p : nat) | HDecoder (p : nat)
| HPty (pid : Z) | HDir (path : string).

(** Whether [actions] took a request: or the session was over, or the context. *)
Inductive accepted := Taken | SessionOver | Cancelled (e : error).

(** Each is one call or one select; an answer [None] of a reply is [done]. *)
Inductive sop : Type -> Type :=
| NewTerminal (cols rows scrollback continuation : Z) : sop (result nat)
| NewKeyEncoder : sop (result nat)
| NewKeyEvent : sop (result nat)
| NewSnapshotDecoderBytes (data : bytes) : sop (result nat)
| SetMaxContinuationBytes (decoder : nat) (n : Z) : sop (option error)
| SetRetainContinuation (decoder : nat) (v : bool) : sop (option error)
| Decode (decoder : nat) : sop (result nat)
| SetScrollbackMaxLines (term : nat) (n : Z) : sop (option error)
| VTGround (term : nat) : sop (result bool)
| Feed (term : nat) (data : bytes) : sop unit
| DumpScreen (term : nat) (format : TermState.terminalFormat) : sop (result screenDump)
| ResizeTerm (term : nat) (cols rows : Z) : sop (option error)
| Close (h : handle) : sop unit
| Launch {B} (o : lop B) : sop B
| GoRoutines : sop unit
| SendAction (a : sessionAction) : sop bool
| SendActionCtx (a : sessionAction) : sop accepted
| AwaitAttach : sop (option (result nat))
| AwaitKick : sop (option bool)
| AwaitInfo : sop (option (list SessionClient))
| Kill (pid : Z) (sig : string) : sop unit
| WaitDone_ : sop unit
| WaitPtyFor (seconds : Z) : sop bool
| WaitPty : sop unit
| WaitWriters : sop unit
| PtyWrite (pty : Z) (data : bytes) : sop (Z * option error)
| Snapshot_ (term : nat) : sop (result bytes).

Abbreviation sproc := (Proc.proc sop).
Abbreviation sstep := (Proc.step sop).

Fixpoint lift {A} (p : lproc A) : sproc A :=
  match p with
  | Ret a => Ret a
  | Do o k => Do (Launch o) (fun b => lift (k b))
  end.

(** ** The terminal ([terminal_state.go]) *)

Record terminalState := mkTerminalState { ts_term : nat; ts_keyEncoder : nat; ts_keyEvent : nat }.

Definition terminal_close (t : terminalState) : sproc unit :=
  do! _ := Close (HEvent (ts_keyEvent t)) in
  do! _ := Close (HEncoder (ts_keyEncoder t)) in
  do! _ := Close (HTerm (ts_term t)) in
  Ret tt.

Definition wrapTerminalState (term : nat) : sproc (result terminalState) :=
  do! encoder := NewKeyEncoder in
  match encoder with
  | Err e => do! _ := Close (HTerm term) in Ret (Err e)
  | Ok encoder =>
      do! event := NewKeyEvent in
      match event with
      | Err e =>
          do! _ := Close (HEncoder encoder) in
          do! _ := Close (HTerm term) in
          Ret (Err e)
      | Ok event => Ret (Ok (mkTerminalState term encoder event))
      end
  end.

Definition newTerminalState (cols rows scrollback : Z) : sproc (result terminalState) :=
  do! term := NewTerminal (u16 cols) (u16 rows) scrollback TermState.continuationMaxBytes in
  match term with
  | Err e => Ret (Err e)
  | Ok term => wrapTerminalState term
  end.

(** [defer func() { if cleanup { term.close() } }()], where [cleanup] is reset just
    before the successful return. *)
Definition closing_on_error {A} (t : terminalState) (body : sproc (result A)) : sproc (result A) :=
  call! r := body in
  match r with
  | Err e => call! _ := terminal_close t in Ret (Err e)
  | Ok a => Ret (Ok a)
  end.

(** From [vtGround] on. *)
Definition settle_terminal (t : terminalState) (size : termSize) : sproc (result terminalState) :=
  do! ground := VTGround (ts_term t) in
  match ground with
  | Err e => Ret (Err e)
  | Ok ground =>
      call! _ := (if ground then Ret tt
                  else do! _ := Feed (ts_term t) TermState.seq_can in Ret tt) in
      do! dump := DumpScreen (ts_term t)
                    (TermState.mkTermFormat FormatterFormatPlain false false false false) in
      match dump with
      | Err e => Ret (Err e)
      | Ok dump =>
          call! _ := (if sd_IsAltScreen dump
                      then do! _ := Feed (ts_term t) TermState.seq_leave_alt in Ret tt
                      else Ret tt) in
          do! _ := Feed (ts_term t) TermState.seq_soft_reset in
          do! err := ResizeTerm (ts_term t) (u16 (cols size)) (u16 (rows size)) in
          Ret (match err with
               | Some e => Err (Wrapf "resize restored terminal state" e)
               | None => Ok t
               end)
      end
  end.

Definition restoreTerminalState (state : sessionState) (size : termSize) (scrollback : Z) :
    sproc (result terminalState) :=
  do! decoder := NewSnapshotDecoderBytes (Snapshot state) in
  match decoder with
  | Err e => Ret (Err e)
  | Ok decoder =>
      deferred (do! _ := Close (HDecoder decoder) in Ret tt)
        (do! err := SetMaxContinuationBytes decoder TermState.continuationMaxBytes in
         match err with
         | Some e => Ret (Err e)
         | None =>
             do! err := SetRetainContinuation decoder true in
             match err with
             | Some e => Ret (Err e)
             | None =>
                 do! restored := Decode decoder in
                 match restored with
                 | Err e => Ret (Err e)
                 | Ok restored =>
                     do! err := SetScrollbackMaxLines restored scrollback in
                     match err with
                     | Some e => do! _ := Close (HTerm restored) in Ret (Err e)
                     | None =>
                         call! term := wrapTerminalState restored in
                         match term with
                         | Err e => Ret (Err e)
                         | Ok term => closing_on_error term (settle_terminal term size)
                         end
                     end
                 end
             end
         end)
  end.

(** ** Start ([session_lifecycle.go]) *)

(** What the methods below read of a [Session]; the pty is named by its process. *)
Record session := mkSession {
  se_Name : string; se_PID : Z; se_ptmx : Z; se_term : terminalState; se_tempDir : string }.

Definition startSession (launch : sessionLaunch) (term : terminalState) (spec : sessionStartSpec) :
    sproc session :=
  do! _ := GoRoutines in
  Ret (mkSession (ss_name spec) (u32 (l_pid launch)) (l_pid launch) term (l_tempDir launch)).

Definition newSession (spec : sessionStartSpec) : sproc (result session) :=
  call! term := newTerminalState (cols (ss_size spec)) (rows (ss_size spec)) (ss_scrollback spec) in
  match term with
  | Err e => Ret (Err e)
  | Ok term =>
      call! launch := lift (launchSessionProcess spec) in
      match launch with
      | Err e => call! _ := terminal_close term in Ret (Err e)
      | Ok launch => call! s := startSession launch term spec in Ret (Ok s)
      end
  end.

Definition restoreSession (state : sessionState) (spec : sessionStartSpec) : sproc (result session) :=
  call! term := restoreTerminalState state (ss_size spec) (ss_scrollback spec) in
  match term with
  | Err e => Ret (Err e)
  | Ok term =>
      closing_on_error term
        (call! launch := lift (launchSessionProcess spec) in
         match launch with
         | Err e => Ret (Err e)
         | Ok launch => call! s := startSession launch term spec in Ret (Ok s)
         end)
  end.

(** ** Requests to the run loop ([session_clients.go]) *)

Definition session_closed : error := Errorf "session closed".

Definition attach (spec : SessionLoop.sessionAttachSpec) : sproc (result nat) :=
  do! sent := SendActionCtx (attachReq spec) in
  match sent with
  | SessionOver => Ret (Err session_closed)
  | Cancelled e => Ret (Err e)
  | Taken =>
      do! resp := AwaitAttach in
      Ret (match resp with Some resp => resp | None => Err session_closed end)
  end.

Definition detachClient (sc : nat) : sproc unit := do! _ := SendAction (detachReq sc) in Ret tt.

Definition kickClient (clientID : string) : sproc bool :=
  do! sent := SendAction (kickReq clientID) in
  if sent then do! found := AwaitKick in Ret (match found with Some found => found | None => false end)
  else Ret false.

Definition resizeClient (sc : nat) (size : termSize) : sproc unit :=
  do! _ := SendAction (resizeReq sc size) in Ret tt.

Definition clientInfo : sproc (list SessionClient) :=
  do! sent := SendAction clientInfoReq in
  if sent then do! info := AwaitInfo in Ret (match info with Some info => info | None => [] end)
  else Ret [].

(** ** Close *)

Definition kill (s : session) : sproc unit := do! _ := Kill (- se_PID s) "SIGHUP" in Ret tt.

Definition close (s : session) : sproc unit :=
  do! _ := SendAction stopReq in
  call! _ := kill s in
  do! _ := Close (HPty (se_ptmx s)) in
  do! _ := WaitDone_ in
  do! ended := WaitPtyFor 5 in
  call! _ := (if ended then Ret tt
              else do! _ := Kill (- se_PID s) "SIGKILL" in do! _ := WaitPty in Ret tt) in
  do! _ := WaitWriters in
  call! _ := terminal_close (se_term s) in
  if negb (String.eqb (se_tempDir s) "") then do! _ := Launch (RemoveAll (se_tempDir s)) in Ret tt
  else Ret tt.

Definition waitClients : sproc unit := do! _ := WaitWriters in Ret tt.

(** ** Input and dumps *)

Definition sendInput (s : session) (data : bytes) : sproc (option error) :=
  do! (_, err) := PtyWrite (se_ptmx s) data in Ret err.

Definition dumpScreen (s : session) (format : TermState.terminalFormat) : sproc (result screenDump) :=
  do! dump := DumpScreen (ts_term (se_term s)) format in Ret dump.

Definition snapshot (s : session) : sproc (result bytes) :=
  do! data := Snapshot_ (ts_term (se_term s)) in Ret data.

(** ** Handles opened and closed *)

Definition opened_by_launch {B} (o : lop B) : B -> list handle :=
  match o in lop B return B -> list handle with
  | MkdirTemp _ _ => fun r => match r with Ok d => [HDir d] | Err _ => [] end
  | StartWithSize _ _ _ _ => fun r => match r with Ok pid => [HPty pid] | Err _ => [] end
  | _ => fun _ => []
  end.

Definition ok_handle (h : nat -> handle) (r : result nat) : list handle :=
  match r with Ok p => [h p] | Err _ => [] end.

Definition opened (st : sstep) : list handle :=
  match st with
  | Step o b =>
      match o in sop B return B -> list handle with
      | NewTerminal _ _ _ _ => ok_handle HTerm
      | Decode _ => ok_handle HTerm
      | NewKeyEncoder => ok_handle HEncoder
      | NewKeyEvent => ok_handle HEvent
      | NewSnapshotDecoderBytes _ => ok_handle HDecoder
      | Launch o => opened_by_launch o
      | _ => fun _ => []
      end b
  end.

Definition closed (st : sstep) : list handle :=
  match st with
  | Step o _ =>
      match o with
      | Close h => [h]
      | Launch (RemoveAll d) => [HDir d]
      | _ => []
      end
  end.

(** Goroutines of a session started. *)
Definition going (st : sstep) : bool :=
  match st with Step o _ => match o with GoRoutines => true | _ => false end end.

(** The system's temporary directories have names. *)
Definition dirs_named (tr : list sstep) : Prop := HDir "" ∉ (tr ≫= opened).

(** What a session holds, and what a terminal does. *)
Definition terminal_handles (t : terminalState) : list handle :=
  [HEvent (ts_keyEvent t); HEncoder (ts_keyEncoder t); HTerm (ts_term t)].
Definition session_handles (s : session) : list handle :=
  HPty (se_ptmx s) :: terminal_handles (se_term s) ++
  (if String.eqb (se_tempDir s) "" then [] else [HDir (se_tempDir s)]).

(** The program, given [before], closes all it opens but what its result holds. *)
Definition balanced {A} (before : list handle) (holds : A -> list handle) (tr : list sstep) (r : A) : Prop :=
  dirs_named tr -> before ++ (tr ≫= opened) ≡ₚ (tr ≫= closed) ++ holds r.

Lemma dirs_named_app tr tr' : dirs_named (tr ++ tr') <-> dirs_named tr /\ dirs_named tr'.
Proof. unfold dirs_named. rewrite bind_app, not_elem_of_app. done. Qed.

Lemma balanced_bind {A A'} before holds holds' (p : sproc A) (f : A -> sproc A') :
  wp p (balanced before holds) ->
  (forall a, wp (f a) (balanced (holds a) holds')) ->
  wp (bind p f) (balanced before holds').
Proof.
  intros Hp Hf. apply wp_bind. eapply wp_mono; [|exact Hp]. intros tr a Htr.
  eapply wp_mono; [|apply Hf]. intros tr' b Htr' [H H']%dirs_named_app.
  rewrite !bind_app, (app_assoc before), (Htr H), <- !app_assoc. by rewrite (Htr' H').
Qed.

(** One operation. *)
Lemma balanced_do {A B} before holds (o : sop B) (k : B -> sproc A) :
  (forall b, closed (Step o b) = [] /\ wp (k b) (balanced (before ++ opened (Step o b)) holds)) ->
  wp (Do o k) (balanced before holds).
Proof.
  intros H b. destruct (H b) as [Hc Hk]. eapply wp_mono; [|exact Hk].
  intros tr a Htr Hd. rewrite !bind_cons, Hc. cbn [app]. rewrite app_assoc. apply Htr.
  unfold dirs_named in *. rewrite bind_cons, not_elem_of_app in Hd. naive_solver.
Qed.

(** Closing one of the handles. *)
Lemma balanced_close {A} before before' holds h (p : unit -> sproc A) :
  before ≡ₚ h :: before' -> wp (p tt) (balanced before' holds) ->
  wp (Do (Close h) p) (balanced before holds).
Proof.
  intros Hb Hp []. eapply wp_mono; [|exact Hp]. intros tr a Htr Hd.
  rewrite !bind_cons, Hb. cbn [closed opened app]. constructor. by apply Htr.
Qed.

Lemma balanced_ret {A} before holds (a : A) : before ≡ₚ holds a -> wp (Ret a) (balanced before holds).
Proof. intros H _. by rewrite app_nil_r. Qed.

(** *** The launch *)

Definition launch_step (st : lstep) : sstep := match st with Step o b => Step (Launch o) b end.

Lemma wp_lift {A} (p : lproc A) (Q : list sstep -> A -> Prop) :
  wp p (fun tr a => Q (map launch_step tr) a) -> wp (lift p) Q.
Proof.
  revert Q. induction p as [a|B o k IH]; intros Q H; [exact H|]. intros b. apply IH, H.
Qed.

Definition launch_handles (r : result sessionLaunch) : list handle :=
  match r with
  | Ok l => HPty (l_pid l) :: (if String.eqb (l_tempDir l) "" then [] else [HDir (l_tempDir l)])
  | Err _ => []
  end.

Lemma launch_balanced spec : wp (lift (launchSessionProcess spec)) (balanced [] launch_handles).
Proof.
  apply wp_lift. unfold launchSessionProcess, prepareShellLaunch, setupZsh. wp_go.
  all: intros Hd; unfold dirs_named in Hd; csimpl in *; try done.
  all: repeat match goal with
    | |- context [String.eqb ?d ""] => destruct (String.eqb_spec d "") as [->|]
    | H : negb (String.eqb ?d "") = false |- _ => apply negb_false_iff, String.eqb_eq in H as ->
    end; (set_solver || apply Permutation_swap).
Qed.

(** *** The terminal *)

Definition terminal_held (r : result terminalState) : list handle :=
  match r with Ok t => terminal_handles t | Err _ => [] end.

(** Close a handle that is held. *)
Ltac close_held :=
  match goal with
  | |- wp (Do (Close ?h) ?p) (balanced ?b ?hs) =>
      unshelve refine (balanced_close b _ hs h p _ _);
      [shelve|cbn; first [reflexivity | apply Permutation_swap]|cbn beta]
  end.

Lemma terminal_close_balanced t before :
  wp (terminal_close t) (balanced (terminal_handles t ++ before) (fun _ => before)).
Proof. unfold terminal_close. do 3 close_held. by apply balanced_ret. Qed.

Lemma wrapTerminalState_balanced term :
  wp (wrapTerminalState term) (balanced [HTerm term] terminal_held).
Proof.
  apply balanced_do. intros [encoder|e]; (split; [done|]); cbn [opened ok_handle app].
  - apply balanced_do. intros [event|e]; (split; [done|]); cbn [opened ok_handle app].
    + apply balanced_ret. cbn. solve_Permutation.
    + do 2 close_held. by apply balanced_ret.
  - close_held. by apply balanced_ret.
Qed.

(** What else is held stays held. *)
Lemma balanced_frame {A} frame before holds holds' (p : sproc A) :
  (forall r, holds r ++ frame ≡ₚ holds' r) ->
  wp p (balanced before holds) -> wp p (balanced (before ++ frame) holds').
Proof.
  intros Hh Hp. eapply wp_mono; [|exact Hp]. intros tr a Htr Hd. rewrite <- Hh.
  rewrite <- !app_assoc, (Permutation_app_comm frame), !app_assoc. by rewrite (Htr Hd), <- !app_assoc.
Qed.

Lemma balanced_perm {A} before before' (holds : A -> list handle) (p : sproc A) :
  before ≡ₚ before' -> wp p (balanced before holds) -> wp p (balanced before' holds).
Proof. intros Hb. apply wp_mono. intros tr a Htr Hd. rewrite <- Hb. by apply Htr. Qed.

Lemma closing_on_error_balanced {A} t before (holds : A -> list handle) (body : sproc (result A)) :
  wp body (balanced (terminal_handles t ++ before)
             (fun r => match r with Ok a => holds a | Err _ => terminal_handles t ++ before end)) ->
  wp (closing_on_error t body)
    (balanced (terminal_handles t ++ before) (fun r => match r with Ok a => holds a | Err _ => before end)).
Proof.
  intros Hb. eapply balanced_bind; [exact Hb|]. intros [a|e]; [by apply balanced_ret|].
  eapply balanced_bind; [apply terminal_close_balanced|]. intros []. by apply balanced_ret.
Qed.

(** A terminal that was settled is the same one. *)
Lemma settle_terminal_keeps t size held :
  wp (settle_terminal t size)
    (balanced (terminal_handles t ++ held)
       (fun r => match r with Ok t => terminal_handles t ++ held | Err _ => terminal_handles t ++ held end)).
Proof.
  unfold settle_terminal. wp_go; intros _; cbn; rewrite ?app_nil_r;
    repeat (case_match; simplify_eq); done.
Qed.

Lemma restoreTerminalState_balanced state size scrollback :
  wp (restoreTerminalState state size scrollback) (balanced [] terminal_held).
Proof.
  apply balanced_do. intros [decoder|e]; (split; [done|]); [|by apply balanced_ret].
  cbn [opened ok_handle app]. unfold deferred.
  eapply (balanced_bind _ (fun r => terminal_held r ++ [HDecoder decoder])).
  - apply balanced_do. intros [e|]; (split; [done|]); [by apply balanced_ret|].
    apply balanced_do. intros [e|]; (split; [done|]); [by apply balanced_ret|].
    apply balanced_do. intros [restored|e]; (split; [done|]); [|by apply balanced_ret].
    cbn [opened ok_handle app].
    apply balanced_do. intros [e|]; (split; [done|]); cbn [opened app].
    + close_held. by apply balanced_ret.
    + eapply (balanced_bind _ (fun r => terminal_held r ++ [HDecoder decoder])).
      * apply (balanced_perm ([HTerm restored] ++ [HDecoder decoder])); [apply Permutation_swap|].
        eapply balanced_frame; [done|apply wrapTerminalState_balanced].
      * intros [term|e]; [|by apply balanced_ret].
        eapply wp_mono; [|apply (closing_on_error_balanced term [HDecoder decoder]
                                   (fun t => terminal_handles t ++ [HDecoder decoder]))].
        { intros tr [t|e] Htr; exact Htr. }
        apply settle_terminal_keeps.
  - intros r. apply (balanced_perm (HDecoder decoder :: terminal_held r));
      [by rewrite Permutation_cons_append|].
    cbn [bind]. close_held. by apply balanced_ret.
Qed.

(** *** Start and close *)

Definition session_held (r : result session) : list handle :=
  match r with Ok s => session_handles s | Err _ => [] end.

Lemma newTerminalState_balanced cols rows scrollback :
  wp (newTerminalState cols rows scrollback) (balanced [] terminal_held).
Proof.
  apply balanced_do. intros [term|e]; (split; [done|]); cbn [opened ok_handle app];
    [apply wrapTerminalState_balanced|by apply balanced_ret].
Qed.

Lemma launched_balanced t spec :
  wp (lift (launchSessionProcess spec))
    (balanced (terminal_handles t) (fun r => terminal_handles t ++ launch_handles r)).
Proof.
  eapply (balanced_frame (terminal_handles t) []); [|apply launch_balanced].
  intros r. apply Permutation_app_comm.
Qed.

Lemma started_balanced launch t spec :
  wp (startSession launch t spec)
    (balanced (terminal_handles t ++ launch_handles (Ok launch)) session_handles).
Proof.
  apply balanced_do. intros []. split; [done|]. apply balanced_ret.
  cbn [opened launch_handles session_handles se_ptmx se_term se_tempDir]. rewrite app_nil_r.
  unfold session_handles. cbn [se_ptmx se_term se_tempDir]. by rewrite <- Permutation_middle.
Qed.

Lemma newSession_balanced spec : wp (newSession spec) (balanced [] session_held).
Proof.
  eapply balanced_bind; [apply newTerminalState_balanced|].
  intros [t|e]; [|by apply balanced_ret]. eapply balanced_bind; [apply launched_balanced|].
  intros [launch|e].
  - eapply balanced_bind; [apply started_balanced|]. intros s. by apply balanced_ret.
  - eapply balanced_bind; [apply (terminal_close_balanced t [])|]. intros []. by apply balanced_ret.
Qed.

Lemma restoreSession_balanced state spec : wp (restoreSession state spec) (balanced [] session_held).
Proof.
  eapply balanced_bind; [apply restoreTerminalState_balanced|].
  intros [t|e]; [|by apply balanced_ret].
  apply (balanced_perm (terminal_handles t ++ [])); [done|].
  apply (closing_on_error_balanced t [] session_handles).
  eapply balanced_bind; [apply launched_balanced|]. intros [launch|e]; [|by apply balanced_ret].
  eapply balanced_bind; [apply started_balanced|]. intros s. by apply balanced_ret.
Qed.

(** The goroutines of a session, and the waits for their end. *)
Inductive goroutine := RunLoop | PtyReader | Writers.

Definition joins (st : sstep) : list goroutine :=
  match st with
  | Step o b =>
      match o in sop B return B -> list goroutine with
      | WaitDone_ => fun _ => [RunLoop]
      | WaitPtyFor _ => fun ended => if ended : bool then [PtyReader] else []
      | WaitPty => fun _ => [PtyReader]
      | WaitWriters => fun _ => [Writers]
      | _ => fun _ => []
      end b
  end.

(** First the pty is closed and all goroutines waited for, then what they used. *)
Definition joins_then_closes (s : session) (tr : list sstep) : Prop :=
  exists tr1 tr2, tr = tr1 ++ tr2 /\
    tr1 ≫= closed = [HPty (se_ptmx s)] /\ tr1 ≫= joins = [RunLoop; PtyReader; Writers] /\
    HPty (se_ptmx s) :: (tr2 ≫= closed) = session_handles s /\ tr ≫= opened = [].

Ltac done_joined E :=
  split_and!; [reflexivity|reflexivity|unfold session_handles; rewrite E; reflexivity|reflexivity].

Lemma close_ok s : wp (close s) (fun tr _ => joins_then_closes s tr).
Proof.
  unfold close, kill, terminal_close. destruct (String.eqb (se_tempDir s) "") eqn:E; cbn [negb].
  all: intros sent [] [] [] [|]; cbn [bind wp]; intros; repeat match goal with x : unit |- _ => destruct x end.
  all: first [eexists [_; _; _; _; _; _], _; split; [reflexivity|]; done_joined E
             |eexists [_; _; _; _; _; _; _; _], _; split; [reflexivity|]; done_joined E].
Qed.

(** ** Properties *)

(** [newSession], or [restoreSession] of a saved state. *)
Definition start (saved : option sessionState) (spec : sessionStartSpec) : sproc (result session) :=
  match saved with None => newSession spec | Some state => restoreSession state spec end.

(** C11. A session releases what it takes. A start that fails, at whatever step, has
    closed every terminal, encoder, event, decoder, pty and temporary directory it
    opened, each once. One that succeeds holds exactly a terminal with its encoder
    and event, a pty and perhaps a directory; closing the session closes just these,
    and only the pty before the run loop, the reader of the pty and the writers have
    ended. *)
Theorem session_resources saved spec tr r :
  runs (start saved spec) tr r -> dirs_named tr ->
  match r with
  | Err _ => tr ≫= opened ≡ₚ tr ≫= closed
  | Ok s =>
      tr ≫= opened ≡ₚ (tr ≫= closed) ++ session_handles s /\
      forall tr', runs (close s) tr' tt ->
        joins_then_closes s tr' /\ (tr ++ tr') ≫= opened ≡ₚ (tr ++ tr') ≫= closed
  end.
Proof.
  intros Hr Hd.
  assert (Hb : wp (start saved spec) (balanced [] session_held))
    by (destruct saved; [apply restoreSession_balanced|apply newSession_balanced]).
  pose proof (wp_runs _ _ _ _ Hb Hr Hd) as H. cbn [app] in H.
  destruct r as [s|e]; cbn [session_held] in H; [|by rewrite app_nil_r in H].
  split; [done|]. intros tr' Hc. pose proof (wp_runs _ _ _ _ (close_ok s) Hc) as Hj.
  split; [done|]. destruct Hj as (tr1 & tr2 & -> & H1 & _ & H2 & H3).
  rewrite (bind_app _ tr), H3, app_nil_r, H, <- H2, (bind_app _ tr), (bind_app _ tr1), H1. done.
Qed.

Definition ex_spec : sessionStartSpec := mkStartSpec "a" [] [] "" (mkTermSize 80 24 0 0) 0.
Definition ex_session : session := mkSession "a" 42 42 (mkTerminalState 1 2 3) "".

Definition ex_start : list sstep :=
  [Step (NewTerminal 80 24 0 TermState.continuationMaxBytes) (Ok 1%nat); Step NewKeyEncoder (Ok 2%nat);
   Step NewKeyEvent (Ok 3%nat); Step (Launch Environ) []; Step (Launch (Getenv "SHELL")) "/bin/sh";
   Step (Launch (StartWithSize ["/bin/sh"] ["HAUNTTY_SESSION=a"] "" (mkWinsize 24 80 0 0))) (Ok 42);
   Step GoRoutines tt].

(** The process ignores the hang-up. *)
Definition ex_close : list sstep :=
  [Step (SendAction stopReq) true; Step (Kill (-42) "SIGHUP") tt; Step (Close (HPty 42)) tt;
   Step WaitDone_ tt; Step (WaitPtyFor 5) false; Step (Kill (-42) "SIGKILL") tt; Step WaitPty tt;
   Step WaitWriters tt; Step (Close (HEvent 3)) tt; Step (Close (HEncoder 2)) tt; Step (Close (HTerm 1)) tt].

Lemma session_resources_witness :
  session_handles ex_session = [HPty 42; HEvent 3; HEncoder 2; HTerm 1] /\
  ex_start ≫= opened ≡ₚ (ex_start ≫= closed) ++ session_handles ex_session /\
  joins_then_closes ex_session ex_close /\
  (ex_start ++ ex_close) ≫= opened ≡ₚ (ex_start ++ ex_close) ≫= closed.
Proof.
  assert (Hr : runs (start None ex_spec) ex_start (Ok ex_session)) by (unfold ex_start; run_go).
  assert (Hc : runs (close ex_session) ex_close tt) by (unfold ex_close; run_go).
  assert (Hd : dirs_named ex_start).
  { intros H. vm_compute in H. repeat (apply elem_of_cons in H as [H|H]; [discriminate|]).
    by apply not_elem_of_nil in H. }
  split; [reflexivity|]. destruct (session_resources None ex_spec ex_start (Ok ex_session) Hr Hd) as [H1 H2].
  split; [exact H1|exact (H2 ex_close Hc)].
Defined.
