(* ===== verification/ClientLib.v ===== *)
(** * ClientLib: the client library

    Models [internal/client/client.go] and [errors.go]: connecting, one request
    and its reply on the connection, and the calls built from it. *)
From Stdlib Require Import ZArith Lia.
From stdpp Require Import base gmap sets list strings numbers option pretty.
From S2P Require Import Prelude GoStrings Wire Messages Codec Resize Proc Server ServerProps.
#[local] Open Scope Z_scope.

(** ** Errors and results *)

(** The errors of a call: [ServerError] is the one callers look for. *)
Inductive call_error : Type :=
| CallErr (e : error)
| ServerError (Op Message_ : string).

Definition ServerError_Error (e : call_error) : string :=
  match e with
  | CallErr e => error_text e
  | ServerError Op Message_ => Op +:+ ": " +:+ Message_
  end.

Definition answer (A : Type) : Type := A + call_error.

(** The client's own copies of the protocol's structs. *)
Record ClientInfo := mkClientInfo { ci_ClientID : string; ci_ReadOnly : bool; ci_Version : string }.

Record SessionInfo := mkSessionInfo {
  si_Name : string; si_State : string; si_Cols : Z; si_Rows : Z; si_CWD : string; si_PID : Z;
  si_CreatedAt : Z; si_SavedAt : Z; si_Clients : list ClientInfo }.

Record DaemonInfo := mkDaemonInfo {
  di_PID : Z; di_Uptime : Z; di_SocketPath : string; di_RunningCount : Z; di_DeadCount : Z;
  di_Version : string }.

Record SessionStatusInfo := mkSessionStatusInfo {
  ssi_Name : string; ssi_State : string; ssi_Cols : Z; ssi_Rows : Z; ssi_PID : Z; ssi_CWD : string;
  ssi_Clients : list ClientInfo }.

Record StatusInfo := mkStatusInfo { st_Daemon : DaemonInfo; st_Session : option SessionStatusInfo }.

Record CreatedSession := mkCreatedSession { cs_Name : string; cs_PID : Z }.

Record CreateSessionOpts := mkCreateOpts {
  co_Name : string; co_Command : list string; co_Env : list string; co_CWD : string;
  co_Scrollback : Z; co_Force : bool }.

Definition sessionClientsFromProtocol (clients : list SessionClient) : list ClientInfo :=
  map (fun c => mkClientInfo (SessionClient_ClientID c) (SessionClient_ReadOnly c)
                  (SessionClient_Version c)) clients.

Definition sessionsFromProtocol (sessions : list Messages.Session) : list SessionInfo :=
  map (fun s => mkSessionInfo (Session_Name s) (Session_State s) (Session_Cols s) (Session_Rows s)
                  (Session_CWD s) (Session_PID s) (Session_CreatedAt s) (Session_SavedAt s)
                  (sessionClientsFromProtocol (Session_Clients s))) sessions.

Definition statusFromProtocol (resp : StatusResponse) : StatusInfo :=
  let d := StatusResponse_Daemon resp in
  mkStatusInfo
    (mkDaemonInfo (DaemonStatus_PID d) (DaemonStatus_Uptime d) (DaemonStatus_SocketPath d)
       (DaemonStatus_RunningCount d) (DaemonStatus_DeadCount d) (DaemonStatus_Version d))
    (match StatusResponse_Session resp with
     | None => None
     | Some s =>
         Some (mkSessionStatusInfo (SessionStatus_Name s) (SessionStatus_State s)
                 (SessionStatus_Cols s) (SessionStatus_Rows s) (SessionStatus_PID s)
                 (SessionStatus_CWD s) (sessionClientsFromProtocol (SessionStatus_Clients s)))
     end).

(** Type assertions [resp.( *T )]. *)
Definition as_OK (m : Message) : option OK := match m with MsgOK x => Some x | _ => None end.
Definition as_Created (m : Message) : option Created := match m with MsgCreated x => Some x | _ => None end.
Definition as_Attached (m : Message) : option Attached := match m with MsgAttached x => Some x | _ => None end.
Definition as_Sessions (m : Message) : option Sessions := match m with MsgSessions x => Some x | _ => None end.
Definition as_DumpResponse (m : Message) : option DumpResponse :=
  match m with MsgDumpResponse x => Some x | _ => None end.
Definition as_PruneResponse (m : Message) : option PruneResponse :=
  match m with MsgPruneResponse x => Some x | _ => None end.
Definition as_StatusResponse (m : Message) : option StatusResponse :=
  match m with MsgStatusResponse x => Some x | _ => None end.

(** ** Requests *)

Section Client.
Context {W : Type} `{!Writer W}.

(** [request[T]]: [typed] is the type assertion to [T]. *)
Definition request {T} (typed : Message -> option T) (op : string) (msg : Message) (c : Conn W) :
    Conn W * answer T :=
  match on_writer (WriteMessage msg) c with
  | (c, Some e) => (c, inr (CallErr (Wrapf ("send " +:+ op) e)))
  | (c, None) =>
      match on_reader ReadMessage c with
      | (c, Err e) => (c, inr (CallErr (Wrapf ("read " +:+ op +:+ " response") e)))
      | (c, Ok resp) =>
          match resp with
          | MsgError e => (c, inr (ServerError op (Error_Message e)))
          | _ =>
              match typed resp with
              | None =>
                  (c, inr (CallErr (Errorf ("unexpected response type: 0x" +:+
                                            hex_byte (Message_Type resp)))))
              | Some t => (c, inl t)
              end
          end
      end
  end.

(** [if err != nil { return zero, err }; return f(resp), nil]. *)
Definition after {A B} (f : A -> B) (r : Conn W * answer A) : Conn W * answer B :=
  match r with
  | (c, inl a) => (c, inl (f a))
  | (c, inr e) => (c, inr e)
  end.

Definition requestOK (op : string) (msg : Message) (c : Conn W) : Conn W * answer unit :=
  after (fun _ => tt) (request as_OK op msg c).

Definition CreateSession (opts : CreateSessionOpts) (c : Conn W) : Conn W * answer CreatedSession :=
  after (fun created => mkCreatedSession (Created_Name created) (Created_PID created))
    (request as_Created "create" (MsgCreate (mkCreate (co_Name opts) (co_Command opts)
       (co_Env opts) (co_CWD opts) (co_Scrollback opts) (co_Force opts))) c).

Definition attach (req : Attach) (c : Conn W) : Conn W * answer Attached :=
  request as_Attached "attach" (MsgAttach req) c.

Definition ListSessions (includeClients : bool) (c : Conn W) : Conn W * answer (list SessionInfo) :=
  after (fun resp => sessionsFromProtocol (Sessions_Sessions resp))
    (request as_Sessions "list" (MsgList (mkList includeClients)) c).

Definition Kill (name : string) : Conn W -> Conn W * answer unit :=
  requestOK "kill" (MsgKill (mkKill name)).

Definition Send (name : string) (data : bytes) : Conn W -> Conn W * answer unit :=
  requestOK "send" (MsgSend (mkSend name data)).

Definition SendKey (name : string) (keyCode mods : Z) : Conn W -> Conn W * answer unit :=
  requestOK "send key" (MsgSendKey (mkSendKey name keyCode mods)).

Definition Dump (name : string) (format : Z) (c : Conn W) : Conn W * answer bytes :=
  after DumpResponse_Data (request as_DumpResponse "dump" (MsgDump (mkDump name format)) c).

Definition Prune (c : Conn W) : Conn W * answer Z :=
  after PruneResponse_Count (request as_PruneResponse "prune" (MsgPrune mkPrune) c).

Definition Status (name : string) (c : Conn W) : Conn W * answer StatusInfo :=
  after statusFromProtocol (request as_StatusResponse "status" (MsgStatus (mkStatus name)) c).

Definition Kick (name clientID : string) : Conn W -> Conn W * answer unit :=
  requestOK "kick" (MsgKick (mkKick name clientID)).

Definition Detach (c : Conn W) : Conn W * option error := on_writer (WriteMessage (MsgDetach mkDetach)) c.

(** [Connect] from a dialled connection on; the connection is closed on an error. *)
Definition Connect (dial : result (Conn W)) (Version : string) : result (Conn W) :=
  match dial with
  | Err e => Err (Wrapf "connect to daemon" e)
  | Ok nc =>
      match Handshake ProtocolVersion Version nc with
      | (_, Err e) => Err (Wrapf "handshake" e)
      | (c, Ok (accepted, serverRev)) =>
          if negb (accepted =? ProtocolVersion) then
            if negb (String.eqb serverRev "") && negb (String.eqb serverRev Version) then
              Err (Errorf ("revision mismatch: client=" +:+ Version +:+ " server=" +:+ serverRev +:+
                           " (restart the daemon)"))
            else
              Err (Errorf ("protocol version mismatch: server accepted " +:+ pretty accepted +:+
                           ", expected " +:+ pretty ProtocolVersion))
          else Ok c
      end
  end.
End Client.

(** ** The calls as data *)

Inductive call : Type -> Type :=
| CCreate (opts : CreateSessionOpts) : call CreatedSession
| CList (includeClients : bool) : call (list SessionInfo)
| CKill (name : string) : call unit
| CSend (name : string) (data : bytes) : call unit
| CSendKey (name : string) (keyCode mods : Z) : call unit
| CDump (name : string) (format : Z) : call bytes
| CPrune : call Z
| CStatus (name : string) : call StatusInfo
| CKick (name clientID : string) : call unit.

Definition call_run {W} `{!Writer W} {T} (cl : call T) : Conn W -> Conn W * answer T :=
  match cl with
  | CCreate opts => CreateSession opts
  | CList i => ListSessions i
  | CKill n => Kill n
  | CSend n d => Send n d
  | CSendKey n k m => SendKey n k m
  | CDump n f => Dump n f
  | CPrune => Prune
  | CStatus n => Status n
  | CKick n c => Kick n c
  end.

(** The request a call sends. *)
Definition call_msg {T} (cl : call T) : Message :=
  match cl with
  | CCreate o => MsgCreate (mkCreate (co_Name o) (co_Command o) (co_Env o) (co_CWD o)
                              (co_Scrollback o) (co_Force o))
  | CList i => MsgList (mkList i)
  | CKill n => MsgKill (mkKill n)
  | CSend n d => MsgSend (mkSend n d)
  | CSendKey n k m => MsgSendKey (mkSendKey n k m)
  | CDump n f => MsgDump (mkDump n f)
  | CPrune => MsgPrune mkPrune
  | CStatus n => MsgStatus (mkStatus n)
  | CKick n c => MsgKick (mkKick n c)
  end.

(** ** One request against one reply *)

Lemma request_reply_read {T} (typed : Message -> option T) op msg m out e rest bs :
  Message_ok msg -> WriteMessage m [] = (bs, None) -> Message_ok m -> frame_ok m ->
  exists sent, request typed op msg (mkConn out (mkReader (bs ++ rest) e)) =
    (mkConn (out ++ sent) (mkReader rest e),
     match m with
     | MsgError err => inr (ServerError op (Error_Message err))
     | _ => match typed m with
            | Some t => inl t
            | None => inr (CallErr (Errorf ("unexpected response type: 0x" +:+
                                            hex_byte (Message_Type m))))
            end
     end).
Proof.
  intros Hmsg Hw Hm Hfr. destruct (newMessage_Type msg) as (z & _ & Hrt).
  destruct (Hrt Hmsg) as (body & Hbody & _).
  pose proof (WriteMessage_emits _ _ (build_frame_emits _ _ Hbody)) as Hsent.
  destruct (message_roundtrip m Hm Hfr) as (bs' & Hw' & Hr').
  rewrite (Hw' []) in Hw. injection Hw as <-.
  eexists. unfold request, on_writer, on_reader. cbn [conn_w conn_r].
  rewrite (Hsent out). cbn [conn_w conn_r app]. rewrite (Hr' rest e). cbn [conn_w conn_r].
  destruct m; try reflexivity; destruct (typed _); reflexivity.
Qed.

(** What the client's assertion of a call accepts. *)
Lemma call_run_reply {T} (cl : call T) m out e rest bs :
  Message_ok (call_msg cl) -> WriteMessage m [] = (bs, None) -> Message_ok m -> frame_ok m ->
  answers (call_msg cl) m = true ->
  exists sent x, call_run cl (mkConn out (mkReader (bs ++ rest) e)) =
    (mkConn (out ++ sent) (mkReader rest e), x) /\
    match m with
    | MsgError err => exists op, x = inr (ServerError op (Error_Message err))
    | _ => exists t, x = inl t
    end.
Proof.
  intros Hmsg Hw Hm Hfr Ha.
  destruct cl; cbn [call_run call_msg] in *;
    unfold CreateSession, ListSessions, Kill, Send, SendKey, Dump, Prune, Status, Kick, requestOK;
    lazymatch goal with
    | |- context [request ?typed ?op ?msg _] =>
        destruct (request_reply_read typed op msg m out e rest bs Hmsg Hw Hm Hfr) as [sent Hreq]
    end;
    exists sent; rewrite Hreq; destruct m; try discriminate Ha; simpl; eauto.
Qed.

(** *** The connection as the daemon sees it *)

Lemma call_is_request {T} (cl : call T) : is_request (call_msg cl) = true.
Proof. by destruct cl. Qed.

(** ** Properties *)

