(* ===== verification/ClientAttach.v ===== *)
(** * ClientAttach: the interactive client

    Models [internal/client/attach.go]: the attach, the output loop and the two
    goroutines that forward input and size changes, as [proc]s of the terminal
    and connection operations below. *)
From Stdlib Require Import ZArith Lia Ascii.
From Stdlib Require Import Strings.Byte.
From stdpp Require Import base gmap sets list strings numbers option pretty.
From S2P Require Import Prelude GoStrings Wire Messages Codec Resize Proc ClientLib.
From S2P Require ClientKeys.
#[local] Open Scope Z_scope.

(** ** Data *)

Record AttachMetadata := mkMetadata {
  am_Cols : Z; am_Rows : Z; am_Xpixel : Z; am_Ypixel : Z; am_Env : list string; am_CWD : string }.

(** [AttachOpts]; a nil [Metadata] is [false]. *)
Record AttachOpts := mkAttachOpts {
  ao_Name : string; ao_Command : list string; ao_DetachKey : ClientKeys.DetachKey; ao_Metadata : bool;
  ao_ReadOnly : bool; ao_Restore : bool }.

(** The errors of [RunAttach]: [ExitError], and the others. *)
Inductive attach_error : Type :=
| ExitError (Code : Z)
| AttachErr (e : call_error).

(** What the client asks of its terminal and its connection. *)
Inductive aop : Type -> Type :=
| Metadata : aop (result AttachMetadata)
| RequestAttach (req : Attach) : aop (answer Attached)
| StdinRead : aop (bytes * option error)
| WriteMsg (msg : Message) : aop (option error)
| ReadMsg : aop (result Message)
| CloseClient : aop unit
| Stdout (data : string) : aop (option error)
| StdoutBytes (data : bytes) : aop (option error)
| Stderr (text : string) : aop unit
| MakeRaw : aop (option error)
| MakeRawTmp : aop (option error)
| RestoreTerm : aop unit
| RestoreTmp : aop unit
| StartDeadline (ms : Z) : aop unit
| BeforeDeadline : aop bool
| SelectStdin : aop bool
| TtyRead (room : nat) : aop bytes
| Sigwinch : aop bool
| GetWinsize : aop (result Winsize)
| GoForwardInput : aop unit
| GoForwardResize : aop unit
| CloseDone : aop unit.

Abbreviation aproc := (Proc.proc aop).

Definition esc : string := String (ascii_of_nat 27) EmptyString.
Definition lf : string := String (ascii_of_nat 10) EmptyString.

(** ** The detach key in a chunk of input *)

Fixpoint IndexByte (data : bytes) (c : Byte.byte) : option nat :=
  match data with
  | [] => None
  | b :: data' => if Byte.eqb b c then Some O else S <$> IndexByte data' c
  end.

Fixpoint has_prefix (data pre : bytes) : bool :=
  match pre, data with
  | [], _ => true
  | _ :: _, [] => false
  | p :: pre', b :: data' => Byte.eqb b p && has_prefix data' pre'
  end.

(** [bytes.Index]: the first place where [sep] starts. *)
Fixpoint Index (data sep : bytes) : option nat :=
  if has_prefix data sep then Some O
  else match data with
       | [] => None
       | _ :: data' => S <$> Index data' sep
       end.

Definition findDetach (data : bytes) (dk : ClientKeys.DetachKey) : option nat :=
  match (if ClientKeys.hasRaw dk then IndexByte data (byte_of_Z (ClientKeys.rawByte dk)) else None) with
  | Some i => Some i
  | None => Index data (ClientKeys.csiSeq dk)
  end.

(** ** Forwarding *)

Definition input (data : bytes) : Message := MsgInput (mkInput data).

(** The goroutine of [forwardHostInput], for at most [fuel] reads. *)
Fixpoint forwardHostInput (fuel : nat) (opts : AttachOpts) : aproc (option unit) :=
  match fuel with
  | O => Ret None
  | S fuel =>
      do! (data, err) := StdinRead in
      let next := match err with
                  | Some _ => Ret (Some tt)
                  | None => forwardHostInput fuel opts
                  end in
      if 0 <? blen data then
        match findDetach data (ao_DetachKey opts) with
        | Some i =>
            call! ok := (if negb (ao_ReadOnly opts) && (0 <? i)%nat then
                           do! werr := WriteMsg (input (take i data)) in
                           Ret (match werr with Some _ => false | None => true end)
                         else Ret true) in
            if negb ok then Ret (Some tt)
            else
              do! _ := WriteMsg (MsgDetach mkDetach) in
              do! _ := CloseClient in
              Ret (Some tt)
        | None =>
            if negb (ao_ReadOnly opts) then
              do! werr := WriteMsg (input data) in
              match werr with
              | Some _ => Ret (Some tt)
              | None => next
              end
            else next
        end
      else next
  end.

(** The goroutine of [forwardHostResize]; [Sigwinch] answers [false] when [done]
    is closed. *)
Fixpoint forwardHostResize (fuel : nat) : aproc (option unit) :=
  match fuel with
  | O => Ret None
  | S fuel =>
      do! resized := Sigwinch in
      if negb resized then Ret (Some tt)
      else
        do! ws := GetWinsize in
        match ws with
        | Err _ => forwardHostResize fuel
        | Ok ws =>
            do! werr := WriteMsg (MsgResize (mkResize (u16 (ws_Cols ws)) (u16 (ws_Rows ws))
                                               (ws_X ws) (ws_Y ws))) in
            match werr with
            | Some _ => Ret (Some tt)
            | None => forwardHostResize fuel
            end
        end
  end.

(** ** The host terminal *)

Definition attachRequestFromOpts (opts : AttachOpts) : aproc (result Attach) :=
  if negb (ao_Metadata opts) then Ret (Err (Errorf "attach metadata function is required"))
  else
    do! m := Metadata in
    Ret (match m with
         | Err e => Err e
         | Ok m => Ok (mkAttach (ao_Name opts) (ao_Command opts) (am_Env m) (am_CWD m) (am_Cols m)
                         (am_Rows m) (am_Xpixel m) (am_Ypixel m) (ao_ReadOnly opts)
                         (ao_Restore opts) 0)
         end).

Definition writeAttachStatus (attached : Attached) (readOnly : bool) : aproc unit :=
  let what := if Attached_Created attached then "created session "
              else if readOnly then "attached read-only to session "
              else "attached to session " in
  do! _ := Stderr ("[hauntty] " +:+ what +:+ Quote (Attached_Name attached) +:+ " (pid " +:+
                   pretty (Attached_PID attached) +:+ ")" +:+ lf) in
  Ret tt.

Definition pushKittyKeyboard : aproc (option error) :=
  do! err := Stdout (esc +:+ "[>0u") in
  Ret (match err with Some e => Some (Wrapf "push kitty keyboard" e) | None => None end).

(** The digits of [readCursorRow]; [row] is an [int]. *)
Fixpoint row_digits (before : bytes) (row : Z) : option Z :=
  match before with
  | [] => Some row
  | b :: rest =>
      let z := Z_of_byte b in
      if (z <? 48) || (57 <? z) then None
      else row_digits rest (i64 (row * 10 + (z - 48)))
  end.

(** What follows the last [c]. *)
Fixpoint after_last (c : Byte.byte) (data : bytes) : option bytes :=
  match data with
  | [] => None
  | b :: rest =>
      match after_last c rest with
      | Some r => Some r
      | None => if Byte.eqb b c then Some rest else None
      end
  end.

(** What is before the first [c], if there is one. *)
Fixpoint before_first (c : Byte.byte) (data : bytes) : option bytes :=
  match data with
  | [] => None
  | b :: rest => if Byte.eqb b c then Some [] else cons b <$> before_first c rest
  end.

(** The parsing half of [readCursorRow]. *)
Definition parseCursorRow (resp : bytes) (fallback : Z) : Z :=
  match after_last Byte.x5b resp with
  | None => fallback
  | Some resp =>
      match before_first Byte.x3b resp with
      | None => fallback
      | Some before =>
          match row_digits before 0 with
          | None => fallback
          | Some row => if row <=? 0 then fallback else row
          end
      end
  end.

(** The next poll of the terminal before the deadline: bytes to read, or the end
    of the loop. *)
Definition poll {A} (stop : aproc A) (read : aproc A) : aproc A :=
  do! before := BeforeDeadline in
  if negb before then stop
  else
    do! ready := SelectStdin in
    if negb ready then stop else read.

(** The loop of [readCursorRow], for at most [polls] turns: the deadline bounds
    them. A failed read gives no bytes. *)
Fixpoint read_response (polls : nat) (buf : bytes) : aproc bytes :=
  match polls with
  | O => Ret buf
  | S polls =>
      if (length buf <? 32)%nat then
        poll (Ret buf)
          (do! new := TtyRead (32 - length buf) in
           let new := take (32 - length buf) new in
           let buf := buf ++ new in
           if negb (bool_decide (new = [])) && bool_decide (last buf = Some Byte.x52) then Ret buf
           else read_response polls buf)
      else Ret buf
  end.

Definition readCursorRow (polls : nat) (fallback : Z) : aproc Z :=
  do! _ := StartDeadline 100 in
  call! buf := read_response polls [] in
  Ret (parseCursorRow buf fallback).

Fixpoint drain_loop (polls : nat) : aproc unit :=
  match polls with
  | O => Ret tt
  | S polls => poll (Ret tt) (do! _ := TtyRead 256 in drain_loop polls)
  end.

Definition drainStdin (polls : nat) (ms : Z) : aproc unit :=
  do! _ := StartDeadline ms in drain_loop polls.

Fixpoint repeat_string (n : nat) (s : string) : string :=
  match n with O => "" | S n => s +:+ repeat_string n s end.

(** [fmt.Fprintf] of every row, from row [first]. *)
Fixpoint clear_rows (n : nat) (first : Z) : string :=
  match n with
  | O => ""
  | S n => esc +:+ "[" +:+ pretty first +:+ ";1H" +:+ esc +:+ "[2K" +:+ clear_rows n (first + 1)
  end.

Definition write_dump (dump : bytes) : aproc (option error) :=
  do! err := StdoutBytes dump in
  Ret (match err with Some e => Some (Wrapf "write state dump" e) | None => None end).

Definition writeReattachScreenDump (polls : nat) (rows : Z) (attached : Attached) :
    aproc (option error) :=
  if Attached_Created attached || (blen (Attached_ScreenDump attached) =? 0) then Ret None
  else
    do! rerr := MakeRawTmp in
    call! cursorRow := (match rerr with
                        | Some _ => Ret rows
                        | None =>
                            do! _ := Stdout (esc +:+ "[6n") in
                            call! row := readCursorRow polls rows in
                            do! _ := RestoreTmp in
                            Ret row
                        end) in
    do! _ := Stdout (esc +:+ "[999;1H" +:+ repeat_string (Z.to_nat cursorRow) lf) in
    do! _ := StdoutBytes (bytes_of_string (clear_rows (Z.to_nat rows) 1 +:+ esc +:+ "[H")) in
    write_dump (Attached_ScreenDump attached).

Definition writeCreatedCommandDump (attached : Attached) (command : list string) :
    aproc (option error) :=
  if negb (Attached_Created attached) || bool_decide (command = []) ||
     (blen (Attached_ScreenDump attached) =? 0) then Ret None
  else write_dump (Attached_ScreenDump attached).

Definition reset_modes : string :=
  esc +:+ "[?1047;1;1000;1002;1003;1006;1004;2004;2048;2026l" +:+ esc +:+ "[?25h" +:+
  esc +:+ "[<u" +:+ esc +:+ "[0m" +:+ esc +:+ "[J".

Definition restoreHostTerminal (polls : nat) (message : string) : aproc unit :=
  do! _ := Stdout reset_modes in
  call! _ := drainStdin polls 20 in
  do! _ := RestoreTerm in
  if negb (String.eqb message "") then do! _ := Stderr message in Ret tt else Ret tt.

(** ** The output loop *)

Definition handleAttachMessage (polls : nat) (msg : Message) : aproc (option attach_error) :=
  match msg with
  | MsgOutput m => do! _ := StdoutBytes (Output_Data m) in Ret None
  | MsgExited m =>
      call! _ := restoreHostTerminal polls ("[hauntty] session exited" +:+ lf) in
      Ret (Some (ExitError (Exited_ExitCode m)))
  | MsgError m =>
      do! _ := RestoreTerm in
      do! _ := Stderr ("[hauntty] error: " +:+ Error_Message m +:+ lf) in
      Ret (Some (ExitError 1))
  | _ => Ret None
  end.

(** [err == io.EOF || isConnClosed(err)]. *)
Fixpoint isConnClosed (e : error) : bool :=
  match e with
  | ErrClosed => true
  | Wrapf _ c => isConnClosed c
  | _ => false
  end.

Definition conn_ended (e : error) : bool :=
  match e with EOF => true | _ => isConnClosed e end.

(** The loop of [RunAttach], for at most [fuel] messages; [polls] bounds the polls of
    the terminal, which a deadline bounds in the code. *)
Fixpoint attach_loop (polls fuel : nat) : aproc (option (option attach_error)) :=
  match fuel with
  | O => Ret None
  | S fuel =>
      do! msg := ReadMsg in
      match msg with
      | Err e =>
          do! _ := CloseDone in
          if conn_ended e then
            call! _ := restoreHostTerminal polls ("[hauntty] detached" +:+ lf) in
            Ret (Some None)
          else
            do! _ := RestoreTerm in
            Ret (Some (Some (AttachErr (CallErr (Wrapf "read message" e)))))
      | Ok msg =>
          call! err := handleAttachMessage polls msg in
          match err with
          | Some e => do! _ := CloseDone in Ret (Some (Some e))
          | None => attach_loop polls fuel
          end
      end
  end.

(** [RunAttach] between [MakeRaw] and the deferred [Restore]. *)
Definition attach_raw (polls fuel : nat) (opts : AttachOpts) (attached : Attached) :
    aproc (option (option attach_error)) :=
  call! _ := drainStdin polls 50 in
  call! _ := (if negb (ao_ReadOnly opts) then do! _ := GoForwardResize in Ret tt else Ret tt) in
  do! _ := GoForwardInput in
  call! err := writeCreatedCommandDump attached (ao_Command opts) in
  match err with
  | Some e => Ret (Some (Some (AttachErr (CallErr e))))
  | None => attach_loop polls fuel
  end.

Definition fails (e : error) : option (option attach_error) := Some (Some (AttachErr (CallErr e))).

Definition RunAttach (polls fuel : nat) (opts : AttachOpts) : aproc (option (option attach_error)) :=
  call! req := attachRequestFromOpts opts in
  match req with
  | Err e => Ret (fails e)
  | Ok req =>
      do! attached := RequestAttach req in
      match attached with
      | inr e => Ret (Some (Some (AttachErr e)))
      | inl attached =>
          call! _ := writeAttachStatus attached (ao_ReadOnly opts) in
          call! err := pushKittyKeyboard in
          match err with
          | Some e => Ret (fails e)
          | None =>
              call! err := writeReattachScreenDump polls (Attach_Rows req) attached in
              match err with
              | Some e => Ret (fails e)
              | None =>
                  do! err := MakeRaw in
                  match err with
                  | Some e => Ret (fails (Wrapf "set raw mode" e))
                  | None =>
                      call! r := attach_raw polls fuel opts attached in
                      match r with
                      | None => Ret None
                      | Some r => do! _ := RestoreTerm in Ret (Some r)
                      end
                  end
              end
          end
      end
  end.

(** ** Observers *)

Abbreviation astep := (Proc.step aop).

Definition chunk_of (st : astep) : option bytes :=
  match st with
  | Step o b =>
      match o in aop B return B -> option bytes with
      | StdinRead => fun r => Some (fst r)
      | _ => fun _ => None
      end b
  end.

Definition input_of (st : astep) : option bytes :=
  match st with
  | Step o _ => match o with WriteMsg (MsgInput m) => Some (Input_Data m) | _ => None end
  end.

(** Leaving: [true] the Detach message, [false] closing the connection. *)
Definition leave_of (st : astep) : option bool :=
  match st with
  | Step o _ =>
      match o with WriteMsg (MsgDetach _) => Some true | CloseClient => Some false | _ => None end
  end.

Definition write_failed (st : astep) : bool :=
  match st with
  | Step o b =>
      match o in aop B return B -> bool with
      | WriteMsg _ => fun r => match r with Some _ => true | None => false end
      | _ => fun _ => false
      end b
  end.

(** The detach key as a user's terminal sends it: at [i] of the chunk is its raw byte,
    or its escape sequence starts there. *)
Definition raw_at (dk : ClientKeys.DetachKey) (data : bytes) (i : nat) : Prop :=
  ClientKeys.hasRaw dk = true /\ data !! i = Some (byte_of_Z (ClientKeys.rawByte dk)).

Definition csi_at (dk : ClientKeys.DetachKey) (data : bytes) (i : nat) : Prop :=
  (i < length data)%nat /\ ClientKeys.csiSeq dk `prefix_of` drop i data.

(** The detach key acted on in a chunk: the first raw byte wherever there is one, and
    only in a chunk without it the first escape sequence. *)
Definition detach_at (dk : ClientKeys.DetachKey) (data : bytes) (i : nat) : Prop :=
  (raw_at dk data i /\ forall j, (j < i)%nat -> ~ raw_at dk data j) \/
  ((forall j, ~ raw_at dk data j) /\ csi_at dk data i /\ forall j, (j < i)%nat -> ~ csi_at dk data j).

(** No detach key in a chunk. *)
Definition no_detach (dk : ClientKeys.DetachKey) (data : bytes) : Prop :=
  forall i, ~ raw_at dk data i /\ ~ csi_at dk data i.

Lemma IndexByte_spec data c :
  match IndexByte data c with
  | Some i => data !! i = Some c /\ forall j, (j < i)%nat -> data !! j <> Some c
  | None => forall j, data !! j <> Some c
  end.
Proof.
  induction data as [|b data IH]; cbn [IndexByte]; [done|].
  destruct (Byte.eqb b c) eqn:E.
  - apply Byte.byte_dec_bl in E as ->. split; [done|lia].
  - assert (b <> c) as Hbc by (intros ->; by rewrite Byte.byte_dec_lb in E).
    destruct (IndexByte data c) as [i|]; cbn.
    + destruct IH as [H1 H2]. split; [done|]. intros [|j] Hj; [cbn; congruence|apply H2; lia].
    + intros [|j]; [cbn; congruence|apply IH].
Qed.

Lemma has_prefix_spec data pre : has_prefix data pre = true <-> pre `prefix_of` data.
Proof.
  revert data. induction pre as [|p pre IH]; intros [|b data]; cbn.
  - split; [intros _; apply prefix_nil|done].
  - split; [intros _; apply prefix_nil|done].
  - split; [done|]. by intros [k Hk].
  - rewrite andb_true_iff, IH. split.
    + intros [E H]. apply Byte.byte_dec_bl in E as ->. by apply list.prefix_cons.
    + intros H. split; [apply Byte.byte_dec_lb; symmetry; by eapply list.prefix_cons_inv_1|by eapply list.prefix_cons_inv_2].
Qed.

Lemma Index_spec data sep :
  match Index data sep with
  | Some i => sep `prefix_of` drop i data /\ forall j, (j < i)%nat -> ~ sep `prefix_of` drop j data
  | None => forall j, ~ sep `prefix_of` drop j data
  end.
Proof.
  induction data as [|b data IH]; cbn [Index].
  all: destruct (has_prefix _ sep) eqn:E; [apply has_prefix_spec in E; split; [exact E|lia]|].
  all: assert (Hno : forall l, has_prefix l sep = false -> ~ sep `prefix_of` l)
    by (intros l Hl Hp; apply has_prefix_spec in Hp; congruence).
  - intros j. rewrite drop_nil. by apply Hno.
  - destruct (Index data sep) as [i|]; cbn [fmap option_fmap option_map].
    + destruct IH as [H1 H2]. split; [exact H1|]. intros [|j] Hj; [by apply Hno|apply H2; lia].
    + intros [|j]; [by apply Hno|apply IH].
Qed.

(** [findDetach] on what was read finds the detach key, and nothing else. *)
Lemma findDetach_spec dk data :
  0 <? blen data = true ->
  match findDetach data dk with Some i => detach_at dk data i | None => no_detach dk data end.
Proof.
  intros Hlen. assert (0 < length data)%nat as Hl by (apply Z.ltb_lt in Hlen; unfold blen in Hlen; lia).
  assert (Hseq : match Index data (ClientKeys.csiSeq dk) with
    | Some i => csi_at dk data i /\ forall j, (j < i)%nat -> ~ csi_at dk data j
    | None => forall j, ~ csi_at dk data j
    end).
  { pose proof (Index_spec data (ClientKeys.csiSeq dk)) as H. unfold csi_at. destruct (Index _ _) as [i|]; [|naive_solver].
    destruct H as [H1 H2]. split; [split; [|done]|naive_solver].
    destruct (decide (i < length data)%nat) as [|Hi]; [done|]. rewrite drop_ge in H1 by lia.
    apply prefix_nil_inv in H1. rewrite H1 in H2. destruct (H2 0%nat); [lia|apply prefix_nil]. }
  assert (Hcsi : (forall j, ~ raw_at dk data j) ->
    match Index data (ClientKeys.csiSeq dk) with Some i => detach_at dk data i | None => no_detach dk data end).
  { intros Hno. destruct (Index _ _) as [i|]; [by right|]. by intros i. }
  unfold findDetach. destruct (ClientKeys.hasRaw dk) eqn:Hraw; [|apply Hcsi; intros j [H _]; congruence].
  pose proof (IndexByte_spec data (byte_of_Z (ClientKeys.rawByte dk))) as H.
  destruct (IndexByte _ _) as [i|]; [|apply Hcsi; by intros j [_ Hj%H]].
  left. destruct H as [H1 H2]. split; [done|]. intros j Hj [_ Hx]. by apply (H2 j).
Qed.

Lemma no_detach_nil dk : no_detach dk [].
Proof. intros i. split; [by intros [_ ?]|intros [? _]; cbn in *; lia]. Qed.

(** What the daemon may see of a chunk holds no raw detach byte. *)
Lemma no_detach_raw dk data :
  no_detach dk data -> ClientKeys.hasRaw dk = true -> byte_of_Z (ClientKeys.rawByte dk) ∉ data.
Proof. intros H Hr [i Hi]%list_elem_of_lookup_1. by destruct (H i) as [[] _]. Qed.

Lemma detach_at_raw dk data i :
  detach_at dk data i -> ClientKeys.hasRaw dk = true -> byte_of_Z (ClientKeys.rawByte dk) ∉ take i data.
Proof.
  intros H Hr [j Hj]%list_elem_of_lookup_1. apply lookup_take_Some in Hj as [Hj Hlt].
  destruct H as [[_ H]|[H _]]; [by apply (H j)|by apply (H j)].
Qed.

(** What the daemon should see of the chunks. *)
Definition visible (opts : AttachOpts) (chunks : list bytes) : bytes :=
  if ao_ReadOnly opts then [] else concat chunks.

Definition forwarded_ok (opts : AttachOpts) (tr : list astep) : Prop :=
  exists pre, Forall (no_detach (ao_DetachKey opts)) pre /\
    ((omap chunk_of tr = pre /\ omap leave_of tr = [] /\ concat (omap input_of tr) = visible opts pre) \/
     exists chunk i, omap chunk_of tr = pre ++ [chunk] /\
       detach_at (ao_DetachKey opts) chunk i /\
       concat (omap input_of tr) = visible opts (pre ++ [take i chunk]) /\
       (omap leave_of tr = [true; false] \/ omap leave_of tr = [] /\ existsb write_failed tr = true)).

Lemma forwarded_cons opts data err tr tr' :
  no_detach (ao_DetachKey opts) data ->
  omap chunk_of tr = [] -> omap leave_of tr = [] -> concat (omap input_of tr) = visible opts [data] ->
  forwarded_ok opts tr' -> forwarded_ok opts (Step StdinRead (data, err) :: tr ++ tr').
Proof.
  intros Hhit Hc Hl Hi (pre & Hpre & H). exists (data :: pre). split; [by constructor|].
  csimpl. rewrite !omap_app, Hc, Hl, concat_app, Hi. csimpl. unfold visible in *.
  destruct H as [(H1 & H2 & H3) | (chunk & i & H1 & H2 & H3 & H4)]; [left|right].
  - rewrite H1, H2, H3. split_and!; [done..|]. by destruct (ao_ReadOnly opts); csimpl; rewrite ?app_nil_r.
  - exists chunk, i. rewrite H1, H3. split_and!; [done..| |].
    + by destruct (ao_ReadOnly opts); csimpl; rewrite ?app_nil_r.
    + destruct H4 as [H4|[H4 H5]]; [by left|right]. split; [done|]. cbn. rewrite existsb_app, H5.
      apply orb_true_r.
Qed.

Lemma forwarded_start opts data err tr :
  no_detach (ao_DetachKey opts) data -> omap chunk_of tr = [] -> omap leave_of tr = [] ->
  concat (omap input_of tr) = visible opts [data] ->
  forwarded_ok opts (Step StdinRead (data, err) :: tr).
Proof. intros Hhit Hc Hl Hi. exists [data]. split; [by constructor|]. left. csimpl. by rewrite Hc. Qed.

Lemma forwardHostInput_ok opts fuel : wp (forwardHostInput fuel opts) (fun tr _ => forwarded_ok opts tr).
Proof.
  assert (Hnil : forwarded_ok opts []).
  { exists []. split; [constructor|]. left. unfold visible. by destruct (ao_ReadOnly opts). }
  induction fuel as [|fuel IH]; [exact Hnil|]. cbn [forwardHostInput]. intros [data err].
  assert (Hnext : forall tr, no_detach (ao_DetachKey opts) data ->
    omap chunk_of tr = [] -> omap leave_of tr = [] -> concat (omap input_of tr) = visible opts [data] ->
    wp (match err with Some _ => Ret (Some tt) | None => forwardHostInput fuel opts end)
      (fun tr' _ => forwarded_ok opts (Step StdinRead (data, err) :: tr ++ tr'))).
  { intros tr H1 H2 H3 H4. destruct err.
    - cbn. rewrite app_nil_r. by apply forwarded_start.
    - revert IH. apply wp_mono. intros tr' _ H. by apply forwarded_cons. }
  destruct (0 <? blen data) eqn:Hlen.
  - pose proof (findDetach_spec (ao_DetachKey opts) data Hlen) as Hhit.
    destruct (findDetach data (ao_DetachKey opts)) as [i|].
    + assert (Hend : forall tr, omap chunk_of tr = [] ->
        concat (omap input_of tr) = visible opts [take i data] ->
        omap leave_of tr = [true; false] \/ omap leave_of tr = [] /\ existsb write_failed tr = true ->
        forwarded_ok opts (Step StdinRead (data, err) :: tr)).
      { intros tr H1 H2 H3. exists []. split; [constructor|]. right. exists data, i. csimpl.
        by rewrite H1. }
      unfold visible in Hend.
      destruct (ao_ReadOnly opts) eqn:Hro, (0 <? i)%nat eqn:Hi; cbn [negb andb].
      1, 2: wp_go; apply Hend; csimpl; auto.
      * wp_go; apply Hend; csimpl; rewrite ?app_nil_r; auto.
      * apply Nat.ltb_ge in Hi. assert (i = 0)%nat as -> by lia.
        wp_go; apply Hend; csimpl; auto.
    + destruct (ao_ReadOnly opts) eqn:Hro; cbn [negb].
      * apply (Hnext []); [done..|]. unfold visible. by rewrite Hro.
      * intros [werr|].
        -- apply forwarded_start; [done..|]. unfold visible. rewrite Hro. by csimpl.
        -- apply (Hnext [Step (WriteMsg (input data)) None]); [done..|]. unfold visible.
           rewrite Hro. by csimpl.
  - assert (data = []) as -> by (destruct data; [done|apply Z.ltb_ge in Hlen; unfold blen in Hlen; cbn [length] in Hlen; lia]).
    apply (Hnext []); [apply no_detach_nil|done..|]. unfold visible.
    by destruct (ao_ReadOnly opts).
Qed.

(** Whether the terminal is in raw mode after the operations. *)
Definition raw_step (raw : bool) (st : astep) : bool :=
  match st with
  | Step o b =>
      match o in aop B return B -> bool with
      | MakeRaw | MakeRawTmp => fun r => match r with None => true | Some _ => raw end
      | RestoreTerm | RestoreTmp => fun _ => false
      | _ => fun _ => raw
      end b
  end.

Definition raw_after (tr : list astep) : bool := fold_left raw_step tr false.

(** Whether the modes of the host terminal were reset. *)
Definition resets (st : astep) : bool :=
  match st with
  | Step o _ => match o with Stdout data => String.eqb data reset_modes | _ => false end
  end.

(** The messages of the daemon. *)
Definition message_of (st : astep) : option Message :=
  match st with
  | Step o b =>
      match o in aop B return B -> option Message with
      | ReadMsg => fun r => match r with Ok m => Some m | Err _ => None end
      | _ => fun _ => None
      end b
  end.

(** How an attach ends: the message that ends it, and whether the modes of the
    host terminal are reset. *)
Definition loop_end (tr : list astep) (r : option attach_error) : Prop :=
  match r with
  | None => existsb resets tr = true
  | Some (ExitError code) =>
      (exists m, last (omap message_of tr) = Some (MsgExited m) /\ code = Exited_ExitCode m /\
         existsb resets tr = true) \/
      (exists m, last (omap message_of tr) = Some (MsgError m) /\ code = 1 /\
         existsb resets tr = false)
  | Some (AttachErr _) => existsb resets tr = false
  end.

Definition on_some {A B} (Q : A -> B -> Prop) (a : A) (r : option B) : Prop :=
  match r with Some b => Q a b | None => True end.

Lemma loop_end_cons st tr r :
  resets st = false -> (omap message_of tr = [] -> message_of st = None \/
    match r with Some (ExitError _) => False | _ => True end) ->
  loop_end tr r -> loop_end (st :: tr) r.
Proof.
  intros Hst Hm. unfold loop_end. cbn [existsb]. rewrite Hst. cbn [orb].
  destruct r as [[code|e]|]; [|done..].
  intros [(m & H)|(m & H)]; [left|right]; exists m; csimpl;
    (destruct (message_of st); [|exact H]);
    (destruct (omap message_of tr) as [|x l] eqn:Hl; [by destruct H|]);
    by rewrite last_cons_cons.
Qed.

Lemma loop_end_silent tr r :
  loop_end tr r -> omap message_of tr = [] ->
  match r with Some (ExitError _) => False | _ => True end.
Proof.
  intros H Hn. destruct r as [[code|e]|]; [|done..]. unfold loop_end in H. rewrite Hn in H.
  by destruct H as [(m & Hm & _)|(m & Hm & _)].
Qed.

(** Reading the terminal is neither output, nor a message, nor a change of mode. *)
Definition polling (tr : list astep) : Prop :=
  Forall (fun st => resets st = false /\ message_of st = None) tr /\
  forall raw, fold_left raw_step tr raw = raw.

Lemma polling_cons B (o : aop B) b tr :
  resets (Step o b) = false -> message_of (Step o b) = None ->
  (forall raw, raw_step raw (Step o b) = raw) -> polling tr -> polling (Step o b :: tr).
Proof.
  intros H1 H2 H3 [H4 H5]. split; [by constructor|]. intros raw. cbn [fold_left]. by rewrite H3.
Qed.

Lemma polling_nil : polling [].
Proof. by split. Qed.

Lemma poll_polling {A} (stop read : aproc A) :
  wp stop (fun tr _ => polling tr) -> wp read (fun tr _ => polling tr) ->
  wp (poll stop read) (fun tr _ => polling tr).
Proof.
  intros Hs Hr. intros []; cbn [negb].
  - intros []; cbn [negb]; [eapply wp_mono; [|exact Hr]|eapply wp_mono; [|exact Hs]];
      intros tr a H; by repeat apply polling_cons.
  - eapply wp_mono; [|exact Hs]. intros tr a H. by apply polling_cons.
Qed.

Lemma drainStdin_polling polls ms : wp (drainStdin polls ms) (fun tr _ => polling tr).
Proof.
  intros b. assert (wp (drain_loop polls) (fun tr _ => polling tr)) as H.
  { induction polls as [|polls IH]; [exact polling_nil|]. apply poll_polling; [exact polling_nil|].
    intros new. eapply wp_mono; [|exact IH]. intros tr a H. by apply polling_cons. }
  revert H. apply wp_mono. intros tr a H. by apply polling_cons.
Qed.

Lemma readCursorRow_polling polls fallback : wp (readCursorRow polls fallback) (fun tr _ => polling tr).
Proof.
  intros b. apply wp_bind. assert (forall buf, wp (read_response polls buf) (fun tr _ => polling tr)) as H.
  { induction polls as [|polls IH]; intros buf; [exact polling_nil|]. cbn [read_response].
    destruct (_ <? _)%nat; [|exact polling_nil]. apply poll_polling; [exact polling_nil|].
    intros new. cbv zeta. destruct (_ && _).
    - by apply polling_cons, polling_nil.
    - eapply wp_mono; [|apply IH]. intros tr a H. by apply polling_cons. }
  eapply wp_mono; [|apply H]. intros tr buf Htr. cbn [wp]. rewrite app_nil_r. by apply polling_cons.
Qed.

(** Leaving the host terminal resets its modes; no message is read. *)
Lemma restoreHostTerminal_ok polls message :
  wp (restoreHostTerminal polls message) (fun tr _ =>
    existsb resets tr = true /\ omap message_of tr = []).
Proof.
  intros b. apply wp_bind. eapply wp_mono; [|apply drainStdin_polling].
  intros tr _ [Hq _] b'. assert (omap message_of tr = []) as Hm.
  { clear -Hq. induction Hq as [|st tr [_ Hst] _ IH]; [done|]. csimpl. by rewrite Hst. }
  destruct (negb _); cbn [wp]; [intros b''|]; csimpl; (split; [done|]); by rewrite omap_app, Hm.
Qed.

Lemma attach_loop_end polls fuel : wp (attach_loop polls fuel) (on_some loop_end).
Proof.
  induction fuel as [|fuel IH]; [done|]. cbn [attach_loop]. intros [msg|e].
  - destruct msg; cbn [handleAttachMessage].
    all: try (revert IH; cbn [bind]; apply wp_mono; intros tr [r|] H; [|done];
              apply loop_end_cons; [done|intros Hn; right; by apply (loop_end_silent tr)|exact H]).
    + wp_go; cbn; right; eexists; split_and!; done.
    + cbn [bind]. intros b. revert IH. apply wp_mono. intros tr [r|] H; [|done].
      assert (H' : loop_end (Step (StdoutBytes (Output_Data m)) b :: tr) r)
        by (apply loop_end_cons; [done|by left|exact H]).
      apply loop_end_cons; [done|intros Hn; right; by eapply loop_end_silent|exact H'].
    + apply wp_bind, wp_bind. eapply wp_mono; [|apply restoreHostTerminal_ok].
      intros tr _ [H1 H2] b. left. exists m. csimpl. rewrite !omap_app, !existsb_app, H1, H2. by csimpl.
  - intros []. destruct (conn_ended e).
    + apply wp_bind. eapply wp_mono; [|apply restoreHostTerminal_ok].
      intros tr _ [H1 _]. cbn. by rewrite existsb_app, H1.
    + by intros [].
Qed.

(** *** Before the loop *)

Definition quiet (st : astep) : Prop := resets st = false /\ message_of st = None.

Lemma quiet_resets tr : Forall quiet tr -> existsb resets tr = false.
Proof. induction 1 as [|st tr [H _] _ IH]; [done|]. cbn [existsb]. by rewrite H, IH. Qed.

Lemma loop_end_quiet tr tr' r : Forall quiet tr -> loop_end tr' r -> loop_end (tr ++ tr') r.
Proof.
  induction 1 as [|st tr [H1 H2] _ IH]; intros H; [done|]. cbn [app].
  apply loop_end_cons; [done|by left|auto].
Qed.

(** Quiet operations that leave the terminal as it was at the start. *)
Definition calm (tr : list astep) : Prop := Forall quiet tr /\ raw_after tr = false.

Lemma raw_after_app tr tr' : raw_after tr = false -> raw_after (tr ++ tr') = raw_after tr'.
Proof. intros H. unfold raw_after in *. by rewrite fold_left_app, H. Qed.

Lemma calm_app tr tr' : calm tr -> calm tr' -> calm (tr ++ tr').
Proof.
  intros [H1 H2] [H3 H4]. split; [by apply list.Forall_app|]. by rewrite raw_after_app.
Qed.

Definition ends_ok (tr : list astep) (r : option attach_error) : Prop :=
  raw_after tr = false /\ loop_end tr r.

Lemma ends_calm tr tr' r : calm tr -> ends_ok tr' r -> ends_ok (tr ++ tr') r.
Proof.
  intros [H1 H2] [H3 H4]. split; [by rewrite raw_after_app|]. by apply loop_end_quiet.
Qed.

Lemma ends_error tr e : calm tr -> ends_ok tr (Some (AttachErr e)).
Proof. intros [H1 H2]. split; [done|]. by apply quiet_resets. Qed.

Lemma on_some_calm tr tr' r : calm tr -> on_some ends_ok tr' r -> on_some ends_ok (tr ++ tr') r.
Proof. intros Htr H. destruct r; [by apply ends_calm|done]. Qed.

Lemma loop_end_snoc tr r : loop_end tr r -> loop_end (tr ++ [Step RestoreTerm tt]) r.
Proof.
  unfold loop_end. rewrite omap_app, existsb_app. csimpl. rewrite app_nil_r, orb_false_r. done.
Qed.

(** A calm part, then the rest. *)
Lemma wp_calm {A} (p : aproc A) (f : A -> aproc (option (option attach_error))) :
  wp p (fun tr _ => calm tr) -> (forall a, wp (f a) (on_some ends_ok)) ->
  wp (bind p f) (on_some ends_ok).
Proof.
  intros Hp Hf. apply wp_bind. revert Hp. apply wp_mono. intros tr a Htr.
  generalize (Hf a). apply wp_mono. intros tr' [r|] H; [|done]. by apply ends_calm.
Qed.

Ltac calm_go := split; [repeat (constructor; [done|]); constructor | reflexivity].

Lemma writeReattachScreenDump_calm polls rows attached :
  wp (writeReattachScreenDump polls rows attached) (fun tr _ => calm tr).
Proof.
  unfold writeReattachScreenDump. destruct (_ || _); [by split; [constructor|]|].
  intros rerr. apply wp_bind. eapply wp_mono with (Q := fun tr _ =>
    Forall quiet tr /\ fold_left raw_step tr (raw_step false (Step MakeRawTmp rerr)) = false).
  - intros tr row [H1 H2]. unfold write_dump. wp_go.
    all: split; [constructor; [done|]; apply list.Forall_app; split; [done|]; by repeat constructor|].
    all: unfold raw_after; cbn [fold_left]; by rewrite fold_left_app, H2.
  - destruct rerr as [e|].
    + by split; [constructor|].
    + cbn [bind]. intros b. apply wp_bind. eapply wp_mono; [|apply readCursorRow_polling].
      intros tr a [H1 H2] []. cbn [wp].
      split; [constructor; [done|]; apply list.Forall_app; split; [done|by repeat constructor]|].
      cbn [fold_left]. rewrite fold_left_app. by cbn.
Qed.

Lemma attach_raw_end polls fuel opts attached : wp (attach_raw polls fuel opts attached) (on_some loop_end).
Proof.
  unfold attach_raw. apply wp_bind. eapply wp_mono; [|apply drainStdin_polling].
  intros trd _ [Hd _]. apply wp_bind.
  eapply wp_mono with (Q := fun tr _ => Forall quiet tr).
  2: { destruct (negb _); wp_go; by repeat constructor. }
  intros tr0 _ H0 []. apply wp_bind. eapply wp_mono with (Q := fun tr _ => Forall quiet tr).
  2: { unfold writeCreatedCommandDump, write_dump. destruct (_ || _); wp_go; by repeat constructor. }
  assert (Hq : forall tr r, loop_end tr r -> forall tr1, Forall quiet tr1 ->
    on_some loop_end (trd ++ tr0 ++ Step GoForwardInput tt :: tr1 ++ tr) (Some r)).
  { intros tr r H tr1 H1. apply loop_end_quiet; [done|].
    apply loop_end_quiet; [done|]. apply (loop_end_quiet [_]); [by repeat constructor|].
    by apply loop_end_quiet. }
  intros tr1 [e|] H1.
  - by apply (Hq [] _).
  - generalize (attach_loop_end polls fuel). apply wp_mono. intros tr [r|] H; [|done]. by apply Hq.
Qed.

Lemma RunAttach_ends polls fuel opts : wp (RunAttach polls fuel opts) (on_some ends_ok).
Proof.
  unfold RunAttach. apply wp_calm.
  { unfold attachRequestFromOpts. wp_go; calm_go. }
  intros [req|e]; [|by apply ends_error; split; [constructor|]].
  intros [attached|e]; [|apply ends_error; calm_go].
  eapply wp_mono; [intros tr r H; exact (on_some_calm [Step (RequestAttach req) (inl attached)] tr r
    ltac:(calm_go) H)|].
  apply wp_calm.
  { unfold writeAttachStatus. wp_go; calm_go. }
  intros []. apply wp_calm.
  { unfold pushKittyKeyboard. wp_go; calm_go. }
  intros [e|]; [by apply ends_error; split; [constructor|]|].
  apply wp_calm; [apply writeReattachScreenDump_calm|].
  intros [e|]; [by apply ends_error; split; [constructor|]|].
  intros [e|]; [apply ends_error; calm_go|].
  apply wp_bind. eapply wp_mono; [|apply attach_raw_end]. intros tr [r|] H; [|done].
  intros []. split.
  - unfold raw_after. cbn [fold_left]. by rewrite fold_left_app.
  - apply (loop_end_quiet [_]); [by repeat constructor|]. by apply loop_end_snoc.
Qed.

(** ** Properties *)

(** Input forwarding: the daemon is sent exactly the bytes read from the terminal
    up to the first detach key, in order, then the Detach message and nothing
    more; a read-only client sends no input. *)
Theorem input_forwarded fuel opts tr r :
  runs (forwardHostInput fuel opts) tr r -> forwarded_ok opts tr.
Proof. apply (wp_runs _ _ _ _ (forwardHostInput_ok opts fuel)). Qed.
Definition ex_opts : AttachOpts :=
  mkAttachOpts "a" [] (ClientKeys.mkDetachKey 29 true [Byte.x1b]) true false false.
Lemma input_forwarded_witness :
  exists tr, runs (forwardHostInput 3 ex_opts) tr (Some tt) /\ forwarded_ok ex_opts tr /\
    omap input_of tr = [[Byte.x61]; [Byte.x62]].
Proof.
  set (tr := [Step StdinRead ([Byte.x61], None); Step (WriteMsg (input [Byte.x61])) None;
              Step StdinRead ([Byte.x62; Byte.x1d; Byte.x63], None);
              Step (WriteMsg (input [Byte.x62])) None; Step (WriteMsg (MsgDetach mkDetach)) None;
              Step CloseClient tt] : list astep).
  assert (Hr : runs (forwardHostInput 3 ex_opts) tr (Some tt)) by run_go.
  exists tr. split; [exact Hr|]. split; [|reflexivity].
  exact (input_forwarded 3 ex_opts tr _ Hr).
Defined.

(** C18. However an attach ends, the terminal is out of raw mode. It ends with the exit
    code of the process or a detach after resetting the modes of the host
    terminal, and with an error without resetting them. *)
Theorem attach_ends polls fuel opts tr r :
  runs (RunAttach polls fuel opts) tr (Some r) -> raw_after tr = false /\ loop_end tr r.
Proof. intros Hr. exact (wp_runs _ _ _ _ (RunAttach_ends polls fuel opts) Hr). Qed.
Lemma attach_ends_witness :
  exists tr, runs (RunAttach 0 4 ex_opts) tr (Some (Some (ExitError 3))) /\ raw_after tr = false /\
    existsb resets tr = true.
Proof.
  set (md := mkMetadata 80 24 0 0 [] "").
  set (att := mkAttached "a" 42 "1" 80 24 [] 0 0 false true).
  set (tr := [Step Metadata (Ok md);
              Step (RequestAttach (mkAttach "a" [] [] "" 80 24 0 0 false false 0)) (inl att);
              Step (Stderr ("[hauntty] created session " +:+ Quote "a" +:+ " (pid 42)" +:+ lf)) tt;
              Step (Stdout (esc +:+ "[>0u")) None; Step MakeRaw None; Step (StartDeadline 50) tt;
              Step GoForwardResize tt; Step GoForwardInput tt;
              Step ReadMsg (Ok (MsgOutput (mkOutput [Byte.x61])));
              Step (StdoutBytes [Byte.x61]) None;
              Step ReadMsg (Ok (MsgExited (mkExited 3))); Step (Stdout reset_modes) None;
              Step (StartDeadline 20) tt; Step RestoreTerm tt;
              Step (Stderr ("[hauntty] session exited" +:+ lf)) tt; Step CloseDone tt;
              Step RestoreTerm tt]).
  assert (Hr : runs (RunAttach 0 4 ex_opts) tr (Some (Some (ExitError 3)))) by run_go.
  exists tr. split; [exact Hr|].
  destruct (attach_ends 0 4 ex_opts tr _ Hr) as (H1 & [(m & _ & _ & H2)|(m & Hm & _)]).
  - split; [exact H1|exact H2].
  - vm_compute in Hm. discriminate Hm.
Defined.
