(* ===== verification/Config.v ===== *)
(** * Config: the configuration

    Models [internal/config]: the configuration structs, their defaults, loading
    and validating a file, and the paths of the configuration and of the socket.
    The TOML decoder is a parameter: it fills the keys the file has into the
    configuration it is given. *)
From Stdlib Require Import ZArith Lia.
From stdpp Require Import base list strings numbers option pretty.
From S2P Require Import Prelude GoStrings Resize Server.
From S2P Require ClientKeys.
#[local] Open Scope Z_scope.

(** ** Data ([config.go]) *)

Record DaemonConfig := mkDaemonConfig {
  dc_SocketPath : string;
  dc_AutoExit : bool;
  dc_DefaultScrollback : Z;
  dc_StatePersistence : bool;
  dc_StatePersistenceInterval : Z }.

Record ClientConfig := mkClientConfig { cc_DetachKeybind : string; cc_ForwardEnv : list string }.

Record SessionConfig := mkSessionConfig { sc_DefaultCommand : string; sc_ResizePolicy : ResizePolicy }.

Record Config := mkConfig {
  cfg_Daemon : DaemonConfig;
  cfg_Client : ClientConfig;
  cfg_Session : SessionConfig }.

Definition Default : Config :=
  mkConfig (mkDaemonConfig "" false 10000 true 30)
    (mkClientConfig "ctrl+;" ["COLORTERM"; "GHOSTTY_RESOURCES_DIR"; "GHOSTTY_BIN_DIR"])
    (mkSessionConfig "" ResizePolicySmallest).

Definition known_policy (p : ResizePolicy) : bool :=
  bool_decide (p ∈ [ResizePolicySmallest; ResizePolicyLargest; ResizePolicyFirst; ResizePolicyLast]).

Definition validate (c : Config) : option error :=
  if known_policy (sc_ResizePolicy (cfg_Session c)) then None
  else Some (Errorf ("invalid resize_policy " +:+ Quote (sc_ResizePolicy (cfg_Session c)))).

(** ** Paths ([config.go], [paths.go]); the environment is an argument *)

Definition DefaultPath (XDG_CONFIG_HOME : string) (UserHomeDir : result string) : result string :=
  if negb (String.eqb XDG_CONFIG_HOME "")
  then Ok (filepath_Join [XDG_CONFIG_HOME; "hauntty"; "config.toml"])
  else
    match UserHomeDir with
    | Err e => Err (Wrapf "config: determine home directory" e)
    | Ok home => Ok (filepath_Join [home; ".config"; "hauntty"; "config.toml"])
    end.

Definition SocketPath (XDG_RUNTIME_DIR TempDir : string) (Getuid : Z) : string :=
  if negb (String.eqb XDG_RUNTIME_DIR "")
  then filepath_Join [XDG_RUNTIME_DIR; "hauntty"; "hauntty.sock"]
  else filepath_Join [TempDir; "hauntty-" +:+ pretty Getuid; "hauntty.sock"].

(** ** Loading *)

Section Load.
(** [toml.DecodeFile] on a path and the configuration to fill. *)
Context (DecodeFile : string -> Config -> result Config).

Definition LoadFrom (path : string) : result Config :=
  match DecodeFile path Default with
  | Err err =>
      if Is_ErrNotExist err then Ok Default
      else Err (Wrapf ("config: parse " +:+ path) err)
  | Ok cfg =>
      match validate cfg with
      | Some err => Err (Wrapf ("config: " +:+ path) err)
      | None => Ok cfg
      end
  end.

Definition Load (DefaultPath : result string) : result Config :=
  match DefaultPath with
  | Err err => Err (Wrapf "config: default path" err)
  | Ok path => LoadFrom path
  end.

(** The daemon a configuration starts: [daemon.New]. *)
Definition configured_daemon (sock : string) (c : Config) : result Server :=
  let d := cfg_Daemon c in
  New sock (dc_SocketPath d) (dc_StatePersistence d) (dc_StatePersistenceInterval d)
    (dc_DefaultScrollback d) (dc_AutoExit d).

(** A configuration loads just when the file is not there, and then it is the
    defaults, or when it parses and its policy is one of the four that sessions
    know; a file that does not parse or has another policy is an error that names
    it. The defaults are usable: their policy is known, the detach key they name
    can be parsed, and the daemon starts with them. *)
Theorem loading_validates path :
  (forall cfg, LoadFrom path = Ok cfg <->
     (exists e, DecodeFile path Default = Err e /\ Is_ErrNotExist e = true /\ cfg = Default) \/
     (DecodeFile path Default = Ok cfg /\
      sc_ResizePolicy (cfg_Session cfg) ∈
        [ResizePolicySmallest; ResizePolicyLargest; ResizePolicyFirst; ResizePolicyLast])) /\
  (forall err, LoadFrom path = Err err ->
     exists how cause, err = Wrapf (how +:+ path) cause /\
       (DecodeFile path Default = Err cause \/ exists cfg, DecodeFile path Default = Ok cfg /\ validate cfg = Some cause)) /\
  validate Default = None /\
  is_ok (ClientKeys.ParseKeyNotation (cc_DetachKeybind (cfg_Client Default))) = true /\
  forall sock, is_ok (configured_daemon sock Default) = true.
Proof.
  unfold LoadFrom, validate, known_policy. split_and!; try done.
  - intros cfg. destruct (DecodeFile path Default) as [c|e].
    + case_bool_decide as Hp; (split; [|by intros [(e & [=] & _)|[[= ->] ?]]]); [|done].
      intros [= <-]. by right.
    + destruct (Is_ErrNotExist e) eqn:He; (split; [|by intros [(e' & [= <-] & ? & ->)|[[=] _]]; congruence]); [|done].
      intros [= <-]. left. by exists e.
  - intros err. destruct (DecodeFile path Default) as [c|e].
    + case_bool_decide; [done|]. intros [= <-]. do 2 eexists. split; [done|]. right.
      exists c. split; [done|]. by rewrite bool_decide_false.
    + destruct (Is_ErrNotExist e); [done|]. intros [= <-]. do 2 eexists. split; [done|]. by left.
Qed.
End Load.
