(* ===== verification/BuildInfo.v ===== *)
(** * BuildInfo: the version of a build

    Models [version.go]: the revision the Go toolchain recorded in the binary. It is
    what a client and the daemon exchange in their handshake. *)
From Stdlib Require Import ZArith Lia.
From stdpp Require Import base list strings numbers option.
From S2P Require Import Prelude GoStrings Wire.
#[local] Open Scope Z_scope.

(** [debug.BuildSetting]. *)
Record BuildSetting := mkSetting { bs_Key : string; bs_Value : string }.

(** The loop over the settings: the revision and whether it was modified. *)
Definition read_setting (acc : string * bool) (s : BuildSetting) : string * bool :=
  let '(revision, dirty) := acc in
  if String.eqb (bs_Key s) "vcs.revision" then (bs_Value s, dirty)
  else if String.eqb (bs_Key s) "vcs.modified" then (revision, String.eqb (bs_Value s) "true")
  else (revision, dirty).

(** [Version]; [info] is the answer of [debug.ReadBuildInfo]. *)
Definition Version (info : option (list BuildSetting)) : string :=
  match info with
  | None => "unknown"
  | Some settings =>
      let '(revision, dirty) := foldl read_setting ("", false) settings in
      if String.eqb revision "" then "unknown"
      else
        let revision := if (12 <? String.length revision)%nat then str_take 12 revision else revision in
        if dirty then revision +:+ "-dirty" else revision
  end.

Lemma str_take_length_le n s : (String.length (str_take n s) <= n)%nat.
Proof. revert s. induction n as [|n IH]; intros [|c s]; cbn; [lia..|]. specialize (IH s). lia. Qed.

Lemma length_append s1 s2 : String.length (s1 +:+ s2) = (String.length s1 + String.length s2)%nat.
Proof. induction s1 as [|c s1 IH]; [done|]. simpl. by rewrite <- IH. Qed.

(** A version is never empty and fits the length field of the handshake, so that
    neither side fails to send it. *)
Lemma Version_fits info : Version info <> "" /\ (String.length (Version info) <= 18)%nat /\ string_ok (Version info).
Proof.
  assert (Version info <> "" /\ (String.length (Version info) <= 18)%nat) as [H1 H2].
  { unfold Version. destruct info as [settings|]; [|cbn; split; [done|lia]].
    destruct (foldl _ _ _) as [revision dirty].
    destruct (String.eqb_spec revision "") as [->|Hne]; [cbn; split; [done|lia]|].
    set (short := if (12 <? String.length revision)%nat then str_take 12 revision else revision).
    assert (short <> "" /\ (String.length short <= 12)%nat) as [Hs Hl].
    { unfold short. destruct (Nat.ltb_spec 12 (String.length revision)); [|done].
      split; [by destruct revision|apply str_take_length_le]. }
    destruct dirty; [|split; [done|lia]]. split; [by destruct short|].
    rewrite length_append. cbn. lia. }
  split; [done|]. split; [done|]. unfold string_ok, slen. lia.
Qed.
