(* ===== verification/Completion.v ===== *)
(** * Completion: the shell completion scripts

    Models [internal/completion/completion.go]: the command tree as [BuildSpec]
    reads it, the render data, and the three templates, each as the function that
    executing it computes (the dashes of its actions trim the white space around
    them). The tree itself is kong's: only the fields the code reads are here. *)
From Stdlib Require Import ZArith Lia Ascii.
From stdpp Require Import base gmap list strings numbers option pretty sorting.
From S2P Require Import Prelude GoStrings.
#[local] Open Scope Z_scope.

(** ** Strings *)

(** [string(r)], and the verb [%c]: the UTF-8 encoding of a code point. *)
Definition byte_string (n : Z) : string := String (ascii_of_N (Z.to_N n)) EmptyString.

Definition rune_string (r : Z) : string :=
  let r := if (r <? 0) || (1114111 <? r) || ((55296 <=? r) && (r <=? 57343)) then 65533 else r in
  let cont k := byte_string (128 + Z.land (Z.shiftr r k) 63) in
  if r <? 128 then byte_string r
  else if r <? 2048 then byte_string (192 + Z.shiftr r 6) +:+ cont 0
  else if r <? 65536 then byte_string (224 + Z.shiftr r 12) +:+ cont 6 +:+ cont 0
  else byte_string (240 + Z.shiftr r 18) +:+ cont 12 +:+ cont 6 +:+ cont 0.

(** [strings.ReplaceAll(s, c, ...)] with the empty string, for one byte. *)
Fixpoint remove_char (c : ascii) (s : string) : string :=
  match s with
  | EmptyString => EmptyString
  | String d s => if Ascii.eqb d c then remove_char c s else String d (remove_char c s)
  end.

(** [strings.TrimSpace(s) == ""]. *)
Fixpoint blank (s : string) : bool :=
  match s with
  | EmptyString => true
  | String c s => IsSpace c && blank s
  end.

Fixpoint concat_str (l : list string) : string :=
  match l with
  | [] => ""
  | s :: l => s +:+ concat_str l
  end.

Definition sort_Strings (l : list string) : list string := merge_sort String.le l.

Definition lf : string := String "010"%char "".
Definition backslash : string := String "092"%char "".

(** A string of double quotes around constant text. *)
Definition dq (s : string) : string := dquote +:+ s +:+ dquote.

(** Lines, each ended. *)
Definition text (lines : list string) : string := concat_str (map (fun l => l +:+ lf) lines).

(** ** The command tree *)

Record KongFlag := mkKongFlag {
  kf_Name : string; kf_Short : Z; kf_Help : string; kf_Hidden : bool;
  kf_IsBool : bool; kf_EnumSlice : list string }.

Inductive KongNode := mkKongNode {
  kn_Name : string; kn_Aliases : list string; kn_Help : string; kn_Hidden : bool;
  kn_Flags : list (option KongFlag); kn_Positional : list string;
  kn_Children : list (option KongNode) }.

Record Flag := mkFlag {
  f_Name : string; f_Short : Z; f_Help : string; f_HasValue : bool; f_Enum : list string }.

Record Positional := mkPositional { p_Name : string; p_DynamicTopic : string }.

Record Command := mkCommand {
  c_Name : string; c_Aliases : list string; c_Help : string; c_Flags : list Flag;
  c_Positionals : list Positional }.

Record Spec := mkSpec { s_GlobalFlags : list Flag; s_Commands : list Command }.

Definition nonEmptyValues (values : list string) : list string :=
  List.filter (fun v => negb (blank v)) values.

Definition collectFlag (f : option KongFlag) : option Flag :=
  match f with
  | None => None
  | Some f =>
      if kf_Hidden f then None
      else Some (mkFlag (kf_Name f) (kf_Short f) (kf_Help f) (negb (kf_IsBool f))
                   (nonEmptyValues (kf_EnumSlice f)))
  end.

Definition collectFlags (flags : list (option KongFlag)) : list Flag := omap collectFlag flags.

Definition collectPositionals (node : KongNode) (firstPositionalTopic : string) : list Positional :=
  imap (fun i p => mkPositional (ToLower p) (if (i =? 0)%nat then firstPositionalTopic else ""))
    (kn_Positional node).

Definition build_command (topics : gmap string string) (child : option KongNode) : option Command :=
  match child with
  | None => None
  | Some child =>
      if kn_Hidden child then None
      else Some (mkCommand (kn_Name child) (kn_Aliases child) (kn_Help child)
                   (collectFlags (kn_Flags child))
                   (collectPositionals child (default "" (topics !! kn_Name child))))
  end.

Definition BuildSpec (root : option KongNode) (topics : gmap string string) : Spec :=
  match root with
  | None => mkSpec [] []
  | Some root =>
      mkSpec (collectFlags (kn_Flags root)) (omap (build_command topics) (kn_Children root))
  end.

(** ** Flags in the scripts *)

Definition fishFlagOpts (f : Flag) : string :=
  (if f_HasValue f then
     match f_Enum f with
     | _ :: _ => " -xa '" +:+ Join (f_Enum f) " " +:+ "'"
     | [] => " -x"
     end
   else "") +:+
  (if negb (f_Short f =? 0) then " -s " +:+ rune_string (f_Short f) else "").

Definition zshFlagSpec (f : Flag) : string :=
  let help := remove_char "'"%char (f_Help f) in
  let c := rune_string (f_Short f) in
  if negb (f_Short f =? 0) then
    let names := "'(-" +:+ c +:+ " --" +:+ f_Name f +:+ ")'{-" +:+ c +:+ ",--" +:+ f_Name f in
    if f_HasValue f then names +:+ "=}'[" +:+ help +:+ "]:value:'"
    else names +:+ "}'[" +:+ help +:+ "]'"
  else if f_HasValue f then
    match f_Enum f with
    | _ :: _ => "'--" +:+ f_Name f +:+ "=[" +:+ help +:+ "]:(" +:+ Join (f_Enum f) " " +:+ ")'"
    | [] => "'--" +:+ f_Name f +:+ "=[" +:+ help +:+ "]:value:'"
    end
  else "'--" +:+ f_Name f +:+ "[" +:+ help +:+ "]'".

(** ** The render data *)

Record commandRender := mkCommandRender {
  r_Name : string; r_Help : string; r_AllNames : list string; r_SeenNames : string;
  r_CasePattern : string; r_Flags : list Flag; r_Positionals : list Positional;
  r_DynamicName : string; r_DynamicTopic : string; r_BashFlags : string; r_ZshArgsBlock : string }.

Record renderData := mkRenderData {
  d_Bin : string; d_Helper : string; d_GlobalFlags : list Flag; d_Commands : list commandRender;
  d_BashCommands : string; d_ZshCommandValues : string }.

Fixpoint joinWithContinuation (lines : list string) (indent : string) : string :=
  match lines with
  | [] => ""
  | [line] => indent +:+ line +:+ lf
  | line :: rest => indent +:+ line +:+ " " +:+ backslash +:+ lf +:+ joinWithContinuation rest indent
  end.

Definition allNames (cmd : Command) : list string := c_Name cmd :: c_Aliases cmd.

(** The first positional with a topic, as name and topic. *)
Definition dynamic (cmd : Command) : string * string :=
  match c_Positionals cmd with
  | p :: _ => if String.eqb (p_DynamicTopic p) "" then ("", "") else (p_Name p, p_DynamicTopic p)
  | [] => ("", "")
  end.

Definition zsh_positional (bin helper : string) (i : nat) (p : Positional) : string :=
  "'" +:+ pretty (Z.of_nat i + 1) +:+ ":" +:+ p_Name p +:+ ":" +:+
  (if (i =? 0)%nat && negb (String.eqb (p_DynamicTopic p) "")
   then "($(" +:+ bin +:+ " " +:+ helper +:+ " " +:+ p_DynamicTopic p +:+ "))'" else "'").

Definition zshArgs (bin helper : string) (cmd : Command) : list string :=
  match map zshFlagSpec (c_Flags cmd) ++ imap (zsh_positional bin helper) (c_Positionals cmd) with
  | [] => ["'*:arg:'"]
  | args => args
  end.

Definition bashFlags (flags : list Flag) : list string :=
  flags ≫= (fun f => ("--" +:+ f_Name f) ::
                     (if negb (f_Short f =? 0) then ["-" +:+ rune_string (f_Short f)] else [])).

Definition render_command (bin helper : string) (cmd : Command) : commandRender :=
  mkCommandRender (c_Name cmd) (c_Help cmd) (allNames cmd) (Join (allNames cmd) " ")
    (Join (allNames cmd) "|") (c_Flags cmd) (c_Positionals cmd) (dynamic cmd).1 (dynamic cmd).2
    (Join (bashFlags (c_Flags cmd)) " ") (joinWithContinuation (zshArgs bin helper cmd) "    ").

Definition zshCommandValues (cmd : Command) : list string :=
  map (fun name => Quote (name +:+ "[" +:+ c_Help cmd +:+ "]")) (allNames cmd).

Definition buildRenderData (bin helper : string) (spec : Spec) : renderData :=
  mkRenderData bin helper (s_GlobalFlags spec) (map (render_command bin helper) (s_Commands spec))
    (Join (sort_Strings (s_Commands spec ≫= allNames)) " ")
    (joinWithContinuation (s_Commands spec ≫= zshCommandValues) "        ").

(** ** The templates *)

Definition fish_complete (bin : string) : string := "complete -c " +:+ bin +:+ " -f".

Definition fish_flag (bin cond : string) (f : Flag) : string :=
  fish_complete bin +:+ cond +:+ fishFlagOpts f +:+ " -l " +:+ f_Name f +:+ " -d " +:+ Quote (f_Help f).

Definition fish_seen (r : commandRender) : string :=
  " -n '__fish_seen_subcommand_from " +:+ r_SeenNames r +:+ "'".

Definition fish_command (bin helper : string) (r : commandRender) : list string :=
  map (fun name => fish_complete bin +:+ " -n '__fish_use_subcommand' -a " +:+ name +:+ " -d " +:+
                   Quote (r_Help r)) (r_AllNames r) ++
  map (fish_flag bin (fish_seen r)) (r_Flags r) ++
  (if String.eqb (r_DynamicTopic r) "" then []
   else [fish_complete bin +:+ fish_seen r +:+ " -a " +:+
         dq ("(" +:+ bin +:+ " " +:+ helper +:+ " " +:+ r_DynamicTopic r +:+ ")") +:+
         " -d " +:+ Quote (r_DynamicName r)]).

Definition fishTemplate (d : renderData) : string :=
  text (["# fish shell completion for " +:+ d_Bin d; "# generated by hauntty"] ++
        map (fish_flag (d_Bin d) "") (d_GlobalFlags d) ++
        (d_Commands d ≫= fish_command (d_Bin d) (d_Helper d))).

Definition zsh_function (bin : string) (r : commandRender) : string :=
  text ["_" +:+ bin +:+ "_" +:+ r_Name r +:+ "() {"; "  _arguments " +:+ backslash] +:+
  r_ZshArgsBlock r +:+ text ["}"].

Definition zshTemplate (d : renderData) : string :=
  text (["#compdef " +:+ d_Bin d; "compdef _" +:+ d_Bin d +:+ " " +:+ d_Bin d;
         "_" +:+ d_Bin d +:+ "() {"; "  local line state"; "  _arguments -S -C -s " +:+ backslash] ++
        map (fun f => "    " +:+ zshFlagSpec f +:+ " " +:+ backslash) (d_GlobalFlags d) ++
        ["    " +:+ dq "1: :->cmds" +:+ " " +:+ backslash; "    " +:+ dq "*::arg:->args";
         "  case " +:+ dq "$state" +:+ " in"; "    cmds)";
         "      _values " +:+ Quote (d_Bin d +:+ " command") +:+ " " +:+ backslash]) +:+
  d_ZshCommandValues d +:+
  text (["      ;;"; "    args)"; "      case " +:+ dq "$line[1]" +:+ " in"] ++
        map (fun r => "        " +:+ r_CasePattern r +:+ ") _" +:+ d_Bin d +:+ "_" +:+ r_Name r +:+ ";;")
          (d_Commands d) ++
        ["      esac"; "      ;;"; "  esac"; "}"]) +:+
  concat_str (map (zsh_function (d_Bin d)) (d_Commands d)).

Definition bash_reply (indent words : string) : list string :=
  [indent +:+ "COMPREPLY=( $(compgen -W " +:+ words +:+ " -- " +:+ dq "$cur" +:+ ") )";
   indent +:+ "return 0"].

Definition bash_command (bin helper : string) (r : commandRender) : list string :=
  ["    " +:+ r_CasePattern r +:+ ")"] ++
  (if String.eqb (r_DynamicTopic r) "" then []
   else ["      if [[ ${COMP_CWORD} -eq 2 ]]; then"] ++
        bash_reply "        " (dq ("$(" +:+ bin +:+ " " +:+ helper +:+ " " +:+ r_DynamicTopic r +:+ ")")) ++
        ["      fi"]) ++
  (if String.eqb (r_BashFlags r) "" then [] else bash_reply "      " (Quote (r_BashFlags r))) ++
  ["      ;;"].

Definition bashTemplate (d : renderData) : string :=
  text (["# bash completion for " +:+ d_Bin d; "_" +:+ d_Bin d +:+ "_complete() {";
         "  local cur prev cmd"; "  COMPREPLY=()"; "  cur=${COMP_WORDS[COMP_CWORD]}";
         "  prev=${COMP_WORDS[COMP_CWORD-1]}"; "  cmd=${COMP_WORDS[1]}"; "";
         "  if [[ ${COMP_CWORD} -eq 1 ]]; then"] ++
        bash_reply "    " (Quote (d_BashCommands d)) ++
        ["  fi"; ""; "  case " +:+ dq "$cmd" +:+ " in"] ++
        (d_Commands d ≫= bash_command (d_Bin d) (d_Helper d)) ++
        ["  esac"; "}"; "complete -F _" +:+ d_Bin d +:+ "_complete " +:+ d_Bin d]).

Definition Generate (shell bin helperCommand : string) (spec : Spec) : result string :=
  let data := buildRenderData bin helperCommand spec in
  if String.eqb shell "fish" then Ok (fishTemplate data)
  else if String.eqb shell "zsh" then Ok (zshTemplate data)
  else if String.eqb shell "bash" then Ok (bashTemplate data)
  else Err (Errorf ("unsupported shell: " +:+ shell)).

(** ** The scripts of the tests *)

Definition ex_socket : Flag := mkFlag "socket" 0 "Socket path." true [].
Definition ex_attach : Command :=
  mkCommand "attach" ["a"] "Attach to a session." [] [mkPositional "session" "live_sessions"].
Definition ex_list : Command :=
  mkCommand "list" ["ls"] "List sessions." [mkFlag "all" 97 "Show dead sessions." false []] [].

Example fish_script :
  Generate "fish" "ht" "__complete" (mkSpec [ex_socket] [ex_attach; ex_list]) =
  Ok (text
    ["# fish shell completion for ht"; "# generated by hauntty";
     "complete -c ht -f -x -l socket -d " +:+ dq "Socket path.";
     "complete -c ht -f -n '__fish_use_subcommand' -a attach -d " +:+ dq "Attach to a session.";
     "complete -c ht -f -n '__fish_use_subcommand' -a a -d " +:+ dq "Attach to a session.";
     "complete -c ht -f -n '__fish_seen_subcommand_from attach a' -a " +:+
       dq "(ht __complete live_sessions)" +:+ " -d " +:+ dq "session";
     "complete -c ht -f -n '__fish_use_subcommand' -a list -d " +:+ dq "List sessions.";
     "complete -c ht -f -n '__fish_use_subcommand' -a ls -d " +:+ dq "List sessions.";
     "complete -c ht -f -n '__fish_seen_subcommand_from list ls' -s a -l all -d " +:+
       dq "Show dead sessions."]).
Proof. vm_compute. reflexivity. Qed.

Example zsh_script :
  Generate "zsh" "ht" "__complete" (mkSpec [ex_socket] [ex_attach]) =
  Ok (text
    ["#compdef ht"; "compdef _ht ht"; "_ht() {"; "  local line state"; "  _arguments -S -C -s \";
     "    '--socket=[Socket path.]:value:' \"; "    " +:+ dq "1: :->cmds" +:+ " \";
     "    " +:+ dq "*::arg:->args"; "  case " +:+ dq "$state" +:+ " in"; "    cmds)";
     "      _values " +:+ dq "ht command" +:+ " \"; "        " +:+ dq "attach[Attach to a session.]" +:+ " \";
     "        " +:+ dq "a[Attach to a session.]"; "      ;;"; "    args)";
     "      case " +:+ dq "$line[1]" +:+ " in"; "        attach|a) _ht_attach;;"; "      esac"; "      ;;";
     "  esac"; "}"; "_ht_attach() {"; "  _arguments \";
     "    '1:session:($(ht __complete live_sessions))'"; "}"]).
Proof. vm_compute. reflexivity. Qed.

Example bash_script :
  Generate "bash" "ht" "__complete" (mkSpec [] [ex_attach]) =
  Ok (text
    ["# bash completion for ht"; "_ht_complete() {"; "  local cur prev cmd"; "  COMPREPLY=()";
     "  cur=${COMP_WORDS[COMP_CWORD]}"; "  prev=${COMP_WORDS[COMP_CWORD-1]}"; "  cmd=${COMP_WORDS[1]}"; "";
     "  if [[ ${COMP_CWORD} -eq 1 ]]; then";
     "    COMPREPLY=( $(compgen -W " +:+ dq "a attach" +:+ " -- " +:+ dq "$cur" +:+ ") )";
     "    return 0"; "  fi"; ""; "  case " +:+ dq "$cmd" +:+ " in"; "    attach|a)";
     "      if [[ ${COMP_CWORD} -eq 2 ]]; then";
     "        COMPREPLY=( $(compgen -W " +:+ dq "$(ht __complete live_sessions)" +:+ " -- " +:+
       dq "$cur" +:+ ") )";
     "        return 0"; "      fi"; "      ;;"; "  esac"; "}"; "complete -F _ht_complete ht"]).
Proof. vm_compute. reflexivity. Qed.
