(* ===== verification/Cli.v ===== *)
(** * Cli: the commands of [ht]

    Models [cmd/ht/main.go], [cmd/ht/completion.go] and
    [internal/client/daemon_probe.go]: every command
    and [main], as [proc]s of the operations below (the environment, the terminal,
    files, processes, and the calls of [ClientLib.v] on a connection). The argument
    parser, the TOML encoder, the table writer and regular expressions are library
    code: parameters or operations. *)
From Stdlib Require Import ZArith Lia Ascii.
From stdpp Require Import base gmap list strings numbers option pretty.
From S2P Require Import Prelude GoStrings Wire Messages Resize Proc Server ClientLib ClientAttach Config.
From S2P Require TermState ClientKeys Completion.
#[local] Open Scope Z_scope.

(** ** Errors *)

Inductive errno := ENOENT | ECONNREFUSED | OtherErrno (n : Z).

(** An error of [client.Connect]: its text, and of the [*net.OpError] in its chain
    whether it holds an [*os.SyscallError], and the system error. *)
Record connect_error := mkConnectError { ce_error : error; ce_net : option (bool * errno) }.

(** What a command returns; [commandExitError] is the one with an exit code. *)
Inductive cmd_error : Type :=
| Plain (e : error)
| FromConnect (e : connect_error)
| FromCall (e : call_error)
| FromAttach (e : attach_error)
| commandExitError (code : Z) (stderr : string).

(** [OutOfFuel]: still in a loop that only its surroundings end. *)
Inductive outcome : Type :=
| Done (err : option cmd_error)
| OutOfFuel.

Definition fails (e : error) : outcome := Done (Some (Plain e)).
Definition succeeds : outcome := Done None.

(** ** Operations *)

(** [wait4] without waiting. *)
Inductive wait4 :=
| WaitError (echild : bool) (e : error)
| StillRunning
| Exited (status : Z)
| Signaled (signal : string)
| Stopped.

Inductive cop : Type -> Type :=
| Getenv (key : string) : cop string
| LookupEnv (key : string) : cop (option string)
| Getwd : cop (result string)
| IoctlGetWinsize : cop (result Winsize)
| UserHomeDir : cop (result string)
| IsTerminal (stdin : bool) : cop bool
| Dial (sock : string) : cop (option connect_error)
| CloseConn : cop unit
| Request {T} (cl : ClientLib.call T) : cop (answer T)
| DoAttach (opts : AttachOpts) : cop (option attach_error)
| Print (text : string) : cop unit
| Eprint (text : string) : cop unit
| WriteStdout (data : bytes) : cop (option error)
| WriteRows (rows : list (list string)) : cop (option error)
| EncodeStdout (cfg : Config) : cop (option error)
| BeforeDeadline : cop bool
| AfterDeadline : cop bool
| Sleep (ms : Z) : cop unit
| Executable : cop (result string)
| MkdirAll (path : string) : cop (option error)
| OpenAppend (path : string) : cop (option error)
| CreateTemp (dir : string) : cop (result string)
| CloseLog : cop unit
| Remove (path : string) : cop unit
| Rename (from to : string) : cop (option error)
| StartProcess (exe : string) (args : list string) : cop (result Z)
| Release (pid : Z) : cop (option error)
| Wait4 (pid : Z) : cop wait4
| StatExists (path : string) : cop bool
| CreateFile (path : string) : cop (option error)
| EncodeFile (cfg : Config) : cop (option error)
| CloseFile : cop unit
| Listen_ (srv : Server) : cop (option error)
| Exit (code : Z) : cop unit
| Fatal (e : cmd_error) : cop Z.

Abbreviation cproc := (Proc.proc cop).

(** ** Pure helpers *)

Definition formatSessionPID (pid : Z) : string := if pid =? 0 then "-" else pretty pid.

Definition seconds (n : Z) : string := pretty n +:+ "s".

Definition formatUptime (secs : Z) : string :=
  let h := secs / 3600 in
  let m := (secs / 60) mod 60 in
  let s := secs mod 60 in
  if 0 <? h then pretty h +:+ "h " +:+ pretty m +:+ "m"
  else if 0 <? m then pretty m +:+ "m " +:+ seconds s
  else seconds s.

Definition dumpRequestFormat (format : string) (join scrollback : bool) : Z :=
  let value :=
    if String.eqb format "vt" then TermState.DumpVT
    else if String.eqb format "html" then TermState.DumpHTML else 0 in
  let value := if join then Z.lor value TermState.DumpFlagUnwrap else value in
  if scrollback then Z.lor value TermState.DumpFlagScrollback else value.

Definition waitContent (content : string) (row : Z) : string :=
  if row <? 0 then content
  else
    let lines := Split content "010"%char in
    if blen lines <=? row then ""
    else default "" (lines !! Z.to_nat row).

Definition resolveDefaultCommand (command : list string) (cfg : Config) : list string :=
  match command with
  | _ :: _ => command
  | [] =>
      if String.eqb (sc_DefaultCommand (cfg_Session cfg)) "" then []
      else Fields (sc_DefaultCommand (cfg_Session cfg))
  end.

(** The home directory of a listed path as a tilde. *)
Definition abbreviate (home cwd : string) : string :=
  if negb (String.eqb home "") && HasPrefix cwd home
  then "~" +:+ str_drop (String.length home) cwd else cwd.

Definition daemonStartArgs (socketPath : string) (autoExit : bool) : list string :=
  let args := ["daemon"] in
  let args := if autoExit then args ++ ["--auto-exit"] else args in
  if negb (String.eqb socketPath "") then args ++ ["--socket"; socketPath] else args.

Definition see (logPath : string) : string :=
  if String.eqb logPath "" then "" else " (see " +:+ logPath +:+ ")".
Definition daemonStartupError (socketPath logPath : string) (cause : string) : error :=
  Errorf ("daemon failed before ready at " +:+ socketPath +:+ ": " +:+ cause +:+ see logPath).
Definition daemonStartupTimeoutError (socketPath logPath : string) : error :=
  Errorf ("timed out waiting for daemon at " +:+ socketPath +:+ see logPath).

Definition commandExitError_Error (code : Z) (stderr : string) : string :=
  if negb (String.eqb stderr "") then TrimSuffix stderr (String "010"%char "")
  else "exit with code " +:+ pretty code.

Definition nl : string := String "010"%char "".

(** ** Connecting ([daemon_probe.go]) *)

Definition DaemonUnavailable (err : connect_error) : bool :=
  match ce_net err with
  | None => false
  | Some (_, ENOENT) | Some (_, ECONNREFUSED) => true
  | Some (_, OtherErrno _) => false
  end.

Definition close_conn : cproc unit := do! _ := CloseConn in Ret tt.

Definition ProbeDaemon (sock : string) : cproc (bool + connect_error) :=
  do! c := Dial sock in
  match c with
  | Some err => if DaemonUnavailable err then Ret (inl false) else Ret (inr err)
  | None => deferred close_conn (Ret (inl true))
  end.

(** Connect, run [body], and close the connection however it ends. *)
Definition with_client (sock : string) (on_error : connect_error -> cmd_error) (body : cproc outcome) :
    cproc outcome :=
  do! c := Dial sock in
  match c with
  | Some err => Ret (Done (Some (on_error err)))
  | None => deferred close_conn body
  end.

Definition no_daemon (err : connect_error) : cmd_error :=
  if DaemonUnavailable err
  then commandExitError 1 ("can't connect to socket, daemon probably not running" +:+ nl)
  else FromConnect err.

(** [v, err := call(); if err != nil { return err }]. *)
Definition request {T} (cl : ClientLib.call T) (body : T -> cproc outcome) : cproc outcome :=
  do! r := Request cl in
  match r with
  | inr e => Ret (Done (Some (FromCall e)))
  | inl v => body v
  end.

(** ** Starting the daemon *)

Section Cli.
(** The socket of [config.SocketPath], and [hauntty.Version]. *)
Context (defaultSocket Version : string).
(** The key encoder of the detach key, in the legacy and the kitty mode. *)
Context (legacy kitty : TermState.keyEvent -> result bytes).
(** [time.Unix(ts, 0).Format(...)] in the local time zone, and [regexp.Compile]. *)
Context (formatTime : Z -> string) (regexp_Compile : string -> result (string -> bool)).

Definition or_default (socketPath : string) : string :=
  if String.eqb socketPath "" then defaultSocket else socketPath.

Definition openDaemonLogFile (sock logPath : string) : cproc (result string) :=
  if negb (String.eqb logPath "") then
    do! err := MkdirAll (filepath_Dir logPath) in
    match err with
    | Some e => Ret (Err (Wrapf "create daemon log directory" e))
    | None =>
        do! err := OpenAppend logPath in
        match err with
        | Some e => Ret (Err (Wrapf "open daemon log file" e))
        | None => Ret (Ok logPath)
        end
    end
  else
    let dir := filepath_Dir sock in
    do! err := MkdirAll dir in
    match err with
    | Some e => Ret (Err (Wrapf "create socket dir" e))
    | None =>
        do! f := CreateTemp dir in
        match f with
        | Err e => Ret (Err (Wrapf "create daemon log" e))
        | Ok name => Ret (Ok name)
        end
    end.

Definition daemonProcessExitError (status : wait4) : error :=
  match status with
  | Exited n => Errorf ("daemon exited before ready with status " +:+ pretty n)
  | Signaled sig => Errorf ("daemon exited before ready from signal " +:+ sig)
  | _ => Errorf "daemon exited before ready"
  end.

Definition daemonProcessExited (pid : Z) : cproc (bool * option error) :=
  do! waited := Wait4 pid in
  match waited with
  | WaitError true _ => Ret (false, None)
  | WaitError false e => Ret (false, Some (Wrapf "wait daemon process" e))
  | StillRunning => Ret (false, None)
  | status => Ret (true, Some (daemonProcessExitError status))
  end.

(** Wait until the daemon answers; with whether the process was released or reaped. *)
Fixpoint wait_ready (fuel : nat) (sock logFilePath : string) (pid : Z) : cproc (outcome * bool) :=
  match fuel with
  | O => Ret (OutOfFuel, true)
  | S fuel =>
      do! before := BeforeDeadline in
      if negb before then Ret (fails (daemonStartupTimeoutError sock logFilePath), false)
      else
        call! running := ProbeDaemon sock in
        match running with
        | inr err => Ret (fails (daemonStartupError sock logFilePath (error_text (ce_error err))), false)
        | inl true =>
            do! err := Release pid in
            match err with
            | Some e => Ret (fails (Wrapf "release daemon process" e), false)
            | None => Ret (succeeds, true)
            end
        | inl false =>
            call! (exited, err) := daemonProcessExited pid in
            match err with
            | Some e => Ret (fails (daemonStartupError sock logFilePath (error_text e)), exited)
            | None =>
                do! _ := Sleep 50 in
                wait_ready fuel sock logFilePath pid
            end
        end
  end.

(** From the started process on: the result, whether the process was released or
    reaped, and whether the temporary log is to be removed. *)
Definition daemon_started (fuel : nat) (sock logPath logName : string) (pid : Z) :
    cproc (outcome * bool * bool) :=
  if String.eqb logPath "" then
    let finalPath := filepath_Join [filepath_Dir sock; "hauntty-server-" +:+ pretty pid +:+ ".log"] in
    do! err := Rename logName finalPath in
    match err with
    | Some e => Ret (fails (Wrapf "rename daemon log file" e), false, true)
    | None => call! (r, finished) := wait_ready fuel sock finalPath pid in Ret (r, finished, false)
    end
  else call! (r, finished) := wait_ready fuel sock logName pid in Ret (r, finished, false).

Definition start_daemon (fuel : nat) (sock socketPath : string) (autoExit : bool)
    (exe logPath logName : string) : cproc (outcome * bool) :=
  do! started := StartProcess exe (daemonStartArgs socketPath autoExit) in
  match started with
  | Err e => Ret (fails (Wrapf "start daemon" e), String.eqb logPath "")
  | Ok pid =>
      call! (r, finished, cleanup) := daemon_started fuel sock logPath logName pid in
      if finished then Ret (r, cleanup)
      else do! _ := Release pid in Ret (r, cleanup)
  end.

Definition ensureDaemonDetached (fuel : nat) (socketPath : string) (autoExit : bool) (logPath : string) :
    cproc outcome :=
  let sock := or_default socketPath in
  call! running := ProbeDaemon sock in
  match running with
  | inr err => Ret (Done (Some (FromConnect err)))
  | inl true => Ret succeeds
  | inl false =>
      do! exe := Executable in
      match exe with
      | Err e => Ret (fails (Wrapf "find executable" e))
      | Ok exe =>
          call! log := openDaemonLogFile sock logPath in
          match log with
          | Err e => Ret (fails e)
          | Ok logName =>
              deferred (do! _ := CloseLog in Ret tt)
                (call! (r, cleanup) := start_daemon fuel sock socketPath autoExit exe logPath logName in
                 if cleanup then do! _ := Remove logName in Ret r else Ret r)
          end
      end
  end.

Definition ensureDaemon (fuel : nat) (socketPath : string) : cproc outcome :=
  ensureDaemonDetached fuel socketPath false "".

(** [if err := ensureDaemon(...); err != nil { return err }]. *)
Definition with_daemon (fuel : nat) (cfg : Config) (body : cproc outcome) : cproc outcome :=
  call! r := ensureDaemon fuel (dc_SocketPath (cfg_Daemon cfg)) in
  match r with
  | Done None => with_client (dc_SocketPath (cfg_Daemon cfg)) FromConnect body
  | _ => Ret r
  end.

(** ** The environment of a session *)

Definition alwaysForwardEnv : list string := ["TERM"; "SHELL"].

Fixpoint forward_keys (keys env : list string) : cproc (list string) :=
  match keys with
  | [] => Ret env
  | key :: keys =>
      do! val := LookupEnv key in
      match val with
      | Some val => forward_keys keys (env ++ [key +:+ "=" +:+ val])
      | None => forward_keys keys env
      end
  end.

Definition collectForwardedEnv (extra : list string) : cproc (list string) :=
  call! env := forward_keys alwaysForwardEnv [] in
  forward_keys extra env.

(** What [RunAttach] asks with [Metadata]. *)
Definition attachMetadataFunc (extraEnv : list string) : cproc (result AttachMetadata) :=
  do! ws := IoctlGetWinsize in
  match ws with
  | Err e => Ret (Err (Wrapf "get terminal size" e))
  | Ok ws =>
      do! cwd := Getwd in
      match cwd with
      | Err e => Ret (Err (Wrapf "get cwd" e))
      | Ok cwd =>
          call! env := collectForwardedEnv extraEnv in
          Ret (Ok (mkMetadata (u16 (ws_Cols ws)) (u16 (ws_Rows ws)) (ws_X ws) (ws_Y ws) env cwd))
      end
  end.

Definition isInteractiveAttachTTY : cproc bool :=
  do! stdin := IsTerminal true in
  if stdin then do! stdout := IsTerminal false in Ret stdout else Ret false.

(** ** Commands *)

Definition nested (s : string) : error :=
  Errorf ("already inside session " +:+ Quote s +:+ ", nested sessions are not supported").

Definition detach_key (cfg : Config) (body : ClientKeys.DetachKey -> cproc outcome) : cproc outcome :=
  let keybind := cc_DetachKeybind (cfg_Client cfg) in
  match ClientKeys.ParseDetachKey legacy kitty keybind with
  | Err e => Ret (fails (Wrapf ("invalid detach_keybind " +:+ Quote keybind) e))
  | Ok dk => body dk
  end.

Definition run_attach (opts : AttachOpts) : cproc outcome :=
  do! err := DoAttach opts in
  Ret (Done (match err with None => None | Some e => Some (FromAttach e) end)).

(** What the attaching commands share; [no_tty] is the error without a terminal. *)
Definition interactive (fuel : nat) (no_tty : error) (cfg : Config)
    (opts : ClientKeys.DetachKey -> AttachOpts) : cproc outcome :=
  do! s := Getenv "HAUNTTY_SESSION" in
  if negb (String.eqb s "") then Ret (fails (nested s))
  else
    call! tty := isInteractiveAttachTTY in
    if negb tty then Ret (fails no_tty)
    else detach_key cfg (fun dk => with_daemon fuel cfg (run_attach (opts dk))).

Definition AttachCmd_Run (fuel : nat) (Name : string) (Command : list string) (ReadOnly : bool)
    (cfg : Config) : cproc outcome :=
  interactive fuel
    (Errorf (if String.eqb Name ""
             then "interactive attach requires a TTY; use " +:+ backtick +:+ "ht new" +:+ backtick
             else "interactive attach requires a TTY; use " +:+ backtick +:+ "ht new " +:+ Name +:+ backtick))
    cfg
    (fun dk => mkAttachOpts Name (resolveDefaultCommand Command cfg) dk true ReadOnly false).

Definition RestoreCmd_Run (fuel : nat) (Name : string) (ReadOnly : bool) (cfg : Config) : cproc outcome :=
  interactive fuel (Errorf "restore requires a TTY") cfg
    (fun dk => mkAttachOpts Name [] dk true ReadOnly true).

Definition NewCmd_Run (fuel : nat) (Name : string) (Command : list string) (Force : bool)
    (cfg : Config) : cproc outcome :=
  with_daemon fuel cfg
    (do! cwd := Getwd in
     match cwd with
     | Err e => Ret (fails (Wrapf "get cwd" e))
     | Ok cwd =>
         call! env := collectForwardedEnv (cc_ForwardEnv (cfg_Client cfg)) in
         request (CCreate (mkCreateOpts Name (resolveDefaultCommand Command cfg) env cwd 0 Force))
           (fun created =>
              do! _ := Print ("created session " +:+ Quote (cs_Name created) +:+ " (pid " +:+
                              pretty (cs_PID created) +:+ ")" +:+ nl) in
              Ret succeeds)
     end).

Definition formatSessionTimestamp (ts : Z) : string := if ts =? 0 then "-" else formatTime ts.

Definition session_row (home : string) (s : SessionInfo) : list string :=
  [si_Name s; si_State s; pretty (si_Cols s) +:+ "x" +:+ pretty (si_Rows s); abbreviate home (si_CWD s);
   formatSessionPID (si_PID s); formatSessionTimestamp (si_CreatedAt s);
   formatSessionTimestamp (si_SavedAt s)].

Definition SessionStateDead : string := "dead".
Definition SessionStateRunning : string := "running".

Definition sessionListRows (sessions : list SessionInfo) (showAll : bool) (home : string) :
    list (list string) :=
  ["NAME"; "STATE"; "SIZE"; "CWD"; "PID"; "CREATED"; "SAVED"] ::
  map (session_row home)
    (filter (fun s => negb (negb showAll && String.eqb (si_State s) SessionStateDead)) sessions).

Definition home_dir : cproc string :=
  do! home := UserHomeDir in
  Ret (match home with Ok home => home | Err _ => "" end).

Definition ListCmd_Run (All : bool) (cfg : Config) : cproc outcome :=
  with_client (dc_SocketPath (cfg_Daemon cfg)) no_daemon
    (request (CList false) (fun sessions =>
       call! home := home_dir in
       let rows := sessionListRows sessions All home in
       if blen rows =? 1 then do! _ := Eprint ("no sessions" +:+ nl) in Ret succeeds
       else
         do! err := WriteRows rows in
         Ret (Done (option_map Plain err)))).

Definition KillCmd_Run (Name : string) (cfg : Config) : cproc outcome :=
  with_client (dc_SocketPath (cfg_Daemon cfg)) FromConnect
    (request (CKill Name) (fun _ =>
       do! _ := Print ("killed session " +:+ Quote Name +:+ nl) in Ret succeeds)).

Fixpoint send_texts (Name : string) (texts : list string) (rest : cproc outcome) : cproc outcome :=
  match texts with
  | [] => rest
  | t :: texts => request (CSend Name (bytes_of_string t)) (fun _ => send_texts Name texts rest)
  end.

Fixpoint send_keys (Name : string) (keys : list string) : cproc outcome :=
  match keys with
  | [] => Ret succeeds
  | k :: keys =>
      match ClientKeys.ParseKeyNotation k with
      | Err e => Ret (fails e)
      | Ok ki =>
          request (CSendKey Name (ClientKeys.Code ki) (ClientKeys.Mods ki))
            (fun _ => send_keys Name keys)
      end
  end.

Definition SendCmd_Run (Name : string) (Text Key : list string) (cfg : Config) : cproc outcome :=
  match Text, Key with
  | [], [] => Ret (fails (Errorf "send requires input"))
  | _, _ =>
      with_client (dc_SocketPath (cfg_Daemon cfg)) FromConnect
        (send_texts Name Text (send_keys Name Key))
  end.

Definition DumpCmd_Run (Name Format : string) (Join Scrollback : bool) (cfg : Config) : cproc outcome :=
  let dump Name :=
    with_client (dc_SocketPath (cfg_Daemon cfg)) FromConnect
      (request (CDump Name (dumpRequestFormat Format Join Scrollback)) (fun data =>
         do! err := WriteStdout data in Ret (Done (option_map Plain err)))) in
  if String.eqb Name "" then
    do! name := Getenv "HAUNTTY_SESSION" in
    if String.eqb name "" then
      Ret (fails (Errorf "session name required (or run inside a hauntty session)"))
    else dump name
  else dump Name.

Definition KickCmd_Run (Name ClientID : string) (cfg : Config) : cproc outcome :=
  with_client (dc_SocketPath (cfg_Daemon cfg)) FromConnect
    (request (CKick Name ClientID) (fun _ =>
       do! _ := Print ("kicked client " +:+ ClientID +:+ " from session " +:+ Quote Name +:+ nl) in
       Ret succeeds)).

Fixpoint print_all (lines : list string) : cproc unit :=
  match lines with
  | [] => Ret tt
  | l :: lines => do! _ := Print (l +:+ nl) in print_all lines
  end.

Definition client_line (cl : ClientInfo) : string :=
  "  [" +:+ ci_ClientID cl +:+ "]:   " +:+ ci_Version cl +:+
  (if ci_ReadOnly cl then " (read-only)" else "").

Definition session_lines (home : string) (s : SessionStatusInfo) : list string :=
  [""; "session:  " +:+ ssi_Name s; "state:    " +:+ ssi_State s;
   "size:     " +:+ pretty (ssi_Cols s) +:+ "x" +:+ pretty (ssi_Rows s);
   "cwd:      " +:+ abbreviate home (ssi_CWD s); "pid:      " +:+ pretty (ssi_PID s);
   "clients:  " +:+ pretty (blen (ssi_Clients s))] ++ map client_line (ssi_Clients s).

Definition StatusCmd_Run (cfg : Config) : cproc outcome :=
  with_client (dc_SocketPath (cfg_Daemon cfg)) no_daemon
    (do! name := Getenv "HAUNTTY_SESSION" in
     request (CStatus name) (fun resp =>
       call! home := home_dir in
       let d := st_Daemon resp in
       call! _ := print_all
         ["daemon:   running (pid " +:+ pretty (di_PID d) +:+ ", uptime " +:+ formatUptime (di_Uptime d) +:+ ")";
          "version:  client=" +:+ Version +:+ " server=" +:+ di_Version d;
          "socket:   " +:+ di_SocketPath d;
          "sessions: " +:+ pretty (di_RunningCount d) +:+ " running, " +:+ pretty (di_DeadCount d) +:+ " dead"] in
       match st_Session resp with
       | None => Ret succeeds
       | Some s => call! _ := print_all (session_lines home s) in Ret succeeds
       end)).

Definition compileWaitMatcher (pattern : string) (regex : bool) : result (string -> bool) :=
  if regex then
    match regexp_Compile pattern with
    | Err e => Err (Wrapf "invalid regex" e)
    | Ok re => Ok re
    end
  else Ok (fun s => String.eqb pattern "" || Contains s pattern).

Definition wait_error (text : string) : cmd_error := commandExitError 2 ("error: " +:+ text +:+ nl).

(** The polls of [ht wait]. *)
Fixpoint wait_loop (fuel : nat) (match_ : string -> bool) (Name Pattern : string) (Row Interval : Z) :
    cproc outcome :=
  match fuel with
  | O => Ret OutOfFuel
  | S fuel =>
      do! r := Request (CDump Name TermState.DumpPlain) in
      match r with
      | inr e => Ret (Done (Some (wait_error (ServerError_Error e))))
      | inl data =>
          if match_ (waitContent (string_of_bytes data) Row) then Ret succeeds
          else
            do! late := AfterDeadline in
            if late
            then Ret (Done (Some (commandExitError 1 ("timeout waiting for " +:+ Quote Pattern +:+ nl))))
            else
              do! _ := Sleep Interval in
              wait_loop fuel match_ Name Pattern Row Interval
      end
  end.

Definition WaitCmd_Run (fuel : nat) (Name Pattern : string) (Regex : bool) (Row Interval : Z)
    (cfg : Config) : cproc outcome :=
  match compileWaitMatcher Pattern Regex with
  | Err e => Ret (fails e)
  | Ok match_ =>
      with_client (dc_SocketPath (cfg_Daemon cfg)) (fun e => wait_error (error_text (ce_error e)))
        (wait_loop fuel match_ Name Pattern Row Interval)
  end.

Definition PruneCmd_Run (cfg : Config) : cproc outcome :=
  with_client (dc_SocketPath (cfg_Daemon cfg)) FromConnect
    (request CPrune (fun count =>
       do! _ := Print (if count =? 0 then "no dead sessions to prune" +:+ nl
                       else "pruned " +:+ pretty count +:+ " dead session(s)" +:+ nl) in
       Ret succeeds)).

Definition InitCmd_Run (path : result string) : cproc outcome :=
  match path with
  | Err e => Ret (fails e)
  | Ok path =>
      do! exists_ := StatExists path in
      if exists_ then Ret (fails (Errorf ("config already exists: " +:+ path)))
      else
        do! err := MkdirAll (filepath_Dir path) in
        match err with
        | Some e => Ret (fails (Wrapf "create config directory" e))
        | None =>
            do! err := CreateFile path in
            match err with
            | Some e => Ret (fails (Wrapf "create config file" e))
            | None =>
                deferred (do! _ := CloseFile in Ret tt)
                  (do! err := EncodeFile Default in
                   match err with
                   | Some e => Ret (fails (Wrapf "write config" e))
                   | None => do! _ := Print ("created " +:+ path +:+ nl) in Ret succeeds
                   end)
            end
        end
  end.

Definition ConfigCmd_Run (cfg : Config) : cproc outcome :=
  do! err := EncodeStdout cfg in Ret (Done (option_map Plain err)).

Definition DaemonCmd_validate (Detach : bool) (LogFile : string) : option error :=
  if negb (String.eqb LogFile "") && negb Detach
  then Some (Errorf "--log-file requires --detach") else None.

Definition set_AutoExit (cfg : Config) : Config :=
  let d := cfg_Daemon cfg in
  mkConfig (mkDaemonConfig (dc_SocketPath d) true (dc_DefaultScrollback d) (dc_StatePersistence d)
              (dc_StatePersistenceInterval d)) (cfg_Client cfg) (cfg_Session cfg).

Definition DaemonCmd_Run (fuel : nat) (AutoExit Detach : bool) (LogFile : string) (cfg : Config) :
    cproc outcome :=
  match DaemonCmd_validate Detach LogFile with
  | Some e => Ret (fails e)
  | None =>
      if Detach
      then ensureDaemonDetached fuel (dc_SocketPath (cfg_Daemon cfg)) AutoExit LogFile
      else
        let cfg := if AutoExit then set_AutoExit cfg else cfg in
        match configured_daemon defaultSocket cfg with
        | Err e => Ret (fails (Wrapf "init daemon" e))
        | Ok srv => do! err := Listen_ srv in Ret (Done (option_map Plain err))
        end
  end.

(** ** Completion ([completion.go]) *)

(** With [SHELL] unset, [filepath.Base] gives a dot: the second case is not reached. *)
Definition resolveCompletionShell (shell : string) : cproc (result string) :=
  call! shell := (if String.eqb shell "" then do! v := Getenv "SHELL" in Ret (filepath_Base v)
                else Ret shell) in
  Ret (if existsb (String.eqb shell) ["bash"; "zsh"; "fish"] then Ok shell
       else if String.eqb shell "" then Err (Errorf "couldn't determine user's shell")
       else Err (Errorf ("this shell is not supported (" +:+ shell +:+ ")"))).

Definition completionInitCommand (binName shell : string) : string :=
  if String.eqb shell "fish" then binName +:+ " completion -c fish | source"
  else "source <(" +:+ binName +:+ " completion -c " +:+ shell +:+ ")".

Definition completionDynamicTopics : gmap string string :=
  list_to_map
    [("attach", "live_sessions"); ("dump", "dumpable_sessions"); ("kill", "live_sessions");
     ("kick", "live_sessions"); ("restore", "dead_sessions"); ("send", "live_sessions");
     ("status", "sessions"); ("wait", "dumpable_sessions")].

Definition includeCompletionSession (topic : string) (session : SessionInfo) : bool :=
  if String.eqb topic "live_sessions" then String.eqb (si_State session) SessionStateRunning
  else if String.eqb topic "dead_sessions" then String.eqb (si_State session) SessionStateDead
  else String.eqb topic "dumpable_sessions" || String.eqb topic "sessions".

Definition completionTopicNames (topic : string) (sessions : list SessionInfo) : list string :=
  map si_Name (List.filter (includeCompletionSession topic) sessions).

Definition completionScript (shell : string) (node : option Completion.KongNode) : result bytes :=
  match node with
  | None => Err (Errorf "nil command tree")
  | Some n =>
      let spec := Completion.BuildSpec node completionDynamicTopics in
      match Completion.Generate shell (Completion.kn_Name n) "__complete" spec with
      | Err e => Err e
      | Ok script => Ok (bytes_of_string script)
      end
  end.

(** [model] is [ctx.Model.Node], the tree of the commands. *)
Definition CompletionCmd_Run (model : Completion.KongNode) (Shell : string) (Code : bool) : cproc outcome :=
  call! shell := resolveCompletionShell Shell in
  match shell with
  | Err e => Ret (fails e)
  | Ok shell =>
      if Code then
        match completionScript shell (Some model) with
        | Err e => Ret (fails e)
        | Ok script =>
            do! err := WriteStdout script in
            match err with
            | Some e => Ret (fails (Wrapf "write completion script" e))
            | None => do! _ := Exit 0 in Ret succeeds
            end
        end
      else
        let binName := Completion.kn_Name model in
        do! _ := Print ("Execute the following command to activate tab completion for " +:+ binName +:+
                        " in " +:+ shell +:+ ":" +:+ nl +:+ nl) in
        do! _ := Print ("    " +:+ completionInitCommand binName shell +:+ nl +:+ nl) in
        do! _ := Print ("Note that this only takes effect for your current shell session. " +:+
                        "For permanent activation, add the command to your shell init file." +:+ nl) in
        do! _ := Exit 0 in
        Ret succeeds
  end.

(** No completions rather than an error when the daemon cannot be asked. *)
Definition CompletionDataCmd_Run (Topic : string) (cfg : Config) : cproc outcome :=
  do! c := Dial (dc_SocketPath (cfg_Daemon cfg)) in
  match c with
  | Some _ => Ret succeeds
  | None =>
      deferred close_conn
        (do! r := Request (CList false) in
         match r with
         | inr _ => Ret succeeds
         | inl sessions =>
             call! _ := print_all (completionTopicNames Topic sessions) in
             Ret succeeds
         end)
  end.

(** ** [main], once the arguments are parsed *)

Inductive command :=
| CmdAttach (Name : string) (Command : list string) (ReadOnly : bool)
| CmdNew (Name : string) (Command : list string) (Force : bool)
| CmdRestore (Name : string) (ReadOnly : bool)
| CmdList (All : bool)
| CmdKill (Name : string)
| CmdSend (Name : string) (Text Key : list string)
| CmdDump (Name Format : string) (Join Scrollback : bool)
| CmdKick (Name ClientID : string)
| CmdWait (Name Pattern : string) (Regex : bool) (Row Interval : Z)
| CmdStatus
| CmdPrune
| CmdInit (path : result string)
| CmdConfig
| CmdDaemon (AutoExit Detach : bool) (LogFile : string)
| CmdCompletion (model : Completion.KongNode) (Shell : string) (Code : bool)
| CmdComplete (Topic : string).

Definition run_command (fuel : nat) (c : command) (cfg : Config) : cproc outcome :=
  match c with
  | CmdAttach Name Command ReadOnly => AttachCmd_Run fuel Name Command ReadOnly cfg
  | CmdNew Name Command Force => NewCmd_Run fuel Name Command Force cfg
  | CmdRestore Name ReadOnly => RestoreCmd_Run fuel Name ReadOnly cfg
  | CmdList All => ListCmd_Run All cfg
  | CmdKill Name => KillCmd_Run Name cfg
  | CmdSend Name Text Key => SendCmd_Run Name Text Key cfg
  | CmdDump Name Format Join Scrollback => DumpCmd_Run Name Format Join Scrollback cfg
  | CmdKick Name ClientID => KickCmd_Run Name ClientID cfg
  | CmdWait Name Pattern Regex Row Interval => WaitCmd_Run fuel Name Pattern Regex Row Interval cfg
  | CmdStatus => StatusCmd_Run cfg
  | CmdPrune => PruneCmd_Run cfg
  | CmdInit path => InitCmd_Run path
  | CmdConfig => ConfigCmd_Run cfg
  | CmdDaemon AutoExit Detach LogFile => DaemonCmd_Run fuel AutoExit Detach LogFile cfg
  | CmdCompletion model Shell Code => CompletionCmd_Run model Shell Code
  | CmdComplete Topic => CompletionDataCmd_Run Topic cfg
  end.

(** The exit code of an [exitCoder], and what it prints. *)
Definition exit_code (e : cmd_error) : option (Z * string) :=
  match e with
  | commandExitError code stderr => Some (code, stderr)
  | FromAttach (ExitError code) => Some (code, "")
  | _ => None
  end.

Definition set_socket (socket : string) (cfg : Config) : Config :=
  if String.eqb socket "" then cfg
  else
    let d := cfg_Daemon cfg in
    mkConfig (mkDaemonConfig socket (dc_AutoExit d) (dc_DefaultScrollback d) (dc_StatePersistence d)
                (dc_StatePersistenceInterval d)) (cfg_Client cfg) (cfg_Session cfg).

(** The exit status; [None] while a loop runs. *)
Definition main (fuel : nat) (load : result Config) (socket : string) (c : command) : cproc (option Z) :=
  match load with
  | Err e => do! code := Fatal (Plain e) in Ret (Some code)
  | Ok cfg =>
      call! r := run_command fuel c (set_socket socket cfg) in
      match r with
      | OutOfFuel => Ret None
      | Done None => Ret (Some 0)
      | Done (Some e) =>
          match exit_code e with
          | Some (code, stderr) =>
              if String.eqb stderr "" then Ret (Some code)
              else do! _ := Eprint stderr in Ret (Some code)
          | None => do! code := Fatal e in Ret (Some code)
          end
      end
  end.
End Cli.
