(* ===== verification/CliProps.v ===== *)
(** * CliProps: what the commands of [ht] do

    Starting the daemon, the exit status of attach and wait, the order of what
    send sends, and the dump options as the daemon reads them. *)
From Stdlib Require Import ZArith Lia Ascii.
From stdpp Require Import base sets list strings numbers option pretty.
From S2P Require Import Prelude GoStrings Wire Messages Resize Proc Server ClientLib ClientAttach Config Cli.
From S2P Require TermState ClientKeys.
#[local] Open Scope Z_scope.

(** ** What a run shows *)

(** The processes started, and those released or found to have ended. *)
Definition started (s : step cop) : list Z :=
  match s with
  | Step o b =>
      match o in cop B return B -> list Z with
      | StartProcess _ _ => fun r => match r with Ok pid => [pid] | Err _ => [] end
      | _ => fun _ => []
      end b
  end.

Definition ended (s : step cop) : list Z :=
  match s with
  | Step o b =>
      match o in cop B return B -> list Z with
      | Release pid => fun _ => [pid]
      | Wait4 pid => fun r => match r with Exited _ | Signaled _ | Stopped => [pid] | _ => [] end
      | _ => fun _ => []
      end b
  end.

(** The temporary log files made, and those removed or renamed. *)
Definition temp_made (s : step cop) : list string :=
  match s with
  | Step o b =>
      match o in cop B return B -> list string with
      | CreateTemp _ => fun r => match r with Ok name => [name] | Err _ => [] end
      | _ => fun _ => []
      end b
  end.

Definition temp_gone (s : step cop) : list string :=
  match s with
  | Step o b =>
      match o in cop B return B -> list string with
      | Remove path => fun _ => [path]
      | Rename from _ => fun r => match r with None => [from] | Some _ => [] end
      | _ => fun _ => []
      end b
  end.

(** The answers to dialling: whether there is a daemon, and whether it is absent. *)
Definition dialled (s : step cop) : list (option connect_error) :=
  match s with
  | Step o b =>
      match o in cop B return B -> list (option connect_error) with
      | Dial _ => fun r => [r]
      | _ => fun _ => []
      end b
  end.

(** Opened logs minus closed ones. *)
Definition log_balance (s : step cop) : Z :=
  match s with
  | Step o b =>
      match o in cop B return B -> Z with
      | CreateTemp _ => fun r => match r with Ok _ => 1 | Err _ => 0 end
      | OpenAppend _ => fun r => match r with None => 1 | Some _ => 0 end
      | CloseLog => fun _ => -1
      | _ => fun _ => 0
      end b
  end.

Definition sees {A} (f : step cop -> list A) (tr : list (step cop)) : list A := flat_map f tr.
Definition balance (tr : list (step cop)) : Z := foldr (fun s acc => log_balance s + acc) 0 tr.

Lemma sees_app {A} (f : step cop -> list A) tr tr' : sees f (tr ++ tr') = sees f tr ++ sees f tr'.
Proof. apply flat_map_app. Qed.
Lemma balance_app tr tr' : balance (tr ++ tr') = balance tr + balance tr'.
Proof. unfold balance. induction tr as [|s tr IH]; cbn; [done|]. rewrite IH. lia. Qed.

(** ** Starting the daemon *)

Section Start.
Context (defaultSocket : string).

Definition absent (r : option connect_error) : Prop :=
  exists e, r = Some e /\ DaemonUnavailable e = true.

(** From a started process on: it is released or reaped, the log kept open, and
    nothing is made or removed. *)
Definition waited (pid : Z) (tr : list (step cop)) (x : outcome * bool) : Prop :=
  let '(r, finished) := x in
  sees started tr = [] /\ sees temp_made tr = [] /\ sees temp_gone tr = [] /\ balance tr = 0 /\
  Forall (eq pid) (sees ended tr) /\
  (finished = true -> r <> OutOfFuel -> pid ∈ sees ended tr) /\
  (r = succeeds -> last (sees dialled tr) = Some None).

Lemma wait_ready_ok fuel sock log pid :
  wp (wait_ready fuel sock log pid) (waited pid).
Proof.
  induction fuel as [|fuel IH]; [by split_and!|]. cbn [wait_ready].
  unfold ProbeDaemon, daemonProcessExited, deferred, close_conn.
  wp_go; unfold waited in *; cbn.
  all: try (split_and!; [done..|lia|repeat constructor|set_solver|try done]).
  all: eapply wp_mono; [|exact IH]; intros tr [r finished] (H1 & H2 & H3 & H4 & H5 & H6 & H7); unfold balance, sees in *;
    (split_and!; [done|done|done|lia|done|done|]); intros Hr; rewrite last_cons; by rewrite (H7 Hr).
Qed.

(** The same of the whole of [start_daemon], with the temporary log. *)
Definition handled (logPath logName : string) (tr : list (step cop)) (x : outcome * bool) : Prop :=
  let '(r, cleanup) := x in
  (length (sees started tr) <= 1)%nat /\ sees temp_made tr = [] /\ balance tr = 0 /\
  (sees temp_gone tr ++ (if cleanup then [logName] else []) =
     if String.eqb logPath "" then [logName] else []) /\
  Forall (fun pid => pid ∈ sees started tr) (sees ended tr) /\
  (r <> OutOfFuel -> forall pid, pid ∈ sees started tr -> pid ∈ sees ended tr) /\
  (r = succeeds -> last (sees dialled tr) = Some None).

Ltac by_parts :=
  split_and!; try done; try lia;
  try match goal with
      | |- Forall _ [_] => by repeat constructor
      | |- _ -> _ /\ _ => intros _; split_and!; try done; set_solver
      | |- _ -> forall _ : Z, _ => set_solver
      end.

(** After a started process was waited for, it is released unless that was done. *)
Lemma handled_wait logPath logName exe args pre tr pid r finished :
  waited pid tr (r, finished) ->
  sees started pre = [] -> sees temp_made pre = [] -> balance pre = 0 -> sees ended pre = [] ->
  sees temp_gone pre = (if String.eqb logPath "" then [logName] else []) ->
  wp (if finished then Ret (r, false) else do! _ := Release pid in Ret (r, false)) (fun tr' b =>
    handled logPath logName (Step (StartProcess exe args) (Ok pid) :: (pre ++ tr) ++ tr') b).
Proof.
  intros (H1 & H2 & H3 & H4 & H5 & H6 & H7) P1 P2 P3 P4 P5.
  assert (Hd : forall tr0, sees dialled tr = tr0 -> r = succeeds -> last (sees dialled pre ++ tr0) = Some None).
  { intros tr0 <- Hr. rewrite last_app. by rewrite (H7 Hr). }
  destruct finished; cbn [wp]; [|intros e; cbn [wp]]; unfold handled;
    change (Step (StartProcess exe args) (Ok pid) :: (pre ++ tr) ++ ?t) with
      ([Step (StartProcess exe args) (Ok pid)] ++ (pre ++ tr) ++ t);
    rewrite !sees_app, !balance_app, H1, H2, H3, H4, P1, P2, P3, P4, P5; cbn; rewrite ?app_nil_r; by_parts;
    try (by apply Hd).
  all: assert (Hin : Forall (fun x => x ∈ [pid]) (sees ended tr)) by (eapply list.Forall_impl; [exact H5|set_solver]).
  - exact Hin.
  - apply list.Forall_app. split; [exact Hin|by repeat constructor].
Qed.

Lemma start_daemon_ok fuel sock socketPath autoExit exe logPath logName :
  wp (start_daemon fuel sock socketPath autoExit exe logPath logName) (handled logPath logName).
Proof.
  unfold start_daemon, daemon_started. cbn [wp]. intros [pid|e].
  2: { cbn. by_parts; by destruct (String.eqb logPath ""). }
  apply wp_bind. destruct (String.eqb logPath "") eqn:Hlog; cbn [wp].
  - intros [e|]; cbn [wp].
    + intros r. cbn. rewrite Hlog. by_parts.
    + apply wp_bind. eapply wp_mono; [|apply wait_ready_ok].
      intros tr [r finished] Hw. cbn [wp]. rewrite app_nil_r. eapply (handled_wait logPath logName _ _ [_]); try done. by rewrite Hlog.
  - apply wp_bind. eapply wp_mono; [|apply wait_ready_ok].
    intros tr [r finished] Hw. cbn [wp]. rewrite app_nil_r. eapply (handled_wait logPath logName _ _ []); try done. by rewrite Hlog.
Qed.

(** What starting the daemon guarantees. *)
Definition startup_ok (tr : list (step cop)) (r : outcome) : Prop :=
  (length (sees started tr) <= 1)%nat /\
  (sees started tr <> [] ->
     exists e, head (sees dialled tr) = Some (Some e) /\ DaemonUnavailable e = true) /\
  (r = succeeds -> last (sees dialled tr) = Some None) /\
  (r <> OutOfFuel ->
     (forall pid, pid ∈ sees started tr <-> pid ∈ sees ended tr) /\
     sees temp_made tr = sees temp_gone tr /\ balance tr = 0).

Lemma openDaemonLogFile_ok sock logPath :
  wp (openDaemonLogFile sock logPath) (fun tr r =>
    sees started tr = [] /\ sees ended tr = [] /\ sees temp_gone tr = [] /\ sees dialled tr = [] /\
    match r with
    | Ok name => sees temp_made tr = (if String.eqb logPath "" then [name] else []) /\ balance tr = 1
    | Err _ => sees temp_made tr = [] /\ balance tr = 0
    end).
Proof.
  unfold openDaemonLogFile. destruct (String.eqb logPath "") eqn:Hl; cbn [negb]; wp_go; by_parts.
Qed.

Lemma ensureDaemonDetached_ok fuel socketPath autoExit logPath :
  wp (ensureDaemonDetached defaultSocket fuel socketPath autoExit logPath) startup_ok.
Proof.
  unfold ensureDaemonDetached, ProbeDaemon, deferred, close_conn. set (sock := or_default _ _).
  cbn [wp bind]. intros [e|].
  2: { intros []. unfold startup_ok. cbn. by_parts. }
  destruct (DaemonUnavailable e) eqn:He; cbn [wp bind].
  2: { unfold startup_ok. cbn. by_parts. }
  intros [exe|err]; cbn [wp bind].
  2: { unfold startup_ok. cbn. by_parts. }
  apply wp_bind. eapply wp_mono; [|apply openDaemonLogFile_ok].
  intros tr [logName|err] (L1 & L2 & L3 & L4 & L5 & L6).
  - apply wp_bind, wp_bind. eapply wp_mono; [|apply start_daemon_ok].
    intros tr2 [r cleanup] (H1 & H2 & H3 & H4 & H5 & H6 & H7).
    assert (Hall : forall tr3, sees started tr3 = [] -> sees ended tr3 = [] -> sees temp_made tr3 = [] ->
      sees dialled tr3 = [] -> balance tr3 = -1 -> sees temp_gone tr3 = (if cleanup then [logName] else []) ->
      startup_ok ([Step (Dial sock) (Some e); Step Executable (Ok exe)] ++ tr ++ tr2 ++ tr3) r).
    { intros tr3 T1 T2 T3 T4 T5 T6. unfold startup_ok.
      rewrite !sees_app, !balance_app, L1, L2, L3, L4, L5, L6, H2, H3, T1, T2, T3, T4, T5, T6. cbn.
      rewrite ?app_nil_r, ?H4. by_parts; [by exists e| |].
      - intros Hr. rewrite last_cons. by rewrite (H7 Hr).
      - intros Hr. split_and!; [|done|done]. intros pid. split; [by apply H6|].
        rewrite list.Forall_forall in H5. apply H5. }
    destruct cleanup; cbn [wp bind]; [intros []|]; intros []; rewrite ?app_nil_r, <- ?app_assoc;
      [apply (Hall [Step (Remove logName) tt; Step CloseLog tt])|apply (Hall [Step CloseLog tt])]; done.
  - cbn [wp]. unfold startup_ok.
    change (Step (Dial sock) (Some e) :: Step Executable (Ok exe) :: tr ++ []) with
      ([Step (Dial sock) (Some e); Step Executable (Ok exe)] ++ tr ++ []).
    rewrite !sees_app, !balance_app, L1, L2, L3, L4, L5, L6. cbn. by_parts.
Qed.
End Start.

(** C20. Starting the daemon in the background: a process is started at most once, and
    only when the first dial finds no daemon; success means that the last dial was
    answered; and however it ends, the process was released or reaped, no temporary
    log is left behind under its temporary name while a log the user names is never
    removed, and the log is closed. *)
Theorem daemon_startup defaultSocket fuel socketPath autoExit logPath tr r :
  runs (ensureDaemonDetached defaultSocket fuel socketPath autoExit logPath) tr r ->
  startup_ok tr r.
Proof. apply wp_runs, ensureDaemonDetached_ok. Qed.

(** No daemon, a temporary log, and a daemon that answers at the second dial. *)
Definition ex_no_daemon : connect_error :=
  mkConnectError (Errorf "connect to daemon: connection refused") (Some (true, ECONNREFUSED)).

Definition ex_startup : list (step cop) :=
  [Step (Dial "/run/h/h.sock") (Some ex_no_daemon); Step Executable (Ok "/bin/ht");
   Step (MkdirAll "/run/h") None; Step (CreateTemp "/run/h") (Ok "/run/h/hauntty-server-1.log");
   Step (StartProcess "/bin/ht" ["daemon"; "--socket"; "/run/h/h.sock"]) (Ok 7);
   Step (Rename "/run/h/hauntty-server-1.log" "/run/h/hauntty-server-7.log") None;
   Step BeforeDeadline true; Step (Dial "/run/h/h.sock") None; Step CloseConn tt;
   Step (Release 7) None; Step CloseLog tt].

Lemma daemon_startup_witness :
  runs (ensureDaemonDetached "" 3 "/run/h/h.sock" false "") ex_startup succeeds /\
  startup_ok ex_startup succeeds.
Proof.
  assert (Hr : runs (ensureDaemonDetached "" 3 "/run/h/h.sock" false "") ex_startup succeeds) by run_go.
  split; [exact Hr|]. exact (daemon_startup _ _ _ _ _ _ _ Hr).
Defined.

(** ** Waiting for output *)

(** The dumps a run got. *)
Definition polls (s : step cop) : list (answer bytes) :=
  match s with
  | Step o b =>
      match o in cop B return B -> list (answer bytes) with
      | Request cl =>
          match cl in ClientLib.call T return answer T -> list (answer bytes) with
          | CDump _ _ => fun r => [r]
          | _ => fun _ => []
          end
      | _ => fun _ => []
      end b
  end.

(** Whether the last look at the clock was past the deadline. *)
Definition clock (s : step cop) : list bool :=
  match s with
  | Step o b =>
      match o in cop B return B -> list bool with
      | AfterDeadline => fun late => [late]
      | _ => fun _ => []
      end b
  end.

Definition matches (match_ : string -> bool) (Row : Z) (poll : answer bytes) : Prop :=
  exists data, poll = inl data /\ match_ (waitContent (string_of_bytes data) Row) = true.
Definition misses (match_ : string -> bool) (Row : Z) (poll : answer bytes) : Prop :=
  exists data, poll = inl data /\ match_ (waitContent (string_of_bytes data) Row) = false.

(** What a run of at most [fuel] polls saw. Every poll that missed was followed by a
    look at the clock, and by another poll only when the time was not over. *)
Definition waited_for (match_ : string -> bool) (Row : Z) (fuel : nat) (tr : list (step cop)) (r : outcome) : Prop :=
  match r with
  | OutOfFuel =>
      length (sees polls tr) = fuel /\ Forall (misses match_ Row) (sees polls tr) /\
      sees clock tr = replicate fuel false
  | Done None =>
      exists earlier last_poll, sees polls tr = earlier ++ [last_poll] /\
        Forall (misses match_ Row) earlier /\ matches match_ Row last_poll /\
        sees clock tr = replicate (length earlier) false
  | Done (Some e) =>
      (exists text earlier last_poll, e = commandExitError 1 text /\ sees polls tr = earlier ++ [last_poll] /\
         Forall (misses match_ Row) (earlier ++ [last_poll]) /\
         sees clock tr = replicate (length earlier) false ++ [true]) \/
      (exists text earlier err, e = wait_error text /\ sees polls tr = earlier ++ [inr err] /\
         text = ServerError_Error err /\ Forall (misses match_ Row) earlier /\
         sees clock tr = replicate (length earlier) false)
  end.

(** One more poll that missed, in time, before the others. *)
Lemma waited_more match_ Row fuel data tr r pre :
  match_ (waitContent (string_of_bytes data) Row) = false -> sees polls pre = [inl data] ->
  sees clock pre = [false] ->
  waited_for match_ Row fuel tr r -> waited_for match_ Row (S fuel) (pre ++ tr) r.
Proof.
  intros Hm Hp Hc Hw. assert (Hd : misses match_ Row (inl data)) by by exists data.
  destruct r as [[e|]|]; unfold waited_for in *; rewrite !sees_app, Hp, Hc.
  - destruct Hw as [(text & earlier & l & -> & He & Hall & Hk)|(text & earlier & err & -> & He & -> & Hall & Hk)]; [left|right].
    + exists text, (inl data :: earlier), l. rewrite He, Hk. split_and!; try done. by constructor.
    + exists (ServerError_Error err), (inl data :: earlier), err. rewrite He, Hk. split_and!; try done. by constructor.
  - destruct Hw as (earlier & l & He & Hall & Hl & Hk). exists (inl data :: earlier), l. rewrite He, Hk.
    split_and!; try done. by constructor.
  - destruct Hw as (Hl & Hall & Hk). rewrite Hk. cbn. rewrite Hl. split_and!; try done. by constructor.
Qed.

Lemma wait_loop_ok fuel match_ Name Pattern Row Interval :
  wp (wait_loop fuel match_ Name Pattern Row Interval) (waited_for match_ Row fuel).
Proof.
  induction fuel as [|fuel IH]; [by repeat split|]. cbn [wait_loop wp]. intros [data|err]; cbn [wp].
  - destruct (match_ (waitContent (string_of_bytes data) Row)) eqn:Hm; cbn [wp].
    + exists [], (inl data). split_and!; try done. by exists data.
    + intros [|]; cbn [wp].
      * left. eexists _, [], (inl data). split_and!; try done. cbn. repeat constructor. by exists data.
      * intros []. eapply wp_mono; [|exact IH]. intros tr r Hw.
        by apply (waited_more match_ Row fuel data tr r
          [Step (Request (CDump Name TermState.DumpPlain)) (inl data); Step AfterDeadline false; Step (Sleep Interval) tt]).
  - right. eexists _, [], err. by split_and!.
Qed.

(** The exit status of a wait, and the polls and looks at the clock it comes from. No
    exit status is a wait still going on after [fuel] polls. *)
Definition wait_status (match_ : string -> bool) (Row : Z) (fuel : nat) (tr : list (step cop))
    (r : option Z) : Prop :=
  match r with
  | Some code =>
      (code = 0 /\ exists earlier last_poll, sees polls tr = earlier ++ [last_poll] /\
         Forall (misses match_ Row) earlier /\ matches match_ Row last_poll /\
         sees clock tr = replicate (length earlier) false) \/
      (code = 1 /\ exists earlier last_poll, sees polls tr = earlier ++ [last_poll] /\
         Forall (misses match_ Row) (earlier ++ [last_poll]) /\
         sees clock tr = replicate (length earlier) false ++ [true]) \/
      (code = 2 /\ ((sees polls tr = [] /\ exists e, last (sees dialled tr) = Some (Some e)) \/
                    exists earlier err, sees polls tr = earlier ++ [inr err] /\
                      Forall (misses match_ Row) earlier /\ sees clock tr = replicate (length earlier) false))
  | None =>
      length (sees polls tr) = fuel /\ Forall (misses match_ Row) (sees polls tr) /\
      sees clock tr = replicate fuel false
  end.

Lemma wait_status_ext match_ Row fuel pre tr post r :
  sees polls pre = [] -> sees polls post = [] -> sees clock pre = [] -> sees clock post = [] ->
  sees dialled tr = [] ->
  wait_status match_ Row fuel tr r -> wait_status match_ Row fuel (pre ++ tr ++ post) r.
Proof.
  intros P1 P2 C1 C2 D. unfold wait_status.
  rewrite !sees_app, P1, P2, C1, C2, D, !app_nil_r. cbn [app]. destruct r as [code|]; [|done].
  intros [H|[H|(Hc & [[_ [e He]]|H])]]; [by left|by right; left|done|right; right]. split; [done|by right].
Qed.

(** The loop alone, without a connection. *)
Lemma waited_status match_ Row fuel tr r :
  waited_for match_ Row fuel tr r ->
  match r with
  | OutOfFuel => wait_status match_ Row fuel tr None
  | Done None => wait_status match_ Row fuel tr (Some 0)
  | Done (Some e) => exists code text, e = commandExitError code text /\ wait_status match_ Row fuel tr (Some code)
  end.
Proof.
  destruct r as [[e|]|]; cbn [waited_for]; [|intros H; by left|done].
  intros [(text & earlier & l & -> & H)|(text & earlier & err & -> & He & _ & H)]; do 2 eexists; (split; [done|]).
  - right; left. split; [done|]. by exists earlier, l.
  - right; right. split; [done|right]. by exists earlier, err.
Qed.

Lemma wait_loop_dials fuel match_ Name Pattern Row Interval :
  wp (wait_loop fuel match_ Name Pattern Row Interval) (fun tr _ => sees dialled tr = []).
Proof.
  induction fuel as [|fuel IH]; [done|]. cbn [wait_loop wp]. intros [data|err]; [|done].
  destruct (match_ _); [done|]. intros []; [done|]. intros []. exact IH.
Qed.

(** C22. [ht wait] exits with 0 when a dump of the session matched, and stops polling
    there; with 1 when the time was over after a dump that, like all before it, did
    not match, so there is always one poll, and never another once the clock said
    so; and with 2 when the daemon could not be reached or asked. It goes on only as
    long as every dump missed and the clock, looked at after each, said there was
    time: so it ends with the first look at the clock past the deadline. *)
Theorem wait_exit_status defaultSocket Version legacy kitty formatTime regexp_Compile
    fuel cfg socket Name Pattern Regex Row Interval match_ tr r :
  compileWaitMatcher regexp_Compile Pattern Regex = Ok match_ ->
  runs (main defaultSocket Version legacy kitty formatTime regexp_Compile fuel (Ok cfg) socket
          (CmdWait Name Pattern Regex Row Interval)) tr r ->
  wait_status match_ Row fuel tr r.
Proof.
  intros Hm Hr. refine (wp_runs _ (wait_status match_ Row fuel) _ _ _ Hr).
  unfold main. cbn [run_command]. unfold WaitCmd_Run, with_client, deferred, close_conn. rewrite Hm.
  set (sock := dc_SocketPath _). cbn [wp bind]. intros [e|]; cbn [wp bind exit_code].
  - cbn. intros []. right; right. split; [done|left]. split; [done|by exists e].
  - apply wp_bind, wp_bind. eapply wp_mono; [|apply wp_and; [apply wait_loop_ok|apply wait_loop_dials]].
    intros tr1 o [H Hd]. apply waited_status in H. cbn [wp bind]. intros [].
    destruct o as [[e|]|]; cbn [wp bind].
    + destruct H as (c & text & -> & Hs). cbn [exit_code].
      destruct (String.eqb text ""); [|intros []]; cbn [wp]; rewrite <- ?app_assoc;
        by apply (wait_status_ext _ _ _ [Step (Dial sock) None] tr1).
    + rewrite <- ?app_assoc. by apply (wait_status_ext _ _ _ [Step (Dial sock) None] tr1).
    + rewrite <- ?app_assoc. by apply (wait_status_ext _ _ _ [Step (Dial sock) None] tr1).
Qed.

(** The first dump does not match, the second does. *)
Definition ex_wait : list (step cop) :=
  [Step (Dial "") None;
   Step (Request (CDump "s" TermState.DumpPlain)) (inl (bytes_of_string "starting"));
   Step AfterDeadline false; Step (Sleep 100) tt;
   Step (Request (CDump "s" TermState.DumpPlain)) (inl (bytes_of_string "ready"));
   Step CloseConn tt].

Definition no_encoder : TermState.keyEvent -> result bytes := fun _ => Err EOF.

(** The time is over after the second dump. *)
Definition ex_wait_late : list (step cop) :=
  [Step (Dial "") None;
   Step (Request (CDump "s" TermState.DumpPlain)) (inl (bytes_of_string "starting"));
   Step AfterDeadline false; Step (Sleep 100) tt;
   Step (Request (CDump "s" TermState.DumpPlain)) (inl (bytes_of_string "starting"));
   Step AfterDeadline true; Step CloseConn tt; Step (Eprint ("timeout waiting for " +:+ Quote "ready" +:+ nl)) tt].

Lemma wait_exit_status_witness :
  wait_status (fun s => String.eqb "ready" "" || Contains s "ready") (-1) 5 ex_wait (Some 0) /\
  wait_status (fun s => String.eqb "ready" "" || Contains s "ready") (-1) 5 ex_wait_late (Some 1).
Proof.
  split.
  - apply (wait_exit_status "" "v" no_encoder no_encoder (fun _ => "") (fun _ => Err EOF)
      5 Default "" "s" "ready" false (-1) 100); [reflexivity|unfold ex_wait; run_go].
  - apply (wait_exit_status "" "v" no_encoder no_encoder (fun _ => "") (fun _ => Err EOF)
      5 Default "" "s" "ready" false (-1) 100); [reflexivity|unfold ex_wait_late; run_go].
Defined.

(** ** Attaching *)

(** Everything a command does outside of itself. *)
Definition outside (s : step cop) : bool :=
  match s with
  | Step o _ =>
      match o with
      | Dial _ | StartProcess _ _ | CreateTemp _ | OpenAppend _ | MkdirAll _ | DoAttach _ => true
      | _ => false
      end
  end.

(** The sessions attached to, and how that ended. *)
Definition attached (s : step cop) : list (AttachOpts * option attach_error) :=
  match s with
  | Step o b =>
      match o in cop B return B -> list (AttachOpts * option attach_error) with
      | DoAttach opts => fun r => [(opts, r)]
      | _ => fun _ => []
      end b
  end.

(** The answers that must come before. *)
Definition asked (s : step cop) : list (string + bool) :=
  match s with
  | Step o b =>
      match o in cop B return B -> list (string + bool) with
      | Getenv key => fun v => [inl v]
      | IsTerminal _ => fun v => [inr v]
      | _ => fun _ => []
      end b
  end.

(** What the run of an attaching command shows. *)
Definition attach_ok (legacy kitty : TermState.keyEvent -> result bytes) (keybind : string)
    (opts : ClientKeys.DetachKey -> AttachOpts) (tr : list (step cop)) (code : option Z) : Prop :=
  (existsb outside tr = true ->
     sees asked tr = [inl ""; inr true; inr true] /\
     is_ok (ClientKeys.ParseDetachKey legacy kitty keybind) = true) /\
  match sees attached tr with
  | [] => True
  | [(o, err)] =>
      (exists dk, ClientKeys.ParseDetachKey legacy kitty keybind = Ok dk /\ o = opts dk) /\
      match err with
      | None => code = Some 0
      | Some (ExitError c) => code = Some c
      | Some (AttachErr _) => True
      end
  | _ => False
  end.

Lemma outside_app tr tr' : existsb outside (tr ++ tr') = existsb outside tr || existsb outside tr'.
Proof. apply existsb_app. Qed.

Definition no_attach (tr : list (step cop)) : Prop := sees attached tr = [] /\ sees asked tr = [].

Lemma no_attach_app tr tr' : no_attach tr -> no_attach tr' -> no_attach (tr ++ tr').
Proof. unfold no_attach. rewrite !sees_app. by intros [-> ->] [-> ->]. Qed.

(** Code that neither attaches nor asks. *)
Definition silent {A} (p : cproc A) : Prop := wp p (fun tr _ => no_attach tr).

Lemma silent_ret {A} (a : A) : silent (Ret a).
Proof. done. Qed.
Lemma silent_do {A B} (o : cop B) (k : B -> cproc A) :
  (forall b, no_attach [Step o b]) -> (forall b, silent (k b)) -> silent (Do o k).
Proof.
  intros Ho Hk b. eapply wp_mono; [|apply Hk]. intros tr a Ha.
  by apply (no_attach_app [Step o b]).
Qed.
Lemma silent_bind {A B} (p : cproc A) (f : A -> cproc B) :
  silent p -> (forall a, silent (f a)) -> silent (bind p f).
Proof.
  intros Hp Hf. apply wp_bind. eapply wp_mono; [|exact Hp]. intros tr a Ha. cbn beta.
  eapply wp_mono; [|apply Hf]. intros tr' b. by apply no_attach_app.
Qed.

Ltac silent_go :=
  repeat first
    [ apply silent_ret
    | apply silent_bind; [|intros]
    | apply silent_do; [done|intros]
    | match goal with |- silent (match ?x with _ => _ end) => destruct x end
    | match goal with H : forall _, _ |- _ => apply H end ].

Lemma ProbeDaemon_silent sock : silent (ProbeDaemon sock).
Proof. unfold ProbeDaemon, deferred, close_conn. silent_go. Qed.

Lemma wait_ready_silent fuel sock log pid : silent (wait_ready fuel sock log pid).
Proof.
  revert sock log pid. induction fuel as [|fuel IH]; intros; [done|]. cbn [wait_ready].
  unfold daemonProcessExited, ProbeDaemon, deferred, close_conn. silent_go.
Qed.

Lemma ensureDaemon_silent defaultSocket fuel socketPath autoExit logPath :
  silent (ensureDaemonDetached defaultSocket fuel socketPath autoExit logPath).
Proof.
  pose proof ProbeDaemon_silent. pose proof wait_ready_silent.
  unfold ensureDaemonDetached, deferred, openDaemonLogFile, start_daemon, daemon_started. silent_go.
Qed.

Lemma interactive_ok defaultSocket legacy kitty fuel no_tty cfg opts :
  wp (interactive defaultSocket legacy kitty fuel no_tty cfg opts) (fun tr r =>
    attach_ok legacy kitty (cc_DetachKeybind (cfg_Client cfg)) opts tr
      (match r with
       | Done None => Some 0
       | Done (Some (FromAttach (ExitError c))) => Some c
       | _ => None
       end)).
Proof.
  unfold interactive, isInteractiveAttachTTY, detach_key. cbn [wp]. intros s.
  destruct (String.eqb_spec s "") as [->|Hs]; cbn [negb wp bind]; [|by split].
  intros [|]; cbn [negb wp bind]; [|by split]. intros [|]; cbn [negb wp bind]; [|by split].
  destruct (ClientKeys.ParseDetachKey _ _ _) as [dk|e] eqn:Hdk; cbn [wp]; [|by split].
  unfold with_daemon, ensureDaemon. apply wp_bind.
  eapply wp_mono; [|apply ensureDaemon_silent]. intros tr r [H1 H2]. cbn beta.
  assert (Hstart : forall tr' code,
    sees asked tr' = [] ->
    match sees attached tr' with
    | [] => True
    | [(o, err)] => o = opts dk /\
        match err with None => code = Some 0 | Some (ExitError c) => code = Some c | Some (AttachErr _) => True end
    | _ => False
    end ->
    attach_ok legacy kitty (cc_DetachKeybind (cfg_Client cfg)) opts
      ([Step (Getenv "HAUNTTY_SESSION") ""; Step (IsTerminal true) true; Step (IsTerminal false) true] ++ tr ++ tr') code).
  { intros tr' code Ha Hm. unfold attach_ok. rewrite !sees_app, H1, H2, Ha, Hdk. cbn [app]. split; [done|].
    destruct (sees attached tr') as [|[o err] [|]]; cbn; try done. destruct Hm as [-> Hm]. split; [by exists dk|done]. }
  destruct r as [[e|]|]; cbn [wp]; try by apply (Hstart []).
  unfold with_client, deferred, close_conn, run_attach. cbn [wp bind]. intros [e|]; cbn [wp bind].
  - by apply (Hstart [Step (Dial _) (Some e)]).
  - intros err []. apply (Hstart [Step (Dial _) None; Step (DoAttach (opts dk)) err; Step CloseConn tt]); [done|].
    split; [done|]. destruct err as [[c|e]|]; done.
Qed.

Lemma attach_ok_more legacy kitty keybind opts tr tr' code code' :
  attach_ok legacy kitty keybind opts tr code ->
  no_attach tr' -> existsb outside tr' = false -> (forall c, code = Some c -> code' = Some c) ->
  attach_ok legacy kitty keybind opts (tr ++ tr') code'.
Proof.
  intros [H1 H2] [H3 H4] H5 Hc. unfold attach_ok. rewrite outside_app, H5, orb_false_r, !sees_app, H3, H4, !app_nil_r.
  split; [done|]. destruct (sees attached tr) as [|[o err] [|]]; try done. destruct H2 as [Hd H2]. split; [done|].
  destruct err as [[c|e]|]; auto.
Qed.

(** The options of the two attaching commands. *)
Definition attaching (c : command) (cfg : Config) : option (ClientKeys.DetachKey -> AttachOpts) :=
  match c with
  | CmdAttach Name Command ReadOnly =>
      Some (fun dk => mkAttachOpts Name (resolveDefaultCommand Command cfg) dk true ReadOnly false)
  | CmdRestore Name ReadOnly => Some (fun dk => mkAttachOpts Name [] dk true ReadOnly true)
  | _ => None
  end.


(** The daemon runs, and the process of the session exits with 3. *)
Definition ex_encoder : TermState.keyEvent -> result bytes := fun _ => Ok [Byte.x1d].
Definition ex_opts (dk : ClientKeys.DetachKey) : AttachOpts := mkAttachOpts "s" [] dk true false false.
Definition ex_attach : list (step cop) :=
  [Step (Getenv "HAUNTTY_SESSION") ""; Step (IsTerminal true) true; Step (IsTerminal false) true;
   Step (Dial "/run/h.sock") None; Step CloseConn tt;
   Step (Dial "") None;
   Step (DoAttach (ex_opts (ClientKeys.mkDetachKey 29 true [Byte.x1d]))) (Some (ExitError 3));
   Step CloseConn tt].


(** ** Dumps *)

(** The format a name stands for. *)
Definition dump_kind (format : string) : Z :=
  if String.eqb format "vt" then Ghostty.FormatterFormatVT
  else if String.eqb format "html" then Ghostty.FormatterFormatHTML
  else Ghostty.FormatterFormatPlain.

(** The daemon reads the dump options as [ht dump] means them: the format, the
    joining of wrapped lines and the scrollback come out of [terminalDumpFormat] as
    they went into [dumpRequestFormat], for every combination, and the number fits
    the byte it is sent in. *)
Theorem dump_options_understood format join scrollback :
  let f := TermState.terminalDumpFormat (dumpRequestFormat format join scrollback) in
  TermState.emit f = dump_kind format /\ TermState.unwrap f = join /\
  TermState.scrollback f = scrollback /\ is_u8 (dumpRequestFormat format join scrollback).
Proof.
  unfold dumpRequestFormat, dump_kind. destruct (String.eqb format "vt"), (String.eqb format "html"), join, scrollback;
    by vm_compute.
Qed.

(** ** Sending *)

(** The requests of a run, and whether each was answered. *)
Definition requested (s : step cop) : list (Message * bool) :=
  match s with
  | Step o b =>
      match o in cop B return B -> list (Message * bool) with
      | Request cl => fun r => [(call_msg cl, match r with inl _ => true | inr _ => false end)]
      | _ => fun _ => []
      end b
  end.

(** What [ht send] is asked to send: the texts, then the keys, up to the first that
    does not parse. *)
Fixpoint key_messages (Name : string) (keys : list string) : list Message :=
  match keys with
  | [] => []
  | k :: keys =>
      match ClientKeys.ParseKeyNotation k with
      | Ok ki => MsgSendKey (mkSendKey Name (ClientKeys.Code ki) (ClientKeys.Mods ki)) :: key_messages Name keys
      | Err _ => []
      end
  end.
Definition send_messages (Name : string) (Text Key : list string) : list Message :=
  map (fun t => MsgSend (mkSend Name (bytes_of_string t))) Text ++ key_messages Name Key.

(** The requests are a prefix of [msgs], all but the last were answered, and a success
    means that all were made and answered. *)
Definition sent_in_order (msgs : list Message) (tr : list (step cop)) (r : outcome) : Prop :=
  (exists rest, msgs = (sees requested tr).*1 ++ rest) /\
  Forall (fun x => x.2 = true) (removelast (sees requested tr)) /\
  (r = succeeds -> (sees requested tr).*1 = msgs /\ Forall (fun x => x.2 = true) (sees requested tr)).

Lemma sent_more m msgs tr r s :
  requested s = [(m, true)] -> sent_in_order msgs tr r -> sent_in_order (m :: msgs) (s :: tr) r.
Proof.
  intros Hs [[rest ->] [Hl Hr]]. unfold sent_in_order, sees in *. cbn [flat_map]. rewrite Hs. cbn [app].
  split_and!.
  - by exists rest.
  - destruct (flat_map requested tr) as [|x l]; [done|]. cbn [removelast]. by constructor.
  - intros H. destruct (Hr H) as [H1 H2]. cbn. split; [by f_equal|by constructor].
Qed.

Lemma sent_none msgs r : r <> succeeds -> sent_in_order msgs [] r.
Proof. intros H. split_and!; [by exists msgs|done|done]. Qed.

Lemma sent_failed m msgs s r :
  requested s = [(m, false)] -> r <> succeeds -> sent_in_order (m :: msgs) [s] r.
Proof.
  intros Hs Hr. unfold sent_in_order, sees. cbn [flat_map]. rewrite Hs. cbn. split_and!; [by exists msgs|done|done].
Qed.

Lemma send_keys_ok Name keys :
  wp (send_keys Name keys) (fun tr r =>
    sent_in_order (key_messages Name keys) tr r /\
    (r = succeeds -> Forall (fun k => is_ok (ClientKeys.ParseKeyNotation k) = true) keys)).
Proof.
  induction keys as [|k keys IH]; cbn [send_keys key_messages].
  - split; [split_and!; [by exists []|done|done]|done].
  - destruct (ClientKeys.ParseKeyNotation k) as [ki|e] eqn:Hk.
    2: { split; [by apply sent_none|done]. }
    unfold request. cbn [wp]. intros [[]|e]; cbn [wp].
    + eapply wp_mono; [|exact IH]. intros tr r [H1 H2]. split; [by apply sent_more|].
      intros Hr. constructor; [by rewrite Hk|by apply H2].
    + split; [by apply sent_failed|done].
Qed.

Lemma send_texts_ok Name texts msgs rest (P : Prop) :
  wp rest (fun tr r => sent_in_order msgs tr r /\ (r = succeeds -> P)) ->
  wp (send_texts Name texts rest) (fun tr r =>
    sent_in_order (map (fun t => MsgSend (mkSend Name (bytes_of_string t))) texts ++ msgs) tr r /\
    (r = succeeds -> P)).
Proof.
  intros Hrest. induction texts as [|t texts IH]; cbn [send_texts map app]; [exact Hrest|].
  unfold request. cbn [wp]. intros [[]|e]; cbn [wp].
  - eapply wp_mono; [|exact IH]. intros tr r [H1 H2]. split; [by apply sent_more|done].
  - split; [by apply sent_failed|done].
Qed.

(** [ht send] sends its texts and then its keys, in the order given, one request
    at a time: it stops at the first that is not answered or does not parse, and
    succeeds only when every key parses and every request was answered. *)
Theorem send_in_order Name Text Key cfg tr r :
  runs (SendCmd_Run Name Text Key cfg) tr r ->
  sent_in_order (send_messages Name Text Key) tr r /\
  (r = succeeds -> (Text <> [] \/ Key <> []) /\
     Forall (fun k => is_ok (ClientKeys.ParseKeyNotation k) = true) Key).
Proof.
  refine (wp_runs _ (fun tr r => _) tr r _). unfold SendCmd_Run.
  assert (Hbody : Text <> [] \/ Key <> [] ->
    wp (with_client (dc_SocketPath (cfg_Daemon cfg)) FromConnect (send_texts Name Text (send_keys Name Key)))
      (fun tr r => sent_in_order (send_messages Name Text Key) tr r /\
        (r = succeeds -> (Text <> [] \/ Key <> []) /\
           Forall (fun k => is_ok (ClientKeys.ParseKeyNotation k) = true) Key))).
  { intros Hne. unfold with_client, deferred, close_conn. cbn [wp]. intros [e|]; [by split; [apply sent_none|]|].
    apply wp_bind. eapply wp_mono; [|apply send_texts_ok, send_keys_ok]. intros tr1 r1 [H1 H2]. cbn [wp bind].
    intros []. split; [|intros Hr; split; [done|by apply H2]].
    unfold sent_in_order. change (Step (Dial ?s) ?b :: tr1 ++ ?t) with ([Step (Dial s) b] ++ tr1 ++ t).
    rewrite !sees_app. cbn. by rewrite app_nil_r. }
  destruct Text as [|t Text]; [destruct Key as [|k Key]|]; [by split; [apply sent_none|]|..]; apply Hbody; auto.
Qed.

Definition ex_send : list (step cop) :=
  [Step (Dial "") None; Step (Request (CSend "s" (bytes_of_string "ls"))) (inl tt);
   Step (Request (CSendKey "s" 99 2)) (inl tt); Step CloseConn tt].

Lemma send_in_order_witness :
  runs (SendCmd_Run "s" ["ls"] ["ctrl+c"] Default) ex_send succeeds /\
  (sees requested ex_send).*1 = send_messages "s" ["ls"] ["ctrl+c"].
Proof.
  assert (Hr : runs (SendCmd_Run "s" ["ls"] ["ctrl+c"] Default) ex_send succeeds) by (unfold ex_send; run_go).
  split; [exact Hr|]. destruct (send_in_order _ _ _ _ _ _ Hr) as [(_ & _ & H) _]. by apply H.
Defined.
