(* ===== verification/CompletionProps.v ===== *)
(** * CompletionProps: what the completion scripts and their helper do

    The text of the scripts as a shell reads its quotes, with what is expanded in
    double quotes; what the helper prints; and the names it offers against the
    handlers and the abstract daemon of [DaemonWorld.v]. *)
From Stdlib Require Import ZArith Lia Ascii Morphisms.
From stdpp Require Import base gmap sets list strings numbers option pretty sorting.
From S2P Require Import Prelude GoStrings Messages Proc Persist Server DaemonWorld ClientLib Config Completion Cli.
#[local] Open Scope Z_scope.

(** ** Quotes *)

(** Where a shell is in a text: outside quotes, in single or in double quotes, after a
    backslash, after a dollar in double quotes; in a command substitution inside double
    quotes, with so many open parentheses, or between backquotes there, in both at
    a place of their own. This is how bash and zsh read; fish knows no backquotes. *)
Inductive quoting :=
| Bare | Slash | Single | Double | DoubleSlash | Dollar
| Sub (parens : nat) (q : quoting)
| Tick (q : quoting).

Definition is_bare (q : quoting) : bool := match q with Bare => true | _ => false end.

(** In double quotes: a quote ends them, a dollar and a backquote are expanded. *)
Definition double_step (c : ascii) : string * quoting :=
  let n := Z.of_N (N_of_ascii c) in
  let shown := String c EmptyString in
  if n =? 34 then (shown, Bare)
  else if n =? 36 then (shown, Dollar)
  else if n =? 96 then (shown, Tick Bare)
  else (EmptyString, if n =? 92 then DoubleSlash else Double).

(** One byte: what is left of it outside quotes, and where the shell is after it. *)
Fixpoint quote_step (q : quoting) (c : ascii) : string * quoting :=
  let n := Z.of_N (N_of_ascii c) in
  let shown := String c EmptyString in
  match q with
  | Bare => (shown, if n =? 39 then Single else if n =? 34 then Double
                    else if n =? 92 then Slash else Bare)
  | Slash => (shown, Bare)
  | Single => if n =? 39 then (shown, Bare) else (EmptyString, Single)
  | Double => double_step c
  | DoubleSlash => (EmptyString, Double)
  | Dollar => if n =? 40 then (shown, Sub 0 Bare) else double_step c
  | Sub k q =>
      if is_bare q && (n =? 40) then (shown, Sub (S k) Bare)
      else if is_bare q && (n =? 41) then (shown, match k with O => Double | S k => Sub k Bare end)
      else let '(x, q) := quote_step q c in (x, Sub k q)
  | Tick q =>
      if is_bare q && (n =? 96) then (shown, Double)
      else let '(x, q) := quote_step q c in (x, Tick q)
  end.

(** The text without what is quoted. *)
Fixpoint skeleton (q : quoting) (s : string) : string * quoting :=
  match s with
  | EmptyString => (EmptyString, q)
  | String c s =>
      let '(x, q) := quote_step q c in let '(y, q) := skeleton q s in (x +:+ y, q)
  end.

Lemma skeleton_app q a b :
  skeleton q (a +:+ b) =
  (let '(x, q) := skeleton q a in let '(y, q) := skeleton q b in (x +:+ y, q)).
Proof.
  revert q. induction a as [|c a IH]; intros q.
  - rewrite str_app_nil. cbn. by destruct (skeleton q b).
  - rewrite str_app_cons. cbn. destruct (quote_step q c) as [x q1]. rewrite IH.
    destruct (skeleton q1 a) as [y q2], (skeleton q2 b) as [z q3]. by rewrite str_app_assoc.
Qed.

(** Text without quotes, backslashes, expansions and parentheses. *)
Definition calm_byte (c : ascii) : bool :=
  let n := Z.of_N (N_of_ascii c) in
  negb ((n =? 39) || (n =? 34) || (n =? 92) || (n =? 36) || (n =? 96) || (n =? 40) || (n =? 41)).

Fixpoint calm (s : string) : bool :=
  match s with
  | EmptyString => true
  | String c s => calm_byte c && calm s
  end.

(** Text that double quotes, with what [Quote] escapes, keep from the shell. *)
Definition inert_byte (c : ascii) : bool :=
  let n := Z.of_N (N_of_ascii c) in negb ((n =? 36) || (n =? 96)).

Fixpoint inert (s : string) : bool :=
  match s with
  | EmptyString => true
  | String c s => inert_byte c && inert s
  end.

Lemma inert_str_app a b : inert (a +:+ b) = inert a && inert b.
Proof. induction a as [|c a IH]; [done|]. rewrite str_app_cons. cbn. by rewrite IH, andb_assoc. Qed.

Ltac each_byte c := destruct c as [[] [] [] [] [] [] [] []]; vm_compute; first [reflexivity | discriminate].

Lemma calm_inert s : calm s = true -> inert s = true.
Proof.
  induction s as [|c s IH]; [done|]. cbn. intros [H1 H2]%andb_true_iff. rewrite IH by done.
  rewrite andb_true_r. revert H1. clear. each_byte c.
Qed.

Lemma calm_str_app a b : calm (a +:+ b) = calm a && calm b.
Proof. induction a as [|c a IH]; [done|]. rewrite str_app_cons. cbn. by rewrite IH, andb_assoc. Qed.

Lemma calm_Join l sep : Forall (fun s => calm s = true) l -> calm sep = true -> calm (Join l sep) = true.
Proof.
  intros Hl Hsep. induction Hl as [|s l Hs Hl IH]; [done|]. destruct l as [|t l]; [done|].
  change (Join (s :: t :: l) sep) with (s +:+ sep +:+ Join (t :: l) sep).
  by rewrite !calm_str_app, Hs, Hsep, IH.
Qed.

(** In a state that calm bytes do not change. *)
Lemma skeleton_calm_at q (show : bool) s :
  (forall c, calm_byte c = true -> quote_step q c = (if show then String c EmptyString else EmptyString, q)) ->
  calm s = true -> skeleton q s = (if show then s else EmptyString, q).
Proof.
  intros Hq. induction s as [|c s IH]; cbn; [by destruct show|]. intros [H1 H2]%andb_true_iff.
  rewrite (Hq c H1), (IH H2). by destruct show.
Qed.

Lemma skeleton_calm s : calm s = true -> skeleton Bare s = (s, Bare).
Proof. apply (skeleton_calm_at Bare true). intros c. each_byte c. Qed.

Lemma skeleton_calm_double s : calm s = true -> skeleton Double s = (EmptyString, Double).
Proof. apply (skeleton_calm_at Double false). intros c. each_byte c. Qed.

Lemma skeleton_calm_sub s : calm s = true -> skeleton (Sub 0 Bare) s = (s, Sub 0 Bare).
Proof. apply (skeleton_calm_at (Sub 0 Bare) true). intros c. each_byte c. Qed.

Lemma skeleton_single s : no_char "'"%char s = true -> skeleton Single s = (EmptyString, Single).
Proof.
  induction s as [|c s IH]; [done|]. cbn. intros [H1%negb_true_iff H2]%andb_true_iff.
  destruct (_ =? 39) eqn:E; [|by rewrite IH].
  apply Ascii.eqb_neq in H1. destruct H1. apply Z.eqb_eq in E.
  rewrite <- (ascii_N_embedding c). by replace (N_of_ascii c) with 39%N by lia.
Qed.

Lemma calm_no_quote s : calm s = true -> no_char "'"%char s = true.
Proof.
  induction s as [|c s IH]; [done|]. cbn. intros [H1 H2]%andb_true_iff. rewrite IH by done.
  destruct (Ascii.eqb_spec c "'"); [|done]. by subst c.
Qed.

Lemma skeleton_single_calm s : calm s = true -> skeleton Single s = (EmptyString, Single).
Proof. intros H. by apply skeleton_single, calm_no_quote. Qed.

Lemma no_char_remove c s : no_char c (remove_char c s) = true.
Proof.
  induction s as [|d s IH]; [done|]. cbn. destruct (Ascii.eqb d c) eqn:E; [done|]. cbn. by rewrite E.
Qed.

Lemma skeleton_quote_body s : inert s = true -> skeleton Double (quote_body s) = (EmptyString, Double).
Proof.
  induction s as [|c s IH]; [done|]. cbn [inert quote_body]. intros [H1 H2]%andb_true_iff. rewrite skeleton_app.
  replace (skeleton Double (quote_byte c)) with (EmptyString, Double); [by rewrite (IH H2)|].
  revert H1. clear. each_byte c.
Qed.

(** A quoted text without expansions is an empty pair of quotes. *)
Lemma skeleton_Quote s : inert s = true -> skeleton Bare (Quote s) = (dquote +:+ dquote, Bare).
Proof.
  intros H. unfold Quote. rewrite skeleton_app. change (skeleton Bare dquote) with (dquote, Double).
  cbn beta iota. by rewrite skeleton_app, skeleton_quote_body.
Qed.

(** ** Texts that a shell reads alike *)

(** They are closed, and the same outside quotes. *)
Definition alike (a b : string) : Prop :=
  skeleton Bare a = skeleton Bare b /\ snd (skeleton Bare a) = Bare.

Lemma alike_app a a' b b' : alike a a' -> alike b b' -> alike (a +:+ b) (a' +:+ b').
Proof.
  intros [H1 H2] [H3 H4]. unfold alike. rewrite !skeleton_app, <- H1.
  destruct (skeleton Bare a) as [x q]. cbn in H2. subst q. rewrite <- H3.
  by destruct (skeleton Bare b).
Qed.

#[export] Instance app_alike : Proper (alike ==> alike ==> alike) String.append.
Proof. intros a a' Ha b b' Hb. by apply alike_app. Qed.

Lemma alike_calm s : calm s = true -> alike s s.
Proof. intros H. split; [done|]. by rewrite skeleton_calm. Qed.

Lemma alike_closed s : snd (skeleton Bare s) = Bare -> alike s s.
Proof. by split. Qed.

Lemma alike_Quote s t : inert s = true -> inert t = true -> alike (Quote s) (Quote t).
Proof. intros Hs Ht. split; by rewrite !skeleton_Quote. Qed.

Lemma alike_dq s : calm s = true -> alike (dq s) (dq s).
Proof.
  intros H. split; [done|]. unfold dq. rewrite skeleton_app.
  change (skeleton Bare dquote) with (dquote, Double). cbn beta iota.
  by rewrite skeleton_app, skeleton_calm_double.
Qed.

Lemma alike_concat l l' : Forall2 alike l l' -> alike (concat_str l) (concat_str l').
Proof. induction 1; [done|]. cbn [concat_str]. by apply alike_app. Qed.

Lemma alike_text l l' : Forall2 alike l l' -> alike (text l) (text l').
Proof.
  intros H. apply alike_concat. induction H as [|a b l l' Hab _ IH]; [constructor|].
  cbn [map]. constructor; [|done]. by apply alike_app.
Qed.

(** Lines that may end in a backslash. *)
Definition line_alike (l l' : string) : Prop := alike (l +:+ lf) (l' +:+ lf).

Lemma alike_lines l l' : Forall2 line_alike l l' -> alike (text l) (text l').
Proof.
  intros H. apply alike_concat. induction H as [|a b l l' Hab _ IH]; [constructor|].
  cbn [map]. by constructor.
Qed.

Lemma line_alike_app a a' b b' : alike a a' -> line_alike b b' -> line_alike (a +:+ b) (a' +:+ b').
Proof. intros Ha Hb. unfold line_alike. rewrite <- !str_app_assoc. by apply alike_app. Qed.

Lemma line_alike_closed l : snd (skeleton Bare (l +:+ lf)) = Bare -> line_alike l l.
Proof. by split. Qed.

Lemma alike_joinWithContinuation l l' indent :
  alike indent indent -> Forall2 alike l l' ->
  alike (joinWithContinuation l indent) (joinWithContinuation l' indent).
Proof.
  intros Hi H. induction H as [|a b l l' Hab Hl IH]; [done|].
  destruct Hl as [|a2 b2 l l' Hab2 Hl]; cbn [joinWithContinuation].
  - by repeat apply alike_app.
  - apply alike_app; [done|]. apply alike_app; [done|].
    by apply (alike_app (" " +:+ backslash +:+ lf) (" " +:+ backslash +:+ lf)).
Qed.

Lemma calm_pretty_N_go n : forall s, calm s = true -> calm (pretty_N_go n s) = true.
Proof.
  induction (N.lt_wf_0 n) as [n _ IH]. intros s Hs. destruct (decide (0 < n)%N) as [Hn|Hn].
  - rewrite pretty_N_go_step by done. apply IH; [apply N.div_lt; lia|].
    cbn [calm]. rewrite Hs, andb_true_r. unfold pretty_N_char.
    by repeat case_match.
  - by replace n with 0%N by lia.
Qed.

Lemma calm_pretty (z : Z) : calm (pretty z) = true.
Proof.
  assert (H : forall n : N, calm (pretty n) = true)
    by (intros n; unfold pretty, pretty_N; case_decide; [done|by apply calm_pretty_N_go]).
  destruct z as [|p|p]; [done|apply H|]. unfold pretty, pretty_Z.
  change (calm ("-" +:+ pretty (N.pos p)) = true). by rewrite calm_str_app, H.
Qed.

(** ** Command trees with plain names *)

Definition calm_flag (f : Flag) : bool :=
  calm (f_Name f) && calm (rune_string (f_Short f)) && forallb calm (f_Enum f).
Definition calm_positional (p : Positional) : bool := calm (p_Name p) && calm (p_DynamicTopic p).
Definition calm_command (cmd : Command) : bool :=
  forallb calm (allNames cmd) && forallb calm_flag (c_Flags cmd) &&
  forallb calm_positional (c_Positionals cmd).
Definition calm_spec (spec : Spec) : bool :=
  forallb calm_flag (s_GlobalFlags spec) && forallb calm_command (s_Commands spec).

(** The same tree without its help texts. *)
Definition flag_without_help (f : Flag) : Flag :=
  mkFlag (f_Name f) (f_Short f) "" (f_HasValue f) (f_Enum f).
Definition command_without_help (cmd : Command) : Command :=
  mkCommand (c_Name cmd) (c_Aliases cmd) "" (map flag_without_help (c_Flags cmd)) (c_Positionals cmd).
Definition without_help (spec : Spec) : Spec :=
  mkSpec (map flag_without_help (s_GlobalFlags spec)) (map command_without_help (s_Commands spec)).

Lemma forallb_Forall {A} (f : A -> bool) l : forallb f l = true <-> Forall (fun x => f x = true) l.
Proof. rewrite forallb_forall. symmetry. apply List.Forall_forall. Qed.

Lemma calm_flag_spec f :
  calm_flag f = true ->
  calm (f_Name f) = true /\ calm (rune_string (f_Short f)) = true /\ calm (Join (f_Enum f) " ") = true.
Proof.
  unfold calm_flag. intros [[H1 H2]%andb_true_iff H3%forallb_Forall]%andb_true_iff.
  split_and!; [done..|]. by apply calm_Join.
Qed.

(** Reading a text made of constants and of names known to be plain. *)
Ltac skeleton_piece q s :=
  first [ rewrite (skeleton_app q)
        | rewrite (skeleton_calm s) by assumption
        | rewrite (skeleton_single s) by apply no_char_remove
        | rewrite (skeleton_single_calm s) by assumption
        | rewrite (skeleton_calm_double s) by assumption
        | rewrite (skeleton_calm_sub s) by assumption
        | let v := eval vm_compute in (skeleton q s) in change (skeleton q s) with v ].
Ltac skeleton_go :=
  repeat (match goal with |- context [skeleton ?q ?s] => skeleton_piece q s end; cbn beta iota).

Lemma zshFlagSpec_alike f :
  calm_flag f = true -> alike (zshFlagSpec f) (zshFlagSpec (flag_without_help f)).
Proof.
  intros (Hn & Hs & He)%calm_flag_spec. unfold alike, zshFlagSpec, flag_without_help.
  cbn [f_Name f_Short f_Help f_HasValue f_Enum].
  destruct (f_Short f =? 0), (f_HasValue f), (f_Enum f); cbn [negb]; skeleton_go; done.
Qed.

(** Text made of alike pieces. *)
Ltac inert_go :=
  rewrite ?inert_str_app; repeat (apply andb_true_iff; split);
  first [assumption | reflexivity | apply calm_inert; assumption].
Ltac alike_go :=
  repeat first
    [ assumption | apply alike_Quote; [solve [inert_go]|solve [inert_go]]
    | apply alike_dq; rewrite ?calm_str_app; by repeat (apply andb_true_iff; split)
    | apply alike_closed; reflexivity | apply alike_app | apply alike_calm; assumption ].

Lemma fishFlagOpts_alike f : calm_flag f = true -> alike (fishFlagOpts f) (fishFlagOpts f).
Proof.
  intros (Hn & Hs & He)%calm_flag_spec. apply alike_closed. unfold fishFlagOpts.
  destruct (f_Short f =? 0), (f_HasValue f), (f_Enum f); cbn [negb]; skeleton_go; done.
Qed.

Lemma fish_flag_alike bin cond f :
  calm bin = true -> alike cond cond -> calm_flag f = true -> inert (f_Help f) = true ->
  alike (fish_flag bin cond f) (fish_flag bin cond (flag_without_help f)).
Proof.
  intros Hb Hc Hf Hh. pose proof (fishFlagOpts_alike f Hf) as Ho.
  destruct (calm_flag_spec f Hf) as (Hn & _ & _). unfold fish_flag, fish_complete.
  change (fishFlagOpts (flag_without_help f)) with (fishFlagOpts f).
  change (f_Name (flag_without_help f)) with (f_Name f). alike_go.
Qed.

Lemma Forall2_alike_map {A} (P : A -> Prop) (f g : A -> string) (h : A -> A) l :
  Forall P l -> (forall x, P x -> alike (f x) (g (h x))) -> Forall2 alike (map f l) (map g (map h l)).
Proof. intros Hl H. induction Hl; cbn; constructor; auto. Qed.

Lemma Forall2_alike_refl l : Forall (fun s => alike s s) l -> Forall2 alike l l.
Proof. induction 1; by constructor. Qed.

Lemma Forall2_alike_bind {A B} (R : A -> A -> Prop) (f g : A -> list B) (R' : B -> B -> Prop) l l' :
  Forall2 R l l' -> (forall x y, R x y -> Forall2 R' (f x) (g y)) -> Forall2 R' (l ≫= f) (l' ≫= g).
Proof. intros Hl H. induction Hl; cbn; [constructor|]. apply Forall2_app; auto. Qed.

Ltac line_go :=
  repeat first [ apply line_alike_closed; reflexivity | apply line_alike_app; [solve [alike_go]|]
               | unfold line_alike; solve [alike_go] ].

Ltac each := repeat first [apply List.Forall2_nil | apply List.Forall2_cons].

(** ** Each command of a script *)

Section Scripts.
Context (bin helper : string) (Hbin : calm bin = true) (Hhelper : calm helper = true).

(** What the templates render of a command with [P], with its help and without. *)
Definition renders (P : Command -> Prop) (r r' : commandRender) : Prop :=
  exists cmd, calm_command cmd = true /\ P cmd /\ r = render_command bin helper cmd /\
    r' = render_command bin helper (command_without_help cmd).

Lemma calm_command_spec cmd :
  calm_command cmd = true ->
  Forall (fun n => calm n = true) (allNames cmd) /\ calm (c_Name cmd) = true /\
  Forall (fun f => calm_flag f = true) (c_Flags cmd) /\
  Forall (fun p => calm_positional p = true) (c_Positionals cmd).
Proof.
  intros [[H1%forallb_Forall H2%forallb_Forall]%andb_true_iff H3%forallb_Forall]%andb_true_iff.
  split_and!; [done| |done..]. by inversion H1.
Qed.

Lemma calm_dynamic cmd :
  calm_command cmd = true -> calm (dynamic cmd).1 = true /\ calm (dynamic cmd).2 = true.
Proof.
  intros (_ & _ & _ & H)%calm_command_spec. unfold dynamic.
  destruct H as [|p ps [H1 H2]%andb_true_iff _]; [done|]. by destruct (String.eqb _ _).
Qed.

(** The help texts of a command do not expand. *)
Definition inert_command (cmd : Command) : Prop :=
  inert (c_Help cmd) = true /\ Forall (fun f => inert (f_Help f) = true) (c_Flags cmd).

Lemma fish_command_alike r r' :
  renders inert_command r r' -> Forall2 alike (fish_command bin helper r) (fish_command bin helper r').
Proof.
  intros (cmd & Hc & [Hh Hfh] & -> & ->). destruct (calm_command_spec cmd Hc) as (Hn & _ & Hf & _).
  destruct (calm_dynamic cmd Hc) as [Hd1 Hd2].
  assert (Hseen : alike (fish_seen (render_command bin helper cmd)) (fish_seen (render_command bin helper cmd))).
  { apply alike_closed. unfold fish_seen. cbn [render_command r_SeenNames].
    assert (calm (Join (allNames cmd) " ") = true) by by apply calm_Join.
    skeleton_go. done. }
  unfold fish_command, fish_complete. repeat apply Forall2_app.
  - cbn [render_command r_AllNames r_Help command_without_help c_Help].
    change (allNames (command_without_help cmd)) with (allNames cmd).
    induction Hn as [|n ns Hn _ IH]; cbn [map]; constructor; [alike_go|done].
  - cbn [render_command r_Flags command_without_help c_Flags].
    apply (Forall2_alike_map (fun f => calm_flag f = true /\ inert (f_Help f) = true)); [by apply list.Forall_and|].
    intros f [Hcf Hif]. by apply fish_flag_alike.
  - change (r_DynamicTopic (render_command bin helper (command_without_help cmd)))
      with (r_DynamicTopic (render_command bin helper cmd)).
    change (r_DynamicName (render_command bin helper (command_without_help cmd)))
      with (r_DynamicName (render_command bin helper cmd)).
    change (fish_seen (render_command bin helper (command_without_help cmd)))
      with (fish_seen (render_command bin helper cmd)).
    cbn [render_command r_DynamicTopic r_DynamicName].
    destruct (String.eqb _ _); constructor; [|constructor].
    repeat (apply alike_app; [solve [alike_go]|]). apply alike_app; [|alike_go].
    apply alike_closed. unfold dq. skeleton_go. done.
Qed.

Lemma bashFlags_without_help flags : bashFlags (map flag_without_help flags) = bashFlags flags.
Proof.
  unfold bashFlags. induction flags as [|f flags IH]; [done|].
  cbn [map]. rewrite !bind_cons, IH. done.
Qed.

Lemma bash_reply_alike indent words words' :
  calm indent = true -> alike words words' ->
  Forall2 alike (bash_reply indent words) (bash_reply indent words').
Proof. intros Hi Hw. unfold bash_reply. each; alike_go. Qed.

Lemma calm_bashFlags flags :
  Forall (fun f => calm_flag f = true) flags -> calm (Join (bashFlags flags) " ") = true.
Proof.
  intros H. apply calm_Join; [|done]. unfold bashFlags. apply list.Forall_bind. revert H. apply List.Forall_impl.
  intros f (Hn & Hs & _)%calm_flag_spec. constructor; [by rewrite calm_str_app, Hn|].
  destruct (negb _); constructor; [by rewrite calm_str_app, Hs|constructor].
Qed.

Lemma bash_command_alike r r' :
  renders (fun _ => True) r r' -> Forall2 alike (bash_command bin helper r) (bash_command bin helper r').
Proof.
  intros (cmd & Hc & _ & -> & ->). destruct (calm_command_spec cmd Hc) as (Hn & _ & Hf & _).
  destruct (calm_dynamic cmd Hc) as [_ Hd].
  assert (Hcase : calm (Join (allNames cmd) "|") = true) by by apply calm_Join.
  unfold bash_command. cbn [render_command r_CasePattern r_DynamicTopic r_BashFlags command_without_help c_Flags].
  rewrite bashFlags_without_help.
  change (allNames (command_without_help cmd)) with (allNames cmd).
  change (dynamic (command_without_help cmd)) with (dynamic cmd).
  apply Forall2_app; [each; alike_go|]. apply Forall2_app; [|apply Forall2_app; [|each; by apply alike_closed]].
  - destruct (String.eqb _ _); [constructor|].
    apply List.Forall2_cons; [by apply alike_closed|]. apply Forall2_app; [|each; by apply alike_closed].
    apply bash_reply_alike; [done|]. apply alike_closed. unfold dq. skeleton_go. done.
  - destruct (String.eqb _ _); [constructor|]. apply bash_reply_alike; [done|].
    pose proof (calm_bashFlags _ Hf). alike_go.
Qed.

Lemma zsh_positional_alike i p :
  calm_positional p = true -> alike (zsh_positional bin helper i p) (zsh_positional bin helper i p).
Proof.
  intros [Hn Ht]%andb_true_iff. apply alike_closed. pose proof (calm_pretty (Z.of_nat i + 1)) as Hi.
  unfold zsh_positional. destruct (_ && _); skeleton_go; done.
Qed.

Lemma zshArgs_alike cmd :
  calm_command cmd = true ->
  Forall2 alike (zshArgs bin helper cmd) (zshArgs bin helper (command_without_help cmd)).
Proof.
  intros (_ & _ & Hf & Hp)%calm_command_spec. unfold zshArgs.
  assert (H : Forall2 alike
    (map zshFlagSpec (c_Flags cmd) ++ imap (zsh_positional bin helper) (c_Positionals cmd))
    (map zshFlagSpec (c_Flags (command_without_help cmd)) ++
     imap (zsh_positional bin helper) (c_Positionals (command_without_help cmd)))).
  { apply Forall2_app.
    - apply (Forall2_alike_map (fun f => calm_flag f = true)); [done|]. apply zshFlagSpec_alike.
    - apply Forall2_alike_refl, list.Forall_forall. intros x [i (p & -> & Hi)]%elem_of_lookup_imap.
      apply zsh_positional_alike. by eapply list.Forall_lookup_1 in Hp. }
  destruct H as [|a b l l' Hab Hl]; [each; by apply alike_closed|by apply List.Forall2_cons].
Qed.

Lemma zsh_function_alike P r r' : renders P r r' -> alike (zsh_function bin r) (zsh_function bin r').
Proof.
  intros (cmd & Hc & _ & -> & ->). destruct (calm_command_spec cmd Hc) as (_ & Hn & _ & _).
  unfold zsh_function. cbn [render_command r_Name r_ZshArgsBlock command_without_help c_Name].
  apply alike_app; [|apply alike_app; [|by apply alike_closed]].
  - unfold text. cbn [map concat_str]. rewrite app_empty_r.
    apply alike_app; [alike_go|by apply alike_closed].
  - apply alike_joinWithContinuation; [done|by apply zshArgs_alike].
Qed.
End Scripts.

Lemma calm_spec_spec spec :
  calm_spec spec = true ->
  Forall (fun f => calm_flag f = true) (s_GlobalFlags spec) /\
  Forall (fun c => calm_command c = true) (s_Commands spec).
Proof. by intros [H1%forallb_Forall H2%forallb_Forall]%andb_true_iff. Qed.

Lemma renders_commands bin helper (P : Command -> Prop) cmds :
  Forall (fun c => calm_command c = true) cmds -> Forall P cmds ->
  Forall2 (renders bin helper P) (map (render_command bin helper) cmds)
    (map (render_command bin helper) (map command_without_help cmds)).
Proof.
  induction 1 as [|c cmds Hc _ IH]; cbn [map]; [constructor|]. intros [Hp Hps]%list.Forall_cons.
  constructor; [by exists c|by apply IH].
Qed.

Lemma allNames_without_help cmds : (map command_without_help cmds) ≫= allNames = cmds ≫= allNames.
Proof. induction cmds as [|c cmds IH]; [done|]. cbn [map]. by rewrite !bind_cons, IH. Qed.

Lemma zshCommandValues_alike cmds :
  Forall (fun c => calm_command c = true) cmds -> Forall (fun c => inert (c_Help c) = true) cmds ->
  Forall2 alike (cmds ≫= zshCommandValues) (map command_without_help cmds ≫= zshCommandValues).
Proof.
  induction 1 as [|c cmds Hc _ IH]; [constructor|]. intros [Hh Hhs]%list.Forall_cons. cbn [map]. rewrite !bind_cons.
  apply Forall2_app; [|by apply IH]. unfold zshCommandValues.
  change (allNames (command_without_help c)) with (allNames c).
  destruct (calm_command_spec c Hc) as (Hn & _). induction Hn; cbn [map]; constructor; [|done].
  cbn [command_without_help c_Help]. apply alike_Quote; inert_go.
Qed.

Lemma calm_names cmds :
  Forall (fun c => calm_command c = true) cmds -> calm (Join (sort_Strings (cmds ≫= allNames)) " ") = true.
Proof.
  intros H. apply calm_Join; [|done]. unfold sort_Strings. rewrite merge_sort_Permutation. apply list.Forall_bind.
  revert H. apply List.Forall_impl. by intros c (Hn & _)%calm_command_spec.
Qed.

(** The help texts a script has in double quotes. *)
Definition quoted_helps (shell : string) (spec : Spec) : list string :=
  if String.eqb shell "fish" then
    map f_Help (s_GlobalFlags spec) ++ (s_Commands spec ≫= (fun c => c_Help c :: map f_Help (c_Flags c)))
  else if String.eqb shell "zsh" then map c_Help (s_Commands spec)
  else [].

Lemma quoted_helps_fish spec :
  forallb inert (quoted_helps "fish" spec) = true ->
  Forall (fun f => inert (f_Help f) = true) (s_GlobalFlags spec) /\ Forall inert_command (s_Commands spec).
Proof.
  intros H%forallb_Forall. cbn in H. apply list.Forall_app in H as [H1 H2]. split; [by apply list.Forall_fmap in H1|].
  apply list.Forall_bind in H2. revert H2. apply List.Forall_impl. intros c [Hc Hf]%list.Forall_cons.
  split; [done|]. by apply list.Forall_fmap in Hf.
Qed.

(** The three scripts, with the help texts and without. *)
Lemma fishTemplate_alike bin helper spec :
  calm bin = true -> calm helper = true -> calm_spec spec = true ->
  forallb inert (quoted_helps "fish" spec) = true ->
  alike (fishTemplate (buildRenderData bin helper spec))
    (fishTemplate (buildRenderData bin helper (without_help spec))).
Proof.
  intros Hb Hh (Hg & Hc)%calm_spec_spec (Hgi & Hci)%quoted_helps_fish. unfold fishTemplate, buildRenderData.
  cbn [d_Bin d_Helper d_GlobalFlags d_Commands without_help s_GlobalFlags s_Commands].
  apply alike_text. apply Forall2_app; [each; alike_go|]. apply Forall2_app.
  - apply (Forall2_alike_map (fun f => calm_flag f = true /\ inert (f_Help f) = true)); [by apply list.Forall_and|].
    intros f [Hf Hif]. by apply fish_flag_alike.
  - eapply Forall2_alike_bind; [by apply renders_commands|]. intros r r'. by apply fish_command_alike.
Qed.

Lemma bashTemplate_alike bin helper spec :
  calm bin = true -> calm helper = true -> calm_spec spec = true ->
  alike (bashTemplate (buildRenderData bin helper spec))
    (bashTemplate (buildRenderData bin helper (without_help spec))).
Proof.
  intros Hb Hh (_ & Hc)%calm_spec_spec. unfold bashTemplate, buildRenderData.
  cbn [d_Bin d_Helper d_Commands d_BashCommands without_help s_Commands].
  rewrite allNames_without_help. pose proof (calm_names _ Hc). apply alike_text.
  apply Forall2_app; [each; alike_go|]. apply Forall2_app; [apply bash_reply_alike; [done|alike_go]|].
  apply Forall2_app; [each; alike_go|]. apply Forall2_app; [|each; alike_go].
  eapply Forall2_alike_bind; [apply (renders_commands bin helper (fun _ => True)); [done|by apply list.Forall_true]|].
  intros r r'. by apply bash_command_alike.
Qed.

Lemma zshTemplate_alike bin helper spec :
  calm bin = true -> calm helper = true -> calm_spec spec = true ->
  forallb inert (quoted_helps "zsh" spec) = true ->
  alike (zshTemplate (buildRenderData bin helper spec))
    (zshTemplate (buildRenderData bin helper (without_help spec))).
Proof.
  intros Hb Hh (Hg & Hc)%calm_spec_spec Hi. apply forallb_Forall, list.Forall_fmap in Hi.
  unfold zshTemplate, buildRenderData.
  cbn [d_Bin d_GlobalFlags d_Commands d_ZshCommandValues without_help s_GlobalFlags s_Commands].
  apply alike_app; [|apply alike_app; [|apply alike_app]].
  - apply alike_lines. apply Forall2_app; [each; line_go|]. apply Forall2_app; [|each; line_go].
    clear Hc. induction Hg as [|f fs Hf _ IH]; cbn [map]; constructor; [|done].
    pose proof (zshFlagSpec_alike f Hf). line_go.
  - apply alike_joinWithContinuation; [done|by apply zshCommandValues_alike].
  - apply alike_text. apply Forall2_app; [each; alike_go|]. apply Forall2_app; [|each; alike_go].
    clear Hi. induction Hc as [|c cs Hc _ IH]; cbn [map]; constructor; [|done].
    destruct (calm_command_spec c Hc) as (Hn & Hname & _).
    assert (Hcase : calm (r_CasePattern (render_command bin helper c)) = true) by by apply calm_Join.
    change (r_CasePattern (render_command bin helper (command_without_help c)))
      with (r_CasePattern (render_command bin helper c)).
    change (r_Name (render_command bin helper (command_without_help c))) with (c_Name c).
    change (r_Name (render_command bin helper c)) with (c_Name c). alike_go.
  - apply alike_concat. induction (renders_commands bin helper _ _ Hc Hi); cbn [map]; constructor; [|done].
    by eapply (zsh_function_alike bin helper).
Qed.

(** C24. Help texts do not change what a shell makes of a completion script: whatever
    they are, with quotes, backslashes or newlines in them, as long as those that the
    script has in double quotes (all in fish, those of the commands in zsh, none in
    bash) are without a dollar and a backquote, which the code does not escape. Each
    script is generated, all its quotes and substitutions are closed, and outside of
    quotes, what double quotes expand included, it is the script of the same commands
    without any help text. *)
Theorem help_stays_quoted shell bin helper spec :
  shell ∈ ["fish"; "zsh"; "bash"] ->
  calm bin = true -> calm helper = true -> calm_spec spec = true ->
  forallb inert (quoted_helps shell spec) = true ->
  exists script plain,
    Generate shell bin helper spec = Ok script /\
    Generate shell bin helper (without_help spec) = Ok plain /\
    skeleton Bare script = skeleton Bare plain /\ snd (skeleton Bare script) = Bare.
Proof.
  intros Hs Hb Hh Hspec Hi. unfold Generate.
  rewrite !elem_of_cons in Hs. destruct Hs as [->|[->|[->|[]%not_elem_of_nil]]]; do 2 eexists; (split; [reflexivity|split; [reflexivity|]]).
  - by apply fishTemplate_alike.
  - by apply zshTemplate_alike.
  - by apply bashTemplate_alike.
Qed.

(** The condition is needed: a substitution in the help of a command runs in zsh. *)
Example help_substituted :
  let spec := mkSpec [] [mkCommand "list" [] "Runs $(date)." [] []] in
  exists script plain,
    Generate "zsh" "ht" "__complete" spec = Ok script /\
    Generate "zsh" "ht" "__complete" (without_help spec) = Ok plain /\
    Contains (fst (skeleton Bare script)) "$(date)" = true /\
    Contains (fst (skeleton Bare plain)) "$(date)" = false.
Proof. do 2 eexists. split; [reflexivity|]. split; [reflexivity|]. split; vm_compute; reflexivity. Qed.

(** A part of the tree of [ht], with a help text that has a quote. *)
Definition ex_tree : KongNode :=
  mkKongNode "ht" [] "" false
    [Some (mkKongFlag "socket" 0 "Unix socket path override." false false [])] []
    [Some (mkKongNode "attach" ["a"] "Attach to a session; don't detach." false
       [Some (mkKongFlag "read-only" 114 "Don't forward input." false true [])] ["Name"; "Command"] []);
     Some (mkKongNode "dump" [] "Dump session contents." false
       [Some (mkKongFlag "format" 102 "Output format (plain, vt, html)." false false ["plain"; "vt"; "html"])]
       ["Name"] []);
     Some (mkKongNode "__complete" [] "Internal completion data provider." true [] ["Topic"] [])].

Lemma help_stays_quoted_witness :
  exists script plain,
    Generate "zsh" "ht" "__complete" (BuildSpec (Some ex_tree) completionDynamicTopics) = Ok script /\
    Generate "zsh" "ht" "__complete" (without_help (BuildSpec (Some ex_tree) completionDynamicTopics)) =
      Ok plain /\
    skeleton Bare script = skeleton Bare plain /\ snd (skeleton Bare script) = Bare.
Proof.
  apply (help_stays_quoted "zsh" "ht" "__complete" (BuildSpec (Some ex_tree) completionDynamicTopics)).
  - vm_compute. right. left.
  - reflexivity.
  - reflexivity.
  - vm_compute. reflexivity.
  - vm_compute. reflexivity.
Defined.

(** ** The helper *)

Definition prints (names : list string) : list (step cop) :=
  map (fun name => Step (Print (name +:+ nl)) tt) names.

Lemma print_all_wp names : wp (print_all names) (fun tr _ => tr = prints names).
Proof.
  induction names as [|n names IH]; [done|]. intros [].
  eapply wp_mono; [|exact IH]. by intros tr _ ->.
Qed.

(** The runs of the helper: no daemon, no answer, or the sessions of the topic. *)
Definition helper_run (sock Topic : string) (tr : list (step cop)) : Prop :=
  (exists e, tr = [Step (Dial sock) (Some e)]) \/
  (exists e, tr = [Step (Dial sock) None; Step (Request (CList false)) (inr e); Step CloseConn tt]) \/
  (exists sessions,
     tr = [Step (Dial sock) None; Step (Request (CList false)) (inl sessions)] ++
          prints (completionTopicNames Topic sessions) ++ [Step CloseConn tt]).

(** The completion helper never fails: in every run it exits with 0. It prints
    nothing when the daemon cannot be reached or does not answer, and otherwise
    exactly the sessions of its topic, a line each, in the order of the daemon; the
    connection it opened is closed, once, at the end. *)
Theorem helper_never_fails defaultSocket Version legacy kitty formatTime regexp_Compile
    fuel cfg socket Topic tr r :
  runs (main defaultSocket Version legacy kitty formatTime regexp_Compile fuel (Ok cfg) socket
          (CmdComplete Topic)) tr r ->
  r = Some 0 /\ helper_run (dc_SocketPath (cfg_Daemon (set_socket socket cfg))) Topic tr.
Proof.
  cbn [main run_command]. intros Hr.
  refine (wp_runs _ (fun tr r => r = Some 0 /\ helper_run _ _ tr) tr r _ Hr). clear Hr tr r.
  unfold CompletionDataCmd_Run, deferred, close_conn. set (sock := dc_SocketPath _).
  intros [e|]; [by split; [|left; exists e]|]. cbn [bind].
  intros [sessions|e]; cbn [bind wp].
  - apply wp_bind, wp_bind, wp_bind. eapply wp_mono; [|apply print_all_wp].
    intros tr _ ->. cbn [wp bind]. intros []. split; [done|right; right]. exists sessions.
    cbn [app]. by rewrite ?app_nil_r.
  - intros []. split; [done|right; left]. by exists e.
Qed.

Definition ex_sessions : list SessionInfo :=
  [mkSessionInfo "work" "running" 80 24 "/" 42 1 0 []; mkSessionInfo "old" "dead" 80 24 "" 0 0 1 []].

Lemma helper_never_fails_witness :
  Some 0 = Some 0 /\
  helper_run "" "live_sessions"
    [Step (Dial "") None; Step (Request (CList false)) (inl ex_sessions);
     Step (Print ("work" +:+ nl)) tt; Step CloseConn tt].
Proof.
  apply (helper_never_fails "" "v" (fun _ => Err EOF) (fun _ => Err EOF) (fun _ => "") (fun _ => Err EOF)
    5 Default "" "live_sessions").
  repeat constructor.
Defined.

(** ** The names offered, and the daemon *)

Section Offers.
Context (dir : string) (Hdir : dir_ok dir) (s : Server) (Hpersist : has_persister s = true).

Definition live_row (v : sessionView) : Messages.Session :=
  Messages.mkSession (sv_name v) (state_of (sv_running v)) (sv_cols v) (sv_rows v) (sv_pid v)
    (u32 (sv_created v)) 0 "" [].

Lemma exec_live_rows e views w :
  exec dir e (live_rows false views) w = (map live_row views, w).
Proof.
  induction views as [|v views IH]; [done|]. cbn [live_rows]. unfold sessionCWD at 1.
  rewrite exec_bind. cbn [exec interp bind]. by rewrite exec_bind, IH.
Qed.

Lemma exec_dead_rows e names w d :
  refines dir w d ->
  (forall n, n ∈ names -> is_Some (d_saved d !! n)) ->
  exists res, exec dir e (deadSessionRows_loop s names) w = (res, w) /\
    match res with
    | Ok rows => map Session_Name rows = names /\ Forall (fun r => Session_State r = "dead") rows /\
        Forall (fun n => exists st, d_saved d !! n = Some (Ok st)) names
    | Err _ => exists n err, n ∈ names /\ d_saved d !! n = Some (Err err)
    end.
Proof.
  intros HR. induction names as [|n names IH]; intros Hn; cbn [deadSessionRows_loop].
  - exists (Ok []). by repeat constructor.
  - rewrite exec_bind, (exec_readDead dir s Hpersist e n w).
    pose proof (Hn n (list_elem_of_here _ _)) as Hsome.
    rewrite <- (r_saved _ _ _ HR n (r_saved_names _ _ _ HR n Hsome)).
    destruct Hsome as [[st|err] Hst]; rewrite Hst; cbn beta iota.
    + destruct IH as (res & Hex & Hres); [intros m Hm; apply Hn; by right|].
      rewrite exec_bind, Hex. eexists. split; [reflexivity|].
      destruct res as [rows|err].
      * destruct Hres as (H1 & H2 & H3). cbn [map Session_Name]. rewrite H1.
        split; [done|]. split; constructor; eauto.
      * destruct Hres as (m & err' & Hm & Herr). exists m, err'. split; [by right|done].
    + eexists. split; [reflexivity|]. exists n, err. split; [left|done].
Qed.

(** Rows of one state are all of a topic, or none is. *)
Definition of_state (topic st : string) : bool :=
  includeCompletionSession topic (mkSessionInfo "" st 0 0 "" 0 0 0 []).

Lemma names_uniform topic st rows :
  Forall (fun r => Session_State r = st) rows ->
  completionTopicNames topic (sessionsFromProtocol rows) =
  if of_state topic st then map Session_Name rows else [].
Proof.
  intros H. unfold completionTopicNames, sessionsFromProtocol, of_state.
  induction H as [|r rows <- _ IH]; [by destruct (includeCompletionSession _ _)|].
  cbn [map List.filter]. 
  change (includeCompletionSession topic (mkSessionInfo (Session_Name r) _ _ _ _ _ _ _ _))
    with (includeCompletionSession topic (mkSessionInfo "" (Session_State r) 0 0 "" 0 0 0 [])).
  destruct (includeCompletionSession _ _); cbn [map si_Name]; by rewrite IH.
Qed.

Lemma names_app topic a b :
  completionTopicNames topic (sessionsFromProtocol (a ++ b)) =
  completionTopicNames topic (sessionsFromProtocol a) ++ completionTopicNames topic (sessionsFromProtocol b).
Proof. unfold completionTopicNames, sessionsFromProtocol. by rewrite map_app, List.filter_app, map_app. Qed.

(** What [ht list] and the helper are told: the live sessions and the dead ones, or
    that a saved state does not decode. *)
Definition listed (d : daemon) (m : Message) : Prop :=
  match m with
  | MsgSessions rows =>
      exists live dead,
        Sessions_Sessions rows = live ++ dead /\
        Forall (fun r => Session_State r = "running") live /\ map Session_Name live ≡ₚ elements (d_live d) /\
        Forall (fun r => Session_State r = "dead") dead /\ NoDup (map Session_Name dead) /\
        forall n, n ∈ map Session_Name dead <->
          n ∉ d_live d /\ exists st, d_saved d !! n = Some (Ok st)
  | MsgError _ => exists n err, n ∉ d_live d /\ d_saved d !! n = Some (Err err)
  | _ => False
  end.

Lemma map_names (m : gmap string nat) (f : string * nat -> string) :
  (forall x, f x = x.1) -> map f (map_to_list m) ≡ₚ elements (dom m).
Proof.
  intros Hf. rewrite (List.map_ext f fst Hf).
  apply NoDup_Permutation; [apply NoDup_fst_map_to_list|apply NoDup_elements|].
  intros n. rewrite elem_of_elements, (dom_alt m), elem_of_list_to_set. done.
Qed.

Lemma handleList_listed e w d :
  refines dir w d ->
  refines dir (snd (exec dir e (handleList s (mkList false)) w)) d /\
  exists m, w_sent (snd (exec dir e (handleList s (mkList false)) w)) = w_sent w ++ [m] /\ listed d m.
Proof.
  intros HR. unfold handleList, deadSessionRows, deadSessionNames, liveSessionNames.
  rewrite Hpersist. cbn [negb exec interp]. rewrite exec_bind, exec_live_rows. cbn beta iota.
  rewrite exec_bind. cbn [exec interp bind].
  destruct (listDead_ok dir (fun n => bool_decide (n ∈ dom (w_live w))) (w_fs w) Hdir (r_fs _ _ _ HR))
    as (names & -> & Hnd & Hin).
  assert (Hnames : forall n, n ∈ names <-> n ∉ d_live d /\ is_Some (d_saved d !! n)).
  { intros n. rewrite Hin, bool_decide_eq_false, (r_live _ _ _ HR). split.
    - intros (Hn & Hl & Hs). by rewrite (r_saved _ _ _ HR).
    - intros [Hl Hs]. pose proof (r_saved_names _ _ _ HR n Hs) as Hn. by rewrite <- (r_saved _ _ _ HR). }
  destruct (exec_dead_rows e names w d HR) as (res & -> & Hres); [intros n Hn; by apply Hnames|].
  destruct res as [rows|err]; cbn [exec interp snd send w_sent].
  - split; [by apply refines_send|]. eexists. split; [reflexivity|].
    destruct Hres as (Hr & Hdead & Hok). eexists _, rows. split; [reflexivity|]. rewrite Hr.
    split_and!; [|..|done|done|].
    + rewrite map_map. apply List.Forall_map, List.Forall_forall. by intros [n p] _.
    + rewrite !map_map, <- (r_live _ _ _ HR). apply map_names. by intros [].
    + intros n. rewrite Hnames. split; intros [Hl Hs]; (split; [done|]).
      * by eapply (proj1 (list.Forall_forall _ _)) in Hok; [|by apply Hnames].
      * destruct Hs as [st Hst]. by eexists.
  - split; [by apply refines_send|]. eexists. split; [reflexivity|].
    destruct Hres as (n & err' & Hn & Herr). exists n, err'. split; [by apply Hnames|done].
Qed.
End Offers.

(** The names offered for the first argument of a command. *)
Definition offered (command : string) (rows : Sessions) : list string :=
  completionTopicNames (default "" (completionDynamicTopics !! command))
    (sessionsFromProtocol (Sessions_Sessions rows)).

Lemma offered_names rows live dead :
  Sessions_Sessions rows = live ++ dead ->
  Forall (fun r => Session_State r = "running") live ->
  Forall (fun r => Session_State r = "dead") dead ->
  offered "kill" rows = map Session_Name live /\ offered "restore" rows = map Session_Name dead /\
  offered "dump" rows = map Session_Name live ++ map Session_Name dead.
Proof.
  intros Hr Hl Hd. unfold offered. rewrite Hr.
  change (default "" (completionDynamicTopics !! "kill")) with "live_sessions".
  change (default "" (completionDynamicTopics !! "restore")) with "dead_sessions".
  change (default "" (completionDynamicTopics !! "dump")) with "dumpable_sessions".
  rewrite !names_app, !(names_uniform _ _ _ Hl), !(names_uniform _ _ _ Hd).
  cbn. by rewrite app_nil_r.
Qed.

(** ** The commands the names are offered for *)

(** A session that is not live and whose saved state decodes. *)
Definition saved_dead (d : daemon) (n : string) : Prop :=
  n ∉ d_live d /\ exists st, d_saved d !! n = Some (Ok st).

(** The requests of a command given the name [n] (the [Run] methods of [Cli.v]). [ht
    attach] is apart: it also begins a session. [ht status] takes no name. *)
Inductive command_request (n : string) : string -> Message -> Prop :=
| req_kill : command_request n "kill" (call_msg (CKill n))
| req_kick id : id <> "" -> command_request n "kick" (call_msg (CKick n id))
| req_send data : command_request n "send" (call_msg (CSend n data))
| req_send_key key mods : command_request n "send" (call_msg (CSendKey n key mods))
| req_dump format : command_request n "dump" (call_msg (CDump n format))
| req_wait : command_request n "wait" (call_msg (CDump n TermState.DumpPlain))
| req_restore req : Attach_Name req = n -> Attach_Restore req = true -> command_request n "restore" (MsgAttach req).

(** The sessions themselves do what they are asked: they start, take the client, know
    the client to kick, take the input and are dumped. *)
Definition serves (e : env) : Prop :=
  (forall spec, e_start e spec = None) /\ e_attach e = None /\ e_kick e = true /\ e_input e = None /\
  is_ok (e_key e) = true /\ is_ok (e_dump e) = true.

(** The daemon after a request, and whether it answered with an error. *)
Definition requested (dir : string) (s : Server) (Version : string) (e : env) (m : Message) (w : world) : world :=
  snd (exec dir e (control_message s Version m Version) w).
Definition refused (dir : string) (s : Server) (Version : string) (e : env) (m : Message) (w : world) : bool :=
  existsb (fun m => match m with MsgError _ => true | _ => false end)
    (drop (length (w_sent w)) (w_sent (requested dir s Version e m w))).

Section Requests.
Context (dir : string) (Hdir : dir_ok dir) (s : Server) (Version : string) (Hpersist : has_persister s = true).

Lemma refused_sent e m w l :
  w_sent (requested dir s Version e m w) = w_sent w ++ l ->
  refused dir s Version e m w = existsb (fun m => match m with MsgError _ => true | _ => false end) l.
Proof. intros H. unfold refused. by rewrite H, drop_app_length. Qed.

(** The answer that was written. *)
Ltac answer_go :=
  unfold writeOK, writeError, write; exec_go; cbn [send w_sent existsb drop]; rewrite drop_app_length; cbn.

(** Requests that need the session to live. *)
Lemma live_request_refused e n c m w d :
  refines dir w d -> serves e -> n <> "" -> command_request n c m ->
  match m with MsgDump _ | MsgAttach _ => True | _ => refused dir s Version e m w = false <-> n ∈ d_live d end.
Proof.
  intros HR (_ & _ & Hk & Hi & Hkey & _) Hn Hc.
  destruct Hc as [|id Hid|data|key mods|format| |req]; cbn [call_msg]; try done.
  all: rewrite <- (r_live _ _ _ HR), elem_of_dom; unfold refused, requested; cbn [control_message];
    unfold handleKill, handleKick, handleSend, handleSendKey; cbn [Kill_Name Kick_Name Kick_ClientID Send_Name SendKey_Name];
    rewrite ?(proj2 (String.eqb_neq _ _) Hn), ?(proj2 (String.eqb_neq _ _) Hid); cbn [orb]; exec_go.
  all: destruct (w_live w !! n) as [p|]; exec_go; rewrite ?Hk, ?Hi; exec_go.
  all: try (destruct (e_key e) as [data|]; [|done]; exec_go; destruct (0 <? blen data); exec_go; rewrite ?Hi; exec_go).
  all: answer_go; split; try done; by intros [? ?].
Qed.

(** A dump is of a live session or of a saved one. *)
Lemma dump_request_refused e n format w d :
  refines dir w d -> serves e -> name_ok n ->
  refused dir s Version e (MsgDump (mkDump n format)) w = false <-> n ∈ d_live d \/ saved_dead d n.
Proof.
  intros HR (_ & _ & _ & _ & _ & Hd) Hn. unfold refused, requested. cbn [control_message].
  unfold handleDump, dumpDeadSession. cbn [Dump_Name Dump_Format]. exec_go. unfold saved_dead.
  destruct (w_live w !! n) as [p|] eqn:El.
  - apply (live_true _ _ _ _ _ HR), bool_decide_eq_true in El.
    exec_go. destruct (e_dump e) as [data|]; [|done]. answer_go. by split; [left|].
  - apply (live_false _ _ _ _ HR), bool_decide_eq_false in El. exec_go. rewrite (exec_readDead dir s Hpersist).
    rewrite (r_saved _ _ _ HR n Hn).
    destruct (saved_of dir n (w_fs w)) as [[st|err]|]; exec_go;
      [destruct (e_dump e) as [data|]; [|done]|..]; answer_go.
    + split; [right; eauto|done].
    + split; [done|]. by intros [?|(_ & st & [=])].
    + split; [done|]. by intros [?|(_ & st & [=])].
Qed.

Lemma attach_request_sent e req w :
  requested dir s Version e (MsgAttach req) w = snd (exec dir e (handleAttach s req Version) w).
Proof.
  unfold requested. cbn [control_message]. rewrite exec_bind.
  by destruct (exec dir e (handleAttach s req Version) w).
Qed.

Lemma restore_request_refused e req w d :
  refines dir w d -> serves e -> Attach_Restore req = true -> Attach_Name req <> "" -> name_ok (Attach_Name req) ->
  refused dir s Version e (MsgAttach req) w = false <-> saved_dead d (Attach_Name req).
Proof.
  intros HR (Hs & Ha & _) Hre Hne Hn.
  destruct (restore_ok dir Hdir s Version Hpersist e req w d HR Hre Hne Hn) as [_ Hsent].
  rewrite <- attach_request_sent in Hsent. rewrite (refused_sent e _ w _ Hsent).
  unfold spec_restore, fail, saved_dead. rewrite Hs, Ha. case_bool_decide; [split; [done|by intros [? _]]|].
  destruct (d_saved d !! Attach_Name req) as [[st|err]|]; cbn; [|split; [done|by intros (_ & st & [=])]..].
  split; [eauto|done].
Qed.

(** An attach joins a session that lives, and otherwise begins one or is refused. *)
Lemma attach_request_joins e req w d :
  refines dir w d -> serves e -> Attach_Restore req = false -> Attach_Name req <> "" -> name_ok (Attach_Name req) ->
  refused dir s Version e (MsgAttach req) w = false /\
    dom (w_live (requested dir s Version e (MsgAttach req) w)) = dom (w_live w) <->
  Attach_Name req ∈ d_live d.
Proof.
  intros HR (Hs & Ha & _) Hre Hne Hn.
  destruct (attach_ok dir s Version Hpersist e req w d HR Hre Hne Hn) as [HR' Hsent].
  rewrite <- attach_request_sent in HR', Hsent. rewrite (refused_sent e _ w _ Hsent).
  rewrite (r_live _ _ _ HR'), (r_live _ _ _ HR). unfold spec_attach, fail. rewrite Hs, Ha. case_bool_decide as Hl; [done|].
  destruct (d_saved d !! Attach_Name req) as [[st|err]|]; cbn; [split; [by intros [? _]|done]..|].
  split; [|done]. intros [_ Hd]. rewrite <- Hd. set_solver.
Qed.

(** What each request needs. *)
Lemma request_refused e n c m w d :
  refines dir w d -> serves e -> n <> "" -> name_ok n -> command_request n c m ->
  refused dir s Version e m w = false <->
  match m with
  | MsgDump _ => n ∈ d_live d \/ saved_dead d n
  | MsgAttach _ => saved_dead d n
  | _ => n ∈ d_live d
  end.
Proof.
  intros HR He Hne Hn Hc. pose proof (live_request_refused e n c m w d HR He Hne Hc) as Hl.
  destruct Hc as [|id Hid|data|key mods|format| |req Hreq Hre]; cbn [call_msg] in *; try exact Hl.
  1, 2: by apply dump_request_refused.
  subst n. by apply restore_request_refused.
Qed.
End Requests.

(** The same of the names offered from a list of the daemon. *)
Lemma offered_for d rows n c m :
  listed d (MsgSessions rows) -> command_request n c m ->
  n ∈ offered c rows <->
  match m with
  | MsgDump _ => n ∈ d_live d \/ saved_dead d n
  | MsgAttach _ => saved_dead d n
  | _ => n ∈ d_live d
  end.
Proof.
  intros (live & dead & Hrows & Hl & Hln & Hd & _ & Hin) Hc.
  destruct (offered_names rows live dead Hrows Hl Hd) as (Hk & Hr & Hdu).
  assert (Hkill : n ∈ map Session_Name live <-> n ∈ d_live d) by by rewrite Hln, elem_of_elements.
  destruct Hc; cbn [call_msg].
  1-4: change (n ∈ offered "kill" rows <-> n ∈ d_live d); by rewrite Hk.
  1, 2: change (n ∈ offered "dump" rows <-> n ∈ d_live d \/ saved_dead d n); by rewrite Hdu, elem_of_app, Hkill, Hin.
  by rewrite Hr, Hin.
Qed.

(** Nothing is offered twice. *)
Lemma offered_once d rows c : listed d (MsgSessions rows) -> NoDup (offered c rows).
Proof.
  intros (live & dead & Hrows & Hl & Hln & Hd & Hdn & Hin). unfold offered. rewrite Hrows, names_app.
  rewrite (names_uniform _ _ _ Hl), (names_uniform _ _ _ Hd).
  assert (NoDup (map Session_Name live)) by (rewrite Hln; apply NoDup_elements).
  assert (forall n, n ∈ map Session_Name live -> n ∉ map Session_Name dead).
  { intros n Hn [Hn' _]%Hin. rewrite Hln, elem_of_elements in Hn. done. }
  repeat case_match; rewrite ?app_nil_r; try done; [|constructor].
  by apply NoDup_app.
Qed.


(** A live session, and nothing saved. *)
Definition ex_live_world : world :=
  set_live (<["a" := 0%nat]> ∅) (DaemonWorld.started "a" ex_world).
Definition ex_listed_world : world :=
  snd (exec wit_dir ex_env (handleList ex_daemon (mkList false)) ex_live_world).

