(* ===== verification/EndToEnd.v ===== *)
(** * EndToEnd: a client and the daemon, joined by the connection

    Composes the components: what a session's writer puts on a connection is what
    [RunAttach] reads there, and what the client's two goroutines send is what the
    daemon's message loop receives. *)
From Stdlib Require Import ZArith Lia.
From Stdlib Require Import Strings.Byte.
From stdpp Require Import base gmap sets list strings numbers option pretty.
From S2P Require Import Prelude GoStrings Wire Messages Codec Chan Resize SessionLoop SessionLists SessionInv.
From S2P Require Import SessionProps.
From S2P Require Proc Server ServerProps ClientLib ClientAttach ClientKeys.
#[local] Open Scope Z_scope.

(** ** Messages on the wire *)

(** The bytes of messages written one after the other. *)
Definition wire (ms : list Message) : bytes := fst (WriteMessages ms ([] : bytes)).

(** A message the format can carry. *)
Definition wire_ok (m : Message) : Prop := Message_ok m /\ frame_ok m.

Lemma wire_emits ms : Forall wire_ok ms -> emits (WriteMessages ms) (wire ms).
Proof.
  intros Hall. assert (exists bs, emits (WriteMessages ms) bs) as (bs & Hbs).
  { induction Hall as [|m ms [Hok Hfr] _ [bs Hbs]]; [exists []; apply emits_ok|].
    destruct (message_roundtrip m Hok Hfr) as (b & Hb & _). exists (b ++ bs).
    by apply (emits_seq (WriteMessage m)). }
  unfold wire. by rewrite (Hbs []).
Qed.

(** The bytes of a message that is read: its own and the rest. *)
Lemma wire_cons m ms :
  Forall wire_ok (m :: ms) -> wire (m :: ms) = wire [m] ++ wire ms /\ wire [m] <> [] /\
    parses ReadMessage (wire [m]) m.
Proof.
  intros [Hm Hms]%Forall_cons. destruct (Hm) as [Hok Hfr].
  destruct (message_roundtrip m Hok Hfr) as (b & Hb & Hp).
  assert (wire [m] = b) as Hw.
  { unfold wire. cbn [WriteMessages]. unfold enc_seq, enc_ok. by rewrite (Hb []). }
  rewrite Hw. split_and!; [|intros ->|done].
  - unfold wire at 1. cbn [WriteMessages]. unfold enc_seq. rewrite (Hb []).
    by rewrite (wire_emits ms Hms ([] ++ b)).
  - specialize (Hp [] EOF). vm_compute in Hp. discriminate Hp.
Qed.

Lemma ReadFull_short n bs e :
  (length bs < n)%nat -> exists rd err, ReadFull n (mkReader bs e) = (rd, Err err).
Proof.
  intros H. unfold ReadFull. cbn [rd_data]. destruct (Nat.leb_spec n (length bs)); [lia|]. eauto.
Qed.

Lemma ReadMessage_nil e : exists rd err, ReadMessage (mkReader [] e) = (rd, Err err).
Proof.
  unfold ReadMessage, ReadU32, dec_bind.
  destruct (ReadFull_short 4 [] e) as (rd & err & ->); [cbn; lia|]. eauto.
Qed.

(** A message that has not arrived completely is not read. *)
Lemma ReadMessage_partial m bs tail e :
  wire_ok m -> wire [m] = bs ++ tail -> tail <> [] ->
  exists rd err, ReadMessage (mkReader bs e) = (rd, Err err).
Proof.
  intros [Hok Hfr] Hbs Ht. destruct (newMessage_Type m) as (z & _ & Hrt).
  destruct (Hrt Hok) as (body & Hbody & _). pose proof (build_frame_emits _ _ Hbody) as Hf.
  unfold frame_ok in Hfr. rewrite Hf in Hfr. cbn [fst] in Hfr.
  set (frame := byte_of_Z (Message_Type m) :: body) in *. pose proof maxFrameSize_u32 as Hmax.
  assert (0 < blen frame < 2 ^ 32) as Hpos by (split; [unfold blen, frame; cbn [length]|]; lia).
  assert (Hlen : u32 (blen frame) = blen frame) by (unfold u32; rewrite Z.mod_small; lia).
  assert (Hw : wire [m] = be_encode 4 (blen frame) ++ frame).
  { unfold wire. cbn [WriteMessages]. unfold enc_seq, enc_ok.
    by rewrite (WriteMessage_emits _ _ Hf []), Hlen. }
  rewrite Hw in Hbs. unfold ReadMessage, dec_bind.
  destruct (Nat.ltb_spec (length bs) 4) as [Hs|Hs].
  - unfold ReadU32, dec_bind. destruct (ReadFull_short 4 bs e Hs) as (rd & err & ->). eauto.
  - assert (exists part, bs = be_encode 4 (blen frame) ++ part /\ frame = part ++ tail)
      as (part & -> & Hpart).
    { exists (drop 4 bs). apply (f_equal (take 4)) in Hbs as H4.
      apply (f_equal (drop 4)) in Hbs as H4'.
      rewrite take_app_length' in H4 by (by rewrite length_be_encode).
      rewrite drop_app_length' in H4' by (by rewrite length_be_encode).
      rewrite take_app_le in H4 by done. rewrite drop_app_le in H4' by done.
      split; [|done]. rewrite H4. symmetry. apply take_drop. }
    rewrite (parses_be 4 (blen frame)) by (change (256 ^ Z.of_nat 4) with (2 ^ 32); lia).
    destruct (blen frame =? 0) eqn:E0; [lia|].
    destruct (maxFrameSize <? blen frame) eqn:E1; [lia|].
    destruct (ReadFull_short (Z.to_nat (blen frame)) part e) as (rd & err & ->); [|eauto].
    unfold blen. rewrite Nat2Z.id, Hpart, length_app. destruct tail; [done|]. cbn [length]. lia.
Qed.

(** Reading where some part of the messages has arrived. *)
Lemma read_arrived m ms bs e :
  Forall wire_ok (m :: ms) -> bs `prefix_of` wire (m :: ms) ->
  (exists bs', bs = wire [m] ++ bs' /\ bs' `prefix_of` wire ms /\
     ReadMessage (mkReader bs e) = (mkReader bs' e, Ok m)) \/
  (bs <> wire (m :: ms) /\ exists rd err, ReadMessage (mkReader bs e) = (rd, Err err)).
Proof.
  intros Hall [tail Htail]. destruct (wire_cons m ms Hall) as (Hw & Hne & Hp).
  apply Forall_cons in Hall as [Hm _]. rewrite Hw in Htail |- *.
  destruct (app_eq_inv _ _ _ _ Htail) as [(k & H1 & H2)|(k & H1 & H2)].
  - destruct k as [|x k].
    + left. exists []. rewrite app_nil_r in H1. subst bs. rewrite !app_nil_r.
      split; [done|]. split; [apply prefix_nil|].
      specialize (Hp [] e). by rewrite app_nil_r in Hp.
    + right. split; [|by apply (ReadMessage_partial m bs (x :: k))].
      intros ->. apply (f_equal length) in H1. rewrite !length_app in H1. cbn [length] in H1. lia.
  - left. exists k. split; [done|]. split; [by exists tail|]. rewrite H1. apply Hp.
Qed.

(** ** The client against the bytes it receives *)

Module Host.
Import Proc ClientAttach.

(** The client's connection and what it has handed to the terminal as output. *)
Record host := mkHost { h_conn : Conn bytes; h_shown : list bytes }.

(** The connection decides the answers to the attach request and to the reads;
    the terminal and the system give any other answer. *)
Definition allowed B (o : aop B) (b : B) (w : host) : Prop :=
  match o in aop B return B -> Prop with
  | RequestAttach req => fun a => a = snd (ClientLib.attach req (h_conn w))
  | ReadMsg => fun a => a = snd (on_reader ReadMessage (h_conn w))
  | _ => fun _ => True
  end b.

Definition next B (o : aop B) (b : B) (w : host) : host :=
  match o with
  | RequestAttach req => mkHost (fst (ClientLib.attach req (h_conn w))) (h_shown w)
  | ReadMsg => mkHost (fst (on_reader ReadMessage (h_conn w))) (h_shown w)
  | StdoutBytes data => mkHost (h_conn w) (h_shown w ++ [data])
  | _ => w
  end.

Definition any B (o : aop B) (w : host) : Prop := True.

Abbreviation leads p w Q := (Proc.safe any allowed next p w Q).

(** What the client prints of the answer to its attach. *)
Definition greeting (rows : Z) (opts : AttachOpts) (att : Attached) : list bytes :=
  if blen (Attached_ScreenDump att) =? 0 then []
  else if Attached_Created att then
    if bool_decide (ao_Command opts = []) then [] else [Attached_ScreenDump att]
  else [bytes_of_string (clear_rows (Z.to_nat rows) 1 +:+ esc +:+ "[H"); Attached_ScreenDump att].

Definition exited (fin : option Z) : list Message :=
  (fun code => MsgExited (mkExited code)) <$> option_list fin.

(** The chunks shown after [shown0]: [out] is due; a complete stream is shown
    completely, and its exit code is the client's. *)
Definition shows (shown0 out : list bytes) (fin : option Z) (complete : Prop) (w : host)
    (r : option (option attach_error)) : Prop :=
  h_shown w `prefix_of` shown0 ++ out /\
  (forall code, r = Some (Some (ExitError code)) -> fin = Some code /\ h_shown w = shown0 ++ out) /\
  (complete -> h_shown w = shown0 ++ out /\
     match fin with
     | Some code => r = Some (Some (ExitError code))
     | None => r <> None
     end).

Lemma shows_mono shown0 shown1 out out' fin (complete complete' : Prop) w r :
  shown1 ++ out' = shown0 ++ out -> (complete' -> complete) ->
  shows shown1 out' fin complete w r -> shows shown0 out fin complete' w r.
Proof. unfold shows. intros -> Hc (H1 & H2 & H3). auto. Qed.

(** Ending a run after reading everything that arrived. *)
Lemma shows_cut shown0 out fin (complete : Prop) w r :
  h_shown w = shown0 -> (forall code, r <> Some (Some (ExitError code))) -> ~ complete ->
  shows shown0 out fin complete w r.
Proof.
  intros <- Hr Hc. split; [by apply prefix_app_r|]. split; [|done]. intros code ->. by destruct (Hr code).
Qed.

(** Reading the terminal touches neither. *)
Lemma poll_leads {A} (stop read : aproc A) w (Q : host -> A -> Prop) :
  leads stop w Q -> leads read w Q -> leads (poll stop read) w Q.
Proof.
  intros Hs Hr. split; [done|]. intros [] _; cbn [negb]; [|exact Hs].
  split; [done|]. intros [] _; cbn [negb]; [exact Hr|exact Hs].
Qed.

Lemma drain_leads polls ms w : leads (drainStdin polls ms) w (fun w' _ => w' = w).
Proof.
  split; [done|]. intros ? _. cbn [next]. induction polls as [|polls IH]; [done|].
  apply poll_leads; [done|]. split; [done|]. intros ? _. exact IH.
Qed.

Lemma cursor_leads polls fallback w : leads (readCursorRow polls fallback) w (fun w' _ => w' = w).
Proof.
  split; [done|]. intros ? _. cbn [next]. apply safe_bind. generalize (@nil byte).
  induction polls as [|polls IH]; intros buf; [done|]. cbn [read_response].
  destruct (_ <? _)%nat; [|done]. apply poll_leads; [done|]. split; [done|].
  intros new _. cbv zeta. destruct (_ && _); [done|]. apply IH.
Qed.

Lemma restore_leads polls message w : leads (restoreHostTerminal polls message) w (fun w' _ => w' = w).
Proof.
  split; [done|]. intros ? _. apply safe_bind. eapply safe_mono; [|apply drain_leads].
  intros ? ? ->. split; [done|]. intros ? _.
  destruct (negb _); cbn; [|done]. split; [done|]. by intros ? _.
Qed.

Lemma read_msg_leads {A} (k : result Message -> aproc A) w Q :
  (let r := on_reader ReadMessage (h_conn w) in leads (k (snd r)) (mkHost (fst r) (h_shown w)) Q) ->
  leads (Do ReadMsg k) w Q.
Proof. intros H. split; [done|]. intros b Hb. cbn in Hb. by subst b. Qed.

(** The output loop over the updates and the end of a stream of which [bs] has
    arrived. *)
Lemma attach_loop_shows polls ups fin out e : forall fuel bs shown0,
  Forall is_update ups -> Forall wire_ok (ups ++ exited fin) -> bs `prefix_of` wire (ups ++ exited fin) ->
  leads (attach_loop polls fuel) (mkHost (mkConn out (mkReader bs e)) shown0)
    (shows shown0 (outputs ups) fin
       (bs = wire (ups ++ exited fin) /\ (length (ups ++ exited fin) < fuel)%nat)).
Proof.
  assert (Hend : forall fuel bs out shown0 ups, (exists rd err, ReadMessage (mkReader bs e) = (rd, Err err)) ->
    forall complete : Prop, (complete -> outputs ups = [] /\ fin = None) ->
    leads (attach_loop polls fuel) (mkHost (mkConn out (mkReader bs e)) shown0)
      (shows shown0 (outputs ups) fin (complete /\ (0 < fuel)%nat))).
  { clear. intros [|fuel] bs out shown0 ups (rd & err & Hrd) complete Hc.
    { apply shows_cut; [done..|]. intros [_ ?]. lia. }
    apply read_msg_leads. unfold on_reader. cbn [conn_r conn_w h_conn h_shown]. rewrite Hrd. cbn [fst snd].
    split; [done|]. intros ? _.
    assert (forall r rd, (forall code, r <> Some (Some (ExitError code))) -> r <> None ->
      shows shown0 (outputs ups) fin (complete /\ (0 < S fuel)%nat) (mkHost (mkConn out rd) shown0) r)
      as Hcut.
    { intros r rd' Hr Hn. split; [by apply prefix_app_r|]. split.
      - intros code ->. by destruct (Hr code).
      - intros [[-> ->]%Hc _]. by rewrite app_nil_r. }
    destruct (conn_ended err).
    - apply safe_bind. eapply safe_mono; [|apply restore_leads]. intros w _ ->. by apply Hcut.
    - split; [done|]. intros ? _. by apply Hcut. }
  induction ups as [|m ups IH]; intros fuel bs shown0 Hup Hok Hbs.
  - destruct fin as [code|]; cbn [exited app option_list fmap list_fmap] in *.
    + destruct (read_arrived _ [] bs e Hok Hbs) as [(bs' & -> & [tl Htl] & Hrd)|[Hne Hrd]].
      * destruct fuel as [|fuel]; [apply shows_cut; [done..|]; intros [_ ?]; lia|].
        apply read_msg_leads. unfold on_reader. cbn [conn_r conn_w h_conn h_shown]. rewrite Hrd.
        cbn [fst snd handleAttachMessage]. apply safe_bind, safe_bind.
        eapply safe_mono; [|apply restore_leads]. intros w _ ->. cbn. split; [done|]. intros ? _.
        unfold shows. cbn. rewrite app_nil_r. split; [done|].
        split; [by intros code' [= ->]|]. done.
      * eapply safe_mono; [|apply (Hend fuel bs out shown0 [] Hrd False); done].
        intros w r. apply shows_mono; [done|]. intros [? _]. by split.
    + apply prefix_nil_inv in Hbs. subst bs.
      eapply safe_mono; [|apply (Hend fuel [] out shown0 [] ltac:(apply ReadMessage_nil) True); by intros _].
      intros w r. apply shows_mono; [done|]. intros [? ?]. by split.
  - apply Forall_cons in Hup as [Hm Hup].
    destruct (read_arrived m (ups ++ exited fin) bs e Hok Hbs) as [(bs' & -> & Hbs' & Hrd)|[Hne Hrd]].
    + destruct fuel as [|fuel]; [apply shows_cut; [done..|]; intros [_ ?]; lia|].
      apply read_msg_leads. unfold on_reader. cbn [conn_r conn_w h_conn h_shown]. rewrite Hrd. cbn [fst snd].
      destruct (wire_cons _ _ Hok) as (Hw & _ & _). apply Forall_cons in Hok as [_ Hok].
      assert (wire [m] ++ bs' = wire (m :: ups ++ exited fin) /\
        (length ((m :: ups) ++ exited fin) < S fuel)%nat ->
        bs' = wire (ups ++ exited fin) /\ (length (ups ++ exited fin) < fuel)%nat) as Hcomp.
      { intros [H1 H2]. rewrite (Hw : wire (m :: ups ++ exited fin) = _) in H1. apply app_inv_head in H1. split; [done|].
        cbn in H2. lia. }
      destruct m; try done; cbn [handleAttachMessage].
      * cbn [bind]. split; [done|]. intros b _. cbn [next].
        eapply safe_mono; [|apply (IH fuel bs' (shown0 ++ [Output_Data m]) Hup Hok Hbs')].
        intros w r. apply shows_mono; [|done]. cbn. by rewrite <- app_assoc.
      * cbn [bind]. eapply safe_mono; [|apply (IH fuel bs' shown0 Hup Hok Hbs')].
        intros w r. by apply shows_mono.
    + eapply safe_mono; [|apply (Hend fuel bs out shown0 (m :: ups) Hrd False); done].
      intros w r. apply shows_mono; [done|]. intros [? _]. by split.
Qed.

(** Any operations and any answers. *)
Ltac leads_go :=
  repeat match goal with
    | |- any _ _ _ /\ _ => split; [exact I|]
    | |- leads (bind _ _) _ _ => apply safe_bind
    | |- leads (match ?x with _ => _ end) _ _ => destruct x eqn:?
    | |- forall _, _ => intros ?
    | |- safe _ _ _ _ _ _ => progress cbn [safe bind allowed next]
    end.

Lemma request_leads opts w : leads (attachRequestFromOpts opts) w (fun w' _ => w' = w).
Proof. unfold attachRequestFromOpts. leads_go; done. Qed.

Lemma status_leads attached ro w : leads (writeAttachStatus attached ro) w (fun w' _ => w' = w).
Proof. unfold writeAttachStatus. leads_go; done. Qed.

Lemma kitty_leads w : leads pushKittyKeyboard w (fun w' _ => w' = w).
Proof. unfold pushKittyKeyboard. leads_go; done. Qed.

Definition reattach_greeting (rows : Z) (att : Attached) : list bytes :=
  if Attached_Created att || (blen (Attached_ScreenDump att) =? 0) then []
  else [bytes_of_string (clear_rows (Z.to_nat rows) 1 +:+ esc +:+ "[H"); Attached_ScreenDump att].

Definition created_greeting (opts : AttachOpts) (att : Attached) : list bytes :=
  if negb (Attached_Created att) || bool_decide (ao_Command opts = []) ||
     (blen (Attached_ScreenDump att) =? 0) then [] else [Attached_ScreenDump att].

Lemma greeting_parts rows opts att :
  greeting rows opts att = reattach_greeting rows att ++ created_greeting opts att.
Proof.
  unfold greeting, reattach_greeting, created_greeting.
  by destruct (_ =? 0), (Attached_Created att), (bool_decide _).
Qed.

Lemma reattach_leads polls rows att w :
  leads (writeReattachScreenDump polls rows att) w
    (fun w' _ => w' = mkHost (h_conn w) (h_shown w ++ reattach_greeting rows att)).
Proof.
  unfold writeReattachScreenDump, reattach_greeting. destruct (_ || _).
  { cbn. rewrite app_nil_r. by destruct w. }
  split; [done|]. intros rerr _. apply safe_bind.
  eapply safe_mono with (Q := fun w' _ => w' = w).
  - intros ? row ->. unfold write_dump. leads_go; cbn [h_conn h_shown]; by rewrite <- app_assoc.
  - destruct rerr; [done|]. split; [done|]. intros ? _. apply safe_bind.
    eapply safe_mono; [|apply cursor_leads]. intros ? ? ->. leads_go; done.
Qed.

Lemma created_leads opts att w :
  leads (writeCreatedCommandDump att (ao_Command opts)) w
    (fun w' _ => w' = mkHost (h_conn w) (h_shown w ++ created_greeting opts att)).
Proof.
  unfold writeCreatedCommandDump, created_greeting. destruct (_ || _).
  - cbn. rewrite app_nil_r. by destruct w.
  - unfold write_dump. leads_go; done.
Qed.

(** *** The whole attach *)

Section Attach.
Context (opts : AttachOpts) (att : Attached) (ups : list Message) (fin : option Z) (polls fuel : nat).

Definition due : list Message := ups ++ exited fin.

(** [complete]: the whole stream arrived, and the loop may read that far. *)
Definition attach_shows (complete : Prop) (w : host) (r : option (option attach_error)) : Prop :=
  exists rows, shows [] (greeting rows opts att ++ outputs ups) fin
    (complete /\ forall e, r <> Some (Some (AttachErr e))) w r.

Lemma shows_error complete rows e w :
  h_shown w `prefix_of` greeting rows opts att ->
  attach_shows complete w (Some (Some (AttachErr e))).
Proof.
  intros H. exists rows. split; [cbn [app]; by apply prefix_app_r|]. split; [by intros|]. intros [_ Hn].
  by destruct (Hn e).
Qed.

Context (Hup : Forall is_update ups) (Hok : Forall wire_ok (MsgAttached att :: due)).

Lemma raw_shows rows bs out e :
  bs `prefix_of` wire due ->
  leads (attach_raw polls fuel opts att) (mkHost (mkConn out (mkReader bs e)) (reattach_greeting rows att))
    (fun w r => attach_shows (bs = wire due /\ (length due < fuel)%nat) w r).
Proof.
  intros Hbs. unfold attach_raw. apply safe_bind. eapply safe_mono; [|apply drain_leads].
  intros ? _ ->. apply safe_bind.
  eapply safe_mono with (Q := fun w' _ =>
    w' = mkHost (mkConn out (mkReader bs e)) (reattach_greeting rows att)).
  2: { destruct (negb _); leads_go; done. }
  intros ? _ ->. split; [done|]. intros ? _. apply safe_bind.
  eapply safe_mono; [|apply created_leads]. intros ? [err|] ->.
  - apply (shows_error _ rows). by rewrite greeting_parts.
  - apply Forall_cons in Hok as [_ Hdue].
    eapply safe_mono; [|apply (attach_loop_shows polls ups fin out e fuel bs _ Hup Hdue Hbs)].
    intros w r H. exists rows. revert H. apply shows_mono; [cbn [h_shown app]; by rewrite greeting_parts|tauto].
Qed.

Lemma RunAttach_shows bs out e :
  bs `prefix_of` wire (MsgAttached att :: due) ->
  leads (RunAttach polls fuel opts) (mkHost (mkConn out (mkReader bs e)) [])
    (fun w r => attach_shows (bs = wire (MsgAttached att :: due) /\ (length due < fuel)%nat) w r).
Proof.
  intros Hbs. set (w0 := mkHost (mkConn out (mkReader bs e)) []).
  assert (Herr : forall complete w err, h_shown w = [] ->
    attach_shows complete w (Some (Some (AttachErr err)))).
  { intros complete w err Hs. apply (shows_error _ 0). rewrite Hs. apply prefix_nil. }
  unfold RunAttach. apply safe_bind. eapply safe_mono; [|apply request_leads].
  intros ? [req|err] ->; [|by apply Herr]. split; [done|]. cbn [allowed next h_conn h_shown w0].
  unfold ClientLib.attach, ClientLib.request, on_writer, on_reader. cbn [conn_w conn_r].
  destruct (WriteMessage (MsgAttach req) out) as [out' [werr|]]; cbn [fst snd conn_w conn_r].
  { intros ? ->. by apply Herr. }
  destruct (read_arrived (MsgAttached att) due bs e Hok Hbs) as [(bs' & -> & Hbs' & Hrd)|[Hne (rd & err & Hrd)]].
  2: { rewrite Hrd. cbn [fst snd]. intros ? ->. by apply Herr. }
  rewrite Hrd. cbn [fst snd ClientLib.as_Attached]. intros ? ->.
  apply safe_bind. eapply safe_mono; [|apply status_leads]. intros ? _ ->.
  apply safe_bind. eapply safe_mono; [|apply kitty_leads]. intros ? [kerr|] ->; [by apply Herr|].
  apply safe_bind. eapply safe_mono; [|apply reattach_leads]. intros ? [derr|] ->.
  { apply (shows_error _ (Attach_Rows req)). rewrite greeting_parts. by apply prefix_app_r. }
  split; [done|]. intros [rerr|] _.
  { apply (shows_error _ (Attach_Rows req)). rewrite greeting_parts. by apply prefix_app_r. }
  cbn [next h_conn h_shown app]. apply safe_bind.
  eapply safe_mono; [|by apply (raw_shows (Attach_Rows req))].
  assert (wire [MsgAttached att] ++ bs' = wire (MsgAttached att :: due) -> bs' = wire due) as Hw.
  { destruct (wire_cons _ _ Hok) as (-> & _). apply app_inv_head. }
  intros w [r|] [rows H].
  - split; [done|]. intros ? _. exists rows. revert H. apply shows_mono; [done|tauto].
  - exists rows. revert H. apply shows_mono; [done|tauto].
Qed.
End Attach.
End Host.

(** ** What the session's writers put on the wire *)

Section Told.
Context {T : Type} {HT : Terminal T}.
Implicit Types s : Session T.

(** What the client was told when its writer is done, and else is still to be told. *)
Definition told (c : sessionClient) : list Message :=
  if sc_writeDone c then sc_written c else stream c ++ option_list (sc_final c).

(** The loop has returned and the client is to be told exactly [M], unless its
    connection breaks. *)
Definition telling (M : list Message) (p : nat) s : Prop :=
  s_phase s = Returned /\ ch_buf (s_feedCh s) = [] /\
  exists c, s_heap s !! p = Some c /\ ch_closed (sc_outCh c) = true /\
    (sc_connClosed c = true \/
     told c = M /\ (sc_writeDone c = true -> sc_inflight c = None)).

Lemma telling_writer M p ev s s' : telling M p s -> writer_step ev s = Some s' -> telling M p s'.
Proof.
  intros (Hph & Hb & c & Hc & Hcl & Ht) Hs.
  destruct (writer_step_frame _ _ _ Hs) as [Hph' Hb']. unfold telling. rewrite Hph', Hb'.
  do 2 (split; [done|]).
  destruct ev; cbn [writer_step] in Hs; try done;
    unfold writer_take, writer_ok, writer_err, writer_final in Hs;
    destruct (s_heap s !! p0) as [d|] eqn:Hd; try done;
    (destruct (decide (p0 = p)) as [->|Hne];
     [rewrite Hc in Hd; injection Hd as <-
     |assert (s_heap s' !! p = s_heap s !! p) as ->; [|by exists c]; revert Hs;
      repeat case_match; try done; intros [= <-]; cbn; by apply lookup_insert_ne]).
  all: destruct (sc_writeDone c) eqn:Hw; destruct (sc_inflight c) as [m|] eqn:Hi; try done;
    destruct (sc_connClosed c) eqn:Hcc; try done.
  all: destruct (ch_buf (sc_outCh c)) as [|m' ms] eqn:Hbuf; rewrite ?Hcl in Hs; try done.
  all: try (destruct (sc_final c) as [f|] eqn:Hf); try (destruct ok); try done.
  all: injection Hs as <-; cbn; rewrite lookup_insert_eq; eexists; (split; [done|]); (split; [done|]);
    cbn; try (by left).
  all: destruct Ht as [Ht|[Ht Hin]]; [done|]; try (by specialize (Hin eq_refl)); right;
    unfold told, stream in *; cbn; rewrite ?Hw, ?Hi, ?Hbuf, ?Hf in *; cbn [option_list app] in *;
    (split; [|done]); rewrite <- Ht; by rewrite <- ?app_assoc, ?app_nil_r.
Qed.

Lemma telling_exec M p ev s s' r : telling M p s -> exec ev s = Some (Val (s', r)) -> telling M p s'.
Proof.
  intros Ht Hx. destruct (Ht) as (Hph & Hb & _).
  destruct ev; try (apply exec_writer in Hx as (s1 & [= -> ->] & Hs); [|done];
    by eapply telling_writer); cbn [exec] in Hx; rewrite ?Hph, ?Hb in Hx; done.
Qed.

Lemma telling_steps M p s evs s' : telling M p s -> steps s evs s' -> telling M p s'.
Proof.
  intros Ht. induction 1 as [s|s evs s1 ev s2 r Hs IH Hev Hx]; [done|].
  exact (telling_exec M p ev s1 s2 r (IH Ht) Hx).
Qed.

(** A writer that ended on a working connection told everything. *)
Lemma telling_done M p s c :
  telling M p s -> s_heap s !! p = Some c -> sc_writeDone c = true -> sc_connClosed c = false ->
  sc_written c = M.
Proof.
  intros (_ & _ & c' & Hc & _ & Ht) Hc' Hw Hcc. rewrite Hc in Hc'. injection Hc' as ->.
  destruct Ht as [Ht|[<- _]]; [congruence|]. unfold told. by rewrite Hw.
Qed.
End Told.

(** ** Properties: the output *)

Section Output.
Context {T : Type} {HT : Terminal T} (t0 : T).
Implicit Types s : Session T.
Import Proc ClientAttach Host.

(** The client's side of the connection when the bytes [bs] have arrived. *)
Definition receiving (out bs : bytes) (e : error) : host := mkHost (mkConn out (mkReader bs e)) [].

(** A run of [RunAttach] on those bytes, and what the client has shown since. *)
Definition attach_run (polls fuel : nat) (opts : AttachOpts) (w : host) (r : option (option attach_error))
    (w' : host) : Prop :=
  exists tr, Proc.runs (RunAttach polls fuel opts) tr r /\ Proc.answered allowed next tr w w'.

Lemma attach_run_shows polls fuel opts att ups fin out bs e r w :
  Forall is_update ups -> Forall wire_ok (MsgAttached att :: due ups fin) ->
  bs `prefix_of` wire (MsgAttached att :: due ups fin) ->
  attach_run polls fuel opts (receiving out bs e) r w ->
  attach_shows opts att ups fin
    (bs = wire (MsgAttached att :: due ups fin) /\ (length (due ups fin) < fuel)%nat) w r.
Proof.
  intros Hup Hok Hbs (tr & Hr & Ha).
  by destruct (safe_run _ _ _ _ _ _ _ _ _
    (RunAttach_shows opts att ups fin polls fuel Hup Hok bs out e Hbs) Hr Ha).
Qed.

Lemma decide_error (r : option (option attach_error)) :
  (exists err, r = Some (Some (AttachErr err))) \/ forall e, r <> Some (Some (AttachErr e)).
Proof. destruct r as [[[]|]|]; eauto. Qed.

(** At any time, whatever part of a client's stream has arrived, what its
    terminal was given is a beginning of: the screen at the attach, then the
    chunks the session accepted since, in order. It does not leave with an exit
    code while the session runs. *)
Lemma shown_so_far evs s p c polls fuel opts out bs e r w :
  reachable t0 evs s -> s_phase s <> Returned -> p ∈ clients s ->
  s_heap s !! p = Some c -> sc_writeDone c = false ->
  Forall wire_ok (stream c) -> bs `prefix_of` wire (stream c) ->
  attach_run polls fuel opts (receiving out bs e) r w ->
  exists att pre post t rows,
    accepted evs = pre ++ post /\ term_is t0 pre t /\ dump_of t att /\
    h_shown w `prefix_of` greeting rows opts att ++ post /\
    forall code, r <> Some (Some (ExitError code)).
Proof.
  intros Hr Hph Hp Hc Hw Hok Hbs Hrun.
  destruct (inv_clients _ _ _ (reachable_inv _ _ _ Hr Hph) p Hp) as (c' & Hc' & _ & _ & _ & _ & Hdel).
  rewrite Hc in Hc'. injection Hc' as <-.
  destruct (Hdel Hw) as (att & rest & pre & post & t & Hs & Hup & Hacc & Ht & Hd & Ho).
  rewrite Hs in Hok, Hbs. rewrite <- (app_nil_r rest) in Hok, Hbs.
  destruct (attach_run_shows polls fuel opts att rest None out bs e r w Hup Hok Hbs Hrun)
    as (rows & Hpre & Hexit & _).
  exists att, pre, post, t, rows. do 3 (split; [done|]). split.
  - etransitivity; [exact Hpre|]. cbn [app]. rewrite <- Ho, app_assoc. by apply prefix_app_r.
  - intros code ->. by destruct (Hexit code eq_refl).
Qed.

(** When the process ends, a client on a working connection is told everything and
    ends with the process's exit code: its writer can finish; whenever it has, the
    client, if its terminal does not fail, was given the screen at its attach and
    every chunk since, and exits with that code. *)
Lemma shown_at_exit evs s s1 r1 p c :
  reachable t0 evs s -> exec EvPtyClosed s = Some (Val (s1, r1)) -> p ∈ clients s ->
  s_heap s1 !! p = Some c -> sc_writeDone c = false -> sc_connClosed c = false ->
  (exists evs2 s2 c2, steps s1 evs2 s2 /\ s_heap s2 !! p = Some c2 /\ sc_writeDone c2 = true /\
     sc_connClosed c2 = false) /\
  exists att rest pre post t,
    told c = MsgAttached att :: rest ++ [MsgExited (mkExited (s_exitCode s))] /\
    Forall is_update rest /\ outputs rest = post /\
    accepted evs = pre ++ post /\ term_is t0 pre t /\ dump_of t att /\
    forall evs2 s2 c2, Forall wire_ok (told c) -> steps s1 evs2 s2 -> s_heap s2 !! p = Some c2 ->
      sc_writeDone c2 = true -> sc_connClosed c2 = false ->
      forall polls fuel opts out e r w, (length (sc_written c2) < fuel)%nat ->
        attach_run polls fuel opts (receiving out (wire (sc_written c2)) e) r w ->
        (exists err, r = Some (Some (AttachErr err))) \/
        r = Some (Some (ExitError (s_exitCode s))) /\
        exists rows, h_shown w = greeting rows opts att ++ post.
Proof.
  intros Hr Hx Hp Hc Hw Hcc.
  destruct (exit_streams _ _ _ _ _ _ Hr Hx Hp) as (_ & Hph & c' & Hc' & Hcl & Hs).
  rewrite Hc in Hc'. injection Hc' as <-.
  destruct (Hs Hw) as (att & rest & pre & post & t & Hst & Hup & Hacc & Ht & Hd & Ho).
  assert (Htold : told c = MsgAttached att :: rest ++ [MsgExited (mkExited (s_exitCode s))]) by (unfold told; by rewrite Hw).
  assert (Htell : telling (told c) p s1).
  { destruct (exec_ok t0 _ EvPtyClosed _ _ (reachable_good _ _ _ Hr) I Hx) as (s1' & r' & [= <- <-] & Hg).
    destruct Hg as [[_ Hb]|[? _]]; [|done]. split; [done|]. split; [done|]. exists c.
    do 2 (split; [done|]). right. split; [done|]. by rewrite Hw. }
  split.
  - destruct (writer_runs_out s1 p c Hc Hw Hcc Hcl) as (evs2 & s2 & c2 & H1 & H2 & H3 & H4 & _).
    by exists evs2, s2, c2.
  - exists att, rest, pre, post, t. do 6 (split; [done|]).
    intros evs2 s2 c2 Hok Hs2 Hc2 Hw2 Hcc2 polls fuel opts out e r w Hfuel Hrun.
    pose proof (telling_done _ _ _ _ (telling_steps _ _ _ _ _ Htell Hs2) Hc2 Hw2 Hcc2) as Hwr.
    rewrite Htold in Hwr, Hok. rewrite Hwr in Hrun, Hfuel.
    destruct (attach_run_shows polls fuel opts att rest (Some (s_exitCode s)) out _ e r w Hup Hok
      ltac:(done) Hrun) as (rows & _ & _ & Hall).
    destruct (decide_error r) as [?|Hne]; [by left|right].
    destruct Hall as [Hsh Hres]; [split; [split; [done|]|done]; cbn [length] in Hfuel; unfold due, exited; cbn; lia|].
    split; [done|]. exists rows. rewrite Hsh, <- Ho. done.
Qed.
End Output.

(** ** The daemon against the bytes it receives *)

(** The writes of two goroutines on one connection: the write mutex lets each
    message through whole, in any order between the two. *)
Inductive merge {A} : list A -> list A -> list A -> Prop :=
| merge_nil : merge [] [] []
| merge_l x xs ys zs : merge xs ys zs -> merge (x :: xs) ys (x :: zs)
| merge_r y xs ys zs : merge xs ys zs -> merge xs (y :: ys) (y :: zs).

Module Uplink.
Import Proc Server.

(** The daemon's end of an attached connection: what is still to be read, and what
    the message loop did to the session. *)
Record uplink := mkUplink {
  up_reader : Reader;
  up_inputs : list (nat * bytes);
  up_sizes : list (nat * nat * termSize);
  up_left : list (nat * nat) }.

Definition allowed B (o : op B) (b : B) (w : uplink) : Prop :=
  match o in op B return B -> Prop with
  | Receive => fun a => a = snd (ReadMessage (up_reader w))
  | _ => fun _ => True
  end b.

Definition next B (o : op B) (b : B) (w : uplink) : uplink :=
  let 'mkUplink rd ins szs gone := w in
  match o with
  | Receive => mkUplink (fst (ReadMessage rd)) ins szs gone
  | SendInput sess data => mkUplink rd (ins ++ [(sess, data)]) szs gone
  | ResizeClient sess ac sz => mkUplink rd ins (szs ++ [(sess, ac, sz)]) gone
  | DetachClient sess ac => mkUplink rd ins szs (gone ++ [(sess, ac)])
  | _ => w
  end.

Definition any B (o : op B) (w : uplink) : Prop := True.

Abbreviation leads p w Q := (Proc.safe any allowed next p w Q).

(** What an attached client may send before it leaves. *)
Definition is_stream (m : Message) : Prop :=
  match m with MsgInput _ | MsgResize _ | MsgDetach _ => True | _ => False end.

(** The messages before the client leaves. *)
Fixpoint staying (ms : list Message) : list Message :=
  match ms with
  | MsgDetach _ :: _ => []
  | m :: ms => m :: staying ms
  | [] => []
  end.

Definition inputs_in (ms : list Message) : list bytes :=
  omap (fun m => match m with MsgInput m => Some (Input_Data m) | _ => None end) ms.
Definition sizes_in (ms : list Message) : list termSize :=
  omap (fun m => match m with
                 | MsgResize m => Some (mkTermSize (Resize_Cols m) (Resize_Rows m)
                                          (Resize_Xpixel m) (Resize_Ypixel m))
                 | _ => None
                 end) ms.

Section Serve.
Context (srv : Server.Server) (Version clientRev : string) (sess ac : nat) (ro : bool) (e : error).

(** What the loop makes of the messages, of which all arrived when [complete]. *)
Definition served (ms : list Message) (complete : Prop) (w0 w : uplink) (r : option unit) : Prop :=
  exists ms', ms' `prefix_of` staying ms /\ (complete -> ms' = staying ms /\ r = Some tt) /\
    up_inputs w = up_inputs w0 ++ (if ro then [] else (fun d => (sess, d)) <$> inputs_in ms') /\
    up_sizes w = up_sizes w0 ++ (if ro then [] else (fun sz => (sess, ac, sz)) <$> sizes_in ms') /\
    (r = Some tt -> up_left w = up_left w0 ++ [(sess, ac)]).

Lemma served_none ms (complete : Prop) w0 w r :
  (complete -> staying ms = [] /\ r = Some tt) -> up_inputs w = up_inputs w0 ->
  up_sizes w = up_sizes w0 -> (r = Some tt -> up_left w = up_left w0 ++ [(sess, ac)]) ->
  served ms complete w0 w r.
Proof.
  intros Hc Hi Hs Hl. exists []. split; [apply prefix_nil|].
  split; [by intros [-> ->]%Hc|]. rewrite Hi, Hs. by destruct ro; cbn; rewrite !app_nil_r.
Qed.

Lemma served_cons m ms (complete complete' : Prop) w0 w1 w r :
  staying (m :: ms) = m :: staying ms -> (complete' -> complete) ->
  up_inputs w1 = up_inputs w0 ++ (if ro then [] else (fun d => (sess, d)) <$> inputs_in [m]) ->
  up_sizes w1 = up_sizes w0 ++ (if ro then [] else (fun sz => (sess, ac, sz)) <$> sizes_in [m]) ->
  up_left w1 = up_left w0 ->
  served ms complete w1 w r -> served (m :: ms) complete' w0 w r.
Proof.
  intros Hst Hc Hi Hs Hl (ms' & Hpre & Hcm & Hi' & Hs' & Hl'). exists (m :: ms').
  rewrite Hst, Hi', Hs', Hi, Hs. split; [destruct Hpre as [k ->]; by exists k|].
  split; [intros [-> ->]%Hc%Hcm; done|]. rewrite Hl in Hl'.
  change (m :: ms') with ([m] ++ ms'). unfold inputs_in, sizes_in. rewrite !omap_app.
  rewrite <- !app_assoc. by destruct ro; rewrite ?fmap_app.
Qed.

Lemma serve_stream ms : forall fuel bs w0,
  Forall is_stream ms -> Forall wire_ok ms -> bs `prefix_of` wire ms -> up_reader w0 = mkReader bs e ->
  leads (conn_loop srv Version fuel clientRev (Some (sess, ac, ro))) w0
    (served ms (bs = wire ms /\ (length ms < fuel)%nat) w0).
Proof.
  assert (Hend : forall fuel bs w0 ms, (exists rd err, ReadMessage (mkReader bs e) = (rd, Err err)) ->
    forall complete : Prop, (complete -> ms = [] /\ (0 < fuel)%nat) -> up_reader w0 = mkReader bs e ->
    leads (conn_loop srv Version fuel clientRev (Some (sess, ac, ro))) w0 (served ms complete w0)).
  { intros [|fuel] bs w0 ms' (rd & err & Hrd) complete Hc Hw0.
    { apply served_none; try done. intros [_ ?]%Hc. lia. }
    split; [done|]. intros b Hb. cbn [allowed] in Hb. rewrite Hw0, Hrd in Hb. subst b. cbn [snd].
    split; [done|]. intros ? _. destruct w0 as [rd0 ins szs gone]. apply served_none; try done.
    intros [-> _]%Hc. done. }
  induction ms as [|m ms IH]; intros fuel bs w0 Hst Hok Hbs Hw0.
  - apply prefix_nil_inv in Hbs. subst bs. apply (Hend fuel []); [apply ReadMessage_nil|tauto|done].
  - apply Forall_cons in Hst as [Hm Hst].
    destruct (read_arrived m ms bs e Hok Hbs) as [(bs' & -> & Hbs' & Hrd)|[Hne Hrd]];
      [|apply (Hend fuel bs w0 (m :: ms) Hrd); [by intros [? _]|done]].
    destruct (wire_cons _ _ Hok) as (Hw & _ & _). apply Forall_cons in Hok as [_ Hok].
    destruct fuel as [|fuel]; [apply served_none; try done; intros [_ ?]; lia|].
    assert (wire [m] ++ bs' = wire (m :: ms) /\ (length (m :: ms) < S fuel)%nat ->
      bs' = wire ms /\ (length ms < fuel)%nat) as Hcomp.
    { intros [H1 H2]. rewrite Hw in H1. apply app_inv_head in H1. split; [done|]. cbn in H2. lia. }
    destruct w0 as [rd0 ins szs gone]. cbn [up_reader] in Hw0. subst rd0.
    split; [done|]. intros b Hb. cbn [allowed up_reader] in Hb. rewrite Hrd in Hb. subst b.
    cbn [next snd]. rewrite Hrd. cbn [fst].
    assert (Hnext : forall w1, up_reader w1 = mkReader bs' e -> staying (m :: ms) = m :: staying ms ->
      up_inputs w1 = ins ++ (if ro then [] else (fun d => (sess, d)) <$> inputs_in [m]) ->
      up_sizes w1 = szs ++ (if ro then [] else (fun sz => (sess, ac, sz)) <$> sizes_in [m]) ->
      up_left w1 = gone ->
      leads (conn_loop srv Version fuel clientRev (Some (sess, ac, ro))) w1
        (served (m :: ms) (wire [m] ++ bs' = wire (m :: ms) /\ (length (m :: ms) < S fuel)%nat)
           (mkUplink (mkReader (wire [m] ++ bs') e) ins szs gone))).
    { intros w1 H1 H2 H3 H4 H5. eapply safe_mono; [|apply (IH fuel bs' w1 Hst Hok Hbs' H1)].
      intros w r. by apply served_cons. }
    destruct m; try done; cbn [stream_message].
    + destruct ro; [apply Hnext; cbn; by rewrite ?app_nil_r|].
      cbn [bind]. split; [done|]. intros ? _. apply Hnext; cbn; by rewrite ?app_nil_r.
    + destruct ro; [apply Hnext; cbn; by rewrite ?app_nil_r|].
      cbn [bind]. split; [done|]. intros ? _. apply Hnext; cbn; by rewrite ?app_nil_r.
    + cbn [bind]. split; [done|]. intros ? _. by apply served_none.
Qed.
End Serve.
End Uplink.

(** ** Properties: the input *)

Section Input.
Import Proc ClientAttach Uplink.

Definition msg_of (st : astep) : option Message :=
  match st with
  | Step o _ => match o with WriteMsg msg => Some msg | _ => None end
  end.

Definition leaving (b : bool) : list Message := if b then [MsgDetach mkDetach] else [].

(** The messages of [forwardHostInput]: input, then Detach if it leaves. *)
Definition typed_msgs (tr : list astep) : Prop :=
  exists b, omap msg_of tr = (input <$> omap input_of tr) ++ leaving b.

Lemma forwardHostInput_msgs opts fuel : wp (forwardHostInput fuel opts) (fun tr _ => typed_msgs tr).
Proof.
  induction fuel as [|fuel IH]; [by exists false|]. cbn [forwardHostInput]. intros [data err].
  assert (Hnext : forall tr0, omap msg_of tr0 = input <$> omap input_of tr0 ->
    wp (match err with Some _ => Ret (Some tt) | None => forwardHostInput fuel opts end)
      (fun tr _ => typed_msgs (Step StdinRead (data, err) :: tr0 ++ tr))).
  { intros tr0 H0. unfold typed_msgs. destruct err.
    - exists false. csimpl. by rewrite !app_nil_r.
    - revert IH. apply wp_mono. intros tr _ [b Hb]. exists b. csimpl.
      by rewrite !omap_app, Hb, H0, fmap_app, app_assoc. }
  destruct (0 <? blen data); [|by apply (Hnext [])].
  destruct (findDetach data (ao_DetachKey opts)) as [i|].
  - destruct (negb (ao_ReadOnly opts) && (0 <? i)%nat).
    + wp_go; first [by exists true | by exists false].
    + wp_go; by exists true.
  - destruct (negb (ao_ReadOnly opts)); [|by apply (Hnext [])].
    intros [werr|]; [by exists false|]. by apply (Hnext [Step (WriteMsg (input data)) None]).
Qed.

(** Merging the resizes of the other goroutine keeps the input. *)
Lemma merge_staying datas b ys ms :
  merge ((input <$> datas) ++ leaving b) ys ms -> Forall (fun m => exists r, m = MsgResize r) ys ->
  Forall is_stream ms /\ inputs_in (staying ms) = datas /\ sizes_in (staying ms) `prefix_of` sizes_in ys.
Proof.
  remember ((input <$> datas) ++ leaving b) as xs eqn:Hxs. intros Hm. revert b datas Hxs.
  induction Hm as [|x xs ys zs Hm IH|y xs ys zs Hm IH]; intros b datas Hxs Hys.
  - destruct datas; [|done]. split_and!; [constructor|done|apply prefix_nil].
  - destruct datas as [|d datas]; cbn in Hxs.
    + destruct b; [|done]. injection Hxs as -> ->.
      destruct (IH false [] eq_refl Hys) as (H & _). split_and!; [by constructor|done|apply prefix_nil].
    + injection Hxs as -> ->. destruct (IH b datas eq_refl Hys) as (H1 & H2 & H3).
      split_and!; [by constructor|cbn; by f_equal|exact H3].
  - apply Forall_cons in Hys as [[r ->] Hys]. destruct (IH b datas Hxs Hys) as (H1 & H2 & [k H3]).
    split_and!; [by constructor|exact H2|]. exists k. unfold sizes_in in *. csimpl. by rewrite H3.
Qed.
(** *** What reaches the session *)

(** A run of the message loop of an attached connection on the bytes [bs]. *)
Definition serve_run (srv : Server.Server) (Version clientRev : string) (fuel : nat) (sess ac : nat) (ro : bool)
    (bs : bytes) (e : error) (r : option unit) (w : uplink) : Prop :=
  exists tr, Proc.runs (Server.conn_loop srv Version fuel clientRev (Some (sess, ac, ro))) tr r /\
    Proc.answered allowed next tr (mkUplink (mkReader bs e) [] [] []) w.

(** What was typed before the detach key holds no raw detach byte. *)
Lemma typed_no_raw dk pre typed :
  Forall (no_detach dk) pre -> ClientKeys.hasRaw dk = true ->
  typed = pre \/ (exists chunk i, detach_at dk chunk i /\ typed = pre ++ [take i chunk]) ->
  byte_of_Z (ClientKeys.rawByte dk) ∉ concat typed.
Proof.
  intros Hpre Hraw Hcases [x [Hx Hin]]%list_elem_of_In%List.in_concat. apply list_elem_of_In in Hx, Hin.
  assert (x ∈ pre -> False) as Hno.
  { intros H. rewrite list.Forall_forall in Hpre. by apply (no_detach_raw dk x (Hpre x H) Hraw). }
  destruct Hcases as [->|(chunk & i & Hat & ->)]; [by apply Hno|].
  apply elem_of_app in Hx as [Hx|Hx%list_elem_of_singleton]; [by apply Hno|].
  subst x. by apply (detach_at_raw dk chunk i Hat Hraw).
Qed.

(** C6. Typed input reaches the session: the messages of the two goroutines of a
    client, merged in any order, of which any part has arrived. The session's
    input is a beginning of the bytes typed before the detach key was acted on,
    nothing from a read-only client, and exactly those bytes when everything
    arrived; the loop then ends and the client is detached exactly once, also when
    the connection breaks. The reads before had no detach key; in the last read it is
    the first raw byte, or the first escape sequence of a read without a raw byte:
    so a raw byte is never passed on, but an escape sequence is that comes before a
    raw byte in one read, or in two parts in two reads. *)
Theorem typed_reaches_session opts fuel tr r ys ms srv Version clientRev fuel' sess ac bs e r' w :
  runs (forwardHostInput fuel opts) tr r ->
  merge (omap msg_of tr) ys ms -> Forall (fun m => exists sz, m = MsgResize sz) ys ->
  Forall wire_ok ms -> bs `prefix_of` wire ms ->
  serve_run srv Version clientRev fuel' sess ac (ao_ReadOnly opts) bs e r' w ->
  exists typed, Forall (fun i => fst i = sess) (up_inputs w) /\
    concat (snd <$> up_inputs w) `prefix_of` visible opts typed /\
    (bs = wire ms -> (length ms < fuel')%nat ->
       concat (snd <$> up_inputs w) = visible opts typed /\ r' = Some tt) /\
    (r' = Some tt -> up_left w = [(sess, ac)]) /\
    (exists pre, Forall (no_detach (ao_DetachKey opts)) pre /\
       (omap chunk_of tr = pre /\ typed = pre \/
        exists chunk i, omap chunk_of tr = pre ++ [chunk] /\
          detach_at (ao_DetachKey opts) chunk i /\ typed = pre ++ [take i chunk])) /\
    (ClientKeys.hasRaw (ao_DetachKey opts) = true ->
       byte_of_Z (ClientKeys.rawByte (ao_DetachKey opts)) ∉ concat typed).
Proof.
  intros Hr Hm Hys Hok Hbs (tr' & Hr' & Ha).
  destruct (wp_runs _ (fun tr _ => typed_msgs tr) _ _ (forwardHostInput_msgs opts fuel) Hr) as [b Hb].
  rewrite Hb in Hm. destruct (merge_staying _ _ _ _ Hm Hys) as (Hst & Hin & Hsz).
  destruct (safe_run _ _ _ _ _ _ _ _ _
    (serve_stream srv Version clientRev sess ac (ao_ReadOnly opts) e ms fuel' bs
       (mkUplink (mkReader bs e) [] [] []) Hst Hok Hbs eq_refl) Hr' Ha)
    as (_ & ms' & Hpre & Hc & Hi & _ & Hl).
  cbn [up_inputs up_left app] in Hi, Hl.
  destruct (wp_runs _ (fun tr _ => forwarded_ok opts tr) _ _ (forwardHostInput_ok opts fuel) Hr)
    as (pre & Hpre' & Hcases).
  assert (exists typed, concat (omap input_of tr) = visible opts typed /\
    (omap chunk_of tr = pre /\ typed = pre \/
     exists chunk i, omap chunk_of tr = pre ++ [chunk] /\
       detach_at (ao_DetachKey opts) chunk i /\ typed = pre ++ [take i chunk])) as (typed & Ht & Hch).
  { destruct Hcases as [(H1 & _ & H3)|(chunk & i & H1 & H2 & H3 & _)]; [exists pre|exists (pre ++ [take i chunk])];
      (split; [done|]); [by left|right; by exists chunk, i]. }
  assert (Hdata : snd <$> up_inputs w = if ao_ReadOnly opts then [] else inputs_in ms').
  { rewrite Hi. destruct (ao_ReadOnly opts); [done|]. rewrite <- list_fmap_compose. apply list_fmap_id. }
  assert (Hall : concat (inputs_in (staying ms)) = visible opts typed) by (by rewrite Hin).
  exists typed. split; [rewrite Hi; destruct (ao_ReadOnly opts); [constructor|];
    apply list.Forall_fmap, list.Forall_forall; done|].
  rewrite Hdata. split; [|split; [|split; [exact Hl|split; [by exists pre|]]]].
  - rewrite <- Hall. destruct (ao_ReadOnly opts); [apply prefix_nil|].
    destruct Hpre as [k ->]. unfold inputs_in. rewrite omap_app, concat_app. by eexists.
  - intros Hbs' Hf. destruct Hc as [-> ->]; [done|]. split; [|done]. rewrite <- Hall.
    destruct (ao_ReadOnly opts) eqn:Hro; [|done]. rewrite Hall. unfold visible. by rewrite Hro.
  - intros Hraw. eapply typed_no_raw; [exact Hpre'|exact Hraw|].
    destruct Hch as [[_ ->]|(chunk & i & _ & Hat & ->)]; [by left|right; by exists chunk, i].
Qed.
End Input.

(** ** Witnesses *)

Section Examples.
Import Proc ClientAttach Host.

(** A terminal that works and gives no input. *)
Definition ex_answer B (o : aop B) (w : host) : B :=
  match o in aop B return B with
  | Metadata => Ok (mkMetadata 80 24 0 0 [] "")
  | RequestAttach req => snd (ClientLib.attach req (h_conn w))
  | StdinRead => ([], Some EOF)
  | ReadMsg => snd (on_reader ReadMessage (h_conn w))
  | WriteMsg _ | Stdout _ | StdoutBytes _ | MakeRaw | MakeRawTmp => None
  | TtyRead _ => []
  | Sigwinch | SelectStdin => false
  | BeforeDeadline => true
  | GetWinsize => Err EOF
  | CloseClient | Stderr _ | RestoreTerm | RestoreTmp | StartDeadline _ | GoForwardInput
  | GoForwardResize | CloseDone => tt
  end.

Lemma ex_answer_allowed B (o : aop B) w : allowed B o (ex_answer B o w) w.
Proof. by destruct o. Qed.

(** The client of the examples on the bytes [bs]. *)
Definition ex_drive (bs : bytes) : list astep * option (option attach_error) * host :=
  drive next ex_answer (RunAttach 9 9 ex_opts) (receiving [] bs EOF).

Lemma ex_drive_run bs :
  attach_run 9 9 ex_opts (receiving [] bs EOF) (snd (fst (ex_drive bs))) (snd (ex_drive bs)).
Proof.
  destruct (ex_drive bs) as [[tr r] w] eqn:Hd. exists tr.
  exact (drive_runs allowed next ex_answer _ _ _ _ _ ex_answer_allowed Hd).
Qed.

Ltac wire_ok_go :=
  repeat (apply list.Forall_cons_2; [split; [repeat split; by vm_compute|by vm_compute]|]);
  apply list.Forall_nil_2.

(** Two keys, a resize between them, then the detach key. *)
Definition ex_typed : list astep :=
  [Step StdinRead ([Byte.x61], None); Step (WriteMsg (input [Byte.x61])) None;
   Step StdinRead ([Byte.x62; Byte.x1d; Byte.x63], None);
   Step (WriteMsg (input [Byte.x62])) None; Step (WriteMsg (MsgDetach mkDetach)) None;
   Step CloseClient tt].
Definition ex_resized : Message := MsgResize (mkResize 100 30 0 0).
Definition ex_sent : list Message :=
  [input [Byte.x61]; ex_resized; input [Byte.x62]; MsgDetach mkDetach].
Definition ex_served : list (Proc.step Server.op) :=
  [Step Server.Receive (Ok (input [Byte.x61])); Step (Server.SendInput 7 [Byte.x61]) None;
   Step Server.Receive (Ok ex_resized); Step (Server.ResizeClient 7 1 (mkTermSize 100 30 0 0)) tt;
   Step Server.Receive (Ok (input [Byte.x62])); Step (Server.SendInput 7 [Byte.x62]) None;
   Step Server.Receive (Ok (MsgDetach mkDetach)); Step (Server.DetachClient 7 1) tt].

Lemma typed_reaches_session_witness :
  exists w typed, serve_run ServerProps.ex_server "v1" "v1" 5 7 1 false (wire ex_sent) EOF (Some tt) w /\
    concat (snd <$> Uplink.up_inputs w) = visible ex_opts typed /\ Uplink.up_left w = [(7, 1)]%nat.
Proof.
  set (w := Uplink.mkUplink (NewReader []) [(7%nat, [Byte.x61]); (7%nat, [Byte.x62])]
              [(7%nat, 1%nat, mkTermSize 100 30 0 0)] [(7, 1)]%nat).
  assert (serve_run ServerProps.ex_server "v1" "v1" 5 7 1 false (wire ex_sent) EOF (Some tt) w) as Hrun.
  { exists ex_served. split; [run_go|].
    repeat (apply Proc.answered_cons; [vm_compute; reflexivity || exact I|]). apply Proc.answered_nil. }
  destruct (typed_reaches_session ex_opts 3 ex_typed (Some tt) [ex_resized] ex_sent
    ServerProps.ex_server "v1" "v1" 5 7 1 (wire ex_sent) EOF (Some tt) w)
    as (typed & _ & _ & Hall & Hleft & _ & _).
  - run_go.
  - apply merge_l, merge_r, merge_l, merge_l, merge_nil.
  - apply list.Forall_cons_2; [eexists; reflexivity|apply list.Forall_nil_2].
  - wire_ok_go.
  - done.
  - exact Hrun.
  - exists w, typed. split; [exact Hrun|]. split; [|by apply Hleft].
    apply Hall; [done|]. apply Nat.ltb_lt. reflexivity.
Defined.
End Examples.
