(* ===== verification/Pipeline.v ===== *)
(** * Pipeline: from what a process writes to what a client shows

    Joins the stages of a session: the reads of its pty ([readPTY]), the gather stage
    ([PtyGather.v]), the channel [s.ptyOut], the run loop ([SessionLoop.v]), a
    client's writer and the client itself ([EndToEnd.v]). *)
From Stdlib Require Import ZArith Lia.
From Stdlib Require Import Strings.Byte.
From stdpp Require Import base gmap sets list strings numbers option pretty.
From S2P Require Import Prelude GoStrings Wire Messages Codec Chan Resize SessionLoop SessionLists SessionInv.
From S2P Require Import SessionProps PtyGather EndToEnd.
From S2P Require Proc ClientAttach.
#[local] Open Scope Z_scope.

(** ** The exit code

    The run loop never changes the exit code of its session. *)

Section ExitCode.
Context {T : Type} {HT : Terminal T}.
Implicit Types s : Session T.

(** Whatever the code returns has the exit code of [s]. *)
Definition keeps {A} (st : A -> Session T) s (x : go A) : Prop :=
  forall a, x = Val a -> s_exitCode (st a) = s_exitCode s.

Lemma keeps_val {A} (st : A -> Session T) s a : s_exitCode (st a) = s_exitCode s -> keeps st s (Val a).
Proof. by intros H b [= <-]. Qed.

Lemma keeps_bind {A B} (st1 : A -> Session T) (st : B -> Session T) s x (k : A -> go B) :
  keeps st1 s x -> (forall a, s_exitCode (st1 a) = s_exitCode s -> keeps st s (k a)) ->
  keeps st s (go_bind x k).
Proof. intros Hx Hk b. destruct x as [a| |]; cbn; try done. apply Hk. by apply Hx. Qed.

(** Code that returns no session. *)
Lemma keeps_pure {A B} (st : B -> Session T) s (x : go A) (k : A -> go B) :
  (forall a, keeps st s (k a)) -> keeps st s (go_bind x k).
Proof. intros Hk b. destruct x as [a| |]; cbn; try done. apply Hk. Qed.

Lemma keeps_from {A} (st : A -> Session T) s s1 x :
  keeps st s1 x -> s_exitCode s1 = s_exitCode s -> keeps st s x.
Proof. intros Hx H a Ha. rewrite <- H. by apply Hx. Qed.

Create HintDb keeps_db.

Ltac keeps_call := eapply keeps_from; [solve [auto with keeps_db nocore]|repeat case_match; cbn in *; congruence].

(** One step through a piece of Go code. *)
Ltac keeps_step :=
  cbn beta iota in *;
  match goal with
  | |- keeps _ _ (Val _) => apply keeps_val; repeat case_match; cbn in *; congruence
  | |- keeps _ _ (Panic _) => by intros ?
  | |- keeps _ _ (Stuck _) => by intros ?
  | |- keeps _ _ (match ?x with _ => _ end) => destruct x
  | |- keeps _ _ (go_bind _ _) =>
      first [eapply keeps_bind; [keeps_call|intros ? ?]
            |eapply (keeps_bind (fun s => s)); [|intros ? ?]
            |apply keeps_pure; intros ?]
  | |- keeps _ _ _ => keeps_call
  end.
Ltac keeps_go := repeat keeps_step.

Abbreviation same := (fun s => s).

Lemma feed_one_keeps it s : keeps same s (feed_one it s).
Proof. unfold feed_one, close_applied. keeps_go. Qed.
#[local] Hint Resolve feed_one_keeps : keeps_db.

Lemma feed_all_keeps items : forall s, keeps same s (feed_all items s).
Proof. induction items as [|it items IH]; intros s; cbn [feed_all]; keeps_go. Qed.
#[local] Hint Resolve feed_all_keeps : keeps_db.

Lemma drain_keeps s : keeps same s (drain s).
Proof. unfold drain. keeps_go. Qed.
#[local] Hint Resolve drain_keeps : keeps_db.

Lemma waitFeedApplied_keeps last s : keeps same s (waitFeedApplied last s).
Proof. unfold waitFeedApplied. keeps_go. Qed.
#[local] Hint Resolve waitFeedApplied_keeps : keeps_db.

Lemma close_feed_keeps s : keeps same s (close_feed s).
Proof. unfold close_feed. keeps_go. Qed.
#[local] Hint Resolve close_feed_keeps : keeps_db.

Lemma queueOutput_keeps data cs : forall s, keeps snd s (queueOutput cs data s).
Proof. induction cs as [|p cs IH]; intros s; cbn [queueOutput]; keeps_go. Qed.
#[local] Hint Resolve queueOutput_keeps : keeps_db.

Lemma pruneFinishedClients_keeps cs : forall pending s, keeps snd s (pruneFinishedClients cs pending s).
Proof. induction cs as [|p cs IH]; intros pending s; cbn [pruneFinishedClients]; keeps_go. Qed.
#[local] Hint Resolve pruneFinishedClients_keeps : keeps_db.

Lemma offer_all_keeps cs msg : forall s, keeps same s (offer_all cs msg s).
Proof. induction cs as [|p cs IH]; intros s; cbn [offer_all]; keeps_go. Qed.
#[local] Hint Resolve offer_all_keeps : keeps_db.

Lemma notifyClientsChanged_keeps cs s : keeps same s (notifyClientsChanged cs s).
Proof. unfold notifyClientsChanged. keeps_go. Qed.
#[local] Hint Resolve notifyClientsChanged_keeps : keeps_db.

Lemma close_out_keeps p s : keeps same s (close_out p s).
Proof. unfold close_out. keeps_go. Qed.
#[local] Hint Resolve close_out_keeps : keeps_db.

Lemma close_conn_keeps p s : keeps same s (close_conn p s).
Proof. unfold close_conn. keeps_go. Qed.
#[local] Hint Resolve close_conn_keeps : keeps_db.

Lemma resize_to_target_keeps sizes s : keeps same s (resize_to_target sizes s).
Proof. unfold resize_to_target. keeps_go. Qed.
#[local] Hint Resolve resize_to_target_keeps : keeps_db.

Lemma arbitrateResize_keeps cs s : keeps same s (arbitrateResize cs s).
Proof. unfold arbitrateResize. keeps_go. Qed.
#[local] Hint Resolve arbitrateResize_keeps : keeps_db.

Lemma resizeForPending_keeps cs sz s : keeps same s (resizeForPending cs sz s).
Proof. unfold resizeForPending. keeps_go. Qed.
#[local] Hint Resolve resizeForPending_keeps : keeps_db.

Lemma prune_keeps s : keeps same s (prune s).
Proof. unfold prune, settle_output. keeps_go. Qed.
#[local] Hint Resolve prune_keeps : keeps_db.

Lemma loop_head_keeps s : keeps same s (loop_head s).
Proof. unfold loop_head, settle_output. keeps_go. Qed.
#[local] Hint Resolve loop_head_keeps : keeps_db.

Lemma on_pty_data_keeps data s : keeps same s (on_pty_data data s).
Proof. unfold on_pty_data. keeps_go. Qed.
#[local] Hint Resolve on_pty_data_keeps : keeps_db.

Lemma finish_clients_keeps cs m : forall s, keeps same s (finish_clients cs m s).
Proof. induction cs as [|p cs IH]; intros s; cbn [finish_clients]; keeps_go. Qed.
#[local] Hint Resolve finish_clients_keeps : keeps_db.

Lemma on_pty_closed_keeps s : keeps same s (on_pty_closed s).
Proof. unfold on_pty_closed. keeps_go. Qed.
#[local] Hint Resolve on_pty_closed_keeps : keeps_db.

Lemma push_pending_keeps s : keeps same s (push_pending s).
Proof. unfold push_pending. keeps_go. Qed.
#[local] Hint Resolve push_pending_keeps : keeps_db.

Lemma drop_client_keeps p s : keeps same s (drop_client p s).
Proof. unfold drop_client, settle_output. keeps_go. Qed.
#[local] Hint Resolve drop_client_keeps : keeps_db.

Lemma stop_clients_keeps cs : forall s, keeps same s (stop_clients cs s).
Proof. induction cs as [|p cs IH]; intros s; cbn [stop_clients]; keeps_go. Qed.
#[local] Hint Resolve stop_clients_keeps : keeps_db.

Lemma on_action_keeps a s : keeps fst s (on_action a s).
Proof.
  unfold on_action. destruct a; unfold on_attach, on_detach, on_kick, on_resize, on_clientInfo, on_stop, close_applied;
    keeps_go.
Qed.
#[local] Hint Resolve on_action_keeps : keeps_db.

Lemma exec_exitCode ev s s' r : exec ev s = Some (Val (s', r)) -> s_exitCode s' = s_exitCode s.
Proof.
  enough (forall x, exec ev s = Some x -> keeps fst s x) as H by (intros Hx; exact (H _ Hx _ eq_refl)).
  destruct ev; cbn [exec]; intros x;
    unfold writer_take, writer_ok, writer_err, writer_final, no_reply, writer_exit; cbn [fmap option_fmap option_map];
    repeat case_match; intros [= <-]; simplify_eq; keeps_go.
Qed.

Lemma steps_exitCode s evs s' : steps s evs s' -> s_exitCode s' = s_exitCode s.
Proof. induction 1 as [|s evs s1 ev s2 r _ IH _ Hx]; [done|]. by rewrite (exec_exitCode _ _ _ _ Hx). Qed.
End ExitCode.

(** ** The messages of a running session fit the wire *)

(** Everything a client is sent after its [Attached]: chunks of the gather stage,
    changes of the clients, and the exit code. *)
Lemma output_wire_ok o : blen (Output_Data o) <= ptyBatchSize -> wire_ok (MsgOutput o).
Proof.
  intros H. assert (ptyBatchSize + 5 <= maxFrameSize) as Hmax by (by apply Z.leb_le; vm_compute).
  split; [cbn; unfold Output_ok, bytes_ok; lia|]. unfold frame_ok, build_frame. cbn [Message_encode Output_encode].
  unfold Output_encode, WriteBytes, WriteU8, WriteU32, put, enc_seq, enc_ok, write, Buffer.
  destruct (blen (Output_Data o) =? 0); cbn [fst]; unfold blen in *;
    rewrite ?length_app, ?length_be_encode; cbn [length]; lia.
Qed.

Lemma changed_wire_ok c : ClientsChanged_ok c -> wire_ok (MsgClientsChanged c).
Proof.
  intros H. split; [exact H|]. unfold frame_ok, build_frame. cbn [Message_encode].
  unfold ClientsChanged_encode, WriteU8, WriteU16, put, enc_seq, write, Buffer. cbn [fst].
  unfold blen. rewrite !length_app, !length_be_encode. by apply Z.leb_le; vm_compute.
Qed.

Lemma exited_wire_ok code : is_i32 code -> wire_ok (MsgExited (mkExited code)).
Proof.
  intros H. split; [exact H|]. unfold frame_ok, build_frame. cbn [Message_encode].
  unfold Exited_encode, WriteI32, WriteU8, put, enc_seq, write, Buffer. cbn [fst].
  unfold blen. rewrite !length_app, !length_be_encode. by apply Z.leb_le; vm_compute.
Qed.

Lemma updates_wire_ok ms :
  Forall is_update ms -> Forall (fun b => blen b <= ptyBatchSize) (outputs ms) -> Forall wire_ok ms.
Proof.
  induction 1 as [|m ms Hm _ IH]; intros Hb; [constructor|].
  destruct m; try done; csimpl in Hb.
  - apply list.Forall_cons in Hb as [Hb Hbs]. constructor; [by apply output_wire_ok|by apply IH].
  - constructor; [by apply changed_wire_ok|by apply IH].
Qed.

Lemma exitCode_i32 ws : is_i32 (exitCodeFromWaitStatus ws).
Proof. unfold exitCodeFromWaitStatus. repeat case_match; try apply i32_range; done. Qed.

(** ** The stages of a session *)

Section Pipe.
Context {T : Type} {HT : Terminal T}.

(** [s.ptyOut]: [make(chan []byte, 64)]. *)
Definition ptyOutSize : nat := 64.

(** The reads the gather stage has still to receive and whether the reader closes
    [reads] after them, the stage, its channel to the run loop, and the loop with the
    feed loop and the writers. *)
Record pipe := mkPipe {
  pp_reads : list bytes;
  pp_ends : bool;
  pp_gather : gstate;
  pp_out : chan bytes;
  pp_session : Session T }.

Definition set_session (s : Session T) (y : pipe) : pipe :=
  mkPipe (pp_reads y) (pp_ends y) (pp_gather y) (pp_out y) s.
Definition set_out (ch : chan bytes) (y : pipe) : pipe :=
  mkPipe (pp_reads y) (pp_ends y) (pp_gather y) ch (pp_session y).

(** [readPTY] leaves its loop at an error, and then closes [reads]. *)
Definition read_ends (results : list (bytes * option error)) : bool :=
  existsb (fun r => match snd r with Some _ => true | None => false end) results.

(** [startSession] for a process whose pty gives these results to [Read], and which
    is reaped with this status. *)
Definition pipe_start (results : list (bytes * option error)) (ws : Z) (name : string) (pid : Z)
    (policy : ResizePolicy) (sz : termSize) (term : T) : pipe :=
  mkPipe (readPTY results) (read_ends results) gather_start (make_chan ptyOutSize)
    (startSession name pid (exitCodeFromWaitStatus ws) policy sz term).

Inductive pevent : Type :=
| PGather (ev : gevent)
| PLoop (ev : event).

(** The gather stage after a step: what it sends is queued, and it closes the channel
    when it returns. *)
Definition gathered (reads : list bytes) (ev : gevent) (y : pipe) : option pipe :=
  match gather_step ev (pp_gather y) with
  | None => None
  | Some (g, o) =>
      let ch := pp_out y in
      Some (mkPipe reads (pp_ends y) g
              (mkChan (ch_buf ch ++ option_list o) (ch_cap ch)
                 (match g_phase g with GReturned => true | _ => false end)) (pp_session y))
  end.

(** One step of a stage, where the others let it happen. [done] is closed when the
    run loop returns; the reader then closes [reads] with a read in hand. *)
Definition pexec (ev : pevent) (y : pipe) : option pipe :=
  let loop ev y :=
    match exec ev (pp_session y) with
    | Some (Val (s, _)) => Some (set_session s y)
    | _ => None
    end in
  match ev with
  | PGather (GRecv d) =>
      match pp_reads y with
      | d' :: reads => if bool_decide (d = d') then gathered reads (GRecv d) y else None
      | [] => None
      end
  | PGather GReadsClosed =>
      match pp_reads y, s_phase (pp_session y) with
      | [], _ => if pp_ends y then gathered [] GReadsClosed y else None
      | reads, Returned => gathered reads GReadsClosed y
      | _, _ => None
      end
  | PGather GSent =>
      if (length (ch_buf (pp_out y)) <? ch_cap (pp_out y))%nat
      then gathered (pp_reads y) GSent y else None
  | PGather GDoneClosed =>
      match s_phase (pp_session y) with Returned => gathered (pp_reads y) GDoneClosed y | _ => None end
  | PGather GTimer => gathered (pp_reads y) GTimer y
  | PLoop (EvPty d) =>
      match ch_buf (pp_out y) with
      | d' :: buf =>
          if bool_decide (d = d')
          then loop (EvPty d) (set_out (mkChan buf (ch_cap (pp_out y)) (ch_closed (pp_out y))) y)
          else None
      | [] => None
      end
  | PLoop EvPtyClosed =>
      match ch_buf (pp_out y), ch_closed (pp_out y) with
      | [], true => loop EvPtyClosed y
      | _, _ => None
      end
  | PLoop ev => loop ev y
  end.

(** Requests are those of connections: sizes are uint16 values, and a client is one
    the loop handed out. Of the chunks nothing is assumed here. *)
Definition pevent_ok (ev : pevent) (y : pipe) : Prop :=
  match ev with
  | PGather _ | PLoop (EvPty _) => True
  | PLoop ev => event_ok ev (pp_session y)
  end.

Inductive psteps : pipe -> list pevent -> pipe -> Prop :=
| psteps_nil y : psteps y [] y
| psteps_snoc y evs y1 ev y2 :
    psteps y evs y1 -> pevent_ok ev y1 -> pexec ev y1 = Some y2 -> psteps y (evs ++ [ev]) y2.

(** The events of a stage. *)
Definition gather_events (evs : list pevent) : list gevent :=
  omap (fun ev => match ev with PGather ev => Some ev | _ => None end) evs.
Definition loop_events (evs : list pevent) : list event :=
  omap (fun ev => match ev with PLoop ev => Some ev | _ => None end) evs.

(** ** The stages lose nothing between them *)

(** After the events [evs] from a start with [results]: each stage ran on its own
    events, and what one handed over the next one got or will get. *)
Record flows (results : list (bytes * option error)) (s0 : Session T) (evs : list pevent) (y : pipe) : Prop :=
  mkFlows {
  fl_gather : gathers gather_start (gather_events evs)
                (accepted (loop_events evs) ++ ch_buf (pp_out y)) (pp_gather y);
  fl_reads : List.concat (readPTY results) = received (gather_events evs) ++ List.concat (pp_reads y);
  fl_loop : steps s0 (loop_events evs) (pp_session y);
  fl_done : GDoneClosed ∈ gather_events evs -> s_phase (pp_session y) = Returned;
  fl_closed : ch_closed (pp_out y) = true -> g_phase (pp_gather y) = GReturned;
  fl_ends : g_readsClosed (pp_gather y) = true \/ g_phase (pp_gather y) = GReturned ->
              pp_reads y = [] \/ s_phase (pp_session y) = Returned }.

Lemma gather_step_ends ev g g' o :
  gather_step ev g = Some (g', o) -> g_readsClosed g' = true \/ g_phase g' = GReturned ->
  (g_readsClosed g = true \/ g_phase g = GReturned) \/ ev = GReadsClosed \/ ev = GDoneClosed.
Proof.
  assert (forall b p rc, g_phase (gather_head b p rc) <> GReturned /\ g_readsClosed (gather_head b p rc) = rc) as Hh.
  { intros b p rc. unfold gather_head. cbn. by destruct (_ && _). }
  assert (forall b rc, g_phase (gather_first b rc) <> GReturned /\ g_readsClosed (gather_first b rc) = rc) as Hf.
  { intros b rc. unfold gather_first. repeat case_match; [done|apply Hh..]. }
  assert (forall p rc, g_readsClosed (gather_top p rc) = true \/ g_phase (gather_top p rc) = GReturned -> rc = true) as Ht.
  { intros p rc. unfold gather_top. case_match; [|by destruct rc; intros []].
    destruct (Hf p rc) as [Hf1 Hf2]. rewrite Hf2. by intros []. }
  destruct g as [pending rc ph]. unfold gather_step. cbn [g_phase g_pending g_readsClosed].
  destruct ph, ev; intros Hx H; try done; try (by right; auto); repeat case_match; simplify_eq; left; left; cbn in *;
    try (by apply (Ht pending)); try (by destruct H).
  - destruct (Hf data rc) as [H1 H2]. destruct H as [H|H]; congruence.
  - destruct (Hh (batch ++ data) pending rc) as [H1 _]. destruct H as [H|H]; congruence.
Qed.

Lemma exec_returned ev (s s' : Session T) r :
  s_phase s = Returned -> exec ev s = Some (Val (s', r)) -> s_phase s' = Returned.
Proof.
  intros Hph Hx. destruct ev;
    try (apply exec_writer in Hx as (s1 & [= -> ->] & Hs); [by destruct (writer_step_frame _ _ _ Hs) as [-> _]|done]);
    cbn [exec] in Hx; rewrite ?Hph in Hx; try done.
  destruct (ch_buf (s_feedCh s)) as [|it items]; [done|]. unfold no_reply, feed_one, close_applied in Hx.
  case_decide; cbn in Hx; [done|]. injection Hx as <- _. exact Hph.
Qed.

Lemma accepted_app evs evs' : accepted (evs ++ evs') = accepted evs ++ accepted evs'.
Proof. apply omap_app. Qed.

Lemma received_app evs evs' : received (evs ++ evs') = received evs ++ received evs'.
Proof. unfold received. rewrite omap_app. apply List.concat_app. Qed.

Lemma gather_events_snoc evs ev :
  gather_events (evs ++ [ev]) = gather_events evs ++ match ev with PGather ev => [ev] | _ => [] end.
Proof. unfold gather_events. rewrite omap_app. by destruct ev. Qed.

Lemma loop_events_snoc evs ev :
  loop_events (evs ++ [ev]) = loop_events evs ++ match ev with PLoop ev => [ev] | _ => [] end.
Proof. unfold loop_events. rewrite omap_app. by destruct ev. Qed.

(** A step of the gather stage. *)
Lemma flows_gathered results s0 evs y ev reads y' :
  flows results s0 evs y -> gathered reads ev y = Some y' ->
  List.concat (pp_reads y) = received [ev] ++ List.concat reads ->
  (ev = GDoneClosed -> s_phase (pp_session y) = Returned) ->
  (pp_reads y = [] -> reads = []) -> (ev = GReadsClosed -> reads = [] \/ s_phase (pp_session y) = Returned) ->
  flows results s0 (evs ++ [PGather ev]) y'.
Proof.
  intros [Hg Hr Hl Hd Hc He] Hx Hreads Hdone Hnil Hcl. unfold gathered in Hx.
  destruct (gather_step ev (pp_gather y)) as [[g o]|] eqn:Hs; [|done]. injection Hx as <-.
  split; rewrite ?gather_events_snoc, ?loop_events_snoc, ?app_nil_r; cbn.
  - rewrite app_assoc. by eapply gathers_snoc.
  - rewrite received_app, <- app_assoc, <- Hreads. done.
  - done.
  - intros [H|H%list_elem_of_singleton]%elem_of_app; [by apply Hd|by apply Hdone].
  - by destruct (g_phase g).
  - intros H. destruct (gather_step_ends _ _ _ _ Hs H) as [He'%He|[->| ->]].
    + destruct He' as [Hn|Hn]; [left; by apply Hnil|by right].
    + by apply Hcl.
    + right. by apply Hdone.
Qed.

(** A step of the run loop, with the chunks it takes from the channel. *)
Lemma flows_looped results s0 evs y ev s r out :
  flows results s0 evs y -> exec ev (pp_session y) = Some (Val (s, r)) -> event_ok ev (pp_session y) ->
  ch_buf (pp_out y) = accepted [ev] ++ ch_buf out -> ch_closed out = ch_closed (pp_out y) ->
  flows results s0 (evs ++ [PLoop ev]) (set_session s (set_out out y)).
Proof.
  intros [Hg Hr Hl Hd Hc He] Hx Hok Hbuf Hcl.
  split; rewrite ?gather_events_snoc, ?loop_events_snoc, ?app_nil_r; cbn; try done.
  - by rewrite accepted_app, <- app_assoc, <- Hbuf.
  - by eapply steps_snoc.
  - intros H. eapply exec_returned; [by apply Hd|exact Hx].
  - by rewrite Hcl.
  - intros H. destruct (He H) as [|Hph]; [by left|right]. by eapply exec_returned.
Qed.

Lemma flows_chunk results s0 evs y d buf :
  flows results s0 evs y -> ch_buf (pp_out y) = d :: buf -> blen d <= ptyBatchSize.
Proof.
  intros Hf Hbuf. destruct (gathers_inv _ _ _ _ (fl_gather _ _ _ _ Hf) gather_start_inv) as (_ & Hall & _).
  rewrite Hbuf in Hall. apply list.Forall_app in Hall as [_ Hall]. by apply list.Forall_cons in Hall as [? _].
Qed.

Lemma flows_step results s0 evs y ev y' :
  flows results s0 evs y -> pevent_ok ev y -> pexec ev y = Some y' -> flows results s0 (evs ++ [ev]) y'.
Proof.
  intros Hf Hok Hx. destruct ev as [ev|ev].
  - destruct ev as [d| | | |]; cbn [pexec] in Hx.
    + destruct (pp_reads y) as [|d' reads] eqn:Hr; [done|]. case_bool_decide; [subst d'|done].
      eapply flows_gathered; [done|exact Hx|rewrite Hr; cbn; by rewrite app_nil_r|done|by rewrite Hr|done].
    + assert (exists reads, gathered reads GReadsClosed y = Some y' /\ reads = pp_reads y /\
        (reads = [] \/ s_phase (pp_session y) = Returned)) as (reads & Hx' & Hr & Hor).
      { destruct (pp_reads y) as [|d reads] eqn:Hr; [destruct (pp_ends y); [|done]|
          destruct (s_phase (pp_session y)) eqn:Hph; try done]; eauto 10. }
      eapply flows_gathered; [done|exact Hx'|by rewrite Hr|done|by rewrite Hr|done].
    + by eapply flows_gathered.
    + destruct (s_phase (pp_session y)) eqn:Hph; try done. by eapply flows_gathered.
    + case_match; [|done]. by eapply flows_gathered.
  - assert (forall out, ch_buf (pp_out y) = accepted [ev] ++ ch_buf out -> ch_closed out = ch_closed (pp_out y) ->
      event_ok ev (pp_session y) ->
      match exec ev (pp_session y) with Some (Val (s, _)) => Some (set_session s (set_out out y)) | _ => None end = Some y' ->
      flows results s0 (evs ++ [PLoop ev]) y') as Hloop.
    { intros out H1 H2 H3 H4. destruct (exec ev (pp_session y)) as [[[s r]| |]|] eqn:He; try done.
      injection H4 as <-. by eapply flows_looped. }
    assert (y = set_out (pp_out y) y) as Hy by (by destruct y).
    destruct ev; cbn [pexec] in Hx;
      try (apply (Hloop (pp_out y)); [done|done|exact Hok|by rewrite <- Hy]).
    + destruct (ch_buf (pp_out y)) as [|d buf] eqn:Hbuf; [done|]. case_bool_decide; [subst d|done].
      eapply Hloop; [..|exact Hx]; [done|done|]. by eapply flows_chunk.
    + destruct (ch_buf (pp_out y)) as [|? ?] eqn:Hbuf; [|done]. destruct (ch_closed (pp_out y)) eqn:Hc; [|done].
      apply (Hloop (pp_out y)); [by rewrite Hbuf|done|exact Hok|by rewrite <- Hy].
Qed.

(** *** What was read and what the loop accepted *)

Definition pipe_reaches (results : list (bytes * option error)) (ws : Z) (t0 : T) (evs : list pevent) (y : pipe) : Prop :=
  exists name pid policy sz, psteps (pipe_start results ws name pid policy sz t0) evs y.

Lemma pipe_flows results ws t0 evs y :
  pipe_reaches results ws t0 evs y ->
  exists s0, flows results s0 evs y /\ reachable t0 (loop_events evs) (pp_session y) /\
    s_exitCode (pp_session y) = exitCodeFromWaitStatus ws.
Proof.
  intros (name & pid & policy & sz & Hs). set (s0 := startSession name pid (exitCodeFromWaitStatus ws) policy sz t0).
  exists s0. assert (flows results s0 evs y) as Hf.
  { remember (pipe_start results ws name pid policy sz t0) as y0 eqn:Hy0.
    induction Hs as [y|y evs y1 ev y2 Hs IH Hok Hx]; [|by eapply flows_step; [apply IH|..]].
    subst y. split; try done; [constructor|constructor|by intros ?%not_elem_of_nil|by intros []]. }
  split; [done|]. split.
  - exists name, pid, (exitCodeFromWaitStatus ws), policy, sz. apply Hf.
  - by rewrite (steps_exitCode _ _ _ (fl_loop _ _ _ _ Hf)).
Qed.

(** Everything read is accepted, in the channel, held by the stage, or still to be
    received by it. *)
Lemma flows_output results s0 evs y :
  flows results s0 evs y -> s_phase (pp_session y) <> Returned ->
  List.concat (readPTY results) =
    List.concat (accepted (loop_events evs)) ++
    List.concat (ch_buf (pp_out y)) ++ held (pp_gather y) ++ List.concat (pp_reads y).
Proof.
  intros [Hg Hr _ Hd _ _] Hph. destruct (gathers_inv _ _ _ _ Hg gather_start_inv) as (_ & _ & Heq & _).
  specialize (Heq (fun H => Hph (Hd H))). change (held gather_start) with ([] : bytes) in Heq. cbn [app] in Heq.
  rewrite Hr, Heq, List.concat_app, <- !app_assoc. done.
Qed.

(** When the channel is closed and empty, the loop has accepted all. *)
Lemma flows_all results s0 evs y :
  flows results s0 evs y -> s_phase (pp_session y) <> Returned ->
  ch_buf (pp_out y) = [] -> ch_closed (pp_out y) = true ->
  List.concat (readPTY results) = List.concat (accepted (loop_events evs)).
Proof.
  intros Hf Hph Hbuf Hcl. rewrite (flows_output _ _ _ _ Hf Hph), Hbuf. destruct Hf as [Hg _ _ Hd Hc He].
  specialize (Hc Hcl). destruct (He (or_intror Hc)) as [Hr|Hdone]; [|done].
  destruct (gathers_inv _ _ _ _ Hg gather_start_inv) as (_ & _ & _ & Hret).
  assert (gather_events evs <> []) as Hne.
  { intros Hnil. rewrite Hnil in Hg. remember (pp_gather y) as g. inversion Hg; subst; [|by destruct evs0].
    match goal with H : _ = pp_gather y |- _ => rewrite <- H in Hc end. done. }
  rewrite Hr. unfold held. rewrite Hc, Hret; [by rewrite !app_nil_r|by intros H; apply Hph, Hd|exact Hne|done].
Qed.

Lemma flows_bounded results s0 evs y :
  flows results s0 evs y -> Forall (fun b => blen b <= ptyBatchSize) (accepted (loop_events evs)).
Proof.
  intros Hf. destruct (gathers_inv _ _ _ _ (fl_gather _ _ _ _ Hf) gather_start_inv) as (_ & Hall & _).
  by apply list.Forall_app in Hall as [? _].
Qed.

(** What a client is sent fits the wire when its [Attached] does. *)
Lemma delivered_wire_ok (t0 : T) acc miss c :
  delivered t0 acc miss c -> Forall (fun b => blen b <= ptyBatchSize) acc ->
  (forall att, MsgAttached att ∈ stream c -> wire_ok (MsgAttached att)) -> Forall wire_ok (stream c).
Proof.
  intros (att & rest & pre & post & t & Hs & Hup & -> & _ & _ & Ho) Hb Hatt. rewrite Hs in *.
  constructor; [apply Hatt; by left|]. apply updates_wire_ok; [done|].
  apply list.Forall_app in Hb as [_ Hb]. rewrite <- Ho in Hb. by apply list.Forall_app in Hb as [? _].
Qed.
End Pipe.

(** ** Properties *)

(** The [Read] calls on the pty that are made: up to the first that fails, that one
    included. *)
Definition reads_made (results : list (bytes * option error)) : list (bytes * option error) :=
  match list_find (fun r => is_Some (snd r)) results with
  | Some (i, _) => take (S i) results
  | None => results
  end.

(** What the process wrote, as far as the pty gave it: the data of every [Read] made, in
    order, the data that came with the error included. *)
Definition process_output (results : list (bytes * option error)) : bytes :=
  List.concat (map fst (reads_made results)).

Lemma process_output_cons data err rest :
  process_output ((data, err) :: rest) = data ++ match err with Some _ => [] | None => process_output rest end.
Proof.
  unfold process_output, reads_made. destruct err as [e|]; cbn [list_find snd].
  - rewrite decide_True by done. done.
  - rewrite decide_False by (by intros [? ?]).
    by destruct (list_find _ rest) as [[i r]|].
Qed.

(** [readPTY] passes on all of it. *)
Lemma readPTY_output results : List.concat (readPTY results) = process_output results.
Proof.
  induction results as [|[data err] rest IH]; [done|].
  rewrite process_output_cons, <- IH. cbn [readPTY]. rewrite List.concat_app. f_equal; [|by destruct err].
  unfold blen. destruct data as [|b data]; [done|]. apply app_nil_r.
Qed.

Section Output.
Context {T : Type} {HT : Terminal T} (results : list (bytes * option error)) (ws : Z) (t0 : T).
Import Proc ClientAttach Host.


End Output.

(** ** Concrete executions *)

Section Run.
Context {T : Type} {HT : Terminal T}.

Definition pevent_okb (ev : pevent) (y : pipe (T:=T)) : bool :=
  match ev with
  | PGather _ | PLoop (EvPty _) => true
  | PLoop ev => event_okb ev (pp_session y)
  end.

Fixpoint prun (evs : list pevent) (y : pipe (T:=T)) : option pipe :=
  match evs with
  | [] => Some y
  | ev :: evs => if pevent_okb ev y then match pexec ev y with Some y => prun evs y | None => None end else None
  end.

Lemma psteps_cons (y : pipe (T:=T)) ev y1 evs y2 :
  pevent_ok ev y -> pexec ev y = Some y1 -> psteps y1 evs y2 -> psteps y (ev :: evs) y2.
Proof.
  intros Hok Hx. induction 1 as [y1|y1 evs y2 ev' y3 _ IH Hok' Hx'].
  - apply (psteps_snoc y [] y); [constructor|done..].
  - rewrite app_comm_cons. eapply psteps_snoc; [by apply IH|done..].
Qed.

Lemma prun_psteps evs (y y' : pipe (T:=T)) : prun evs y = Some y' -> psteps y evs y'.
Proof.
  revert y. induction evs as [|ev evs IH]; intros y; cbn [prun]; [intros [= ->]; constructor|].
  destruct (pevent_okb ev y) eqn:Hok; [|done]. destruct (pexec ev y) as [y1|] eqn:Hx; [|done]. intros Hr.
  eapply psteps_cons; [|done|by apply IH]. destruct ev as [|[]]; try done; by apply event_okb_ok.
Qed.
End Run.

(** The process of [busy_trace]: three writes, and the exit status 3. *)
Definition ex_results : list (bytes * option error) :=
  [([Byte.x61], None); ([Byte.x62], None); ([Byte.x63], None); ([], Some EOF)].
Definition ex_ws : Z := 768.
Definition ex_pipe0 : pipe :=
  pipe_start ex_results ex_ws "w" 1 ResizePolicySmallest (mkTermSize 80 24 0 0) ([] : list termOp).

Definition ex_events : list pevent :=
  mjoin (map (fun ev => match ev with
                        | EvPty d => [PGather (GRecv d); PGather GSent; PLoop ev]
                        | _ => [PLoop ev]
                        end) busy_trace).
Definition ex_pipe : pipe := default ex_pipe0 (prun ex_events ex_pipe0).
Definition ex_stream : list Message := stream (client_at 0 (pp_session ex_pipe)).

Lemma ex_reaches evs : bool_decide (is_Some (prun evs ex_pipe0)) = true ->
  pipe_reaches ex_results ex_ws [] evs (default ex_pipe0 (prun evs ex_pipe0)).
Proof.
  intros [y Hy]%bool_decide_eq_true. rewrite Hy. exists "w"%string, 1, ResizePolicySmallest, (mkTermSize 80 24 0 0).
  by apply prun_psteps.
Qed.

(** The [Attached] messages of a computed stream fit a frame. *)
Lemma attached_of ms :
  Forall (fun m => match m with MsgAttached _ => wire_ok m | _ => True end) ms ->
  forall att, MsgAttached att ∈ ms -> wire_ok (MsgAttached att).
Proof. intros H att Hin. rewrite list.Forall_forall in H. exact (H _ Hin). Qed.

Ltac attached_ok :=
  apply attached_of;
  match goal with |- Forall _ ?l =>
    let l' := eval vm_compute in l in
    assert (l = l') as -> by (vm_compute; reflexivity)
  end;
  repeat (apply list.Forall_cons_2; [first [exact I|split; [repeat split; by vm_compute|by vm_compute]]|]);
  apply list.Forall_nil_2.

Section Witnesses.
Import Proc ClientAttach Host.


(** The process ends and its first client's writer finishes. *)
Definition ex_end_events : list pevent := ex_events ++ [PGather GReadsClosed].
Definition ex_pipe_end : pipe := default ex_pipe0 (prun ex_end_events ex_pipe0).
Definition ex_pipe_exit : pipe := default ex_pipe0 (pexec (PLoop EvPtyClosed) ex_pipe_end).
Definition writer_rounds (n : nat) : list event :=
  mjoin (replicate n [EvWriterTake 0; EvWriterOk 0]) ++ [EvWriterFinal 0 true].
Definition ex_told : Session (list termOp) :=
  match run_events (writer_rounds 4) (pp_session ex_pipe_exit) with Some s => s | None => pp_session ex_pipe_exit end.
Abbreviation end_bytes := (wire (sc_written (client_at 0 ex_told))).

End Witnesses.
