(* ===== verification/Drain.v ===== *)
(** * Drain: the stages of a session never stall

    Whatever happened before, the stages of [Pipeline.v] (gather stage, run loop, feed
    loop, writers) never all wait for each other, and without new requests they
    come to rest after a bounded number of steps. Two invariants carry it: a
    loop that waits for a writer has been or will be woken by one ([waiting]), and a
    client that left the loop's list has its channel closed ([left_closed]). A writer
    does nothing between taking a message and its signal, so the two are one step,
    as in [SessionLoop.v]: a signal still to come counts as given. *)
From Stdlib Require Import ZArith Lia.
From stdpp Require Import base gmap sets list strings numbers option.
From S2P Require Import Prelude Messages Chan Resize SessionLoop SessionLists SessionInv SessionProps.
From S2P Require Import PtyGather Pipeline.
#[local] Open Scope nat_scope.

Section Drain.
Context {T : Type} {HT : Terminal T}.
Implicit Types s : Session T.

(** ** Waking the loop *)

(** A loop in its [select] with an undelivered chunk has clients it waits for; and
    when no signal is there, each of them still has to take from a full channel,
    which signals. *)
Definition waiting s : Prop :=
  s_phase s = Select ->
  (pendingOutput s <> None -> pendingClients s <> []) /\
  (s_clientReady s = false -> forall p, p ∈ pendingClients s ->
     alive (s_heap s) p = true /\ full (s_heap s) p = true).

Lemma waiting_off s : s_phase s <> Select -> waiting s.
Proof. intros H Hs. by destruct H. Qed.

(** A full client is not offered anything. *)
Lemma offer_full h cs sel m p :
  full h p = true -> offer_heap cs sel m h !! p = h !! p.
Proof.
  intros Hf. unfold offer_heap. rewrite lookup_heap_on, Hf, andb_false_r. by destruct (h !! p).
Qed.

(** What the head of the loop leaves. *)
Lemma loop_head_spec t0 acc s :
  Inv t0 acc s ->
  exists s1, prune s = Val s1 /\ Inv t0 acc s1 /\
  loop_head s = Val (set_s_phase Select
    match pendingOutput s1 with
    | None => s1
    | Some data =>
        settle_output (set_pendingClients
          (base.filter (fun p => alive (s_heap s1) p && full (s_heap s1) p) (pendingClients s1))
          (set_s_heap (offer_heap (pendingClients s1) (alive (s_heap s1)) (MsgOutput (mkOutput data)) (s_heap s1)) s1))
    end).
Proof.
  intros HI. destruct (prune_ok t0 acc s HI) as (s1 & Hp & HI1 & _). exists s1. do 2 (split; [done|]).
  unfold loop_head. rewrite Hp. cbn [go_bind]. destruct (pendingOutput s1); [|done].
  destruct (inv_lists _ _ _ HI1) as (_ & Hnd & Hsub & _).
  rewrite queueOutput_spec; [done|done|]. intros p Hq. eapply clients_ok_all_open; [apply HI1|by apply Hsub].
Qed.

Lemma loop_head_waiting t0 acc s s' : Inv t0 acc s -> loop_head s = Val s' -> waiting s'.
Proof.
  intros HI Hs. destruct (loop_head_spec t0 acc s HI) as (s1 & _ & HI1 & Hs'). rewrite Hs in Hs'.
  injection Hs' as ->. destruct (inv_lists _ _ _ HI1) as (_ & _ & _ & Hpo). intros _.
  destruct (pendingOutput s1) as [d|] eqn:Hd; cbn [s_phase set_s_phase pendingOutput pendingClients s_heap].
  2:{ rewrite Hpo by done. split; [done|]. by intros _ p ?%not_elem_of_nil. }
  set (h := offer_heap _ _ _ _). set (pend := base.filter _ _). unfold settle_output.
  cbn [pendingClients set_pendingClients]. destruct pend as [|q qs] eqn:Hpend; cbn.
  { split; [done|]. by intros _ p ?%not_elem_of_nil. }
  split; [done|]. intros _ p Hp. rewrite <- Hpend in Hp. unfold pend in Hp.
  apply list_elem_of_filter in Hp as [[Ha Hf]%andb_prop_elim _].
  apply Is_true_true in Ha, Hf. unfold alive, full in *. unfold h. rewrite offer_full by exact Hf. done.
Qed.

(** A writer's step wakes the loop, or leaves who is alive and who is full. *)
Lemma writer_step_wakes ev s s' :
  writer_step ev s = Some s' ->
  pendingOutput s' = pendingOutput s /\ pendingClients s' = pendingClients s /\
  (s_clientReady s' = true \/ s_clientReady s' = s_clientReady s /\
    forall p, alive (s_heap s') p = alive (s_heap s) p /\ full (s_heap s') p = full (s_heap s) p).
Proof.
  assert (forall p c c', s_heap s !! p = Some c -> sc_writeDone c' = sc_writeDone c -> sc_outCh c' = sc_outCh c ->
    forall q, alive (<[p:=c']> (s_heap s)) q = alive (s_heap s) q /\ full (<[p:=c']> (s_heap s)) q = full (s_heap s) q) as Hsame.
  { intros p c c' Hp Hw Hc q. unfold alive, full. destruct (decide (p = q)) as [<-|].
    - by rewrite lookup_insert_eq, Hp, Hw, Hc.
    - by rewrite lookup_insert_ne. }
  destruct ev; cbn [writer_step]; try done; unfold writer_take, writer_ok, writer_err, writer_final;
    destruct (s_heap s !! p) as [c|] eqn:Hp; try done; cbn; intros H;
    repeat match type of H with
    | context [match ?x with _ => _ end] => destruct x eqn:?; try discriminate
    end; injection H as <-; (split; [done|]); (split; [done|]); first [by left|right].
  all: split; [done|]; cbn; eapply Hsame; [exact Hp|done|done].
Qed.

(** A request leaves the loop at the head of its [for], or ended. *)
Lemma on_action_phase a s s' r :
  on_action a s = Val (s', r) -> s_phase s' = match a with stopReq => Returned | _ => Top end.
Proof.
  unfold on_action. intros H. apply go_bind_Val in H as (s1 & _ & H).
  destruct a; unfold on_attach, on_detach, on_kick, on_resize, on_clientInfo, on_stop in H;
    repeat first
      [ progress go_inv
      | match type of H with
        | context [match ?x with _ => _ end] => destruct x eqn:?; try discriminate
        end ]; done.
Qed.

Lemma on_pty_data_phase data s s' : on_pty_data data s = Val s' -> s_phase s' = Top.
Proof.
  unfold on_pty_data. intros H. apply go_bind_Val in H as ([pend s1] & _ & H).
  destruct (ptyBatchSize <? blen data)%Z; [done|]. by injection H as <-.
Qed.

Lemma on_pty_closed_phase s s' : on_pty_closed s = Val s' -> s_phase s' = Returned.
Proof. unfold on_pty_closed. intros H. by go_inv. Qed.

(** Every branch of the [select] leaves it. *)
Lemma exec_leaves ev s s' r :
  exec ev s = Some (Val (s', r)) ->
  match ev with
  | EvPty _ | EvPtyClosed | EvFeedSend | EvClientReady | EvAction _ => s_phase s' <> Select
  | _ => True
  end.
Proof.
  destruct ev; try done; cbn [exec]; unfold no_reply; destruct (s_phase s); try done;
    try destruct (pendingFeed s); try done; try destruct (pendingOutput s); try done; intros H.
  all: repeat match type of H with
         | (if ?b then _ else _) = _ => destruct b; [|done]
         end; injection H as H; go_inv.
  all: first [by (erewrite on_action_phase by eassumption; case_match) | by (erewrite on_pty_data_phase by eassumption) | by erewrite on_pty_closed_phase | by subst].
Qed.

Lemma exec_waiting t0 acc ev s s' r :
  good t0 acc s -> waiting s -> exec ev s = Some (Val (s', r)) -> waiting s'.
Proof.
  intros Hg Hw Hx. pose proof (exec_leaves _ _ _ _ Hx) as Hl.
  assert (writer_step ev s = Some s' -> waiting s') as Hwr.
  { intros Hs. destruct (writer_step_frame _ _ _ Hs) as [Hph _].
    destruct (writer_step_wakes _ _ _ Hs) as (Ho & Hp & Hwk). intros Hsel. rewrite Hph in Hsel.
    destruct (Hw Hsel) as [H1 H2]. rewrite Ho, Hp. split; [done|].
    destruct Hwk as [->|[-> Hsame]]; [done|]. intros Hr p Hin. destruct (Hsame p) as [-> ->]. by apply H2. }
  destruct ev; try (by apply waiting_off); try (apply exec_writer in Hx as (s1 & [= -> ->] & Hs); [by apply Hwr|done]);
    cbn [exec] in Hx; unfold no_reply in Hx.
  - destruct (s_phase s) eqn:Hph; [|done..]. injection Hx as Hx. go_inv.
    destruct Hg as [[Hph' _]|[_ HI]]; [congruence|]. by eapply loop_head_waiting.
  - destruct (ch_buf (s_feedCh s)) as [|it items]; [done|]. injection Hx as Hx. go_inv.
    unfold feed_one, close_applied in *. case_decide; [done|]. by simplify_eq.
Qed.

(** ** Clients the loop has left *)

(** A client that is not in the loop's list any more has its channel closed, or its
    writer has finished. *)
Definition listed s : Prop :=
  forall p c, s_heap s !! p = Some c ->
    p ∈ clients s \/ ch_closed (sc_outCh c) = true \/ sc_writeDone c = true.

Definition left_closed s : Prop :=
  forall p c, s_heap s !! p = Some c ->
    p ∈ clients s /\ s_phase s <> Returned \/ ch_closed (sc_outCh c) = true \/ sc_writeDone c = true.

Lemma left_listed s : s_phase s <> Returned -> left_closed s <-> listed s.
Proof. unfold left_closed, listed. naive_solver. Qed.

(** Steps that leave the list and the heap. *)
Lemma listed_same s s' : s_heap s' = s_heap s -> clients s' = clients s -> listed s -> listed s'.
Proof. unfold listed. by intros -> ->. Qed.

(** A change of clients that closes no channel and finishes no writer less. *)
Lemma listed_heap_on sel f s h :
  h = heap_on sel f (s_heap s) ->
  (forall p c, s_heap s !! p = Some c -> sel p = true -> ch_closed (sc_outCh (f c)) = true \/
     p ∈ clients s \/ sc_writeDone (f c) = true) ->
  listed s -> listed (set_s_heap h s).
Proof.
  intros -> Hf Hl p c. cbn. rewrite lookup_heap_on. destruct (s_heap s !! p) as [d|] eqn:Hp; [|done].
  cbn. intros [= <-]. destruct (sel p) eqn:Hs; [|by apply Hl].
  destruct (Hf p d Hp Hs) as [|[]]; auto.
Qed.

Lemma listed_store p c c' s :
  s_heap s !! p = Some c -> sc_writeDone c' = sc_writeDone c ->
  (ch_closed (sc_outCh c) = true -> ch_closed (sc_outCh c') = true) -> listed s -> listed (store p c' s).
Proof.
  intros Hp Hw Hc Hl q d. cbn. destruct (decide (p = q)) as [<-|]; [|rewrite lookup_insert_ne by done; apply Hl].
  rewrite lookup_insert_eq. intros [= <-]. destruct (Hl p c Hp) as [|[]]; rewrite ?Hw; auto.
Qed.

(** A message queued on an open channel. *)
Lemma send_listed p c m ch s :
  s_heap s !! p = Some c -> chan_try_send (sc_outCh c) m = Val (Some ch) -> listed s ->
  listed (store p (set_sc_outCh ch c) s).
Proof.
  intros Hp Hs Hl. apply (listed_store p c); [done|done| |done]. cbn.
  unfold chan_try_send in Hs. by destruct (ch_closed (sc_outCh c)).
Qed.

Lemma offer_all_listed cs m s s' : offer_all cs m s = Val s' -> listed s -> listed s' /\ clients s' = clients s.
Proof.
  revert s. induction cs as [|p cs IH]; intros s H Hl; cbn [offer_all] in H; [by injection H as <-|].
  apply go_bind_Val in H as (c & Hc & H). apply go_bind_Val in H as (r & Hr & H).
  unfold deref in Hc. destruct (s_heap s !! p) as [d|] eqn:Hp; [|done]. injection Hc as ->.
  destruct r as [ch|]; apply IH in H; try done. by eapply send_listed.
Qed.

Lemma notify_listed cs s s' :
  notifyClientsChanged cs s = Val s' -> listed s -> listed s' /\ clients s' = clients s.
Proof. unfold notifyClientsChanged. destruct (Session_size s). apply offer_all_listed. Qed.

Lemma settle_listed s : listed s -> listed (settle_output s).
Proof. unfold settle_output. by destruct (pendingClients s). Qed.

Lemma prune_listed t0 acc s s' : Inv t0 acc s -> prune s = Val s' -> listed s -> listed s'.
Proof.
  intros HI Hs Hl. pose proof (inv_lists _ _ _ HI) as (Hnd & Hpd & _).
  destruct (prune_ok t0 acc s HI) as (s'' & Hs'' & HI' & _). rewrite Hs in Hs''. injection Hs'' as <-.
  unfold prune in Hs. rewrite pruneFinishedClients_spec in Hs; [|done..|eapply clients_ok_all_open, HI].
  cbn [go_bind] in Hs. set (s1 := set_pendingClients _ _) in Hs.
  assert (listed s1) as Hl1.
  { intros p c. cbn. rewrite lookup_heap_on. destruct (s_heap s !! p) as [d|] eqn:Hp; [|done]. cbn.
    unfold finished, alive. intros [= <-]. rewrite Hp. destruct (sc_writeDone d) eqn:Hw.
    { right; right. by destruct (in_list _ _). }
    rewrite andb_false_r. destruct (Hl p d Hp) as [Hin|[]]; [|by auto..]. left.
    apply list_elem_of_filter. by rewrite Hp, Hw. }
  assert (forall x, (let! s := x in Val (settle_output s)) = Val s' -> exists s2, x = Val s2 /\ s' = settle_output s2) as Hset.
  { intros x Hx. go_inv. eauto. }
  apply Hset in Hs as (s2 & Hs & ->). apply settle_listed. destruct (existsb _ _); [|by injection Hs as <-].
  by apply notify_listed in Hs as [? _].
Qed.

Lemma queueOutput_listed cs data s pend s' :
  queueOutput cs data s = Val (pend, s') -> listed s -> listed s' /\ clients s' = clients s.
Proof.
  revert s pend. induction cs as [|p cs IH]; intros s pend H Hl; cbn [queueOutput] in H; [by injection H as _ <-|].
  apply go_bind_Val in H as (c & Hc & H). unfold deref in Hc.
  destruct (s_heap s !! p) as [d|] eqn:Hp; [|done]. injection Hc as ->.
  destruct (sc_writeDone c); [by eapply IH|]. apply go_bind_Val in H as (r & Hr & H).
  destruct r as [ch|].
  - apply IH in H; [done|]. by eapply send_listed.
  - apply go_bind_Val in H as ([pend' s1] & H & Hs). injection Hs as _ <-. by eapply IH.
Qed.

Lemma loop_head_listed t0 acc s s' : Inv t0 acc s -> loop_head s = Val s' -> listed s -> listed s'.
Proof.
  intros HI H Hl. unfold loop_head in H. apply go_bind_Val in H as (s1 & Hp & H).
  pose proof (prune_listed _ _ _ _ HI Hp Hl) as Hl1. apply go_bind_Val in H as (s2 & Hq & H). injection H as <-.
  destruct (pendingOutput s1); [|by injection Hq as <-].
  apply go_bind_Val in Hq as ([pend s3] & Hq & H). injection H as <-.
  apply queueOutput_listed in Hq as [Hl3 _]; [|done]. by apply (settle_listed (set_pendingClients pend s3)).
Qed.

(** Resizes, the feed and the sends on it concern no client. *)
Definition same_clients (x : go (Session T)) s : Prop :=
  forall s', x = Val s' -> (s_heap s' = s_heap s /\ clients s' = clients s) /\
    pendingClients s' = pendingClients s /\ s_clientReady s' = s_clientReady s /\
    (pendingFeed s' = pendingFeed s \/ pendingFeed s' = None).

Lemma arbitrate_same cs s : same_clients (arbitrateResize cs s) s.
Proof.
  intros s' H. unfold arbitrateResize, resize_to_target in H. go_inv. destruct (_ =? _)%nat; go_inv; [by auto 10|].
  destruct (Session_size s). go_inv. case_match; by auto 10.
Qed.

Lemma resizeForPending_same cs sz s : same_clients (resizeForPending cs sz s) s.
Proof.
  intros s' H. unfold resizeForPending, resize_to_target in H. go_inv.
  destruct (Session_size s). go_inv. case_match; by auto 10.
Qed.

Lemma feed_all_same items s : same_clients (feed_all items s) s.
Proof.
  revert s. induction items as [|it items IH]; intros s s' H; cbn [feed_all] in H; [injection H as <-; by auto 10|].
  apply go_bind_Val in H as (s1 & H1 & H). apply IH in H as ([-> ->] & -> & -> & Hf). unfold feed_one, close_applied in H1.
  case_decide; [done|]. injection H1 as <-. by auto 10.
Qed.

Lemma waitFeedApplied_same last s : same_clients (waitFeedApplied last s) s.
Proof.
  intros s' H. unfold waitFeedApplied, drain in H. destruct last; [|injection H as <-; by auto 10]. go_inv.
  case_decide; [|done]. go_inv. by eapply (feed_all_same _ (set_s_feedCh _ s)).
Qed.

Lemma push_pending_same s : same_clients (push_pending s) s.
Proof.
  intros s' H. unfold push_pending in H. destruct (pendingFeed s) eqn:Hpf; [|injection H as <-; by rewrite Hpf; auto 10]. go_inv. cbn.
  enough (same_clients (Val a) s) as Hs by (destruct (Hs _ eq_refl) as (? & ? & ? & _); by auto 10).
  case_match; [simplify_eq; intros ? [= <-]; by auto 10|]. intros ? [= <-]. by eapply (feed_all_same _ (set_s_feedCh _ s)).
Qed.

Lemma close_feed_same s : same_clients (close_feed s) s.
Proof.
  intros s' H. unfold close_feed, drain in H. go_inv. cbn.
  by eapply (feed_all_same _ (set_s_feedCh _ (set_s_feedCh _ s))).
Qed.

Lemma same_listed x s s' : same_clients x s -> x = Val s' -> listed s -> listed s'.
Proof. intros Hx H. destruct (Hx _ H) as [[] _]. by apply listed_same. Qed.

Lemma close_out_spec p s s' :
  close_out p s = Val s' ->
  exists c, s_heap s !! p = Some c /\ s' = store p (closed c) s.
Proof.
  unfold close_out, deref, chan_close. intros H. destruct (s_heap s !! p) as [c|]; [|done]. cbn in H.
  destruct (ch_closed (sc_outCh c)); [done|]. injection H as <-. by exists c.
Qed.

Lemma removeClient_keeps cs p q : q ∈ cs -> q <> p -> q ∈ removeClient cs p.
Proof.
  intros Hq Hn. induction cs as [|x cs IH]; [done|]. cbn [removeClient].
  apply elem_of_cons in Hq as [->|Hq]; destruct (Nat.eqb_spec x p); try done; [by left|right; by apply IH].
Qed.

Lemma drop_listed p s s' : drop_client p s = Val s' -> listed s -> listed s'.
Proof.
  unfold drop_client. intros H Hl. apply close_out_spec in H as (c & Hc & ->).
  rewrite settle_heap in Hc. intros q d. cbn. rewrite settle_heap.
  destruct (decide (p = q)) as [<-|Hn]; [rewrite lookup_insert_eq; intros [= <-]; by right; left|].
  rewrite lookup_insert_ne by done. intros Hq. destruct (Hl q d Hq) as [Hin|[]]; auto. left.
  unfold settle_output. by case_match; apply removeClient_keeps.
Qed.

(** After the clients changed: the size and the others are told. *)
Lemma rearrange_listed s s1 s2 :
  arbitrateResize (clients s) s = Val s1 -> notifyClientsChanged (clients s1) s1 = Val s2 ->
  listed s -> listed (set_s_phase Top s2).
Proof.
  intros H1 H2 Hl. apply notify_listed in H2 as [? _]; [done|]. eapply same_listed; [apply arbitrate_same|done..].
Qed.

Lemma on_attach_listed spec s s' r : on_attach spec s = Val (s', r) -> listed s -> listed s'.
Proof.
  unfold on_attach. intros H Hl.
  apply go_bind_Val in H as (s1 & H1 & H). apply go_bind_Val in H as (s2 & H2 & H).
  apply go_bind_Val in H as (s3 & H3 & H).
  assert (listed s3) as Hl3.
  { eapply same_listed; [apply waitFeedApplied_same|exact H3|].
    eapply same_listed; [apply push_pending_same|exact H2|].
    destruct (as_readOnly spec); [by injection H1 as <-|].
    eapply same_listed; [apply resizeForPending_same|exact H1|done]. }
  clear H1 H2 H3. destruct (term_dumpVTFull (s_term s3)) as [dump|e]; [|by injection H as <- _].
  destruct (Session_size _) as [c0 r0]. apply go_bind_Val in H as (ch & _ & H).
  set (s4 := set_clients _ _) in H.
  assert (listed s4) as Hl4.
  { intros q d. unfold s4. cbn. destruct (decide (s_nextPtr s3 = q)) as [<-|Hn].
    - intros _. left. apply elem_of_app. right. by apply list_elem_of_singleton.
    - rewrite lookup_insert_ne by done. intros Hq. destruct (Hl3 q d Hq) as [|[]]; auto.
      left. apply elem_of_app. by left. }
  apply go_bind_Val in H as (s5 & H5 & H). apply go_bind_Val in H as (s6 & H6 & H). injection H as <- _.
  apply notify_listed in H6 as [? _]; [done|].
  destruct (as_readOnly spec); [by injection H5 as <-|]. eapply same_listed; [apply arbitrate_same|exact H5|done].
Qed.

Lemma on_stop_phase s s' r : on_stop s = Val (s', r) -> s_phase s' = Returned.
Proof. unfold on_stop. intros H. apply go_bind_Val in H as (s1 & _ & H). by go_inv. Qed.

Lemma on_action_listed t0 acc a s s' r :
  Inv t0 acc s -> on_action a s = Val (s', r) -> a <> stopReq -> listed s -> listed s'.
Proof.
  intros HI H Ha Hl. unfold on_action in H. apply go_bind_Val in H as (s1 & Hp & H).
  pose proof (prune_listed _ _ _ _ HI Hp Hl) as Hl1. clear HI Hp Hl. destruct a as [spec|p|p sz|id| |]; try done.
  - by apply on_attach_listed in H.
  - unfold on_detach in H. case_match; [by injection H as <- _|]. go_inv.
    match goal with H : drop_client _ _ = Val ?x |- _ => assert (listed x) by (by apply drop_listed in H) end.
    eapply (rearrange_listed); [| |done]; done.
  - unfold on_resize in H. apply go_bind_Val in H as (c & Hc & H). go_inv. unfold deref in Hc.
    destruct (s_heap s1 !! p) eqn:Hp; [|done]. injection Hc as ->.
    match goal with H : _ = Val ?a |- _ => change (listed a); eapply same_listed; [apply arbitrate_same|exact H|] end.
    by apply (listed_store p c).
  - unfold on_kick in H. apply go_bind_Val in H as ([p|] & _ & H); [|by injection H as <- _].
    apply go_bind_Val in H as (s2 & H2 & H). apply go_bind_Val in H as (s3 & H3 & H). go_inv.
    apply drop_listed in H2; [|done]. unfold close_conn, deref in H3.
    destruct (s_heap s2 !! p) as [c|] eqn:Hp; [|done]. injection H3 as <-.
    eapply rearrange_listed; [done..|]. by apply (listed_store p c).
  - unfold on_clientInfo in H. by go_inv.
Qed.

(** When the loop returns, it has closed the channels of all its clients. *)
Lemma returned_left s s' f :
  clients s' = clients s -> s_heap s' = heap_on (in_list (clients s)) f (s_heap s) ->
  (forall c, ch_closed (sc_outCh (f c)) = true) -> listed s -> left_closed s'.
Proof.
  intros Hc Hh Hf Hl p c. rewrite Hh, lookup_heap_on. destruct (s_heap s !! p) as [d|] eqn:Hp; [|done]. cbn.
  unfold in_list. case_bool_decide as Hin; intros [= <-]; [by right; left|]. destruct (Hl p d Hp); [done|by right].
Qed.

(** A writer closes no channel and never starts again. *)
Lemma writer_step_left ev s s' :
  writer_step ev s = Some s' ->
  clients s' = clients s /\ forall p c', s_heap s' !! p = Some c' -> exists c, s_heap s !! p = Some c /\
    (ch_closed (sc_outCh c) = true -> ch_closed (sc_outCh c') = true) /\
    (sc_writeDone c = true -> sc_writeDone c' = true).
Proof.
  intros Hs. assert (forall p c c1, s_heap s !! p = Some c ->
    (ch_closed (sc_outCh c) = true -> ch_closed (sc_outCh c1) = true) ->
    (sc_writeDone c = true -> sc_writeDone c1 = true) ->
    forall q c', <[p:=c1]> (s_heap s) !! q = Some c' -> exists c, s_heap s !! q = Some c /\
      (ch_closed (sc_outCh c) = true -> ch_closed (sc_outCh c') = true) /\
      (sc_writeDone c = true -> sc_writeDone c' = true)) as Hst.
  { intros p c c1 Hp H1 H2 q c'. destruct (decide (p = q)) as [<-|]; [|rewrite lookup_insert_ne by done; eauto].
    rewrite lookup_insert_eq. intros [= <-]. eauto. }
  destruct ev; cbn [writer_step] in Hs; try done; unfold writer_take, writer_ok, writer_err, writer_final in Hs;
    destruct (s_heap s !! p) as [c|] eqn:Hp; try done; cbn in Hs;
    repeat match type of Hs with
    | context [match ?x with _ => _ end] => destruct x eqn:?; try discriminate
    end; injection Hs as <-; (split; [done|]); cbn; by apply (Hst p c).
Qed.

Lemma writer_left ev s s' : left_closed s -> writer_step ev s = Some s' -> left_closed s'.
Proof.
  intros Hl Hs. destruct (writer_step_frame _ _ _ Hs) as [Hph _]. destruct (writer_step_left _ _ _ Hs) as [Hc Hsame].
  intros p c' Hp. destruct (Hsame p c' Hp) as (c & Hc0 & H1 & H2). rewrite Hc, Hph.
  destruct (Hl p c Hc0) as [|[]]; auto.
Qed.

Lemma exec_left t0 acc ev s s' r :
  good t0 acc s -> left_closed s -> exec ev s = Some (Val (s', r)) -> left_closed s'.
Proof.
  intros Hg Hl Hx.
  assert (s_phase s <> Returned -> Inv t0 acc s /\ listed s) as Hrun.
  { intros Hph. split; [by destruct Hg as [[]|[]]|]. by apply left_listed. }
  assert (s_phase s' <> Returned -> listed s' -> left_closed s') as Hend by (intros; by apply left_listed).
  destruct ev; try (apply exec_writer in Hx as (s1 & [= -> ->] & Hs); [by eapply writer_left|done]);
    cbn [exec] in Hx; unfold no_reply in Hx;
    try (destruct (s_phase s) eqn:Hph; try done; destruct (Hrun ltac:(done)) as [HI Hls]).
  - injection Hx as Hx. apply go_bind_Val in Hx as (s1 & Hx & He). injection He as -> _.
    pose proof (loop_head_listed _ _ _ _ HI Hx Hls) as Hl1. apply Hend; [|done].
    unfold loop_head in Hx. apply go_bind_Val in Hx as (s2 & _ & Hx). by go_inv.
  - destruct (pendingFeed s); [done|]. destruct (pendingOutput s); [done|]. injection Hx as Hx.
    apply go_bind_Val in Hx as (s1 & Hx & He). injection He as -> _. unfold on_pty_data in Hx.
    apply go_bind_Val in Hx as ([pend s1] & Hq & Hx). apply queueOutput_listed in Hq as [Hl1 _]; [|done].
    destruct (ptyBatchSize <? blen data)%Z; [done|]. injection Hx as <-. apply Hend; [done|]. by case_match.
  - destruct (pendingFeed s) eqn:Hpf; [done|]. destruct (pendingOutput s); [done|]. injection Hx as Hx.
    apply go_bind_Val in Hx as (s1 & Hx & He). injection He as -> _.
    destruct (on_pty_closed_spec _ _ _ HI Hpf) as (s1 & Hs1 & _ & _ & _ & Hc & Hh).
    rewrite Hx in Hs1. injection Hs1 as ->. by eapply returned_left.
  - destruct (pendingFeed s); [|done]. destruct (_ <? _)%nat; [|done]. injection Hx as Hx. go_inv. by apply Hend.
  - destruct (pendingOutput s); [|done]. destruct (s_clientReady s); [|done]. injection Hx as <- _. by apply Hend.
  - injection Hx as Hx. pose proof (on_action_phase _ _ _ _ Hx) as Hph'.
    assert (a <> stopReq -> left_closed s') as Hgo.
    { intros Ha. apply Hend; [by destruct a; rewrite Hph'|]. by eapply on_action_listed. }
    destruct a; try by apply Hgo. unfold on_action in Hx. apply go_bind_Val in Hx as (s1 & Hp & Hx).
    pose proof (prune_listed _ _ _ _ HI Hp Hls) as Hl1.
    destruct (prune_ok _ _ _ HI) as (s1' & Hp' & HI1 & _). rewrite Hp in Hp'. injection Hp' as <-.
    destruct (on_stop_spec _ _ _ HI1) as (s2 & Hs2 & _ & _ & _ & Hc & Hh).
    rewrite Hx in Hs2. injection Hs2 as -> _. by eapply returned_left.
  - destruct (ch_buf (s_feedCh s)) as [|it items]; [done|]. injection Hx as Hx. go_inv.
    unfold feed_one, close_applied in *. case_decide; [done|]. by simplify_eq.
Qed.

(** ** The work that is left

    Each message a writer has to take counts 6 (to take it, to write it, and the two
    steps of the loop the signal may cause); a listed client counts enough for
    the messages its end causes at the others; a chunk of output counts for the
    messages it becomes. *)
Definition client_work (c : sessionClient) : nat :=
  (if sc_writeDone c then 0 else 3 + 6 * length (ch_buf (sc_outCh c))) +
  3 * length (option_list (sc_inflight c)).

Definition work_at (h : heap) (p : nat) : nat := from_option client_work 0 (h !! p).
Definition heap_work (h : heap) : nat := sum_list_with (work_at h) (elements (dom h)).

#[local] Arguments heap_work : simpl never.
#[local] Arguments Nat.mul : simpl never.

Definition phase_work (ph : phase) : nat := match ph with Top => 2 | Select => 1 | Returned => 0 end.

Definition clients_work s : nat :=
  heap_work (s_heap s) + 6 * (length (clients s) * length (clients s)) +
  6 * length (pendingClients s).

Definition session_work s : nat :=
  clients_work s + 3 * length (option_list (pendingFeed s)) +
  length (ch_buf (s_feedCh s)) + (if s_clientReady s then 2 else 0) + phase_work (s_phase s).

Definition chunk_work s : nat := 6 * length (clients s) + 6.

Definition reads_work (reads : list bytes) : nat := sum_list_with (fun d => 4 * length d + 4) reads.

Definition pipe_work (y : pipe (T:=T)) : nat :=
  S (chunk_work (pp_session y)) * (gather_measure (pp_gather y) + reads_work (pp_reads y)) +
  chunk_work (pp_session y) * length (ch_buf (pp_out y)) + session_work (pp_session y).

(** *** Sums over the heap *)

Lemma sum_le (f g : nat -> nat) (cs l : list nat) :
  NoDup l -> (forall p, g p <= f p + (if in_list cs p then 6 else 0)) ->
  sum_list_with g l <= sum_list_with f l + 6 * length cs.
Proof.
  intros Hnd H. assert (sum_list_with g l <= sum_list_with f l + 6 * length (base.filter (fun p => p ∈ cs) l)) as Hle.
  { clear Hnd. induction l as [|p l IH]; cbn [sum_list_with]; [lia|]. rewrite filter_cons. specialize (H p). unfold in_list in H.
    case_bool_decide; destruct (decide (p ∈ cs)); try done; cbn [length]; lia. }
  enough (length (base.filter (fun p => p ∈ cs) l) <= length cs) by lia.
  apply submseteq_length, NoDup_submseteq; [by apply list.NoDup_filter|]. by intros p [? _]%list_elem_of_filter.
Qed.

Lemma heap_work_le h h' cs :
  dom h' = dom h -> (forall p, work_at h' p <= work_at h p + (if in_list cs p then 6 else 0)) ->
  heap_work h' <= heap_work h + 6 * length cs.
Proof. unfold heap_work. intros ->. apply sum_le, NoDup_elements. Qed.

Lemma sum_store (f g : nat -> nat) p l :
  NoDup l -> p ∈ l -> (forall q, q <> p -> g q = f q) ->
  sum_list_with g l + f p = sum_list_with f l + g p.
Proof.
  intros Hnd Hp H. induction Hnd as [|q l Hq Hnd IH]; [by apply not_elem_of_nil in Hp|]. cbn.
  apply elem_of_cons in Hp as [<-|Hp].
  - enough (sum_list_with g l = sum_list_with f l) by lia. clear IH Hnd.
    induction l as [|x l IH]; [done|]. cbn. apply not_elem_of_cons in Hq as [Hx Hq]. rewrite H by done. by rewrite IH.
  - rewrite (H q) by (by intros ->). specialize (IH Hp). lia.
Qed.

Lemma heap_work_store h p c c' :
  h !! p = Some c -> heap_work (<[p:=c']> h) + client_work c = heap_work h + client_work c'.
Proof.
  intros Hc. assert (work_at h p = client_work c) as H1 by (unfold work_at; by rewrite Hc).
  assert (work_at (<[p:=c']> h) p = client_work c') as H2 by (unfold work_at; by rewrite lookup_insert_eq).
  unfold heap_work. rewrite dom_insert_lookup_L by done.
  rewrite <- H1, <- H2. apply sum_store; [apply NoDup_elements|by apply elem_of_elements, elem_of_dom|].
  intros q Hq. unfold work_at. by rewrite lookup_insert_ne.
Qed.

Lemma dom_heap_on sel f h : dom (heap_on sel f h) = dom h.
Proof. apply set_eq. intros p. rewrite !elem_of_dom. apply heap_on_dom. Qed.

(** An offered message costs 6 where it is queued. *)
Lemma offer_work h cs sel m p :
  work_at (offer_heap cs sel m h) p <=
  work_at h p + (if in_list cs p && sel p && negb (full h p) then 6 else 0).
Proof.
  unfold work_at, offer_heap. rewrite lookup_heap_on. destruct (h !! p) as [c|]; cbn; [|lia].
  destruct (_ && _); [|lia]. unfold client_work, push. cbn. rewrite length_app. cbn. destruct (sc_writeDone c); lia.
Qed.

(** *** The work of the steps of the loop *)

(** What a step on the clients leaves alone. *)
Definition only_clients s s' : Prop :=
  pendingFeed s' = pendingFeed s /\ s_feedCh s' = s_feedCh s /\
  s_clientReady s' = s_clientReady s /\ s_phase s' = s_phase s.

Lemma settle_work s :
  clients_work (settle_output s) = clients_work s /\ clients (settle_output s) = clients s /\
  only_clients s (settle_output s).
Proof. unfold settle_output, only_clients. by destruct (pendingClients s). Qed.

Lemma filter_lt (f : nat -> bool) l :
  existsb (fun p => negb (f p)) l = true -> length (base.filter (fun p => f p) l) < length l.
Proof.
  induction l as [|p l IH]; [done|]. cbn [existsb]. rewrite filter_cons. destruct (f p); cbn [negb orb].
  - rewrite decide_True by done. cbn [length]. intros H%IH. lia.
  - rewrite decide_False by auto. intros _. pose proof (length_filter (fun p => f p) l). cbn [length]. lia.
Qed.

Lemma heap_work_heap_on sel f h :
  (forall c, client_work (f c) = client_work c) -> heap_work (heap_on sel f h) = heap_work h.
Proof.
  intros Hf. unfold heap_work. rewrite dom_heap_on. induction (elements (dom h)) as [|p l IH]; [done|]. cbn. rewrite IH. f_equal.
  unfold work_at. rewrite lookup_heap_on. destruct (h !! p) as [c|]; cbn; [|done]. destruct (sel p); [by rewrite Hf|done].
Qed.

Lemma offer_all_work h cs sel m : heap_work (offer_heap cs sel m h) <= heap_work h + 6 * length cs.
Proof.
  apply heap_work_le; [apply dom_heap_on|]. intros p. pose proof (offer_work h cs sel m p). destruct (in_list cs p); cbn in *; [|lia].
  destruct (sel p && negb (full h p)); lia.
Qed.

Lemma prune_work t0 acc s s1 :
  Inv t0 acc s -> prune s = Val s1 ->
  clients_work s1 <= clients_work s /\ length (clients s1) <= length (clients s) /\ only_clients s s1.
Proof.
  intros HI H. pose proof (inv_lists _ _ _ HI) as (Hnd & Hpd & _).
  pose proof (clients_ok_all_open _ _ _ _ _ _ (inv_clients _ _ _ HI)) as Hopen.
  unfold prune in H. rewrite pruneFinishedClients_spec in H; [|done..].
  cbn [go_bind] in H. set (kept := base.filter (fun p => alive _ p) _) in H.
  set (pend := base.filter _ (pendingClients s)) in H. set (h := heap_on _ _ _) in H.
  set (s2 := set_pendingClients _ _) in H.
  assert (heap_work h = heap_work (s_heap s)) as Hh by (by apply heap_work_heap_on).
  assert (length pend <= length (pendingClients s)) as Hpend by apply length_filter.
  destruct (existsb _ _) eqn:Hex.
  - rewrite notifyClientsChanged_spec in H; [|by apply list.NoDup_filter|].
    + cbn [go_bind] in H. injection H as <-. 
      match goal with |- context [settle_output ?x] => destruct (settle_work x) as (Hw & Hc & Ho) end.
      rewrite Hw, Hc. split; [|split; [apply length_filter|exact Ho]].
      apply filter_lt in Hex. fold kept in Hex.
      pose proof (offer_all_work h kept (fun _ => true) (changed_msg (clients s2) s2)) as Hof.
      change (clients s2) with kept in Hof. set (h' := offer_heap _ _ _ _) in *. unfold clients_work.
      change (s_heap (set_s_heap h' s2)) with h'.
      change (clients (set_s_heap h' s2)) with kept. change (pendingClients (set_s_heap h' s2)) with pend.
      clear - Hex Hh Hpend Hof. nia.
    + intros p Hp. apply list_elem_of_filter in Hp as [Ha Hp]. destruct (Hopen p Hp) as (c & Hc & Hco).
      exists c. split; [|done]. cbn. unfold h. rewrite lookup_heap_on, Hc. unfold finished.
      apply Is_true_true in Ha. rewrite Ha, andb_false_r. done.
  - cbn [go_bind] in H. injection H as <-. destruct (settle_work s2) as (Hw & Hc & Ho). rewrite Hw, Hc.
    split; [|split; [apply length_filter|exact Ho]]. unfold clients_work.
    change (s_heap s2) with h.
    change (clients s2) with kept. change (pendingClients s2) with pend.
    assert (length kept <= length (clients s)) as Hk by apply length_filter. clear - Hk Hh Hpend. nia.
Qed.

(** Queueing output: each client either gets the message or becomes pending, at most. *)
Lemma queue_work h cs m :
  heap_work (offer_heap cs (alive h) m h) + 6 * length (base.filter (fun p => alive h p && full h p) cs) <=
  heap_work h + 6 * length cs.
Proof.
  set (P := fun p => alive h p && full h p).
  assert (length (base.filter (fun p => P p) cs) + length (base.filter (fun p => negb (P p)) cs) = length cs) as Hlen.
  { induction cs as [|p cs IH]; [done|]. rewrite !filter_cons. destruct (P p); cbn [negb];
      [rewrite decide_True, decide_False by auto|rewrite decide_False, decide_True by auto]; cbn [length]; lia. }
  change (base.filter (fun p => alive h p && full h p) cs) with (base.filter (fun p => P p) cs).
  enough (heap_work (offer_heap cs (alive h) m h) <= heap_work h + 6 * length (base.filter (fun p => negb (P p)) cs))
    by lia.
  apply heap_work_le; [apply dom_heap_on|]. intros p. pose proof (offer_work h cs (alive h) m p) as Ho.
  destruct (in_list cs p && alive h p && negb (full h p)) eqn:E; [|lia].
  rewrite in_list_true; [done|]. apply list_elem_of_filter. unfold P.
  apply andb_true_iff in E as [[Hin Ha]%andb_true_iff Hf]. apply bool_decide_eq_true in Hin.
  split; [|done]. rewrite Ha. by destruct (full h p).
Qed.

Lemma loop_head_work t0 acc s s' :
  Inv t0 acc s -> loop_head s = Val s' ->
  clients_work s' <= clients_work s /\ length (clients s') <= length (clients s) /\
  pendingFeed s' = pendingFeed s /\ s_feedCh s' = s_feedCh s /\
  s_clientReady s' = s_clientReady s /\ s_phase s' = Select.
Proof.
  intros HI H. destruct (loop_head_spec t0 acc s HI) as (s1 & Hp & HI1 & Hs). rewrite H in Hs. injection Hs as ->.
  destruct (prune_work _ _ _ _ HI Hp) as (Hw & Hc & Ho1 & Ho2 & Ho3 & _).
  destruct (pendingOutput s1) as [d|]; [|done].
  match goal with |- context [settle_output ?x] =>
    destruct (settle_work x) as (Hw2 & Hc2 & Hs1 & Hs2 & Hs3 & _); set (s2 := x) in * end.
  assert (clients_work s2 <= clients_work s1) as Hle.
  { unfold clients_work, s2. cbn [s_heap clients pendingClients set_pendingClients set_s_heap].
    pose proof (queue_work (s_heap s1) (pendingClients s1) (MsgOutput (mkOutput d))). lia. }
  change (clients_work (set_s_phase Select (settle_output s2))) with (clients_work (settle_output s2)).
  split; [lia|]. cbn. rewrite Hc2, Hs1, Hs2, Hs3. done.
Qed.

Lemma on_pty_data_work t0 acc data s s' :
  Inv t0 acc s -> pendingOutput s = None -> on_pty_data data s = Val s' ->
  clients_work s' <= clients_work s + 6 * length (clients s) /\ clients s' = clients s /\
  s_feedCh s' = s_feedCh s /\ s_clientReady s' = s_clientReady s /\ s_phase s' = Top /\
  length (option_list (pendingFeed s')) = 1.
Proof.
  intros HI Hpo H. pose proof (inv_lists _ _ _ HI) as (Hnd & _ & _ & Hp). specialize (Hp Hpo).
  unfold on_pty_data in H. rewrite queueOutput_spec in H; [|done|eapply clients_ok_all_open, HI].
  cbn [go_bind] in H. destruct (ptyBatchSize <? blen data)%Z; [done|]. injection H as <-.
  pose proof (queue_work (s_heap s) (clients s) (MsgOutput (mkOutput data))).
  destruct (base.filter _ _) eqn:Hf; unfold clients_work in *; rewrite Hp; cbn in *; (split; [lia|done]).
Qed.

Lemma client_work_finish m c : client_work (finish m c) = client_work c.
Proof. done. Qed.

Lemma on_pty_closed_work t0 acc s s' :
  Inv t0 acc s -> pendingFeed s = None -> on_pty_closed s = Val s' ->
  clients_work s' = clients_work s /\ clients s' = clients s /\ ch_buf (s_feedCh s') = [] /\
  s_clientReady s' = s_clientReady s /\ s_phase s' = Returned /\ pendingFeed s' = None.
Proof.
  intros HI Hpf H. destruct (on_pty_closed_spec t0 acc s HI Hpf) as (s0 & Hs0 & Hph & _ & Hb & Hc & Hh).
  rewrite H in Hs0. injection Hs0 as <-.
  assert (pendingClients s' = pendingClients s /\ s_clientReady s' = s_clientReady s /\
    pendingFeed s' = None) as (Hp & Hr & Hf).
  { unfold on_pty_closed in H. destruct (waitFeedApplied_ok t0 acc s HI Hpf) as (s1 & H1 & HI1 & _).
    rewrite H1 in H. cbn [go_bind] in H. apply waitFeedApplied_same in H1 as ([Hh1 Hc1] & Hp1 & Hr1 & Hf1).
    destruct (close_feed_ok t0 acc s1 HI1) as (s2 & H2 & _). rewrite H2 in H. cbn [go_bind] in H.
    apply close_feed_same in H2 as ([Hh2 Hc2] & Hp2 & Hr2 & Hf2).
    rewrite finish_clients_spec in H; [|rewrite Hc2; apply (inv_lists _ _ _ HI1)|
      rewrite Hc2, Hh2; eapply clients_ok_all_open, HI1].
    injection H as <-. cbn. rewrite Hp2, Hr2, Hp1, Hr1. repeat (split; [done|]).
    rewrite Hpf in Hf1. destruct Hf1 as [Hf1|Hf1], Hf2 as [Hf2|Hf2]; congruence. }
  split; [|done]. unfold clients_work. rewrite Hp, Hc, Hh. by rewrite heap_work_heap_on.
Qed.

(** *** Every step of its own lessens the work *)

(** Steps that are not requests from outside, nor a connection's end. *)
Definition own_event (ev : event) : Prop :=
  match ev with EvAction _ | EvConnClosed _ => False | _ => True end.

Lemma writer_work ev s s' :
  own_event ev -> writer_step ev s = Some s' ->
  clients s' = clients s /\ session_work s' < session_work s.
Proof.
  intros Ho Hs.
  assert (forall p c c' b, s_heap s !! p = Some c ->
    client_work c' + (if b : bool then 2 else 0) < client_work c + (if s_clientReady s then 2 else 0) ->
    session_work (set_s_clientReady b (store p c' s)) < session_work s) as Hst.
  { intros p c c' b Hc Hlt. unfold session_work, clients_work. cbn.
    pose proof (heap_work_store (s_heap s) p c c' Hc). lia. }
  destruct ev; cbn [writer_step] in Hs; try done; unfold writer_take, writer_ok, writer_err, writer_final, writer_exit in Hs;
    destruct (s_heap s !! p) as [c|] eqn:Hp; try done; cbn in Hs.
  - destruct (sc_writeDone c) eqn:Hw; [done|]. destruct (sc_inflight c) eqn:Hi; [done|].
    destruct (ch_buf (sc_outCh c)) as [|m ms] eqn:Hb; [done|]. injection Hs as <-. split; [done|].
    apply (Hst p c); [done|]. unfold client_work. cbn. rewrite Hw, Hi, Hb. cbn. lia.
  - destruct (sc_inflight c) as [m|] eqn:Hi; [|done]. destruct (sc_connClosed c); [done|]. injection Hs as <-.
    split; [done|].
    match goal with |- session_work (store p ?c' s) < _ =>
      change (store p c' s) with (set_s_clientReady (s_clientReady s) (store p c' s)) end.
    apply (Hst p c); [done|]. unfold client_work. cbn. rewrite Hi. cbn. lia.
  - destruct (sc_inflight c) as [m|] eqn:Hi; [|done]. injection Hs as <-. split; [done|].
    apply (Hst p c); [done|]. unfold client_work. cbn. rewrite Hi. cbn. lia.
  - destruct (sc_writeDone c) eqn:Hw; [done|]. destruct (sc_inflight c) eqn:Hi; [done|].
    destruct (ch_buf (sc_outCh c)) eqn:Hb; [|done]. destruct (ch_closed (sc_outCh c)); [|done].
    assert (forall c', sc_inflight c' = None -> session_work (set_s_clientReady true
      (store p (set_sc_writeDone true c') s)) < session_work s) as Hfin.
    { intros c' Hc'. apply (Hst p c); [done|]. unfold client_work. cbn. rewrite Hw, Hi, Hb, Hc'. cbn. lia. }
    destruct (sc_final c); [destruct ok; [destruct (sc_connClosed c); [done|]|]|]; injection Hs as <-;
      (split; [done|]); by apply Hfin.
Qed.

Lemma exec_work t0 acc ev s s' r :
  good t0 acc s -> own_event ev -> exec ev s = Some (Val (s', r)) ->
  length (clients s') <= length (clients s) /\
  session_work s' < session_work s + match ev with EvPty _ => chunk_work s | _ => 0 end.
Proof.
  intros Hg Hi Hx.
  assert (own_event ev -> writer_step ev s = Some s' -> length (clients s') <= length (clients s) /\
    session_work s' < session_work s) as Hwr.
  { intros Ho Hs. destruct (writer_work ev s s' Ho Hs) as [-> ?]. done. }
  assert (s_phase s <> Returned -> Inv t0 acc s) as Hrun by (intros; by destruct Hg as [[]|[]]).
  destruct ev; try done; try (apply exec_writer in Hx as (s1 & [= -> ->] & Hs); [|done]; rewrite Nat.add_0_r; by apply Hwr);
    cbn [exec] in Hx; unfold no_reply in Hx;
    try (destruct (s_phase s) eqn:Hph; try done; pose proof (Hrun ltac:(done)) as HI).
  - injection Hx as Hx. apply go_bind_Val in Hx as (s1 & Hx & He). injection He as -> _.
    destruct (loop_head_work _ _ _ _ HI Hx) as (Hw & Hc & Hf & Hch & Hr & Hp). split; [done|].
    unfold session_work. rewrite Hf, Hch, Hr, Hp, Hph. cbn [phase_work]. lia.
  - destruct (pendingFeed s) eqn:Hpf; [done|]. destruct (pendingOutput s) eqn:Hpo; [done|]. injection Hx as Hx.
    apply go_bind_Val in Hx as (s1 & Hx & He). injection He as -> _.
    destruct (on_pty_data_work _ _ _ _ _ HI Hpo Hx) as (Hw & Hc & Hch & Hr & Hp & Hf). rewrite Hc. split; [done|].
    unfold session_work, chunk_work. rewrite Hf, Hch, Hr, Hp, Hph, Hpf. cbn. lia.
  - destruct (pendingFeed s) eqn:Hpf; [done|]. destruct (pendingOutput s) eqn:Hpo; [done|]. injection Hx as Hx.
    apply go_bind_Val in Hx as (s1 & Hx & He). injection He as -> _.
    destruct (on_pty_closed_work _ _ _ _ HI Hpf Hx) as (Hw & Hc & Hch & Hr & Hp & Hf). rewrite Hc. split; [done|].
    unfold session_work. rewrite Hw, Hf, Hch, Hr, Hp, Hph. cbn. lia.
  - destruct (pendingFeed s) eqn:Hpf; [|done]. destruct (_ <? _)%nat; [|done]. injection Hx as Hx. go_inv.
    match goal with H : chan_send _ _ = Val _ |- _ => unfold chan_send, chan_try_send in H;
      repeat (case_match; try done; []); cbn in H end. simplify_eq. split; [done|].
    unfold session_work, clients_work. cbn. rewrite Hpf, Hph, length_app. cbn. lia.
  - destruct (pendingOutput s); [|done]. destruct (s_clientReady s) eqn:Hr; [|done]. injection Hx as <- _.
    split; [done|]. unfold session_work, clients_work. cbn. rewrite Hr, Hph. cbn. lia.
  - destruct (ch_buf (s_feedCh s)) as [|it items] eqn:Hb; [done|]. injection Hx as Hx. go_inv.
    unfold feed_one, close_applied in *. case_decide; [done|]. simplify_eq. split; [done|].
    unfold session_work, clients_work. cbn. rewrite Hb. cbn. lia.
Qed.

(** *** The work of the stages *)

Definition own_step (ev : pevent) : Prop :=
  match ev with PGather _ => True | PLoop ev => own_event ev end.

Lemma gather_work ev g g' o :
  gather_inv g -> gather_step ev g = Some (g', o) ->
  gather_measure g' < gather_measure g + match ev with GRecv d => 4 * length d + 4 | _ => 0 end.
Proof.
  assert (forall g, gather_measure g <= 4 * length (held g) + 3) as Hmax.
  { intros g0. unfold gather_measure. destruct (g_phase g0); lia. }
  destruct g as [pending rc ph]. unfold gather_step, gather_inv. cbn [g_phase g_pending g_readsClosed].
  destruct ph as [|b|b|b|], ev as [d| | | |]; try done; intros Hi Hs;
    try (injection Hs as <- _; unfold gather_measure, held; cbn; rewrite ?length_app; cbn; lia).
  - injection Hs as <- _. pose proof (Hmax (gather_first d rc)) as Hm.
    rewrite (proj2 (gather_first_ok d rc)) in Hm. lia.
  - injection Hs as <- _. destruct Hi as [_ ->].
    assert (gather_measure (gather_top [] rc) <= 1) by (destruct rc; vm_compute; lia).
    unfold gather_measure at 2. cbn [g_phase]. lia.
  - destruct Hi as (Hb & -> & ->). destruct (Z.ltb_spec (ptyBatchSize - blen b) (blen d)); injection Hs as <- _.
    + unfold gather_measure, held. cbn. rewrite !length_app, length_take, length_drop. cbn. lia.
    + pose proof (Hmax (gather_head (b ++ d) [] false)) as Hm.
      rewrite (proj2 (gather_head_ok (b ++ d) [] false ltac:(rewrite blen_app; pose proof (blen_nonneg d); lia))) in Hm.
      rewrite app_nil_r, length_app in Hm.
      unfold gather_measure at 2, held. cbn. rewrite length_app. cbn. lia.
  - injection Hs as <- _. pose proof (gather_top_measure pending rc). unfold blen in Hi.
    unfold gather_measure at 2, held. cbn. rewrite length_app. lia.
Qed.

Lemma gathered_work y ev reads y' :
  gather_inv (pp_gather y) -> gathered reads ev y = Some y' ->
  reads_work reads + match ev with GRecv d => 4 * length d + 4 | _ => 0 end <= reads_work (pp_reads y) ->
  pipe_work y' < pipe_work y.
Proof.
  intros Hi Hs Hr. unfold gathered in Hs.
  destruct (gather_step ev (pp_gather y)) as [[g o]|] eqn:Hst; [|done]. injection Hs as <-.
  pose proof (gather_work _ _ _ _ Hi Hst) as Hw. unfold pipe_work. cbn [pp_session pp_gather pp_reads pp_out ch_buf].
  rewrite length_app. assert (length (option_list o) <= 1) by (destruct o; cbn; lia).
  set (A := gather_measure g + reads_work reads) in *. set (B := gather_measure (pp_gather y) + reads_work (pp_reads y)) in *.
  assert (A < B) by lia. nia.
Qed.

Lemma looped_work t0 acc y ev out y' :
  good t0 acc (pp_session y) ->
  match exec ev (pp_session y) with Some (Val (s, _)) => Some (set_session s (set_out out y)) | _ => None end = Some y' ->
  own_event ev -> length (ch_buf out) + length (accepted [ev]) = length (ch_buf (pp_out y)) ->
  pipe_work y' < pipe_work y.
Proof.
  intros Hg Hs Hown Hlen. destruct (exec ev (pp_session y)) as [[[s r]| |]|] eqn:He; try done. injection Hs as <-.
  destruct (exec_work _ _ _ _ _ _ Hg Hown He) as [Hc Hw]. unfold pipe_work. cbn [pp_session pp_gather pp_reads pp_out set_session set_out].
  set (C := chunk_work (pp_session y)) in *.
  assert (chunk_work s <= C) as HC by (unfold C, chunk_work; lia).
  set (B := gather_measure (pp_gather y) + reads_work (pp_reads y)). set (n := length (ch_buf out)) in *.
  assert (S (chunk_work s) * B <= S C * B) by (apply Nat.mul_le_mono_r; lia).
  assert (chunk_work s * n <= C * n) by (by apply Nat.mul_le_mono_r).
  rewrite <- Hlen, Nat.mul_add_distr_l. destruct ev; cbn in *; lia.
Qed.

Lemma pexec_work results s0 t0 evs y ev y' :
  flows results s0 evs y -> good t0 (accepted (loop_events evs)) (pp_session y) ->
  own_step ev -> pexec ev y = Some y' -> pipe_work y' < pipe_work y.
Proof.
  intros Hf Hg Ho Hx.
  destruct (gathers_inv _ _ _ _ (fl_gather _ _ _ _ Hf) gather_start_inv) as (Hi & _).
  assert (y = set_out (pp_out y) y) as Hy by (by destruct y).
  assert (forall lev,
    match exec lev (pp_session y) with Some (Val (s, _)) => Some (set_session s y) | _ => None end = Some y' ->
    own_event lev -> accepted [lev] = [] -> pipe_work y' < pipe_work y) as Hself.
  { intros lev Hs Hown Ha. apply (looped_work _ _ _ lev (pp_out y) _ Hg); [by rewrite <- Hy|done|]. rewrite Ha. cbn. lia. }
  destruct ev as [ev|ev].
  - destruct ev as [d| | | |]; cbn [pexec] in Hx.
    + destruct (pp_reads y) as [|d' reads] eqn:Hr; [done|]. case_bool_decide; [subst d'|done].
      apply (gathered_work _ _ _ _ Hi Hx). rewrite Hr. unfold reads_work. cbn. lia.
    + assert (exists reads, gathered reads GReadsClosed y = Some y' /\ reads = pp_reads y) as (reads & Hx' & Hr).
      { destruct (pp_reads y) as [|d reads] eqn:Hr; [destruct (pp_ends y); [|done]|
          destruct (s_phase (pp_session y)) eqn:Hph; try done]; eauto 10. }
      apply (gathered_work _ _ _ _ Hi Hx'). rewrite Hr. lia.
    + apply (gathered_work _ _ _ _ Hi Hx). lia.
    + destruct (s_phase (pp_session y)); try done. apply (gathered_work _ _ _ _ Hi Hx). lia.
    + case_match; [|done]. apply (gathered_work _ _ _ _ Hi Hx). lia.
  - destruct ev; cbn [pexec own_step] in Hx, Ho; try done;
      try by apply (Hself _ Hx).
    + destruct (ch_buf (pp_out y)) as [|d buf] eqn:Hbuf; [done|]. case_bool_decide; [subst d|done].
      apply (looped_work _ _ _ _ _ _ Hg Hx); [done|]. rewrite Hbuf. cbn. lia.
    + destruct (ch_buf (pp_out y)) eqn:Hbuf; [|done]. destruct (ch_closed (pp_out y)); [|done].
      by apply (Hself _ Hx).
Qed.

(** ** The invariants in every reachable state *)

Lemma reachable_waiting t0 evs s : reachable t0 evs s -> waiting s /\ left_closed s.
Proof.
  intros (name & pid & ex & policy & sz & Hs).
  remember (startSession name pid ex policy sz t0) as s0 eqn:E. induction Hs as [s|s evs s1 ev s2 r Hs IH Hev Hx]; subst.
  - split; [by apply waiting_off|]. intros p c. cbn. by rewrite lookup_empty.
  - destruct (IH eq_refl) as [Hw Hl]. pose proof (steps_good _ _ _ _ _ _ _ _ Hs) as Hg.
    split; [by eapply exec_waiting|by eapply exec_left].
Qed.

(** The channel to the run loop: closed by the return of the gather stage. *)
Definition out_ok (y : pipe (T:=T)) : Prop :=
  ch_cap (pp_out y) = ptyOutSize /\ (g_phase (pp_gather y) = GReturned -> ch_closed (pp_out y) = true).

Lemma pexec_out ev y y' : out_ok y -> pexec ev y = Some y' -> out_ok y' /\ pp_ends y' = pp_ends y.
Proof.
  intros Hok Hx.
  assert (forall reads ev, gathered reads ev y = Some y' -> out_ok y' /\ pp_ends y' = pp_ends y) as Hg.
  { intros reads gev H. unfold gathered in H. destruct (gather_step gev (pp_gather y)) as [[g o]|]; [|done].
    injection H as <-. destruct Hok as [Hc _]. split; [|done]. split; [done|]. cbn. by intros ->. }
  destruct ev as [ev|ev].
  - destruct ev; cbn [pexec] in Hx; repeat case_match; try done; by eapply Hg.
  - destruct ev; cbn [pexec] in Hx; repeat case_match; try done; simplify_eq; split; try done;
      destruct Hok as [H1 H2]; by split.
Qed.

(** What holds of the machine wherever it can be. *)
Record settled_pipe (results : list (bytes * option error)) (t0 : T) (evs : list pevent) (y : pipe (T:=T)) : Prop :=
  mkSettledPipe {
  sp_flows : exists s0, flows results s0 evs y;
  sp_good : good t0 (accepted (loop_events evs)) (pp_session y);
  sp_waiting : waiting (pp_session y);
  sp_left : left_closed (pp_session y);
  sp_out : out_ok y;
  sp_ends : pp_ends y = read_ends results }.

Lemma reaches_settled results ws t0 evs y : pipe_reaches results ws t0 evs y -> settled_pipe results t0 evs y.
Proof.
  intros Hy. destruct (pipe_flows _ _ _ _ _ Hy) as (s0 & Hf & Hr & _).
  destruct (reachable_waiting _ _ _ Hr) as [Hw Hl].
  assert (out_ok y /\ pp_ends y = read_ends results) as [Ho He].
  { destruct Hy as (name & pid & policy & sz & Hs). clear - Hs.
    remember (pipe_start results ws name pid policy sz t0) as y0 eqn:Hy0.
    induction Hs as [y|y evs y1 ev y2 Hs IH Hok Hx]; subst; [by split|].
    destruct (IH eq_refl) as [Ho1 He1]. destruct (pexec_out _ _ _ Ho1 Hx) as [Ho2 He2]. split; [done|congruence]. }
  split; [by exists s0|by apply reachable_good|done..].
Qed.

(** ** Progress *)

(** Nothing is left to do: the session has returned and its writers have finished, or
    the process still runs and everything it wrote so far has been passed on. *)
Definition at_rest (y : pipe (T:=T)) : Prop :=
  let s := pp_session y in
  (s_phase s = Returned /\ g_phase (pp_gather y) = GReturned /\
   forall p c, s_heap s !! p = Some c -> sc_writeDone c = true) \/
  (s_phase s = Select /\ pp_ends y = false /\ pp_reads y = [] /\ g_phase (pp_gather y) = GFirst /\
   ch_buf (pp_out y) = [] /\ ch_buf (s_feedCh s) = [] /\ pendingFeed s = None /\ pendingOutput s = None /\
   forall p c, s_heap s !! p = Some c -> sc_writeDone c = true \/ sc_written c = stream c).

Definition can_step (y : pipe (T:=T)) : Prop := exists ev y', own_step ev /\ pexec ev y = Some y'.

(** A writer with nothing to do. *)
Definition writer_idle (c : sessionClient) : bool :=
  sc_writeDone c ||
  (match sc_inflight c with None => true | Some _ => false end &&
   match ch_buf (sc_outCh c) with [] => true | _ => false end && negb (ch_closed (sc_outCh c))).

Lemma busy_writer_steps y p c :
  s_heap (pp_session y) !! p = Some c -> writer_idle c = false -> can_step y.
Proof.
  intros Hp Hi. unfold writer_idle in Hi. apply orb_false_iff in Hi as [Hw Hi].
  destruct (sc_inflight c) as [m|] eqn:Hin.
  { exists (PLoop (EvWriterErr p)). cbn. unfold writer_err. rewrite Hp, Hin. cbn. by eexists. }
  destruct (ch_buf (sc_outCh c)) as [|m ms] eqn:Hb.
  - destruct (ch_closed (sc_outCh c)) eqn:Hc; [|done]. exists (PLoop (EvWriterFinal p false)). cbn.
    unfold writer_final. rewrite Hp, Hw, Hin, Hb, Hc. destruct (sc_final c); cbn; by eexists.
  - exists (PLoop (EvWriterTake p)). cbn. unfold writer_take. rewrite Hp, Hw, Hin, Hb. cbn. by eexists.
Qed.

Lemma loop_can_step results t0 evs y ev :
  settled_pipe results t0 evs y -> own_event ev ->
  match ev with EvPty _ | EvPtyClosed => False | _ => True end ->
  exec ev (pp_session y) <> None -> can_step y.
Proof.
  intros Hsp Ho Hne Hx. destruct (exec ev (pp_session y)) as [x|] eqn:He; [|done].
  assert (event_ok ev (pp_session y)) as Hok by by destruct ev.
  destruct (exec_ok _ _ _ _ _ (sp_good _ _ _ _ Hsp) Hok He) as (s' & r & -> & _).
  exists (PLoop ev), (set_session s' y). split; [done|]. destruct ev; try done; cbn [pexec]; by rewrite He.
Qed.

(** With idle writers, a loop in its [select] that waits has been woken. *)
Lemma pending_woken s p :
  waiting s -> s_phase s = Select -> p ∈ pendingClients s ->
  (forall c, s_heap s !! p = Some c -> ch_cap (sc_outCh c) <> 0) ->
  (forall q c, s_heap s !! q = Some c -> writer_idle c = true) -> s_clientReady s = true.
Proof.
  intros Hw Hph Hp Hcap Hidle. destruct (s_clientReady s) eqn:Hr; [done|].
  destruct (Hw Hph) as [_ Hfull]. destruct (Hfull Hr p Hp) as [Ha Hf]. unfold alive, full in Ha, Hf.
  destruct (s_heap s !! p) as [c|] eqn:Hc; [|done]. specialize (Hcap c eq_refl). specialize (Hidle p c Hc).
  unfold writer_idle in Hidle. apply negb_true_iff in Ha. rewrite Ha in Hidle. cbn in Hidle.
  apply andb_true_iff in Hidle as [[_ Hb]%andb_true_iff _]. destruct (ch_buf (sc_outCh c)); [|done].
  apply Nat.leb_le in Hf. cbn in Hf. lia.
Qed.

(** The gather stage and the run loop when the loop waits for output. *)
Lemma idle_loop_progress results t0 evs y :
  settled_pipe results t0 evs y -> s_phase (pp_session y) = Select ->
  pendingFeed (pp_session y) = None -> pendingOutput (pp_session y) = None ->
  can_step y \/ (pp_ends y = false /\ pp_reads y = [] /\ g_phase (pp_gather y) = GFirst /\ ch_buf (pp_out y) = []).
Proof.
  intros Hsp Hph Hpf Hpo. destruct (sp_flows _ _ _ _ Hsp) as [s0 Hf]. destruct (sp_out _ _ _ _ Hsp) as [Hcap Hcl].
  assert (forall ev reads, gathered reads ev y <> None -> exists y', gathered reads ev y = Some y') as Hsome.
  { intros ev reads H. destruct (gathered reads ev y); [eauto|done]. }
  destruct (ch_buf (pp_out y)) as [|d buf] eqn:Hbuf.
  - destruct (g_phase (pp_gather y)) eqn:Hg.
    + destruct (pp_reads y) as [|d reads] eqn:Hr.
      * destruct (pp_ends y) eqn:He; [left|by right].
        destruct (Hsome GReadsClosed []) as [y' Hy]; [unfold gathered, gather_step; by rewrite Hg|].
        exists (PGather GReadsClosed), y'. cbn. by rewrite Hr, He.
      * left. destruct (Hsome (GRecv d) reads) as [y' Hy]; [unfold gathered, gather_step; by rewrite Hg|].
        exists (PGather (GRecv d)), y'. cbn. rewrite Hr. by rewrite bool_decide_true.
    + left. destruct (Hsome GSent (pp_reads y)) as [y' Hy]; [unfold gathered, gather_step; by rewrite Hg|].
      exists (PGather GSent), y'. cbn. rewrite Hbuf, Hcap. done.
    + left. destruct (Hsome GTimer (pp_reads y)) as [y' Hy]; [unfold gathered, gather_step; by rewrite Hg|].
      by exists (PGather GTimer), y'.
    + left. destruct (Hsome GSent (pp_reads y)) as [y' Hy]; [unfold gathered, gather_step; by rewrite Hg|].
      exists (PGather GSent), y'. cbn. rewrite Hbuf, Hcap. done.
    + left. assert (exec EvPtyClosed (pp_session y) = Some (no_reply (on_pty_closed (pp_session y)))) as Hx
        by (cbn; by rewrite Hph, Hpf, Hpo).
      destruct (exec_ok _ _ EvPtyClosed _ _ (sp_good _ _ _ _ Hsp) I Hx) as (s' & r & Hv & _).
      exists (PLoop EvPtyClosed), (set_session s' y). split; [done|]. cbn [pexec]. by rewrite Hbuf, Hcl, Hx, Hv.
  - left. pose proof (flows_chunk _ _ _ _ _ _ Hf Hbuf) as Hlen.
    assert (exec (EvPty d) (pp_session y) = Some (no_reply (on_pty_data d (pp_session y)))) as Hx
      by (cbn; by rewrite Hph, Hpf, Hpo).
    destruct (exec_ok _ _ (EvPty d) _ _ (sp_good _ _ _ _ Hsp) Hlen Hx) as (s' & r & Hv & _).
    eexists (PLoop (EvPty d)), _. split; [done|]. cbn [pexec]. rewrite Hbuf, bool_decide_true by done.
    cbn [set_out pp_session]. by rewrite Hx, Hv.
Qed.

Lemma progress results t0 evs y : settled_pipe results t0 evs y -> can_step y \/ at_rest y.
Proof.
  intros Hsp. set (s := pp_session y). destruct (sp_flows _ _ _ _ Hsp) as [s0 Hf].
  destruct (decide (map_Forall (fun _ c => writer_idle c = true) (s_heap s))) as [Hidle|Hbusy].
  2:{ left. apply map_not_Forall in Hbusy as (p & c & Hp & Hc); [|apply _].
      eapply busy_writer_steps; [exact Hp|by apply not_true_iff_false]. }
  destruct (s_phase s) eqn:Hph.
  - left. apply (loop_can_step _ _ _ _ EvTop Hsp); [done|done|]. cbn. fold s. by rewrite Hph.
  - assert (Inv t0 (accepted (loop_events evs)) s) as HI.
    { destruct (sp_good _ _ _ _ Hsp) as [[H _]|[_ H]]; [fold s in H; congruence|exact H]. }
    destruct (ch_buf (s_feedCh s)) as [|it items] eqn:Hfeed.
    2:{ left. apply (loop_can_step _ _ _ _ EvFeedLoop Hsp); [done|done|]. cbn. fold s. by rewrite Hfeed. }
    destruct (pendingFeed s) as [it|] eqn:Hpf.
    { left. apply (loop_can_step _ _ _ _ EvFeedSend Hsp); [done|done|]. cbn. fold s. rewrite Hph, Hpf, Hfeed.
      destruct (inv_feed _ _ _ HI) as (_ & -> & _). done. }
    destruct (pendingOutput s) as [d|] eqn:Hpo.
    { left. apply (loop_can_step _ _ _ _ EvClientReady Hsp); [done|done|]. cbn. fold s. rewrite Hph, Hpo.
      destruct (sp_waiting _ _ _ _ Hsp Hph) as [Hne _]. fold s in Hne. specialize (Hne ltac:(congruence)).
      destruct (pendingClients s) as [|p ps] eqn:Hpc; [done|].
      rewrite (pending_woken s p); [done|apply (sp_waiting _ _ _ _ Hsp)|done|rewrite Hpc; by left| |exact Hidle].
      intros c Hc. destruct (inv_lists _ _ _ HI) as (_ & _ & Hsub & _).
      destruct (inv_clients _ _ _ HI p) as (c' & Hc' & _ & Hcap & _); [apply Hsub; rewrite Hpc; by left|].
      rewrite Hc in Hc'. injection Hc' as <-. by rewrite Hcap. }
    destruct (idle_loop_progress _ _ _ _ Hsp Hph Hpf Hpo) as [|(He & Hr & Hg & Hb)]; [by left|right].
    right. fold s. do 8 (split; [done|]). intros p c Hp. specialize (Hidle p c Hp). unfold writer_idle in Hidle.
    destruct (sc_writeDone c); [by left|right]. cbn in Hidle. unfold stream.
    destruct (sc_inflight c); [done|]. destruct (ch_buf (sc_outCh c)); [by rewrite app_nil_r|done].
  - destruct (g_phase (pp_gather y)) eqn:Hg;
      try (left; assert (gathered (pp_reads y) GDoneClosed y <> None) as Hx
             by (unfold gathered, gather_step; by rewrite Hg);
           destruct (gathered (pp_reads y) GDoneClosed y) as [y'|] eqn:Hy; [|done];
           exists (PGather GDoneClosed), y'; cbn; fold s; by rewrite Hph).
    right. left. split; [done|]. split; [done|]. intros p c Hp. specialize (Hidle p c Hp). unfold writer_idle in Hidle.
    destruct (sp_left _ _ _ _ Hsp p c Hp) as [[_ Hn]|[Hc|Hw]]; [done| |done].
    destruct (sc_writeDone c); [done|]. cbn in Hidle. by rewrite Hc, andb_false_r in Hidle.
Qed.

(** ** Runs without requests *)

Lemma psteps_trans (y y1 y2 : pipe (T:=T)) evs evs' : psteps y evs y1 -> psteps y1 evs' y2 -> psteps y (evs ++ evs') y2.
Proof.
  intros H1 H2. revert H1. induction H2 as [y1|y1 evs' y2 ev y3 H2 IH Hok Hx]; intros H1; [by rewrite app_nil_r|].
  rewrite app_assoc. by eapply psteps_snoc; [apply IH|..].
Qed.

Lemma reaches_trans results ws (t0 : T) evs y evs' y' :
  pipe_reaches results ws t0 evs y -> psteps y evs' y' -> pipe_reaches results ws t0 (evs ++ evs') y'.
Proof. intros (name & pid & policy & sz & H) H'. exists name, pid, policy, sz. by eapply psteps_trans. Qed.

Lemma run_bounded results ws (t0 : T) evs y evs' y' :
  pipe_reaches results ws t0 evs y -> psteps y evs' y' -> Forall own_step evs' ->
  length evs' + pipe_work y' <= pipe_work y.
Proof.
  intros Hy Hs. induction Hs as [y|y evs' y1 ev y2 Hs IH Hok Hx]; intros Ho; [cbn; lia|].
  apply list.Forall_app in Ho as [Ho Hev]. apply List.Forall_inv in Hev. specialize (IH Hy Ho).
  destruct (reaches_settled _ _ _ _ _ (reaches_trans _ _ _ _ _ _ _ Hy Hs)) as [[s0 Hf] Hg _ _ _ _].
  pose proof (pexec_work _ _ _ _ _ _ _ Hf Hg Hev Hx). rewrite length_app. cbn. lia.
Qed.

Lemma exec_returns ev s s' r :
  own_event ev -> exec ev s = Some (Val (s', r)) -> s_phase s <> Returned -> s_phase s' = Returned ->
  ev = EvPtyClosed.
Proof.
  intros Ho Hx Hn Hr.
  destruct ev; try done;
    try (apply exec_writer in Hx as (s1 & [= -> ->] & Hs); [|done]; destruct (writer_step_frame _ _ _ Hs) as [Hph _]; by rewrite Hph in Hr);
    cbn [exec] in Hx; unfold no_reply in Hx; exfalso; repeat case_match; try done; injection Hx as Hx; go_inv; try done.
  - unfold loop_head in *. by go_inv.
  - by erewrite on_pty_data_phase in Hr.
  - by subst.
  - unfold feed_one, close_applied in *. case_decide; [done|]. by simplify_eq.
Qed.

Lemma pexec_loop ev (y y' : pipe (T:=T)) :
  pexec (PLoop ev) y = Some y' ->
  exists s r, exec ev (pp_session y) = Some (Val (s, r)) /\ pp_session y' = s.
Proof.
  assert (forall z, pp_session z = pp_session y ->
    match exec ev (pp_session z) with Some (Val (s, _)) => Some (set_session s z) | _ => None end = Some y' ->
    exists s r, exec ev (pp_session y) = Some (Val (s, r)) /\ pp_session y' = s) as H.
  { intros z Hz Hx. rewrite Hz in Hx. destruct (exec ev (pp_session y)) as [[[s r]| |]|]; try done.
    injection Hx as <-. by exists s, r. }
  intros Hx. destruct ev; cbn [pexec] in Hx; try by apply (H y).
  - destruct (ch_buf (pp_out y)) as [|d buf]; [done|]. case_bool_decide; [|done]. by eapply H; [|exact Hx].
  - destruct (ch_buf (pp_out y)); [|done]. destruct (ch_closed (pp_out y)); [|done]. by apply (H y).
Qed.

(** Of its own, the loop returns only when it has accepted everything. *)
Lemma run_returned results ws (t0 : T) evs y evs' y' :
  pipe_reaches results ws t0 evs y -> psteps y evs' y' -> Forall own_step evs' ->
  s_phase (pp_session y) <> Returned -> s_phase (pp_session y') = Returned ->
  List.concat (accepted (loop_events (evs ++ evs'))) = process_output results.
Proof.
  intros Hy Hs Ho Hn. induction Hs as [y|y evs' y1 ev y2 Hs IH Hok Hx]; [done|]. intros Hr.
  apply list.Forall_app in Ho as [Ho Hev]. apply List.Forall_inv in Hev. specialize (IH Hy Ho Hn).
  destruct (reaches_settled _ _ _ _ _ (reaches_trans _ _ _ _ _ _ _ Hy Hs)) as [[s0 Hf] _ _ _ _ _].
  rewrite app_assoc, loop_events_snoc, accepted_app, List.concat_app.
  assert (s_phase (pp_session y1) = Returned \/ s_phase (pp_session y1) <> Returned) as [Hr1|Hr1]
    by (destruct (s_phase (pp_session y1)); auto).
  - rewrite (IH Hr1). destruct ev as [ev|ev]; [apply app_nil_r|].
    destruct ev; cbn [accepted omap list_omap]; try apply app_nil_r.
    cbn [pexec] in Hx. repeat case_match; try done. cbn [set_out pp_session exec] in *. by rewrite Hr1 in *.
  - assert (ev = PLoop EvPtyClosed) as ->.
    { destruct ev as [ev|ev].
      - destruct Hr1. rewrite <- Hr. cbn [pexec] in Hx. unfold gathered in Hx. repeat case_match; by simplify_eq.
      - destruct (pexec_loop _ _ _ Hx) as (s & r & He & Hs'). f_equal.
        apply (exec_returns ev (pp_session y1) s r); [exact Hev|exact He|done|congruence]. }
    cbn [pexec] in Hx. destruct (ch_buf (pp_out y1)) eqn:Hbuf; [|done]. destruct (ch_closed (pp_out y1)) eqn:Hcl; [|done].
    cbn. rewrite app_nil_r, <- readPTY_output. symmetry. by apply (flows_all _ _ _ _ Hf).
Qed.

(** At rest while the process runs, all that was read has been accepted. *)
Lemma rest_accepted results (t0 : T) evs y :
  settled_pipe results t0 evs y -> at_rest y -> s_phase (pp_session y) <> Returned ->
  List.concat (accepted (loop_events evs)) = process_output results.
Proof.
  intros Hsp [[? _]|(Hph & _ & Hr & Hg & Hb & _)] Hn; [done|]. destruct (sp_flows _ _ _ _ Hsp) as [s0 Hf].
  rewrite <- readPTY_output, (flows_output _ _ _ _ Hf Hn), Hb, Hr.
  destruct (gathers_inv _ _ _ _ (fl_gather _ _ _ _ Hf) gather_start_inv) as (Hi & _).
  unfold gather_inv, held in *. rewrite Hg in *. destruct Hi as [-> _]. cbn. by rewrite !app_nil_r.
Qed.
End Drain.

(** C5. A session never stalls. Wherever it is, the steps its stages can take of their
    own (no new request, no connection closed from outside) are bounded in number by
    the work at hand; and until it is at rest there is one: no stage waits for a signal
    that was lost, nor all for each other. At rest, every client's writer has written
    all it was given; when the process has ended the loop has returned and the writers
    with it; and what the loop accepted is everything the process wrote, unless a
    kill had ended it before. A write to a client that never ends is no step. *)
Theorem session_never_stalls {T} {HT : Terminal T} results ws (t0 : T) evs y evs' y' :
  pipe_reaches results ws t0 evs y -> psteps y evs' y' -> Forall own_step evs' ->
  length evs' <= pipe_work y /\
  (can_step y' \/
   at_rest y' /\
   (read_ends results = true -> s_phase (pp_session y') = Returned) /\
   (s_phase (pp_session y) <> Returned ->
      List.concat (accepted (loop_events (evs ++ evs'))) = process_output results)).
Proof.
  intros Hy Hs Ho. pose proof (run_bounded _ _ _ _ _ _ _ Hy Hs Ho). split; [lia|].
  pose proof (reaches_settled _ _ _ _ _ (reaches_trans _ _ _ _ _ _ _ Hy Hs)) as Hsp.
  destruct (progress _ _ _ _ Hsp) as [|Hrest]; [by left|right]. split; [done|]. split.
  - destruct Hrest as [[? _]|(_ & He & _)]; [done|]. intros Hr. rewrite (sp_ends _ _ _ _ Hsp), Hr in He. done.
  - intros Hn. destruct (s_phase (pp_session y')) eqn:Hph; [| |by eapply run_returned].
    all: eapply rest_accepted; [exact Hsp|exact Hrest|congruence].
Qed.

(** ** A run to its end *)

(** The first of the steps a session of two clients can take. *)
Definition ex_steps (y : pipe (T:=list termOp)) : list pevent :=
  [PLoop EvTop; PLoop EvFeedSend; PLoop EvFeedLoop; PLoop EvClientReady] ++
  match pp_reads y with d :: _ => [PGather (GRecv d)] | [] => [PGather GReadsClosed] end ++
  [PGather GSent; PGather GTimer; PGather GDoneClosed] ++
  match ch_buf (pp_out y) with d :: _ => [PLoop (EvPty d)] | [] => [PLoop EvPtyClosed] end ++
  mjoin (map (fun p => [PLoop (EvWriterTake p); PLoop (EvWriterOk p); PLoop (EvWriterErr p);
                        PLoop (EvWriterFinal p true)]) [0; 1]).

Definition first_step (y : pipe) : option (pevent * pipe) :=
  head (omap (fun ev => match pexec ev y with Some y' => Some (ev, y') | None => None end) (ex_steps y)).

Fixpoint run_to_rest (fuel : nat) (y : pipe) : list pevent * pipe :=
  match fuel with
  | 0 => ([], y)
  | S fuel =>
      match first_step y with
      | None => ([], y)
      | Some (ev, y') => let '(evs, y'') := run_to_rest fuel y' in (ev :: evs, y'')
      end
  end.

(** Finished writers and a returned loop take no step. *)
Lemma finished_stays {T} {HT : Terminal T} (y : pipe (T:=T)) :
  s_phase (pp_session y) = Returned -> g_phase (pp_gather y) = GReturned -> ch_buf (s_feedCh (pp_session y)) = [] ->
  map_Forall (fun _ c => sc_writeDone c = true /\ sc_inflight c = None) (s_heap (pp_session y)) -> ~ can_step y.
Proof.
  intros Hph Hg Hb Hall (ev & y' & Ho & Hx). destruct ev as [ev|ev].
  - cbn [pexec] in Hx. unfold gathered, gather_step in Hx. rewrite Hg in Hx. by repeat case_match.
  - destruct (pexec_loop _ _ _ Hx) as (s & r & He & _).
    destruct ev; cbn [exec] in He; rewrite ?Hph, ?Hb in He; try done;
      unfold writer_take, writer_ok, writer_err, writer_final in He;
      destruct (s_heap (pp_session y) !! p) as [c|] eqn:Hp; try done;
      destruct (Hall p c Hp) as [Hw Hi]; by rewrite ?Hw, ?Hi in He.
Qed.

(** The session of [ex_pipe], run until nothing moves. *)
Definition ex_rest : list pevent * pipe := run_to_rest 100 ex_pipe.

Lemma session_never_stalls_witness :
  length (fst ex_rest) = 19 /\ 19 <= pipe_work ex_pipe /\
  s_phase (pp_session (snd ex_rest)) = Returned /\
  List.concat (accepted (loop_events (ex_events ++ fst ex_rest))) = process_output ex_results /\
  at_rest (snd ex_rest).
Proof.
  assert (prun (fst ex_rest) ex_pipe = Some (snd ex_rest)) as Hrun by (vm_compute; reflexivity).
  destruct (session_never_stalls ex_results ex_ws [] ex_events ex_pipe (fst ex_rest) (snd ex_rest)) as [Hlen [Hs|(Hr & Hp & Ha)]].
  - apply ex_reaches. by vm_compute.
  - by apply prun_psteps.
  - vm_compute. repeat constructor.
  - exfalso. revert Hs. apply finished_stays; [vm_compute; reflexivity..|].
    apply (bool_decide_eq_true_1 _). vm_compute. reflexivity.
  - assert (length (fst ex_rest) = 19) as Hn by (vm_compute; reflexivity). rewrite Hn in Hlen.
    split; [exact Hn|]. split; [exact Hlen|]. split; [apply Hp; vm_compute; reflexivity|].
    split; [apply Ha; vm_compute; discriminate|exact Hr].
Defined.
